(* ===== verification/_CoqProject ===== *)
-Q . S2P
Prelude.v
Uuid.v
Limits.v
Error.v
Json.v
DataType.v
Format.v
Schema.v
Models.v
Db.v
DbFacts.v
World.v
Helpers.v
Catalog.v
Connect.v
Api.v
RefEnv.v
Scenario.v
Effects.v
ReadFacts.v
Invariant.v
Safety.v
Commit.v
Order.v
Views.v
Listing.v
Later.v
Statements.v
Interleave.v
ReadErrors.v
Create.v
Evolution.v
Events.v
Diff.v
EventStatements.v
Readable.v
EventInterleave.v
Progress.v
Skew.v
Handles.v
Programs.v
Locality.v
Confine.v
Locks.v
History.v
Keys.v
Readers.v
Deadlock.v
Storage.v
Streams.v
RoundTrip.v
RefStorage.v
Testing.v
DataTypeTests.v
CatalogTests.v
Seeding.v
LimitTests.v
Lifecycle.v
StorageTests.v
