(* ===== verification/Prelude.v ===== *)
(** * Planar: verification of the metadata catalog and the storage front end

    Planar keeps the metadata of lakehouse tables — tables, transactions,
    schemas, columns, files — in a SQL database, behind the trait [Catalog] of
    src/catalog/mod.rs, and reads and writes data files through the format
    crates, behind src/storage/mod.rs.  This development models both whole: the
    catalog down to the rows and constraints of the migrations, on both SQL
    backends, and the readers and writers of the three formats.  It proves what
    makes them correct: the metadata of every reachable state is well formed;
    commits are atomic and optimistic concurrency control loses no update, also
    when transactions run statement by statement at the same time; reads at any
    transaction of the history return that transaction's snapshot, also when
    other calls complete between their statements; the event log and the deltas
    agree with the snapshots; streams of batches are written as the sequential
    loop would write them, or refused.  It also states where the code departs
    from what it documents.

    ** Parts

    The data and the pure code:
    - [Prelude]: results, early returns, integers at their width, chunks, the
      lemmas the other files share, the hint databases [planar].
    - [Uuid]: 16-byte identifiers and the order of byte strings.
    - [Limits] (src/catalog/limits.rs, the kinds of src/catalog/database.rs),
      [Error] (src/catalog/error.rs, src/storage/error.rs).
    - [Json]: serde_json values and their accessors.
    - [DataType] (src/catalog/data_type.rs): Arrow types, their values, their
      encoding, and [can_evolve_to].
    - [Format] (src/storage/mod.rs, utils.rs, file_format/): format names and
      the validation of write options.
    - [Schema] (src/catalog/schema.rs), [Models] (src/catalog/models.rs): the
      records the API returns and takes, and the validation of requests.

    The catalog:
    - [Db] (db/migrations, the SQL text of src/catalog/mod.rs): the tables as
      lists of rows, one definition per statement, with its constraints.
      [DbFacts]: what each statement does; relational integrity [db_ok].
    - [World]: the state and error monad of the methods, transactions
      ([with_tx]), and the classes that stand for the outside: SQL engine,
      generators, clock, serde_json, hash map order.  Its weakest
      preconditions [wp] and [okp] carry the proofs.
    - [Helpers] (src/catalog/helpers.rs), [Catalog] (impl Catalog in
      src/catalog/mod.rs): the methods, one definition per loop or block.
    - [Connect] (src/catalog/database.rs, the constructors in
      src/catalog/mod.rs): opening a catalog.
    - [Api]: the trait as the class [CatalogApi], the Modules [Sqlite] and
      [Postgres], [TableHandle] and [MutationBuilder] of models.rs, calls and
      steps of the system.
    - [RefEnv], [Scenario]: a concrete environment and a run of three calls in
      it, on which the theorems are applied and the classes shown inhabited.

    What its calls do:
    - [Effects]: the abstract transitions [commit_effect], [create_effect] and
      the proofs that the methods make them.  [ReadFacts]: reads terminate and
      change nothing.  [Invariant]: [catalog_inv] and its preservation.
    - [Safety], [Commit], [Order], [Views], [Listing], [Later], [ReadErrors],
      [Create], [Evolution], [Events], [Diff], [Readable], [Progress], [Skew],
      [Handles]: the theorems on calls, below.

    Calls that overlap:
    - [Statements], [EventStatements]: the reads as sequences of statements.
      [Interleave], [EventInterleave]: those sequences with other clients' steps
      in between.
    - [Programs]: the transactions of [commit] and [create_table] as sequences
      of statements.  [Locality], [Confine]: such a program reads and writes the
      rows of one table only.  [Locks]: any number of them at once, under the
      locks of either backend.  [History]: what they make of a table's history.
      [Keys]: the keys a transaction may insert.  [Readers]: reads among running
      transactions.  [Deadlock]: running transactions do not block each other.

    The storage front end:
    - [Storage] (src/storage/mod.rs, file_format/): readers and writers over the
      class [StorageApi] of the format crates and the file system, with the
      pump, the channel and the writer of Lance's [write_stream] as a transition
      system.  [Streams]: its theorems.  [RoundTrip]: what is written is what is
      read, over the class [StoredRows] of what the crates store.  [RefStorage]:
      a concrete instance of both classes.

    The repository's own runs:
    - [Testing], [DataTypeTests], [CatalogTests], [StorageTests], [Lifecycle]: unit
      tests and the examples src/examples/table_lifecycle.rs and
      write_formats.rs, translated and run.  [Seeding], [LimitTests]: the tests
      that insert up to fifty thousand rows, proved to pass.

    The methods of the catalog take the backend as a parameter [kind]: the two
    implementations of the source differ in placeholder syntax, chunk sizes
    and in how a writer is isolated.  The line ranges of both belong to the
    same definitions.

    ** State and interaction

    A [World] is the database and a tick.  Every effect (statement, generated
    identifier, clock reading) advances the tick, and what the outside answers
    is a function of it, so theorems quantify over all answers by quantifying
    over the instance of [Env]; [fault] makes any statement fail, or its rows fail to decode.  A method is
    a function on worlds; [step] is the transition system in which clients of
    any protocol version call methods of one backend, each in one step, and time
    passes.

    Two finer systems say when that is enough.  A read runs its SELECTs outside
    any transaction: [irun] runs it statement by statement, with steps of others
    in between that need only keep the class [Moves].  A write runs inside one
    database transaction that excludes others on its table (BEGIN IMMEDIATE on
    SQLite, SELECT ... FOR UPDATE on the row and the waiting INSERTs of unique
    keys on PostgreSQL): [Locks] runs commits and creations statement by
    statement under those locks, and [Readers] shows that its steps keep
    [Moves], so the reads of the first system may run among the transactions of
    the second.  [drop_table] is one DELETE, and one step, in all of them.

    ** Theorems

    - Every reachable state satisfies [catalog_inv]; every call returns, and a
      failed call or a read leaves the database unchanged ([Safety]).
    - A successful [commit] makes exactly the abstract transition; it succeeds
      only on the current transaction; it changes the live files as its
      operations say; it only appends ([Commit]); and a valid one on the current
      transaction does succeed ([Progress]).
    - Against the laws [CatalogLaws], which both backends satisfy: two builders
      pinned to the same transaction never both commit, and a handle's write is
      serializable ([Handles]).
    - With monotone identifiers those of each table grow along its chain
      ([Order]); then the byte-wise range conditions select exactly the snapshot
      along the parent chain, exactly one schema is valid at each transaction,
      [read_table] returns that view, and later commits do not change it
      ([Views], [Later]).  Without monotonicity a table whose transaction has an
      identifier below that of its first cannot be read at it ([Skew]).
    - Which errors a read can return on reachable states ([ReadErrors]), what
      clients must respect for their tables to stay readable, and what happens
      for good when they do not: properties that do not parse back, column types
      that do not decode back ([Readable]).
    - [list_transaction_events] returns the events of exactly the range, and for
      any range it returns them or the one refusal that applies, with its limits
      exact ([Events], met by the repository's own tests in [LimitTests]); [diff_table] returns the difference of the two views ([Diff]).
      Lemmas there show that it reports no change of properties, which commits
      do not version, and refuses equal ends.
    - Reads, events and deltas interleaved with other calls are those of the
      state their first statement saw, up to the properties of a delta, which
      compares those of two different moments ([Interleave], [EventInterleave]).
    - Concurrent commits and creations are serialized at their COMMITs
      ([Locks]); the commits that take effect on a table are its history, each
      based on the one before, so no update is lost ([History]); reads among
      them are linearizable ([Readers]); and unless callers choose the same
      identifiers for files, the transactions do not deadlock, and all of them
      end ([Deadlock]).
    - Creating then reading returns the specification ([Create]); a schema
      update is an admissible evolution of the current schema ([Evolution]),
      and admissible evolutions of types are characterized, form a partial order,
      keep every value of a column representable except timestamps out of range,
      and include every such change within a family ([DataType]).  Listing
      and looking up tables agree ([Listing]); an opened catalog is ready and
      keeps what it had ([Connect]).
    - Validation accepts exactly the well-formed requests and options
      ([Models], [Format]); batches respect the bind limits ([Limits]).
    - Lance's concurrent [write_stream] refines sequential writing and never
      deadlocks; no format accepts an empty, failing or ill-typed stream
      ([Streams]); what is written is read back row for row ([RoundTrip]).

    ** Bounds and fuel

    The only loops without a structural measure are the two walks along the
    parent chain.  They run with the fuel [chain_fuel], the number of
    transaction rows plus two: each turn but the first marks one more row as
    visited, and a repeated one ends the walk, so the fuel never runs out on
    any database, cyclic or not ([ReadFacts]); [None], the result of running
    out, is excluded by [call_total_and_atomic].  As sequences of statements the
    walks take the fuel as an argument, and the theorems ask that it exceed the
    number of transactions of the state the read starts from.  [usize as u32]
    and the [i32] positions and versions wrap as in the source's release build.

    ** Not modelled

    The text of the SQL statements and their placeholders: a statement is what
    it does to the rows.  Pools, connections and migrations are sqlx's (the class
    [Sqlx] in [Connect], whose laws are about the two pragmas and the two
    directories of migrations the code names); which columns a driver can decode
    to the Rust types of the source (a failure is a [fault]); a COMMIT whose
    acknowledgement is lost after it took effect; the engine's detection of a deadlock, which callers that choose the
    same identifiers can cause, is the action that rolls a transaction back.  The format crates, the file system, Arrow IPC,
    serde_json, uuid7 and sqlx are parameters: classes of operations, with
    classes of laws ([ArrowIpcLaws], on schemas that are [ipc_safe]; [SerdeJsonLaws], [EnumerationLaws],
    [MonotoneV7], [DistinctV4], [StorageLaws], [StoredRowsLaws]) for what the code relies on.  A stream of
    batches is the list of its items: how the tasks of one poll it is the
    executor's business, except in Lance's [write_stream], where the code itself
    starts the tasks.  Bytes are opaque ([Byte]).  Left out of the translated
    tests are those of the layout of files by the crates, and the integration
    tests of src/tests/. *)

From stdpp Require Export base option list gmap sets strings sorting pretty.
From Stdlib Require Export Ascii ZArith NArith Lia.

(** ** Results

    [result E A] is Rust's [Result<A, E>]. *)

Inductive result (E A : Type) : Type :=
  | Ok (a : A)
  | Err (e : E).
Arguments Ok {E A} _.
Arguments Err {E A} _.

#[export] Instance result_ret {E} : MRet (result E) := fun A a => Ok a.

#[export] Instance result_bind {E} : MBind (result E) := fun A B f m =>
  match m with
  | Ok a => f a
  | Err e => Err e
  end.

#[export] Instance result_fmap {E} : FMap (result E) := fun A B f m =>
  match m with
  | Ok a => Ok (f a)
  | Err e => Err e
  end.

#[export] Instance result_eq_dec {E A} `{!EqDecision E, !EqDecision A} :
  EqDecision (result E A).
Proof. solve_decision. Defined.

(** [Option::ok_or_else]. *)
Definition ok_or {E A} (o : option A) (e : E) : result E A :=
  match o with
  | Some a => Ok a
  | None => Err e
  end.

(** [Result::map_err]. *)
Definition map_err {E F A} (f : E -> F) (r : result E A) : result F A :=
  match r with
  | Ok a => Ok a
  | Err e => Err (f e)
  end.

Definition is_ok {E A} (r : result E A) : bool :=
  match r with
  | Ok _ => true
  | Err _ => false
  end.

(** [guard b e]: the early return [if b { return Err(e) }]. *)
Definition fail_if {E} (b : bool) (e : E) : result E unit :=
  if b then Err e else Ok tt.

(** [iter.map(f).collect::<Result<Vec<_>, _>>()] and the push loops that fail
    at the first element whose conversion fails. *)
Fixpoint traverse {E A B} (f : A -> result E B) (l : list A) : result E (list B) :=
  match l with
  | [] => Ok []
  | x :: l => y ← f x; ys ← traverse f l; Ok (y :: ys)
  end.

(** ** Machine integers *)

Definition wrap_u32 (n : N) : N := (n mod 2 ^ 32)%N.

(** [x as u32] for a [usize] value [x]: the low 32 bits. *)
Definition as_u32 (n : nat) : N := wrap_u32 (N.of_nat n).

Definition i32_min : Z := (- 2 ^ 31)%Z.
Definition i32_max : Z := (2 ^ 31 - 1)%Z.
Definition i64_min : Z := (- 2 ^ 63)%Z.
Definition i64_max : Z := (2 ^ 63 - 1)%Z.

(** Two's complement wrap-around to 32 bits: [as i32] and release-mode [i32]
    addition. *)
Definition wrap_i32 (z : Z) : Z := ((z + 2 ^ 31) mod 2 ^ 32 - 2 ^ 31)%Z.

(** ** Slices *)

(** [slice::chunks(n)], for [n > 0]; the fuel is the length of the slice. *)
Fixpoint chunks_fuel {A} (fuel n : nat) (l : list A) : list (list A) :=
  match fuel, l with
  | O, _ => []
  | _, [] => []
  | S fuel, _ => take n l :: chunks_fuel fuel n (drop n l)
  end.

Definition chunks {A} (n : nat) (l : list A) : list (list A) :=
  chunks_fuel (length l) n l.

(** ** Strings

    A Rust [String] is its UTF-8 bytes; [String.length] is [str::len]. *)

Definition byte_of (c : ascii) : N := N_of_ascii c.

Definition in_range (lo hi n : N) : bool := (lo <=? n)%N && (n <=? hi)%N.

(** [s.trim().is_empty()]: every character of [s] has the Unicode property
    White_Space.  The UTF-8 encodings of those 25 code points take one, two or
    three bytes. *)
Fixpoint trim_is_empty (s : string) : bool :=
  match s with
  | EmptyString => true
  | String a s1 =>
      let b1 := byte_of a in
      if in_range 9 13 b1 || (b1 =? 32)%N then trim_is_empty s1
      else match s1 with
      | EmptyString => false
      | String b s2 =>
          let b2 := byte_of b in
          if (b1 =? 194)%N && ((b2 =? 133)%N || (b2 =? 160)%N) then trim_is_empty s2
          else match s2 with
          | EmptyString => false
          | String c s3 =>
              let b3 := byte_of c in
              if ((b1 =? 225)%N && (b2 =? 154)%N && (b3 =? 128)%N)
                 || ((b1 =? 226)%N && (b2 =? 128)%N
                     && (in_range 128 138 b3 || in_range 168 169 b3 || (b3 =? 175)%N))
                 || ((b1 =? 226)%N && (b2 =? 129)%N && (b3 =? 159)%N)
                 || ((b1 =? 227)%N && (b2 =? 128)%N && (b3 =? 128)%N)
              then trim_is_empty s3 else false
          end
      end
  end.

(** [str::to_lowercase] on ASCII; bytes of other characters are kept. *)
Definition ascii_lower (a : ascii) : ascii :=
  if in_range 65 90 (byte_of a) then ascii_of_N (byte_of a + 32) else a.

Fixpoint to_lowercase (s : string) : string :=
  match s with
  | EmptyString => EmptyString
  | String a s => String (ascii_lower a) (to_lowercase s)
  end.

(** ** Lemmas on results *)

Lemma bind_ok {E A B} (m : result E A) (f : A -> result E B) b :
  m ≫= f = Ok b <-> exists a, m = Ok a /\ f a = Ok b.
Proof. destruct m; cbn; naive_solver. Qed.

Lemma bind_err {E A B} (m : result E A) (f : A -> result E B) e :
  m ≫= f = Err e <-> m = Err e \/ exists a, m = Ok a /\ f a = Err e.
Proof. destruct m; cbn; naive_solver. Qed.

(** Sequencing a check: [check()?; rest]. *)
Lemma then_ok {E B} (m : result E unit) (k : result E B) b :
  (m ≫= fun _ => k) = Ok b <-> m = Ok tt /\ k = Ok b.
Proof. destruct m as [[]|]; cbn; naive_solver. Qed.

Lemma fail_if_ok {E} (b : bool) (e : E) : fail_if b e = Ok tt <-> b = false.
Proof. destruct b; cbn; naive_solver. Qed.

Lemma ok_or_ok {E A} (o : option A) (e : E) a : ok_or o e = Ok a <-> o = Some a.
Proof. destruct o; cbn; naive_solver. Qed.

Lemma ok_or_err {E A} (o : option A) (e e' : E) : ok_or o e = Err e' <-> o = None /\ e = e'.
Proof. destruct o; cbn; naive_solver. Qed.

Lemma map_err_ok {E F A} (f : E -> F) (r : result E A) a : map_err f r = Ok a <-> r = Ok a.
Proof. destruct r; cbn; naive_solver. Qed.

Lemma traverse_ok {E A B} (f : A -> result E B) l ys :
  traverse f l = Ok ys <-> Forall2 (fun x y => f x = Ok y) l ys.
Proof.
  revert ys; induction l as [|x l IH]; intros ys; cbn.
  - split; [intros [= <-]; constructor | inversion 1; done].
  - rewrite bind_ok. setoid_rewrite bind_ok. split.
    + intros (y & Hy & ys' & Hys & [= <-]). constructor; [done|]. by apply IH.
    + inversion 1 as [|? y ? ys' Hy Hys]; subst. exists y; split; [done|].
      exists ys'; split; [by apply IH | done].
Qed.

Lemma traverse_total {E A B} (f : A -> result E B) l :
  (forall x, x ∈ l -> exists y, f x = Ok y) -> exists ys, traverse f l = Ok ys.
Proof.
  induction l as [|x l IH]; intros Hf; cbn; [eauto|].
  destruct (Hf x) as [y ->]; [set_solver|].
  destruct IH as [ys ->]; [set_solver|]. cbn; eauto.
Qed.

Lemma traverse_length {E A B} (f : A -> result E B) l ys :
  traverse f l = Ok ys -> length ys = length l.
Proof. intros H%traverse_ok. symmetry. by eapply Forall2_length. Qed.

(** ** Lemmas on integers *)

Lemma as_u32_small n : (N.of_nat n < 2 ^ 32)%N -> as_u32 n = N.of_nat n.
Proof. intros H. unfold as_u32, wrap_u32. by apply N.mod_small. Qed.

Lemma wrap_i32_id z : (i32_min <= z <= i32_max)%Z -> wrap_i32 z = z.
Proof.
  unfold wrap_i32, i32_min, i32_max. intros H.
  rewrite Z.mod_small; lia.
Qed.

Lemma wrap_i32_range z : (i32_min <= wrap_i32 z <= i32_max)%Z.
Proof.
  unfold wrap_i32, i32_min, i32_max.
  pose proof (Z.mod_pos_bound (z + 2 ^ 31) (2 ^ 32)). lia.
Qed.

(** ** Lemmas on chunks *)

Lemma chunks_fuel_concat {A} fuel n (l : list A) :
  0 < n -> length l <= fuel -> concat (chunks_fuel fuel n l) = l.
Proof.
  intros Hn. revert l; induction fuel as [|fuel IH]; intros l Hl.
  - destruct l; [done | cbn in Hl; lia].
  - destruct l as [|x l]; [done|]. cbn [chunks_fuel concat].
    rewrite IH; [by rewrite take_drop |].
    rewrite length_drop. cbn in *. lia.
Qed.

Lemma chunks_concat {A} n (l : list A) : 0 < n -> concat (chunks n l) = l.
Proof. intros. by apply chunks_fuel_concat. Qed.

Lemma chunks_fuel_length {A} fuel n (l c : list A) :
  0 < n -> c ∈ chunks_fuel fuel n l -> 0 < length c <= n.
Proof.
  intros Hn. revert l; induction fuel as [|fuel IH]; intros l; cbn.
  - by rewrite elem_of_nil.
  - destruct l as [|x l]; [by rewrite elem_of_nil|].
    rewrite elem_of_cons. intros [-> | Hc]; [|by eapply IH].
    rewrite length_take. cbn. lia.
Qed.

Lemma chunks_length {A} n (l c : list A) :
  0 < n -> c ∈ chunks n l -> 0 < length c <= n.
Proof. intros. by eapply chunks_fuel_length. Qed.

Lemma chunks_elem {A} n (l c : list A) x : 0 < n -> c ∈ chunks n l -> x ∈ c -> x ∈ l.
Proof.
  intros Hn Hc Hx. rewrite <- (chunks_concat n l Hn). apply list_elem_of_In, in_concat. exists c.
  by rewrite <- !list_elem_of_In.
Qed.

Create HintDb planar.
Create Rewrite HintDb planar.
#[export] Hint Rewrite @then_ok @fail_if_ok @ok_or_ok @map_err_ok @traverse_ok : planar.
#[export] Hint Resolve chunks_concat traverse_length wrap_i32_range : planar.
