(* ===== verification/Uuid.v ===== *)
(** * UUIDs and binary columns

    [Uuid] is the [uuid::Uuid] newtype over [[u8; 16]] that the catalog uses as
    transaction, table, schema, column and file identifier; [Blob] is the value
    of a BLOB / BYTEA column.  The databases compare binary columns byte by
    byte ([memcmp], then by length), which [blob_compare] writes out; the
    catalog's range conditions on transaction identifiers rely on it. *)

From S2P Require Import Prelude.
From Stdlib Require Import Strings.Byte.

Notation Blob := (list byte).

#[export] Instance byte_eq_dec : EqDecision byte := Byte.byte_eq_dec.

#[export] Program Instance byte_countable : Countable byte :=
  inj_countable Byte.to_N Byte.of_N _.
Next Obligation. intros b. apply Byte.of_to_N. Qed.

(** [uuid::Uuid]: sixteen bytes. *)
Record Uuid : Type := mk_uuid {
  as_bytes : Blob;
  uuid_length : (length as_bytes =? 16)%nat = true
}.

(** [Uuid::from_slice]. *)
Definition from_slice (b : Blob) : option Uuid :=
  match bool_dec (length b =? 16)%nat true with
  | left h => Some (mk_uuid b h)
  | right _ => None
  end.

(** Big-endian bytes of a number. *)
Fixpoint be_bytes (n : nat) (v : N) : Blob :=
  match n with
  | O => []
  | S n => be_bytes n (v / 256) ++ [default x00 (Byte.of_N (v mod 256))]
  end.

Lemma be_bytes_length n v : length (be_bytes n v) = n.
Proof. revert v; induction n as [|n IH]; intros v; cbn; [done|]. rewrite length_app, IH. cbn. lia. Qed.

Lemma be_bytes_16 v : (length (be_bytes 16 v) =? 16)%nat = true.
Proof. by rewrite be_bytes_length. Qed.

(** [Uuid::from_u128]. *)
Definition from_u128 (v : N) : Uuid := mk_uuid (be_bytes 16 v) (be_bytes_16 v).

(** Distinct numbers have distinct bytes. *)
Lemma be_bytes_inj n a b :
  (a < 256 ^ N.of_nat n)%N -> (b < 256 ^ N.of_nat n)%N -> be_bytes n a = be_bytes n b -> a = b.
Proof.
  revert a b; induction n as [|n IH]; intros a b; [cbn; lia|].
  rewrite Nat2N.inj_succ, N.pow_succ_r'. intros Ha Hb. cbn [be_bytes]. intros [Hq Hr]%app_inj_tail.
  assert (forall x, exists c, Byte.of_N (x mod 256) = Some c /\ Byte.to_N c = x mod 256)%N as Hbyte.
  { intros x. destruct (Byte.of_N (x mod 256)) as [c|] eqn:E.
    - exists c. split; [done | by apply Byte.to_of_N].
    - apply Byte.of_N_None_iff in E. pose proof (N.mod_lt x 256). lia. }
  destruct (Hbyte a) as (ca & Ea & Fa), (Hbyte b) as (cb & Eb & Fb). rewrite Ea, Eb in Hr. cbn in Hr. subst cb.
  apply IH in Hq; [|apply N.Div0.div_lt_upper_bound; lia..].
  rewrite (N.div_mod a 256), (N.div_mod b 256) by done. congruence.
Qed.

Lemma from_u128_inj a b : (a < 2 ^ 128)%N -> (b < 2 ^ 128)%N -> from_u128 a = from_u128 b -> a = b.
Proof. intros Ha Hb E%(f_equal as_bytes). by apply (be_bytes_inj 16). Qed.

(** Comparison of two binary column values. *)
Fixpoint blob_compare (a b : Blob) : comparison :=
  match a, b with
  | [], [] => Eq
  | [], _ :: _ => Lt
  | _ :: _, [] => Gt
  | x :: a, y :: b =>
      match (Byte.to_N x ?= Byte.to_N y)%N with
      | Eq => blob_compare a b
      | c => c
      end
  end.

Definition blob_le (a b : Blob) : bool :=
  match blob_compare a b with Gt => false | _ => true end.

Definition blob_lt (a b : Blob) : bool :=
  match blob_compare a b with Lt => true | _ => false end.

Definition uuid_lt (a b : Uuid) : Prop := blob_lt (as_bytes a) (as_bytes b) = true.
Definition uuid_le (a b : Uuid) : Prop := blob_le (as_bytes a) (as_bytes b) = true.

(** ** Lemmas *)

#[export] Instance as_bytes_inj : Inj (=) (=) as_bytes.
Proof.
  intros [a Ha] [b Hb]; cbn; intros ->. f_equal. apply (proof_irrel Ha Hb).
Qed.

#[export] Instance uuid_eq_dec : EqDecision Uuid.
Proof.
  intros a b. destruct (decide (as_bytes a = as_bytes b)) as [e|n].
  - left. by apply (inj as_bytes).
  - right. by intros ->.
Defined.

Lemma uuid_bytes_length (u : Uuid) : length (as_bytes u) = 16.
Proof. apply Nat.eqb_eq, uuid_length. Qed.

Lemma from_slice_as_bytes (u : Uuid) : from_slice (as_bytes u) = Some u.
Proof.
  unfold from_slice. destruct (bool_dec _ _) as [h|n].
  - f_equal. by apply (inj as_bytes).
  - exfalso. apply n, uuid_length.
Qed.

Lemma from_slice_some b u : from_slice b = Some u <-> b = as_bytes u.
Proof.
  split.
  - unfold from_slice. destruct (bool_dec _ _); [|done]. by intros [= <-].
  - intros ->. apply from_slice_as_bytes.
Qed.

Lemma from_slice_none b : from_slice b = None <-> length b <> 16.
Proof.
  unfold from_slice. destruct (bool_dec _ _) as [h|n].
  - split; [done|]. intros H. exfalso. apply H, Nat.eqb_eq. exact h.
  - rewrite Nat.eqb_eq in n. done.
Qed.

#[export] Program Instance uuid_countable : Countable Uuid :=
  inj_countable as_bytes from_slice _.
Next Obligation. intros u. apply from_slice_as_bytes. Qed.

Lemma byte_to_N_inj x y : Byte.to_N x = Byte.to_N y -> x = y.
Proof.
  intros H. pose proof (Byte.of_to_N x) as Hx. rewrite H, Byte.of_to_N in Hx. by simplify_eq.
Qed.

Lemma blob_compare_eq a b : blob_compare a b = Eq <-> a = b.
Proof.
  revert b; induction a as [|x a IH]; intros [|y b]; cbn; try done.
  destruct (N.compare_spec (Byte.to_N x) (Byte.to_N y)) as [e|l|l].
  - apply byte_to_N_inj in e as ->. rewrite IH. naive_solver.
  - split; [done|]. intros [= -> ->]. lia.
  - split; [done|]. intros [= -> ->]. lia.
Qed.

Lemma blob_compare_antisym a b : blob_compare b a = CompOpp (blob_compare a b).
Proof.
  revert b; induction a as [|x a IH]; intros [|y b]; cbn; try done.
  rewrite (N.compare_antisym (Byte.to_N x)).
  destruct (Byte.to_N x ?= Byte.to_N y)%N; cbn; auto.
Qed.

Lemma blob_compare_lt_trans a b c :
  blob_compare a b = Lt -> blob_compare b c = Lt -> blob_compare a c = Lt.
Proof.
  revert b c; induction a as [|x a IH]; intros [|y b] [|z c]; cbn; try done.
  destruct (N.compare_spec (Byte.to_N x) (Byte.to_N y)),
    (N.compare_spec (Byte.to_N y) (Byte.to_N z)); try done; intros;
    destruct (N.compare_spec (Byte.to_N x) (Byte.to_N z)); try done; try lia.
  by eapply IH.
Qed.

Lemma blob_lt_spec a b : blob_lt a b = true <-> blob_compare a b = Lt.
Proof. unfold blob_lt. by destruct (blob_compare a b). Qed.

Lemma blob_le_spec a b : blob_le a b = true <-> a = b \/ blob_lt a b = true.
Proof.
  unfold blob_le, blob_lt. rewrite <- blob_compare_eq.
  destruct (blob_compare a b); naive_solver.
Qed.

Lemma blob_le_refl a : blob_le a a = true.
Proof. apply blob_le_spec. by left. Qed.

Lemma blob_lt_irrefl a : blob_lt a a = false.
Proof.
  unfold blob_lt. assert (blob_compare a a = Eq) as -> by by apply blob_compare_eq. done.
Qed.

Lemma blob_lt_trans a b c : blob_lt a b = true -> blob_lt b c = true -> blob_lt a c = true.
Proof. rewrite !blob_lt_spec. apply blob_compare_lt_trans. Qed.

Lemma blob_le_lt_trans a b c : blob_le a b = true -> blob_lt b c = true -> blob_lt a c = true.
Proof. rewrite blob_le_spec. intros [-> | H]; [done|]. by apply blob_lt_trans. Qed.

Lemma blob_le_trans a b c : blob_le a b = true -> blob_le b c = true -> blob_le a c = true.
Proof.
  rewrite (blob_le_spec b). intros H [<- | H']; [done|].
  apply blob_le_spec. right. by eapply blob_le_lt_trans.
Qed.

Lemma blob_lt_not_le a b : blob_lt a b = negb (blob_le b a).
Proof.
  unfold blob_lt, blob_le. rewrite (blob_compare_antisym a b).
  by destruct (blob_compare a b).
Qed.

Lemma blob_le_not_lt a b : blob_le a b = negb (blob_lt b a).
Proof. by rewrite blob_lt_not_le, negb_involutive. Qed.

Lemma blob_lt_le a b : blob_lt a b = true -> blob_le a b = true.
Proof. rewrite blob_le_spec. auto. Qed.

#[export] Hint Rewrite from_slice_as_bytes from_slice_some blob_le_refl blob_lt_irrefl : planar.
#[export] Hint Resolve blob_le_refl : planar.
