(* ===== verification/Limits.v ===== *)
(** * Bounded limits (src/catalog/limits.rs, [DbKind] of src/catalog/database.rs)

    The constants that bound every catalog operation and the bind-parameter
    arithmetic of the batched statements, in [u32] with its wrap-around. *)

From S2P Require Import Prelude.

(** Supported catalog database backends. *)
Inductive DbKind : Type :=
  | Sqlite
  | Postgres.

#[export] Instance DbKind_eq_dec : EqDecision DbKind.
Proof. solve_decision. Defined.

Module limits.
Local Open Scope N_scope.

Definition MAX_FILES_PER_QUERY : N := 10000.
Definition MAX_COLUMNS_PER_SCHEMA : N := 1000.
Definition MAX_TABLES_PER_LIST : N := 10000.
Definition MAX_TRANSACTIONS_PER_SCAN : N := 50000.
Definition MAX_SCHEMA_CHANGES_PER_SCAN : N := 10000.
Definition MAX_OPERATIONS_PER_MUTATION : N := 1000.
Definition MAX_FILES_PER_APPEND : N := 1000.
Definition MAX_FILES_PER_DELETE : N := 1000.
Definition MAX_PROPERTY_KEYS_TO_REMOVE : N := 100.
Definition MAX_JSON_SIZE_BYTES : N := 1048576.
Definition BATCH_INSERT_FILES_CHUNK : N := 100.
Definition BATCH_DELETE_FILES_CHUNK : N := 500.
Definition POSTGRES_MAX_BIND_PARAMS : N := 65535.
Definition SQLITE_MAX_BIND_PARAMS : N := 32766.
Definition COLUMN_INSERT_PARAMS_PER_ROW : N := 6.
Definition FILE_INSERT_PARAMS_PER_ROW : N := 9.
Definition DELETE_FILES_FIXED_PARAMS : N := 2.

Definition db_bind_limit (db : DbKind) : N :=
  match db with
  | Sqlite => SQLITE_MAX_BIND_PARAMS
  | Postgres => POSTGRES_MAX_BIND_PARAMS
  end.

Definition column_insert_bind_count (rows : N) : N :=
  wrap_u32 (rows * COLUMN_INSERT_PARAMS_PER_ROW).

Definition file_insert_bind_count (rows : N) : N :=
  wrap_u32 (rows * FILE_INSERT_PARAMS_PER_ROW).

Definition delete_files_bind_count (rows : N) : N :=
  wrap_u32 (DELETE_FILES_FIXED_PARAMS + rows).

Definition batch_insert_columns_chunk (db : DbKind) : N :=
  let max_rows_from_bind_limit := db_bind_limit db / COLUMN_INSERT_PARAMS_PER_ROW in
  if max_rows_from_bind_limit <? MAX_COLUMNS_PER_SCHEMA
  then max_rows_from_bind_limit
  else MAX_COLUMNS_PER_SCHEMA.

End limits.

(** The chunk sizes as the [usize] arguments of [slice::chunks]. *)
Definition columns_chunk (db : DbKind) : nat := N.to_nat (limits.batch_insert_columns_chunk db).
Definition files_chunk : nat := N.to_nat limits.BATCH_INSERT_FILES_CHUNK.
Definition delete_chunk : nat := N.to_nat limits.BATCH_DELETE_FILES_CHUNK.

(** ** Lemmas *)

Lemma columns_chunk_pos db : 0 < columns_chunk db.
Proof. destruct db; unfold columns_chunk; vm_compute limits.batch_insert_columns_chunk; lia. Qed.

Lemma files_chunk_pos : 0 < files_chunk.
Proof. unfold files_chunk, limits.BATCH_INSERT_FILES_CHUNK. lia. Qed.

Lemma delete_chunk_pos : 0 < delete_chunk.
Proof. unfold delete_chunk, limits.BATCH_DELETE_FILES_CHUNK. lia. Qed.

#[export] Hint Resolve columns_chunk_pos files_chunk_pos delete_chunk_pos : planar.

Lemma columns_chunk_val db : columns_chunk db = N.to_nat 1000.
Proof. by destruct db. Qed.

Lemma columns_chunk_binds db {A} (l c : list A) :
  c ∈ chunks (columns_chunk db) l ->
  (limits.column_insert_bind_count (N.of_nat (length c)) <= limits.db_bind_limit db)%N.
Proof.
  intros [H0 H]%chunks_length; [|auto with planar]. rewrite columns_chunk_val in H.
  unfold limits.column_insert_bind_count, wrap_u32, limits.COLUMN_INSERT_PARAMS_PER_ROW.
  rewrite N.mod_small by lia. destruct db; unfold limits.db_bind_limit,
    limits.SQLITE_MAX_BIND_PARAMS, limits.POSTGRES_MAX_BIND_PARAMS; lia.
Qed.

Lemma files_chunk_binds db {A} (l c : list A) :
  c ∈ chunks files_chunk l ->
  (limits.file_insert_bind_count (N.of_nat (length c)) <= limits.db_bind_limit db)%N.
Proof.
  intros [H0 H]%chunks_length; [|auto with planar].
  unfold files_chunk, limits.BATCH_INSERT_FILES_CHUNK in H.
  unfold limits.file_insert_bind_count, wrap_u32, limits.FILE_INSERT_PARAMS_PER_ROW.
  rewrite N.mod_small by lia. destruct db; unfold limits.db_bind_limit,
    limits.SQLITE_MAX_BIND_PARAMS, limits.POSTGRES_MAX_BIND_PARAMS; lia.
Qed.

Lemma delete_chunk_binds db {A} (l c : list A) :
  c ∈ chunks delete_chunk l ->
  (limits.delete_files_bind_count (N.of_nat (length c)) <= limits.db_bind_limit db)%N.
Proof.
  intros [H0 H]%chunks_length; [|auto with planar].
  unfold delete_chunk, limits.BATCH_DELETE_FILES_CHUNK in H.
  unfold limits.delete_files_bind_count, wrap_u32, limits.DELETE_FILES_FIXED_PARAMS.
  rewrite N.mod_small by lia. destruct db; unfold limits.db_bind_limit,
    limits.SQLITE_MAX_BIND_PARAMS, limits.POSTGRES_MAX_BIND_PARAMS; lia.
Qed.

(** Every batched statement stays under the backend's bind-parameter
    ceiling: whatever slice the catalog chunks, each chunk of columns, of
    files and of deleted UUIDs binds at most [db_bind_limit] parameters, and
    the full chunks the [debug_assert!]s test do as well. *)
Theorem batches_respect_bind_limit db :
  (forall A (l c : list A), c ∈ chunks (columns_chunk db) l ->
     limits.column_insert_bind_count (N.of_nat (length c)) <= limits.db_bind_limit db)%N /\
  (forall A (l c : list A), c ∈ chunks files_chunk l ->
     limits.file_insert_bind_count (N.of_nat (length c)) <= limits.db_bind_limit db)%N /\
  (forall A (l c : list A), c ∈ chunks delete_chunk l ->
     limits.delete_files_bind_count (N.of_nat (length c)) <= limits.db_bind_limit db)%N /\
  (limits.column_insert_bind_count (limits.batch_insert_columns_chunk db)
     <= limits.db_bind_limit db)%N /\
  (limits.file_insert_bind_count limits.BATCH_INSERT_FILES_CHUNK <= limits.db_bind_limit db)%N /\
  (limits.delete_files_bind_count limits.BATCH_DELETE_FILES_CHUNK <= limits.db_bind_limit db)%N.
Proof.
  split_and!; intros; eauto using columns_chunk_binds, files_chunk_binds, delete_chunk_binds;
    destruct db; vm_compute; congruence.
Qed.
