(* ===== verification/Error.v ===== *)
(** * Error types (src/catalog/error.rs, src/storage/error.rs)

    Errors of third-party crates are carried by opaque payloads: the engine
    errors the catalog can meet as [SqlxError], the Arrow, Parquet, Lance,
    Vortex and I/O errors as their rendered text. *)

From S2P Require Import Prelude.

(** The [sqlx::Error] values a catalog statement can return: constraint
    violations reported by the engine, [RowNotFound] of [fetch_one], and any
    other engine or connection failure. *)
Inductive SqlxError : Type :=
  | UniqueViolation (constraint : string)
  | ForeignKeyViolation (table : string)
  | RowNotFound
  | EngineFailure (code : N).

#[export] Instance SqlxError_eq_dec : EqDecision SqlxError.
Proof. solve_decision. Defined.

(** Errors returned by catalog operations. *)
Inductive CatalogError : Type :=
  | NotFound (msg : string)
  | Conflict (msg : string)
  | LimitExceeded (msg : string)
  | InvalidArgument (msg : string)
  | ProtocolVersionIncompatible (operation table : string)
      (client_version required_min_version : Z)
  | NotYetImplemented (msg : string)
  | Storage (e : SqlxError)
  | Arrow (msg : string).

#[export] Instance CatalogError_eq_dec : EqDecision CatalogError.
Proof. solve_decision. Defined.

(** Errors produced by storage and file-format operations. *)
Inductive StorageError : Type :=
  | SIo (msg : string)
  | SArrow (msg : string)
  | SParquet (msg : string)
  | SLance (msg : string)
  | SVortex (msg : string)
  | SInvalidInput (msg : string)
  | SNotYetImplemented (msg : string)
  | SUnsupported (msg : string).

#[export] Instance StorageError_eq_dec : EqDecision StorageError.
Proof. solve_decision. Defined.

(** [thiserror]'s [Display] of [CatalogError], over the one of [sqlx::Error]. *)
Definition catalog_error_to_string (sqlx_to_string : SqlxError -> string) (e : CatalogError) : string :=
  match e with
  | NotFound m => "table not found: " +:+ m
  | Conflict m => "conflict on table: " +:+ m
  | LimitExceeded m => "limit exceeded: " +:+ m
  | InvalidArgument m => "invalid argument: " +:+ m
  | ProtocolVersionIncompatible operation table client_version required_min_version =>
      "incompatible " +:+ operation +:+ " protocol for table " +:+ table +:+ ": client="
        +:+ pretty client_version +:+ ", required_min=" +:+ pretty required_min_version
  | NotYetImplemented m => "feature not yet implemented: " +:+ m
  | Storage e => "storage error: " +:+ sqlx_to_string e
  | Arrow m => "arrow error: " +:+ m
  end.

(** [thiserror]'s [Display] of [StorageError]. *)
Definition storage_error_to_string (e : StorageError) : string :=
  match e with
  | SIo m => "IO error: " +:+ m
  | SArrow m => "Arrow error: " +:+ m
  | SParquet m => "Parquet error: " +:+ m
  | SLance m => "Lance error: " +:+ m
  | SVortex m => "Vortex error: " +:+ m
  | SInvalidInput m => "Invalid input: " +:+ m
  | SNotYetImplemented m => "Feature not yet implemented: " +:+ m
  | SUnsupported m => "Unsupported operation: " +:+ m
  end.

(** The failures that come from the engine or the connection and not from the
    catalog's own logic or from a constraint of its tables. *)
Definition engine_failure (e : CatalogError) : Prop :=
  exists code, e = Storage (EngineFailure code).
