(* ===== verification/Json.v ===== *)
(** * JSON values

    [serde_json::Value] as the catalog and the option parsers inspect it.
    [serde_json::Map] is a [BTreeMap<String, Value>] in this build (the
    [preserve_order] feature is off), so an object is an association list in
    key order, and iteration over an object follows that order. *)

From S2P Require Import Prelude.

(** [serde_json::Number]: a non-negative integer below 2^64, a negative
    integer from -2^63, or a float, here by its bits. *)
Inductive Number : Type :=
  | PosInt (n : N)
  | NegInt (z : Z)
  | Float (bits : N).

Inductive Value : Type :=
  | Null
  | Bool (b : bool)
  | Num (n : Number)
  | Str (s : string)
  | Array (l : list Value)
  | Object (m : list (string * Value)).

(** [serde_json::Map<String, Value>]. *)
Notation Map := (list (string * Value)).

#[export] Instance Number_eq_dec : EqDecision Number.
Proof. solve_decision. Defined.

Fixpoint Value_eqb (a b : Value) {struct a} : bool :=
  match a, b with
  | Null, Null => true
  | Bool x, Bool y => Bool.eqb x y
  | Num x, Num y => bool_decide (x = y)
  | Str x, Str y => String.eqb x y
  | Array l, Array k =>
      (fix go (l k : list Value) : bool :=
         match l, k with
         | [], [] => true
         | x :: l, y :: k => Value_eqb x y && go l k
         | _, _ => false
         end) l k
  | Object l, Object k =>
      (fix go (l k : list (string * Value)) : bool :=
         match l, k with
         | [], [] => true
         | (i, x) :: l, (j, y) :: k => String.eqb i j && Value_eqb x y && go l k
         | _, _ => false
         end) l k
  | _, _ => false
  end.

(** [Value::is_object], [as_object], [as_str], [as_bool], [as_u64]. *)
Definition is_object (v : Value) : bool :=
  match v with Object _ => true | _ => false end.

Definition as_object (v : Value) : option Map :=
  match v with Object m => Some m | _ => None end.

Definition as_str (v : Value) : option string :=
  match v with Str s => Some s | _ => None end.

Definition as_bool (v : Value) : option bool :=
  match v with Bool b => Some b | _ => None end.

Definition as_u64 (v : Value) : option N :=
  match v with Num (PosInt n) => Some n | _ => None end.

(** [Map::get], [Map::insert], [Map::remove]. *)
Fixpoint map_get (k : string) (m : Map) : option Value :=
  match m with
  | [] => None
  | (k', v) :: m => if String.eqb k k' then Some v else map_get k m
  end.

Fixpoint map_insert (k : string) (v : Value) (m : Map) : Map :=
  match m with
  | [] => [(k, v)]
  | (k', v') :: m' =>
      match String.compare k k' with
      | Lt => (k, v) :: (k', v') :: m'
      | Eq => (k, v) :: m'
      | Gt => (k', v') :: map_insert k v m'
      end
  end.

Definition map_remove (k : string) (m : Map) : Map :=
  filter (fun p => k <> p.1) m.

(** Key order of a [BTreeMap]. *)
Definition key_lt (a b : string) : Prop := String.compare a b = Lt.

#[export] Instance key_lt_dec : RelDecision key_lt.
Proof. intros a b. unfold key_lt. apply _. Defined.

Definition map_wf (m : Map) : Prop := StronglySorted key_lt m.*1.

(** How deep arrays and objects are nested. *)
Fixpoint json_depth (v : Value) : nat :=
  match v with
  | Array l => S (foldr (fun v n => Nat.max (json_depth v) n) 0 l)
  | Object m => S (foldr (fun p n => Nat.max (json_depth p.2) n) 0 m)
  | _ => 0
  end.

(** ** Decidable equality *)

Section value_ind.
Variable P : Value -> Prop.
Hypothesis PNull : P Null.
Hypothesis PBool : forall b, P (Bool b).
Hypothesis PNum : forall n, P (Num n).
Hypothesis PStr : forall s, P (Str s).
Hypothesis PArray : forall l, Forall P l -> P (Array l).
Hypothesis PObject : forall m, Forall (fun p => P p.2) m -> P (Object m).

Fixpoint Value_ind' (v : Value) : P v :=
  match v with
  | Null => PNull
  | Bool b => PBool b
  | Num n => PNum n
  | Str s => PStr s
  | Array l =>
      PArray l ((fix go (l : list Value) : Forall P l :=
        match l with
        | [] => Forall_nil_2 P
        | x :: l => Forall_cons_2 P x l (Value_ind' x) (go l)
        end) l)
  | Object m =>
      PObject m ((fix go (m : list (string * Value)) : Forall (fun p => P p.2) m :=
        match m with
        | [] => Forall_nil_2 _
        | p :: m => Forall_cons_2 (fun p => P p.2) p m (Value_ind' p.2) (go m)
        end) m)
  end.
End value_ind.

Lemma Value_eqb_spec a b : Value_eqb a b = true <-> a = b.
Proof.
  revert b; induction a as [|x|x|x|l IH|l IH] using Value_ind'; intros [|y|y|y|k|k]; cbn;
    try (split; congruence).
  - rewrite Bool.eqb_true_iff. naive_solver.
  - rewrite bool_decide_eq_true. naive_solver.
  - rewrite String.eqb_eq. naive_solver.
  - transitivity (l = k); [|naive_solver].
    revert k; induction IH as [|x l Hx _ IH]; intros [|y k]; try (split; congruence).
    rewrite andb_true_iff, Hx, IH. naive_solver.
  - transitivity (l = k); [|naive_solver].
    revert k; induction IH as [|[i x] l Hx _ IH]; intros [|[j y] k]; try (split; congruence).
    cbn in Hx. rewrite !andb_true_iff, Hx, IH, String.eqb_eq. naive_solver.
Qed.

#[export] Instance Value_eq_dec : EqDecision Value.
Proof.
  intros a b. destruct (Value_eqb a b) eqn:E.
  - left. by apply Value_eqb_spec.
  - right. intros H%Value_eqb_spec. congruence.
Defined.

(** ** Lemmas on maps *)

Lemma string_compare_eq a b : String.compare a b = Eq <-> a = b.
Proof.
  split; [apply String.compare_eq_iff|]. intros ->.
  induction b as [|x b IH]; cbn; [done|].
  unfold Ascii.compare. by rewrite N.compare_refl.
Qed.

Lemma map_get_insert k v m j :
  map_get j (map_insert k v m) = if String.eqb j k then Some v else map_get j m.
Proof.
  induction m as [|[k' v'] m IH]; cbn; [done|].
  destruct (String.compare k k') eqn:E; cbn.
  - apply string_compare_eq in E as ->. by destruct (String.eqb j k').
  - done.
  - rewrite IH. destruct (String.eqb_spec j k') as [->|]; [|done].
    destruct (String.eqb_spec k' k) as [<-|]; [|done].
    assert (String.compare k' k' = Eq) by by apply string_compare_eq. congruence.
Qed.

Lemma map_get_remove k m j :
  map_get j (map_remove k m) = if String.eqb j k then None else map_get j m.
Proof.
  unfold map_remove. induction m as [|[k' v'] m IH]; [by cbn; destruct (String.eqb j k)|].
  rewrite filter_cons. cbn [fst map_get]. destruct (decide (k <> k')) as [n|n]; cbn [map_get].
  - rewrite IH. destruct (String.eqb_spec j k), (String.eqb_spec j k'); naive_solver.
  - rewrite IH. apply dec_stable in n as ->. by destruct (String.eqb j k').
Qed.

Lemma map_remove_subset k m : map_remove k m ⊆ m.
Proof. unfold map_remove. intros p. rewrite list_elem_of_filter. naive_solver. Qed.
