(* ===== verification/DataType.v ===== *)
(** * Column types and schema evolution (src/catalog/data_type.rs)

    [DataType] has the Arrow constructors the repository names, and [OtherType]
    for every other Arrow type, of which the code only tests equality.  The
    Arrow IPC codec is third-party code: the class [ArrowIpc] holds its two
    functions and [ArrowIpcLaws] its round trip on the types it keeps.
    [represents] says which values a column of a type holds; [can_evolve_to] is
    judged by it. *)

From S2P Require Import Prelude Uuid Error.
From Stdlib Require QArith Qpower.

Inductive TimeUnit : Type :=
  | Second
  | Millisecond
  | Microsecond
  | Nanosecond.

#[export] Instance TimeUnit_eq_dec : EqDecision TimeUnit.
Proof. solve_decision. Defined.

(** [arrow::datatypes::Field], over the type of its data type. *)
Record FieldOf (T : Type) : Type := mk_field {
  field_name : string;
  field_type : T;
  field_nullable : bool;
  field_metadata : gmap string string
}.
Arguments mk_field {T} _ _ _ _.
Arguments field_name {T} _.
Arguments field_type {T} _.
Arguments field_nullable {T} _.
Arguments field_metadata {T} _.

Inductive DataType : Type :=
  | Boolean
  | Int8 | Int16 | Int32 | Int64
  | UInt8 | UInt16 | UInt32 | UInt64
  | Float32 | Float64
  | Timestamp (unit : TimeUnit) (tz : option string)
  | Date32 | Date64
  | Time32 (unit : TimeUnit)
  | Time64 (unit : TimeUnit)
  | Duration (unit : TimeUnit)
  | Binary | LargeBinary
  | FixedSizeBinary (size : Z)
  | Utf8 | LargeUtf8
  | Decimal128 (precision : N) (scale : Z)
  | Decimal256 (precision : N) (scale : Z)
  | List (item : FieldOf DataType)
  | LargeList (item : FieldOf DataType)
  | FixedSizeList (item : FieldOf DataType) (size : Z)
  | Struct (fields : list (FieldOf DataType))
  | OtherType (id : N).

Notation Field := (FieldOf DataType).

(** [Field::new]. *)
Definition field_new (name : string) (t : DataType) (nullable : bool) : Field :=
  mk_field name t nullable ∅.

(** [DataType: PartialEq]. *)
Fixpoint DataType_eqb (a b : DataType) {struct a} : bool :=
  let field_eqb (f g : FieldOf DataType) :=
    match f, g with
    | mk_field n t u m, mk_field n' t' u' m' =>
        String.eqb n n' && DataType_eqb t t' && Bool.eqb u u' && bool_decide (m = m')
    end in
  match a, b with
  | Boolean, Boolean
  | Int8, Int8 | Int16, Int16 | Int32, Int32 | Int64, Int64
  | UInt8, UInt8 | UInt16, UInt16 | UInt32, UInt32 | UInt64, UInt64
  | Float32, Float32 | Float64, Float64
  | Date32, Date32 | Date64, Date64
  | Binary, Binary | LargeBinary, LargeBinary
  | Utf8, Utf8 | LargeUtf8, LargeUtf8 => true
  | Timestamp u z, Timestamp u' z' => bool_decide (u = u') && bool_decide (z = z')
  | Time32 u, Time32 u' | Time64 u, Time64 u' | Duration u, Duration u' => bool_decide (u = u')
  | FixedSizeBinary n, FixedSizeBinary n' => Z.eqb n n'
  | Decimal128 p s, Decimal128 p' s' | Decimal256 p s, Decimal256 p' s' =>
      N.eqb p p' && Z.eqb s s'
  | List f, List g | LargeList f, LargeList g => field_eqb f g
  | FixedSizeList f n, FixedSizeList g n' => field_eqb f g && Z.eqb n n'
  | Struct l, Struct k =>
      (fix go (l k : list (FieldOf DataType)) : bool :=
         match l, k with
         | [], [] => true
         | f :: l, g :: k => field_eqb f g && go l k
         | _, _ => false
         end) l k
  | OtherType i, OtherType j => N.eqb i j
  | _, _ => false
  end.

(** [can_evolve_to]. *)
Definition can_evolve_to (from_type to_type : DataType) : bool :=
  if DataType_eqb from_type to_type then true
  else
    match from_type, to_type with
    | Int8, (Int16 | Int32 | Int64) => true
    | Int16, (Int32 | Int64) => true
    | Int32, Int64 => true
    | UInt8, (UInt16 | UInt32 | UInt64) => true
    | UInt16, (UInt32 | UInt64) => true
    | UInt32, UInt64 => true
    | Float32, Float64 => true
    | Date32, Date64 => true
    | Timestamp from_unit from_tz, Timestamp to_unit to_tz =>
        if negb (bool_decide (from_tz = to_tz)) then false
        else match from_unit, to_unit with
             | Second, (Millisecond | Microsecond | Nanosecond) => true
             | Millisecond, (Microsecond | Nanosecond) => true
             | Microsecond, Nanosecond => true
             | _, _ => false
             end
    | Decimal128 from_precision from_scale, Decimal128 to_precision to_scale =>
        (from_scale =? to_scale)%Z && (from_precision <? to_precision)%N
    | Decimal256 from_precision from_scale, Decimal256 to_precision to_scale =>
        (from_scale =? to_scale)%Z && (from_precision <? to_precision)%N
    | _, _ => false
    end.

(** Arrow's IPC schema encoding ([IpcSchemaEncoder::schema_to_fb], and
    [root_as_schema] followed by [fb_to_schema]); an Arrow schema is its list
    of fields.  [other_kept]: the other Arrow types it reads back as they were. *)
Class ArrowIpc : Type := {
  schema_to_fb : list Field -> Blob;
  fb_to_schema : Blob -> result string (list Field);
  other_kept : N -> bool
}.

(** The types of which the encoding keeps everything.  It writes an empty time
    zone as none, and Arrow admits two of the four units for each width of
    time of day. *)
Fixpoint ipc_kept `{ArrowIpc} (t : DataType) : bool :=
  let field_kept (f : FieldOf DataType) := match f with mk_field _ t _ _ => ipc_kept t end in
  match t with
  | Timestamp _ (Some tz) => negb (String.eqb tz "")
  | Time32 (Microsecond | Nanosecond) | Time64 (Second | Millisecond) => false
  | List f | LargeList f | FixedSizeList f _ => field_kept f
  | Struct fields => forallb field_kept fields
  | OtherType id => other_kept id
  | _ => true
  end.

(** How deep the fields of a type are nested. *)
Fixpoint type_depth (t : DataType) : nat :=
  let field_depth (f : FieldOf DataType) := match f with mk_field _ t _ _ => type_depth t end in
  match t with
  | List f | LargeList f | FixedSizeList f _ => S (field_depth f)
  | Struct fields => S (foldr (fun f n => Nat.max (field_depth f) n) 0 fields)
  | _ => 0
  end.

(** Its fields, the entries of their metadata, and the bytes of their names
    and of time zones. *)
Fixpoint type_weight (t : DataType) : nat :=
  let entries (m : gmap string string) :=
    map_fold (fun k v n => S (String.length k + String.length v + n)) 0 m in
  let field_weight (f : FieldOf DataType) :=
    match f with mk_field name t _ m => S (String.length name + type_weight t + entries m) end in
  match t with
  | Timestamp _ (Some tz) => String.length tz
  | List f | LargeList f | FixedSizeList f _ => field_weight f
  | Struct fields => foldr (fun f n => field_weight f + n) 0 fields
  | _ => 0
  end.

(** [root_as_schema] verifies the buffer first, with the default limits of
    flatbuffers: tables nested at most 64 deep, of which two are not levels of
    the schema, and at most a million tables, two for each field and one for
    each entry of metadata.  The bounds here stay below both. *)
Definition ipc_safe `{ArrowIpc} (schema : list Field) : bool :=
  ipc_kept (Struct schema) && (type_depth (Struct schema) <=? 60)%nat && (type_weight (Struct schema) <=? 5000)%nat.

Class ArrowIpcLaws `{ArrowIpc} : Prop :=
  ipc_round_trip : forall s, ipc_safe s = true -> fb_to_schema (schema_to_fb s) = Ok s.

(** The schema that holds one type. *)
Definition placeholder (t : DataType) : list Field := [field_new "_" t true].

Definition encode_data_type `{ArrowIpc} (data_type : DataType) : result CatalogError Blob :=
  let field := field_new "_" data_type true in
  Ok (schema_to_fb [field]).

Definition decode_data_type `{ArrowIpc} (bytes : Blob) : result CatalogError DataType :=
  fields ← map_err (fun e => Arrow ("Ipc error: Invalid FlatBuffer schema: " +:+ e))
             (fb_to_schema bytes);
  match fields with
  | [] => Err (InvalidArgument "Invalid encoded DataType: schema has no fields")
  | [f] => Ok (field_type f)
  | _ => Err (InvalidArgument ("Invalid encoded DataType: expected 1 field, found "
                                +:+ pretty (length fields)))
  end.

(** ** Decidable equality *)

Section datatype_ind.
Variable P : DataType -> Prop.
Hypothesis base : forall t,
  match t with List _ | LargeList _ | FixedSizeList _ _ | Struct _ => False | _ => True end -> P t.
Hypothesis PList : forall f, P (field_type f) -> P (List f).
Hypothesis PLargeList : forall f, P (field_type f) -> P (LargeList f).
Hypothesis PFixedSizeList : forall f n, P (field_type f) -> P (FixedSizeList f n).
Hypothesis PStruct : forall l, Forall (fun f => P (field_type f)) l -> P (Struct l).

Fixpoint DataType_ind' (t : DataType) : P t :=
  match t with
  | List f => PList f (DataType_ind' (field_type f))
  | LargeList f => PLargeList f (DataType_ind' (field_type f))
  | FixedSizeList f n => PFixedSizeList f n (DataType_ind' (field_type f))
  | Struct l =>
      PStruct l ((fix go l : Forall (fun f => P (field_type f)) l :=
        match l with
        | [] => Forall_nil_2 _
        | f :: l => Forall_cons_2 (fun f => P (field_type f)) f l
                      (DataType_ind' (field_type f)) (go l)
        end) l)
  | t => base t I
  end.
End datatype_ind.

Lemma DataType_eqb_spec a b : DataType_eqb a b = true <-> a = b.
Proof.
  revert b.
  assert (Hf : forall (f g : Field), (forall t, DataType_eqb (field_type f) t = true <-> field_type f = t) ->
    match f, g with
    | mk_field n t u m, mk_field n' t' u' m' =>
        String.eqb n n' && DataType_eqb t t' && Bool.eqb u u' && bool_decide (m = m')
    end = true <-> f = g).
  { intros [n t u m] [n' t' u' m'] Ht; cbn in Ht.
    rewrite !andb_true_iff, String.eqb_eq, Ht, Bool.eqb_true_iff, bool_decide_eq_true. naive_solver. }
  induction a as [a Ha|f IH|f IH|f n IH|l IH] using DataType_ind'; intros b.
  - destruct a, b; try done; cbn;
      rewrite ?andb_true_iff, ?bool_decide_eq_true, ?N.eqb_eq, ?Z.eqb_eq; naive_solver.
  - destruct b as [| | | | | | | | | | | | | | | | | | | | | | | |g| | | |]; try done.
    cbn -[DataType_eqb]. etransitivity; [apply (Hf f g IH)|]. naive_solver.
  - destruct b as [| | | | | | | | | | | | | | | | | | | | | | | | |g| | |]; try done.
    cbn -[DataType_eqb]. etransitivity; [apply (Hf f g IH)|]. naive_solver.
  - destruct b as [| | | | | | | | | | | | | | | | | | | | | | | | | |g m| |]; try done.
    change (DataType_eqb (FixedSizeList f n) (FixedSizeList g m)) with
      (match f, g with
       | mk_field n t u m, mk_field n' t' u' m' =>
           String.eqb n n' && DataType_eqb t t' && Bool.eqb u u' && bool_decide (m = m')
       end && Z.eqb n m).
    rewrite andb_true_iff, Z.eqb_eq, (Hf f g IH). naive_solver.
  - destruct b as [| | | | | | | | | | | | | | | | | | | | | | | | | | |k|]; try done.
    transitivity (l = k); [|naive_solver].
    revert k; induction IH as [|f l Hx _ IH]; intros [|g k]; try (split; [done|congruence]); [done|].
    change (DataType_eqb (Struct (f :: l)) (Struct (g :: k))) with
      (match f, g with
       | mk_field n t u m, mk_field n' t' u' m' =>
           String.eqb n n' && DataType_eqb t t' && Bool.eqb u u' && bool_decide (m = m')
       end && DataType_eqb (Struct l) (Struct k)).
    rewrite andb_true_iff, IH, (Hf f g Hx). naive_solver.
Qed.

#[export] Instance DataType_eq_dec : EqDecision DataType.
Proof.
  intros a b. destruct (DataType_eqb a b) eqn:E.
  - left. by apply DataType_eqb_spec.
  - right. intros H%DataType_eqb_spec. congruence.
Defined.

(** ** Reference definitions

    Evolution by families: a type belongs to at most one family and has a rank
    in it, and evolution stays in the family and climbs the ranks. *)

Inductive Family : Type :=
  | FSigned | FUnsigned | FFloat | FDate
  | FTimestamp (tz : option string)
  | FDecimal128 (scale : Z)
  | FDecimal256 (scale : Z).

Definition unit_rank (u : TimeUnit) : N :=
  match u with Second => 0 | Millisecond => 1 | Microsecond => 2 | Nanosecond => 3 end.

Definition family_rank (t : DataType) : option (Family * N) :=
  match t with
  | Int8 => Some (FSigned, 0%N) | Int16 => Some (FSigned, 1%N)
  | Int32 => Some (FSigned, 2%N) | Int64 => Some (FSigned, 3%N)
  | UInt8 => Some (FUnsigned, 0%N) | UInt16 => Some (FUnsigned, 1%N)
  | UInt32 => Some (FUnsigned, 2%N) | UInt64 => Some (FUnsigned, 3%N)
  | Float32 => Some (FFloat, 0%N) | Float64 => Some (FFloat, 1%N)
  | Date32 => Some (FDate, 0%N) | Date64 => Some (FDate, 1%N)
  | Timestamp u tz => Some (FTimestamp tz, unit_rank u)
  | Decimal128 p s => Some (FDecimal128 s, p)
  | Decimal256 p s => Some (FDecimal256 s, p)
  | _ => None
  end.

Definition widens (a b : DataType) : Prop :=
  exists f m n, family_rank a = Some (f, m) /\ family_rank b = Some (f, n) /\ (m < n)%N.

Definition same_family (a b : DataType) : Prop :=
  exists f m n, family_rank a = Some (f, m) /\ family_rank b = Some (f, n).

(** ** Values

    The values of a column, whatever the width of the type that stores them.
    A finite float is counted in units of 2^-1074, the smallest of [Float64];
    dates in milliseconds; instants, times of day and durations in
    nanoseconds; a decimal is the number it stands for. *)

Inductive FloatValue : Type :=
  | Finite (units : Z)
  | NegativeZero
  | Infinity (negative : bool)
  | NaN.

Inductive CellValue : Type :=
  | VNull
  | VBoolean (b : bool)
  | VInteger (n : Z)
  | VFloat (x : FloatValue)
  | VDate (millis : Z)
  | VTimestamp (tz : option string) (nanos : Z)
  | VTime (nanos : Z)
  | VDuration (nanos : Z)
  | VDecimal (q : QArith_base.Q)
  | VBytes (bytes : Blob)
  | VText (s : string)
  | VList (items : list CellValue)
  | VStruct (fields : list CellValue)
  | VOther (id : N) (bytes : Blob).

Definition nanos (u : TimeUnit) : Z :=
  match u with
  | Second => 1000000000 | Millisecond => 1000000 | Microsecond => 1000 | Nanosecond => 1
  end.

Definition signed (bits : Z) (v : Z) : Prop := (- 2 ^ (bits - 1) <= v < 2 ^ (bits - 1))%Z.
Definition unsigned (bits : Z) (v : Z) : Prop := (0 <= v < 2 ^ bits)%Z.

(** A binary float of [p] digits whose exponent is at least [low] and at most
    [high]. *)
Definition float_value (p low high : Z) (x : FloatValue) : Prop :=
  match x with
  | Finite n => exists m e, (Z.abs m < 2 ^ p)%Z /\ (low <= e <= high)%Z /\ n = (m * 2 ^ (e + 1074))%Z
  | NegativeZero | Infinity _ | NaN => True
  end.

(** [u] with [scale] digits after the point. *)
Definition decimal (u scale : Z) : QArith_base.Q :=
  QArith_base.Qmult (QArith_base.inject_Z u) (QArith_base.Qpower (QArith_base.inject_Z 10) (- scale)).

Definition decimal_value (precision : N) (scale : Z) (q : QArith_base.Q) : Prop :=
  exists u, (Z.abs u < 10 ^ Z.of_N precision)%Z /\ QArith_base.Qeq q (decimal u scale).

(** What offsets of a width can index. *)
Definition offsets (bits : Z) {A} (l : list A) : Prop := signed bits (Z.of_nat (length l)).

Fixpoint represents (t : DataType) (v : CellValue) {struct t} : Prop :=
  let item (f : FieldOf DataType) (v : CellValue) :=
    match f with mk_field _ t nullable _ => (nullable = true /\ v = VNull) \/ represents t v end in
  match t, v with
  | Boolean, VBoolean _ => True
  | Int8, VInteger n => signed 8 n
  | Int16, VInteger n => signed 16 n
  | Int32, VInteger n => signed 32 n
  | Int64, VInteger n => signed 64 n
  | UInt8, VInteger n => unsigned 8 n
  | UInt16, VInteger n => unsigned 16 n
  | UInt32, VInteger n => unsigned 32 n
  | UInt64, VInteger n => unsigned 64 n
  | Float32, VFloat x => float_value 24 (-149) 104 x
  | Float64, VFloat x => float_value 53 (-1074) 971 x
  | Date32, VDate ms => exists d, signed 32 d /\ ms = (d * 86400000)%Z
  | Date64, VDate ms => signed 64 ms
  | Timestamp u tz, VTimestamp tz' ns => tz' = tz /\ exists k, signed 64 k /\ ns = (k * nanos u)%Z
  | Time32 u, VTime ns => exists k, signed 32 k /\ ns = (k * nanos u)%Z
  | Time64 u, VTime ns => exists k, signed 64 k /\ ns = (k * nanos u)%Z
  | Duration u, VDuration ns => exists k, signed 64 k /\ ns = (k * nanos u)%Z
  | Decimal128 p s, VDecimal q | Decimal256 p s, VDecimal q => decimal_value p s q
  | Binary, VBytes b => offsets 32 b
  | LargeBinary, VBytes b => offsets 64 b
  | FixedSizeBinary n, VBytes b => Z.of_nat (length b) = n
  | Utf8, VText s => signed 32 (Z.of_nat (String.length s))
  | LargeUtf8, VText s => signed 64 (Z.of_nat (String.length s))
  | List f, VList l => offsets 32 l /\ Forall (item f) l
  | LargeList f, VList l => offsets 64 l /\ Forall (item f) l
  | FixedSizeList f n, VList l => Z.of_nat (length l) = n /\ Forall (item f) l
  | Struct fields, VStruct l =>
      (fix go (fields : list (FieldOf DataType)) (l : list CellValue) : Prop :=
         match fields, l with
         | [], [] => True
         | f :: fields, v :: l => item f v /\ go fields l
         | _, _ => False
         end) fields l
  | OtherType i, VOther i' _ => i' = i
  | _, _ => False
  end.

(** An instant that is a multiple of the unit of the type, in its zone, but
    does not fit 64 bits. *)
Definition out_of_range (t : DataType) (v : CellValue) : Prop :=
  match t, v with
  | Timestamp u tz, VTimestamp tz' ns =>
      tz' = tz /\ exists k, ns = (k * nanos u)%Z /\ ~ signed 64 k
  | _, _ => False
  end.

(** ** Theorems *)

Lemma unit_widens u u' :
  match u, u' with
  | Second, (Millisecond | Microsecond | Nanosecond) => true
  | Millisecond, (Microsecond | Nanosecond) => true
  | Microsecond, Nanosecond => true
  | _, _ => false
  end = true <-> (unit_rank u < unit_rank u')%N.
Proof. destruct u, u'; cbn; split; (done || lia). Qed.

Ltac widens_inv :=
  match goal with
  | H : widens _ _ |- _ =>
      let f := fresh in let m := fresh in let n := fresh in
      destruct H as (f & m & n & ? & ? & ?); cbn in *; simplify_eq; try lia
  end.

(** C38: [can_evolve_to] is exactly the family rule: two types are equal, or
    belong to the same family (signed, unsigned, float, date, timestamps of one
    zone, decimals of one width and scale) and the target ranks strictly
    higher. *)
Theorem can_evolve_to_families a b :
  can_evolve_to a b = true <-> a = b \/ widens a b.
Proof.
  unfold can_evolve_to. destruct (DataType_eqb a b) eqn:E.
  { apply DataType_eqb_spec in E. naive_solver. }
  assert (a <> b) by (intros H%DataType_eqb_spec; congruence).
  transitivity (widens a b); [|naive_solver].
  destruct a, b; cbn; try (split; [done | intros; widens_inv]);
    try (split; [intros _; do 3 eexists; split_and!; [done|done|lia] | done]).
  - destruct (bool_decide_reflect (tz = tz0)) as [->|]; cbn.
    + rewrite unit_widens. split; [intros; do 3 eexists; split_and!; eauto; done |].
      intros; widens_inv; done.
    + split; [done|]. intros; widens_inv.
  - rewrite andb_true_iff, Z.eqb_eq, N.ltb_lt.
    split; [intros [-> ?]; do 3 eexists; split_and!; eauto; done |]. intros; widens_inv; done.
  - rewrite andb_true_iff, Z.eqb_eq, N.ltb_lt.
    split; [intros [-> ?]; do 3 eexists; split_and!; eauto; done |]. intros; widens_inv; done.
Qed.

Lemma widens_trans a b c : widens a b -> widens b c -> widens a c.
Proof.
  intros (f & m & n & Ha & Hb & ?) (f' & m' & n' & Hb' & Hc & ?).
  rewrite Hb in Hb'. simplify_eq. exists f', m, n'. split_and!; [done|done|lia].
Qed.

Lemma widens_irrefl a : ~ widens a a.
Proof. intros (f & m & n & Ha & Hb & ?). rewrite Ha in Hb. simplify_eq. lia. Qed.

(** Evolution is a partial order on column types: every type evolves to
    itself, successive evolutions compose, and no two distinct types evolve to
    each other, so a chain of accepted schema updates never cycles through a
    type and is itself an accepted update. *)
Theorem can_evolve_to_partial_order :
  (forall a, can_evolve_to a a = true) /\
  (forall a b c, can_evolve_to a b = true -> can_evolve_to b c = true ->
     can_evolve_to a c = true) /\
  (forall a b, can_evolve_to a b = true -> can_evolve_to b a = true -> a = b).
Proof.
  setoid_rewrite can_evolve_to_families. split_and!.
  - auto.
  - intros a b c [?|H1] [?|H2]; subst; eauto using widens_trans.
  - intros a b [?|H1] [?|H2]; subst; auto.
    destruct (widens_irrefl a). by apply (widens_trans a b a).
Qed.

(** *** Evolution and values *)

Lemma decimal_inj u v scale : QArith_base.Qeq (decimal u scale) (decimal v scale) -> u = v.
Proof.
  unfold decimal. intros E%QArith_base.Qmult_inj_r; [by apply QArith_base.inject_Z_injective|].
  by apply Qpower.Qpower_not_0.
Qed.

Lemma decimal_widens p q scale x : (p <= q)%N -> decimal_value p scale x -> decimal_value q scale x.
Proof.
  intros Hle (u & Hu & E). exists u. split; [|done].
  pose proof (Z.pow_le_mono_r 10 (Z.of_N p) (Z.of_N q)). lia.
Qed.

Lemma decimal_narrow p q scale :
  (forall x, decimal_value p scale x -> decimal_value q scale x) -> (p <= q)%N.
Proof.
  intros Hall. pose proof (Z.pow_pos_nonneg 10 (Z.of_N p)) as Hp.
  destruct (Hall (decimal (10 ^ Z.of_N p - 1) scale)) as (u & Hu & <-%decimal_inj).
  { exists (10 ^ Z.of_N p - 1)%Z. split; [lia | reflexivity]. }
  destruct (N.le_gt_cases p q) as [|Hlt]; [done|].
  pose proof (Z.pow_lt_mono_r 10 (Z.of_N q) (Z.of_N p)). lia.
Qed.

Lemma float_widens x : float_value 24 (-149) 104 x -> float_value 53 (-1074) 971 x.
Proof. destruct x; cbn; [|done..]. intros (m & e & ? & ? & ->). exists m, e. split_and!; [lia..|done]. Qed.

(** The smallest [Float64] is none of [Float32]. *)
Lemma float_narrow : float_value 53 (-1074) 971 (Finite 1) /\ ~ float_value 24 (-149) 104 (Finite 1).
Proof.
  split; [by exists 1%Z, (-1074)%Z|]. intros (m & e & _ & He & E).
  assert (2 ^ (e + 1074) = 2 * 2 ^ (e + 1073))%Z as E2 by (rewrite <- Z.pow_succ_r by lia; f_equal; lia).
  rewrite E2 in E. lia.
Qed.

Lemma nanos_pos u : (0 < nanos u)%Z.
Proof. by destruct u. Qed.

(** A finer unit divides a coarser one. *)
Lemma nanos_divide u u' : (unit_rank u <= unit_rank u')%N -> exists c, nanos u = (c * nanos u')%Z.
Proof. destruct u, u'; cbn; try lia; intros _; (exists 1%Z; reflexivity) || (exists 1000%Z; reflexivity) || (exists 1000000%Z; reflexivity) || (exists 1000000000%Z; reflexivity). Qed.

Lemma timestamp_widens u u' tz v :
  (unit_rank u <= unit_rank u')%N -> represents (Timestamp u tz) v ->
  represents (Timestamp u' tz) v \/ out_of_range (Timestamp u' tz) v.
Proof.
  intros (c & Hc)%nanos_divide. destruct v; try done. cbn. intros (-> & k & _ & ->).
  assert (k * nanos u = (k * c) * nanos u')%Z as E by (rewrite Hc; lia).
  destruct (decide (- 2 ^ 63 <= k * c < 2 ^ 63)%Z) as [Hin|Hout]; [left | right]; split; try done; by exists (k * c)%Z.
Qed.

Lemma timestamp_narrow u u' tz tz' :
  (forall v, represents (Timestamp u tz) v -> represents (Timestamp u' tz') v) -> (unit_rank u <= unit_rank u')%N.
Proof.
  intros Hall. destruct (Hall (VTimestamp tz (nanos u))) as (_ & k & _ & E).
  { split; [done|]. exists 1%Z. split; [unfold signed; lia | lia]. }
  destruct u, u'; cbn in *; lia.
Qed.

Lemma widens_represents a b v : widens a b -> represents a v -> represents b v \/ out_of_range b v.
Proof.
  intros (f & m & n & Ha & Hb & Hlt).
  destruct a; try discriminate Ha; cbn in Ha; simplify_eq; destruct b; cbn in Hb; simplify_eq; try lia;
    try (left; destruct v; cbn in *; unfold signed, unsigned in *; try done; lia).
  - left. destruct v; cbn in *; try done. by apply float_widens.
  - apply timestamp_widens. lia.
  - left. destruct v; cbn in *; try done. unfold signed in *. destruct H as (d & ? & ->). lia.
  - left. destruct v; cbn in *; try done. eapply decimal_widens; [|done]. lia.
  - left. destruct v; cbn in *; try done. eapply decimal_widens; [|done]. lia.
Qed.

(** A family and a rank are those of one type. *)
Lemma family_rank_inj a b f m : family_rank a = Some (f, m) -> family_rank b = Some (f, m) -> a = b.
Proof.
  intros Ha Hb. destruct a; try discriminate Ha; cbn in Ha; simplify_eq;
    destruct b; cbn in Hb; simplify_eq; try done; destruct unit, unit0; done.
Qed.

Lemma integer_narrow (low high low' high' : Z) :
  (low < high)%Z -> (forall v, (low <= v < high)%Z -> (low' <= v < high')%Z) -> (high <= high')%Z.
Proof. intros Hne Hall. specialize (Hall (high - 1)%Z). lia. Qed.

(** In a family, a type whose values are all values of another ranks no
    higher. *)
Lemma contained_rank a b f m n :
  family_rank a = Some (f, m) -> family_rank b = Some (f, n) ->
  (forall v, represents a v -> represents b v) -> (m <= n)%N.
Proof.
  intros Ha Hb Hall.
  destruct a; try discriminate Ha; cbn in Ha; simplify_eq;
    destruct b; cbn in Hb; simplify_eq; try lia;
    try (exfalso; refine (_ (integer_narrow _ _ _ _ _ (fun n => Hall (VInteger n)))); lia).
  - destruct float_narrow as [H1 H2]. destruct (H2 (Hall (VFloat (Finite 1)) H1)).
  - eapply timestamp_narrow, Hall.
  - destruct (Hall (VDate 1)) as (d & _ & Hd); [cbn; unfold signed |]; lia.
  - eapply decimal_narrow. intros q. exact (Hall (VDecimal q)).
  - eapply decimal_narrow. intros q. exact (Hall (VDecimal q)).
Qed.

(** C39: evolution is lossless, and refuses nothing lossless within a family.
    Every value of a column — integers, floats, dates, decimals with their
    scale, text, bytes, lists, structs — is a value of each type the column may
    evolve to, with the one exception of an instant that does not fit 64 bits
    in the finer unit of the new type.  Conversely a type that holds every value
    of another of its family is an accepted evolution of it. *)
Theorem can_evolve_to_preserves_values a b :
  (can_evolve_to a b = true -> forall v, represents a v -> represents b v \/ out_of_range b v) /\
  (same_family a b -> (forall v, represents a v -> represents b v) -> can_evolve_to a b = true).
Proof.
  rewrite can_evolve_to_families. split.
  - intros [->|Hw] v Hv; [by left | by eapply widens_represents].
  - intros (f & m & n & Ha & Hb) Hall.
    destruct (N.eq_dec m n) as [<-|]; [left; by eapply family_rank_inj | right].
    pose proof (contained_rank _ _ _ _ _ Ha Hb Hall). exists f, m, n. split_and!; [done | done | lia].
Qed.

Lemma can_evolve_to_preserves_values_witness :
  represents Int64 (VInteger (-300)) /\ represents Date64 (VDate 86400000) /\
  represents Float64 (VFloat (Finite (3 * 2 ^ 1073))) /\
  represents (Decimal128 20 2) (VDecimal (decimal 12345 2)) /\ can_evolve_to (Decimal128 9 2) (Decimal128 20 2) = true.
Proof.
  split_and!.
  - destruct (proj1 (can_evolve_to_preserves_values Int16 Int64) eq_refl (VInteger (-300))) as [H|[]];
      [cbn; unfold signed; lia | exact H].
  - destruct (proj1 (can_evolve_to_preserves_values Date32 Date64) eq_refl (VDate 86400000)) as [H|[]];
      [exists 1%Z; unfold signed; lia | exact H].
  - destruct (proj1 (can_evolve_to_preserves_values Float32 Float64) eq_refl (VFloat (Finite (3 * 2 ^ 1073)))) as [H|[]];
      [exists 3%Z, (-1)%Z; split_and!; [lia | lia | lia | reflexivity] | exact H].
  - destruct (proj1 (can_evolve_to_preserves_values (Decimal128 9 2) (Decimal128 20 2)) eq_refl
      (VDecimal (decimal 12345 2))) as [H|[]]; [exists 12345%Z; split; [lia | reflexivity] | exact H].
  - apply (proj2 (can_evolve_to_preserves_values (Decimal128 9 2) (Decimal128 20 2))).
    + exists (FDecimal128 2), 9%N, 20%N. split; reflexivity.
    + intros v. destruct v; try done. apply (decimal_widens 9). lia.
Defined.

(** For timestamps the accepted evolutions are not lossless: a timestamp
    column in seconds may evolve to nanoseconds in the same zone, although some
    representable seconds are out of the 64-bit nanosecond range. *)
Theorem can_evolve_to_timestamp_range tz :
  can_evolve_to (Timestamp Second tz) (Timestamp Nanosecond tz) = true /\
  exists v, represents (Timestamp Second tz) v /\ ~ represents (Timestamp Nanosecond tz) v.
Proof.
  split.
  - apply can_evolve_to_families. right. exists (FTimestamp tz), 0%N, 3%N. done.
  - exists (VTimestamp tz ((2 ^ 63 - 1) * 1000000000)). split.
    + split; [done|]. exists (2 ^ 63 - 1)%Z. unfold signed. cbn. lia.
    + intros (_ & k & Hk & E). unfold signed in Hk. cbn in E. lia.
Qed.

(** *** The encoding *)

Lemma decode_encode `{ArrowIpcLaws} t :
  ipc_safe (placeholder t) = true -> decode_data_type (schema_to_fb (placeholder t)) = Ok t.
Proof. intros Hs. unfold decode_data_type. by rewrite ipc_round_trip. Qed.
