(* ===== verification/Format.v ===== *)
(** * File formats and their write options
      (src/storage/mod.rs, utils.rs, file_format/mod.rs and the
      [parse_write_options] of parquet.rs, lance.rs and vortex.rs)

    The option builders of the Parquet and Vortex crates, the default
    parameters of Lance and the crates' string parsers are third-party code:
    they are the fields of the class [FormatApi]. *)

From S2P Require Import Prelude Error Json.

(** Supported on-disk file formats. *)
Inductive Format : Type :=
  | Parquet
  | Lance
  | Vortex.

#[export] Instance Format_eq_dec : EqDecision Format.
Proof. solve_decision. Defined.

(** [Format::as_str], also the [Display] of [Format]. *)
Definition as_str_format (f : Format) : string :=
  match f with
  | Parquet => "parquet"
  | Lance => "lance"
  | Vortex => "vortex"
  end.

(** [Format::from_str]. *)
Definition format_from_str (s : string) : result StorageError Format :=
  let l := to_lowercase s in
  if String.eqb l "parquet" then Ok Parquet
  else if String.eqb l "lance" then Ok Lance
  else if String.eqb l "vortex" then Ok Vortex
  else Err (SUnsupported ("File format '" +:+ s +:+
              "' is not supported. Supported formats: parquet, lance, vortex")).

(** [parquet::basic::Compression], at the levels the code asks for (the
    defaults). *)
Inductive Compression : Type :=
  | UNCOMPRESSED | SNAPPY | GZIP | BROTLI | LZ4 | ZSTD.

(** [parquet::file::properties::BloomFilterPosition]. *)
Inductive BloomFilterPosition : Type :=
  | AfterRowGroup
  | End.

(** [parse_usize]; [u64] and [usize] have the same width. *)
Definition parse_usize (key : string) (value : Value) : result StorageError N :=
  ok_or (as_u64 value) (SUnsupported (key +:+ " must be an integer")).

Definition parse_compression (value : string) : result StorageError Compression :=
  let l := to_lowercase value in
  if String.eqb l "uncompressed" || String.eqb l "none" then Ok UNCOMPRESSED
  else if String.eqb l "snappy" then Ok SNAPPY
  else if String.eqb l "gzip" then Ok GZIP
  else if String.eqb l "brotli" then Ok BROTLI
  else if String.eqb l "lz4" then Ok LZ4
  else if String.eqb l "zstd" then Ok ZSTD
  else Err (SUnsupported ("Unsupported compression: " +:+ l)).

Definition parse_bloom_filter_position (value : string) :
    result StorageError BloomFilterPosition :=
  let l := to_lowercase value in
  if String.eqb l "afterrowgroup" || String.eqb l "after_row_group" then Ok AfterRowGroup
  else if String.eqb l "end" then Ok End
  else Err (SUnsupported ("Unsupported bloom_filter_position: " +:+ l)).

(** The parts of the format crates the option parsers call. *)
Class FormatApi : Type := {
  WriterPropertiesBuilder : Type;
  WriterProperties : Type;
  WriterVersion : Type;
  builder_default : WriterPropertiesBuilder;
  build : WriterPropertiesBuilder -> WriterProperties;
  set_compression : Compression -> WriterPropertiesBuilder -> WriterPropertiesBuilder;
  set_max_row_group_size : N -> WriterPropertiesBuilder -> WriterPropertiesBuilder;
  set_data_page_size_limit : N -> WriterPropertiesBuilder -> WriterPropertiesBuilder;
  set_data_page_row_count_limit : N -> WriterPropertiesBuilder -> WriterPropertiesBuilder;
  set_write_batch_size : N -> WriterPropertiesBuilder -> WriterPropertiesBuilder;
  set_writer_version : WriterVersion -> WriterPropertiesBuilder -> WriterPropertiesBuilder;
  set_bloom_filter_position :
    BloomFilterPosition -> WriterPropertiesBuilder -> WriterPropertiesBuilder;
  set_created_by : string -> WriterPropertiesBuilder -> WriterPropertiesBuilder;
  set_offset_index_disabled : bool -> WriterPropertiesBuilder -> WriterPropertiesBuilder;
  writer_version_from_str : string -> result string WriterVersion;
  WriteMode : Type;
  write_mode_try_from : string -> option WriteMode;
  default_max_rows_per_file : N;
  default_max_rows_per_group : N;
  default_max_bytes_per_file : N;
  default_mode : WriteMode;
  default_enable_stable_row_ids : bool;
  default_enable_v2_manifest_paths : bool;
  VortexWriteOptions : Type;
  vortex_default : VortexWriteOptions;
  vortex_exclude_dtype : VortexWriteOptions -> VortexWriteOptions
}.

(** The fields of [lance::dataset::WriteParams] the parser assigns. *)
Record WriteParams `{FormatApi} : Type := {
  max_rows_per_file : N;
  max_rows_per_group : N;
  max_bytes_per_file : N;
  mode : WriteMode;
  enable_stable_row_ids : bool;
  enable_v2_manifest_paths : bool
}.

Definition write_params_default `{FormatApi} : WriteParams := {|
  max_rows_per_file := default_max_rows_per_file;
  max_rows_per_group := default_max_rows_per_group;
  max_bytes_per_file := default_max_bytes_per_file;
  mode := default_mode;
  enable_stable_row_ids := default_enable_stable_row_ids;
  enable_v2_manifest_paths := default_enable_v2_manifest_paths
|}.

Definition require_str (key : string) (value : Value) : result StorageError string :=
  ok_or (as_str value) (SUnsupported (key +:+ " must be a string")).

Definition require_bool (key : string) (value : Value) : result StorageError bool :=
  ok_or (as_bool value) (SUnsupported (key +:+ " must be a bool")).

(** The loop [for (key, value) in object] over an accumulator. *)
Fixpoint for_entries {B} (step : B -> string -> Value -> result StorageError B)
    (b : B) (object : Map) : result StorageError B :=
  match object with
  | [] => Ok b
  | (key, value) :: object => b ← step b key value; for_entries step b object
  end.

Module parquet.
Section parquet.
Context `{FormatApi}.

Definition parse_writer_version (value : string) : result StorageError WriterVersion :=
  map_err SUnsupported (writer_version_from_str value).

Definition write_option (builder : WriterPropertiesBuilder) (key : string) (value : Value) :
    result StorageError WriterPropertiesBuilder :=
  if String.eqb key "compression" then
    val ← require_str key value; c ← parse_compression val; Ok (set_compression c builder)
  else if String.eqb key "max_row_group_size" then
    n ← parse_usize key value; Ok (set_max_row_group_size n builder)
  else if String.eqb key "data_page_size_limit" then
    n ← parse_usize key value; Ok (set_data_page_size_limit n builder)
  else if String.eqb key "data_page_row_count_limit" then
    n ← parse_usize key value; Ok (set_data_page_row_count_limit n builder)
  else if String.eqb key "write_batch_size" then
    n ← parse_usize key value; Ok (set_write_batch_size n builder)
  else if String.eqb key "writer_version" then
    val ← require_str key value; v ← parse_writer_version val;
    Ok (set_writer_version v builder)
  else if String.eqb key "bloom_filter_position" then
    val ← require_str key value; p ← parse_bloom_filter_position val;
    Ok (set_bloom_filter_position p builder)
  else if String.eqb key "created_by" then
    val ← require_str key value; Ok (set_created_by val builder)
  else if String.eqb key "offset_index_disabled" then
    val ← require_bool key value; Ok (set_offset_index_disabled val builder)
  else Err (SUnsupported ("Unsupported option '" +:+ key +:+ "' for format 'parquet'")).

Definition parse_write_options (options : option Value) : result StorageError WriterProperties :=
  match options with
  | None => Ok (build builder_default)
  | Some options =>
      object ← ok_or (as_object options) (SUnsupported "format_options must be a JSON object");
      builder ← for_entries write_option builder_default object;
      Ok (build builder)
  end.

End parquet.
End parquet.

Module lance.
Section lance.
Context `{FormatApi}.

Definition parse_write_mode (value : string) : result StorageError WriteMode :=
  ok_or (write_mode_try_from value) (SUnsupported ("Unsupported write mode: " +:+ value)).

Definition write_option (p : WriteParams) (key : string) (value : Value) :
    result StorageError WriteParams :=
  if String.eqb key "max_rows_per_file" then
    n ← parse_usize key value;
    Ok (Build_WriteParams _ n (max_rows_per_group p) (max_bytes_per_file p) (mode p)
          (enable_stable_row_ids p) (enable_v2_manifest_paths p))
  else if String.eqb key "max_rows_per_group" then
    n ← parse_usize key value;
    Ok (Build_WriteParams _ (max_rows_per_file p) n (max_bytes_per_file p) (mode p)
          (enable_stable_row_ids p) (enable_v2_manifest_paths p))
  else if String.eqb key "max_bytes_per_file" then
    n ← parse_usize key value;
    Ok (Build_WriteParams _ (max_rows_per_file p) (max_rows_per_group p) n (mode p)
          (enable_stable_row_ids p) (enable_v2_manifest_paths p))
  else if String.eqb key "mode" then
    val ← require_str key value; m ← parse_write_mode val;
    Ok (Build_WriteParams _ (max_rows_per_file p) (max_rows_per_group p) (max_bytes_per_file p) m
          (enable_stable_row_ids p) (enable_v2_manifest_paths p))
  else if String.eqb key "enable_stable_row_ids" then
    val ← require_bool key value;
    Ok (Build_WriteParams _ (max_rows_per_file p) (max_rows_per_group p) (max_bytes_per_file p)
          (mode p) val (enable_v2_manifest_paths p))
  else if String.eqb key "enable_v2_manifest_paths" then
    val ← require_bool key value;
    Ok (Build_WriteParams _ (max_rows_per_file p) (max_rows_per_group p) (max_bytes_per_file p)
          (mode p) (enable_stable_row_ids p) val)
  else Err (SUnsupported ("Unsupported option '" +:+ key +:+ "' for format 'lance'")).

Definition parse_write_options (options : option Value) : result StorageError WriteParams :=
  match options with
  | None => Ok write_params_default
  | Some options =>
      object ← ok_or (as_object options) (SUnsupported "format_options must be a JSON object");
      for_entries write_option write_params_default object
  end.

End lance.
End lance.

Module vortex.
Section vortex.
Context `{FormatApi}.

Definition write_option (parsed : VortexWriteOptions) (key : string) (value : Value) :
    result StorageError VortexWriteOptions :=
  if String.eqb key "exclude_dtype" then
    val ← require_bool key value;
    Ok (if val : bool then vortex_exclude_dtype parsed else parsed)
  else Err (SUnsupported ("Unsupported option '" +:+ key +:+ "' for format 'vortex'")).

Definition parse_write_options (options : option Value) : result StorageError VortexWriteOptions :=
  match options with
  | None => Ok vortex_default
  | Some options =>
      object ← ok_or (as_object options) (SUnsupported "format_options must be a JSON object");
      for_entries write_option vortex_default object
  end.

End vortex.
End vortex.

(** [validate_format_options]. *)
Definition validate_format_options `{FormatApi} (file_format : string) (options : Value) :
    result StorageError unit :=
  let l := to_lowercase file_format in
  if String.eqb l "parquet" then
    _ ← parquet.parse_write_options (Some options); Ok tt
  else if String.eqb l "lance" then
    _ ← lance.parse_write_options (Some options); Ok tt
  else if String.eqb l "vortex" then
    _ ← vortex.parse_write_options (Some options); Ok tt
  else Err (SUnsupported ("Unsupported file format: " +:+ l)).

(** ** Reference definition of the accepted options

    For each format the option names with the shape of the value they take. *)

Definition one_of (s : string) (l : list string) : bool := existsb (String.eqb s) l.

Definition is_u64 (v : Value) : bool := match v with Num (PosInt _) => true | _ => false end.
Definition is_bool (v : Value) : bool := match v with Bool _ => true | _ => false end.
Definition str_with (p : string -> bool) (v : Value) : bool :=
  match v with Str s => p s | _ => false end.

Definition accepts `{FormatApi} (f : Format) (key : string) (v : Value) : bool :=
  match f with
  | Parquet =>
      if one_of key ["max_row_group_size"; "data_page_size_limit";
                     "data_page_row_count_limit"; "write_batch_size"] then is_u64 v
      else if one_of key ["compression"] then
        str_with (fun s => one_of (to_lowercase s)
          ["uncompressed"; "none"; "snappy"; "gzip"; "brotli"; "lz4"; "zstd"]) v
      else if one_of key ["writer_version"] then
        str_with (fun s => is_ok (writer_version_from_str s)) v
      else if one_of key ["bloom_filter_position"] then
        str_with (fun s => one_of (to_lowercase s) ["afterrowgroup"; "after_row_group"; "end"]) v
      else if one_of key ["created_by"] then str_with (fun _ => true) v
      else if one_of key ["offset_index_disabled"] then is_bool v
      else false
  | Lance =>
      if one_of key ["max_rows_per_file"; "max_rows_per_group"; "max_bytes_per_file"]
      then is_u64 v
      else if one_of key ["mode"] then
        str_with (fun s => match write_mode_try_from s with Some _ => true | None => false end) v
      else if one_of key ["enable_stable_row_ids"; "enable_v2_manifest_paths"] then is_bool v
      else false
  | Vortex => if one_of key ["exclude_dtype"] then is_bool v else false
  end.

(** ** Lemmas and theorems *)

Lemma for_entries_is_ok {B} (step : B -> string -> Value -> result StorageError B) ok b m :
  (forall b k v, is_ok (step b k v) = ok k v) ->
  is_ok (for_entries step b m) = forallb (fun p => ok p.1 p.2) m.
Proof.
  intros Hok. revert b; induction m as [|[k v] m IH]; intros b; cbn; [done|].
  rewrite <- (Hok b). destruct (step b k v) as [b'|e]; cbn; [apply IH | done].
Qed.

Lemma parse_compression_is_ok s :
  is_ok (parse_compression s) = one_of (to_lowercase s)
    ["uncompressed"; "none"; "snappy"; "gzip"; "brotli"; "lz4"; "zstd"].
Proof.
  unfold parse_compression, one_of. cbn [existsb].
  repeat match goal with |- context [String.eqb ?a ?b] => destruct (String.eqb a b); try done end.
Qed.

Lemma parse_bloom_is_ok s :
  is_ok (parse_bloom_filter_position s) = one_of (to_lowercase s)
    ["afterrowgroup"; "after_row_group"; "end"].
Proof.
  unfold parse_bloom_filter_position, one_of. cbn [existsb].
  repeat match goal with |- context [String.eqb ?a ?b] => destruct (String.eqb a b); try done end.
Qed.

Section facts.
Context `{FormatApi}.

Lemma parquet_option_is_ok b k v : is_ok (parquet.write_option b k v) = accepts Parquet k v.
Proof.
  unfold parquet.write_option, accepts, one_of. cbn [existsb].
  destruct (String.eqb k "compression") eqn:E1.
  { apply String.eqb_eq in E1 as ->. destruct v as [| | |s| |]; try done.
    etransitivity; [|exact (parse_compression_is_ok s)].
    cbn -[parse_compression]. by destruct (parse_compression s). }
  destruct (String.eqb k "max_row_group_size") eqn:E2; [by destruct v as [| |[]| | |]|].
  destruct (String.eqb k "data_page_size_limit") eqn:E3; [by destruct v as [| |[]| | |]|].
  destruct (String.eqb k "data_page_row_count_limit") eqn:E4; [by destruct v as [| |[]| | |]|].
  destruct (String.eqb k "write_batch_size") eqn:E5; [by destruct v as [| |[]| | |]|].
  cbn [orb].
  destruct (String.eqb k "writer_version") eqn:E6.
  { destruct v as [| | |s| |]; try done. cbn. unfold parquet.parse_writer_version.
    by destruct (writer_version_from_str s). }
  destruct (String.eqb k "bloom_filter_position") eqn:E7.
  { destruct v as [| | |s| |]; try done.
    etransitivity; [|exact (parse_bloom_is_ok s)].
    cbn -[parse_bloom_filter_position]. by destruct (parse_bloom_filter_position s). }
  destruct (String.eqb k "created_by"); [by destruct v|].
  destruct (String.eqb k "offset_index_disabled"); [by destruct v|done].
Qed.

Lemma lance_option_is_ok b k v : is_ok (lance.write_option b k v) = accepts Lance k v.
Proof.
  unfold lance.write_option, accepts, one_of. cbn [existsb].
  destruct (String.eqb k "max_rows_per_file"); [by destruct v as [| |[]| | |]|].
  destruct (String.eqb k "max_rows_per_group"); [by destruct v as [| |[]| | |]|].
  destruct (String.eqb k "max_bytes_per_file"); [by destruct v as [| |[]| | |]|].
  cbn [orb].
  destruct (String.eqb k "mode").
  { destruct v as [| | |s| |]; try done. cbn. unfold lance.parse_write_mode.
    by destruct (write_mode_try_from s). }
  destruct (String.eqb k "enable_stable_row_ids"); [by destruct v|].
  destruct (String.eqb k "enable_v2_manifest_paths"); [by destruct v|done].
Qed.

Lemma vortex_option_is_ok b k v : is_ok (vortex.write_option b k v) = accepts Vortex k v.
Proof.
  unfold vortex.write_option, accepts, one_of. cbn [existsb].
  destruct (String.eqb k "exclude_dtype"); [by destruct v|done].
Qed.

(** Format names are matched without regard to ASCII case, and only they:
    a string parses to a format exactly when its lower-case form is the
    format's canonical name, so printing a format and parsing it back gives the
    format. *)
Theorem format_from_str_spec s f :
  (format_from_str s = Ok f <-> to_lowercase s = as_str_format f) /\
  format_from_str (as_str_format f) = Ok f.
Proof.
  split; [|by destruct f].
  unfold format_from_str.
  destruct (String.eqb_spec (to_lowercase s) "parquet") as [->|]; [by destruct f|].
  destruct (String.eqb_spec (to_lowercase s) "lance") as [->|]; [by destruct f|].
  destruct (String.eqb_spec (to_lowercase s) "vortex") as [->|]; [by destruct f|].
  split; [done|]. by destruct f.
Qed.

Lemma validate_is_ok f m :
  is_ok (validate_format_options (as_str_format f) (Object m))
  = forallb (fun p => accepts f p.1 p.2) m.
Proof.
  destruct f.
  - etransitivity; [|apply (for_entries_is_ok parquet.write_option _ builder_default), parquet_option_is_ok].
    unfold validate_format_options; cbn -[for_entries].
    by destruct (for_entries parquet.write_option builder_default m).
  - etransitivity; [|apply (for_entries_is_ok lance.write_option _ write_params_default), lance_option_is_ok].
    unfold validate_format_options; cbn -[for_entries].
    by destruct (for_entries lance.write_option write_params_default m).
  - etransitivity; [|apply (for_entries_is_ok vortex.write_option _ vortex_default), vortex_option_is_ok].
    unfold validate_format_options; cbn -[for_entries].
    by destruct (for_entries vortex.write_option vortex_default m).
Qed.

Lemma result_unit_ok {E} (r : result E unit) : r = Ok tt <-> is_ok r = true.
Proof. by destruct r as [[]|]. Qed.

(** [validate_format_options] accepts exactly the JSON objects all of whose
    entries are an option of the format with a value of its shape: an unknown
    option, an ill-typed value or a non-object is rejected, in whatever order
    the entries come. *)
Theorem validate_format_options_spec f v :
  validate_format_options (as_str_format f) v = Ok tt <->
  exists m, v = Object m /\ Forall (fun p => accepts f p.1 p.2 = true) m.
Proof.
  destruct v as [|b|n|s|l|m].
  1-5: (split; [by destruct f | by intros (m & [=] & _)]).
  rewrite result_unit_ok, validate_is_ok, List.forallb_forall, <- List.Forall_forall.
  split; [by eauto | by intros (m' & [= <-] & Hm)].
Qed.

End facts.
