(* ===== verification/Schema.v ===== *)
(** * Row types (src/catalog/schema.rs)

    The structs the catalog returns to its callers, one Module per struct.
    Timestamps ([DateTime<Utc>]) are instants on an integer scale. *)

From S2P Require Import Prelude Uuid Json DataType.

Notation DateTime := Z.

(** Transaction identifier. *)
Notation TxnId := Uuid.

Module Table.
Record t : Type := mk {
  table_uuid : Uuid;
  table_name : string;
  namespace : string;
  location : string;
  current_schema_uuid : option Uuid;
  current_transaction_id : option Uuid;
  created_at : DateTime;
  properties : Value;
  min_reader_version : Z;
  min_writer_version : Z
}.
End Table.

Module Transaction.
Record t : Type := mk {
  transaction_id : Uuid;
  table_uuid : Uuid;
  transaction_timestamp : DateTime;
  parent_transaction_id : option Uuid
}.
End Transaction.

Module Column.
Record t : Type := mk {
  column_uuid : Uuid;
  schema_uuid : Uuid;
  column_name : string;
  column_type : DataType;
  ordinal_position : Z;
  is_nullable : bool
}.
End Column.

Module Schema.
Record t : Type := mk {
  schema_uuid : Uuid;
  table_uuid : Uuid;
  schema_version : Z;
  valid_from_transaction_id : Uuid;
  valid_to_transaction_id : option Uuid;
  created_at : DateTime;
  columns : list Column.t
}.
End Schema.

Module File.
Record t : Type := mk {
  file_uuid : Uuid;
  table_uuid : Uuid;
  file_format : string;
  file_path : string;
  record_count : Z;
  file_size_bytes : Z;
  added_in_transaction_id : Uuid;
  removed_in_transaction_id : option Uuid;
  partition_values : option Value;
  format_options : option Value
}.
End File.

Module TableStats.
Record t : Type := mk {
  table_uuid : Uuid;
  transaction_id : Uuid;
  record_count : Z;
  file_size_bytes : Z;
  file_count : Z;
  last_updated : DateTime
}.
End TableStats.

Module FileColumnStats.
Record t : Type := mk {
  file_uuid : Uuid;
  column_name : string;
  null_count : Z;
  nan_count : Z;
  min_value : option Blob;
  max_value : option Blob;
  distinct_count : option Z
}.
End FileColumnStats.
