(* ===== verification/Models.v ===== *)
(** * Requests and results of the catalog API (src/catalog/models.rs)

    Identifiers, table properties, the specifications a client submits, the
    mutation it builds, the views and events it gets back, and the validation
    functions that guard every write. *)

From S2P Require Import Prelude Uuid Error Limits Json DataType Format Schema.

(** Text renderings by third-party crates, used in error messages only:
    [Uuid: Display], the error of [Uuid::from_slice] and [DataType: Debug]. *)
Class TextApi : Type := {
  uuid_to_string : Uuid -> string;
  uuid_error_to_string : Blob -> string;
  debug_data_type : DataType -> string
}.

Module TableIdent.
Record t : Type := mk {
  namespace : string;
  name : string
}.

Definition to_string (i : t) : string := namespace i +:+ "." +:+ name i.
End TableIdent.

#[export] Instance TableIdent_eq_dec : EqDecision TableIdent.t.
Proof. solve_decision. Defined.

Module TableProperties.
Record t : Type := mk { values : Map }.

Definition new : t := mk [].

Definition from_json (value : Value) : result CatalogError t :=
  match value with
  | Object values => Ok (mk values)
  | _ => Err (InvalidArgument "table properties must be a JSON object")
  end.

Definition to_json (p : t) : Value := Object (values p).

Definition insert (p : t) (key : string) (value : Value) : t :=
  mk (map_insert key value (values p)).

Definition remove (p : t) (key : string) : t := mk (map_remove key (values p)).
End TableProperties.

#[export] Instance TableProperties_eq_dec : EqDecision TableProperties.t.
Proof. solve_decision. Defined.

Module PropertyKey.
Record t : Type := mk { as_str : string }.

Definition new (key : string) : result CatalogError t :=
  if trim_is_empty key then Err (InvalidArgument "property key cannot be empty")
  else Ok (mk key).
End PropertyKey.

#[export] Instance PropertyKey_eq_dec : EqDecision PropertyKey.t.
Proof. solve_decision. Defined.

Module TableView.
Record t : Type := mk {
  ident : TableIdent.t;
  table_uuid : Uuid;
  transaction_id : TxnId;
  schema : Schema.t;
  files : list File.t;
  properties : TableProperties.t;
  stats : option TableStats.t
}.
End TableView.

Module TableDelta.
Record t : Type := mk {
  from_transaction_id : TxnId;
  to_transaction_id : TxnId;
  added_files : list File.t;
  removed_files : list File.t;
  new_schema : option Schema.t;
  new_properties : option TableProperties.t
}.
End TableDelta.

Module TxnRangeCursor.
Record t : Type := mk {
  from_exclusive : option TxnId;
  to_inclusive : TxnId
}.
End TxnRangeCursor.

Inductive TxnFileChangeKind : Type :=
  | Added
  | Removed.

#[export] Instance TxnFileChangeKind_eq_dec : EqDecision TxnFileChangeKind.
Proof. solve_decision. Defined.

Module TxnFileChange.
Record t : Type := mk {
  transaction_id : TxnId;
  kind : TxnFileChangeKind;
  file : File.t
}.
End TxnFileChange.

Module TxnSchemaChange.
Record t : Type := mk {
  transaction_id : TxnId;
  schema : Schema.t
}.
End TxnSchemaChange.

Module TxnEvent.
Record t : Type := mk {
  transaction_id : TxnId;
  file_changes : list TxnFileChange.t;
  schema_change : option TxnSchemaChange.t
}.
End TxnEvent.

Module CommitResult.
Record t : Type := mk {
  transaction_id : TxnId;
  table_view : option TableView.t
}.
End CommitResult.

Module ColumnSpec.
Record t : Type := mk {
  name : string;
  column_type : DataType;
  is_nullable : bool
}.

Definition new (name : string) (column_type : DataType) : t := mk name column_type false.

Definition nullable (c : t) : t := mk (name c) (column_type c) true.
End ColumnSpec.

Module SchemaSpec.
Record t : Type := mk { columns : list ColumnSpec.t }.

Definition new : t := mk [].

Definition with_column (s : t) (column : ColumnSpec.t) : t := mk (columns s ++ [column]).

Definition with_columns (s : t) (cs : list ColumnSpec.t) : t := mk (columns s ++ cs).

(** The loop over the columns with its [seen] set. *)
Fixpoint validate_columns (seen : gset string) (cs : list ColumnSpec.t) :
    result CatalogError unit :=
  match cs with
  | [] => Ok tt
  | column :: cs =>
      if trim_is_empty (ColumnSpec.name column) then
        Err (InvalidArgument "column name cannot be empty")
      else if bool_decide (ColumnSpec.name column ∈ seen) then
        Err (InvalidArgument ("duplicate column name: '" +:+ ColumnSpec.name column +:+ "'"))
      else validate_columns ({[ColumnSpec.name column]} ∪ seen) cs
  end.

Definition validate (s : t) : result CatalogError unit :=
  match columns s with
  | [] => Err (InvalidArgument "schema must include at least one column")
  | _ =>
      if (limits.MAX_COLUMNS_PER_SCHEMA <? as_u32 (length (columns s)))%N then
        Err (LimitExceeded ("schema has " +:+ pretty (length (columns s)) +:+
               " columns, exceeds limit of " +:+ pretty limits.MAX_COLUMNS_PER_SCHEMA))
      else validate_columns ∅ (columns s)
  end.
End SchemaSpec.

Module FileSpec.
Record t : Type := mk {
  file_uuid : option Uuid;
  file_format : Format;
  file_path : string;
  record_count : Z;
  file_size_bytes : Z;
  partition_values : option Value;
  format_options : option Value
}.

Definition new (file_format : Format) (file_path : string)
    (record_count file_size_bytes : Z) : t :=
  mk None file_format file_path record_count file_size_bytes None None.

Definition with_uuid (f : t) (uuid : Uuid) : t :=
  mk (Some uuid) (file_format f) (file_path f) (record_count f) (file_size_bytes f)
    (partition_values f) (format_options f).

Definition with_partition_values (f : t) (v : Value) : t :=
  mk (file_uuid f) (file_format f) (file_path f) (record_count f) (file_size_bytes f)
    (Some v) (format_options f).

Definition with_format_options (f : t) (v : Value) : t :=
  mk (file_uuid f) (file_format f) (file_path f) (record_count f) (file_size_bytes f)
    (partition_values f) (Some v).

Definition check_format_options `{FormatApi} (f : t) (options : Value) :
    result CatalogError unit :=
  map_err (fun err => InvalidArgument (storage_error_to_string err))
    (validate_format_options (as_str_format (file_format f)) options).

Definition with_format_options_checked `{FormatApi} (f : t) (options : Value) :
    result CatalogError t :=
  _ ← check_format_options f options;
  Ok (with_format_options f options).

Definition validate `{FormatApi} (f : t) : result CatalogError unit :=
  _ ← fail_if (trim_is_empty (file_path f)) (InvalidArgument "file path cannot be empty");
  _ ← fail_if (record_count f <? 0)%Z (InvalidArgument "record_count cannot be negative");
  _ ← fail_if (file_size_bytes f <? 0)%Z (InvalidArgument "file_size_bytes cannot be negative");
  _ ← match partition_values f with
      | Some v => fail_if (negb (is_object v))
                    (InvalidArgument "partition_values must be a JSON object")
      | None => Ok tt
      end;
  match format_options f with
  | Some options =>
      _ ← fail_if (negb (is_object options))
            (InvalidArgument "format_options must be a JSON object");
      check_format_options f options
  | None => Ok tt
  end.
End FileSpec.

Inductive MutationOp : Type :=
  | AppendFiles (files : list FileSpec.t)
  | DeleteFiles (file_uuids : list Uuid)
  | UpdateSchema (schema : SchemaSpec.t)
  | SetProperties (properties : TableProperties.t)
  | RemoveProperties (keys : list PropertyKey.t).

Module Mutation.
Record t : Type := mk { operations : list MutationOp }.

Fixpoint validate_uuids `{TextApi} (seen : gset Uuid) (l : list Uuid) : result CatalogError unit :=
  match l with
  | [] => Ok tt
  | file_uuid :: l =>
      if bool_decide (file_uuid ∈ seen) then
        Err (InvalidArgument ("duplicate file UUID in DeleteFiles: " +:+ uuid_to_string file_uuid))
      else validate_uuids ({[file_uuid]} ∪ seen) l
  end.

Fixpoint validate_keys (seen : gset string) (l : list PropertyKey.t) : result CatalogError unit :=
  match l with
  | [] => Ok tt
  | key :: l =>
      if bool_decide (PropertyKey.as_str key ∈ seen) then
        Err (InvalidArgument ("duplicate property key in RemoveProperties: "
                               +:+ PropertyKey.as_str key))
      else validate_keys ({[PropertyKey.as_str key]} ∪ seen) l
  end.

(** The loop over the operations with its two [u32] counters. *)
Fixpoint validate_ops `{TextApi} (update_schema_ops set_properties_ops : N)
    (ops : list MutationOp) : result CatalogError unit :=
  match ops with
  | [] => Ok tt
  | op :: ops =>
      match op with
      | UpdateSchema _ =>
          let update_schema_ops := wrap_u32 (update_schema_ops + 1) in
          if (1 <? update_schema_ops)%N then
            Err (InvalidArgument "mutation can include at most one UpdateSchema operation")
          else validate_ops update_schema_ops set_properties_ops ops
      | SetProperties _ =>
          let set_properties_ops := wrap_u32 (set_properties_ops + 1) in
          if (1 <? set_properties_ops)%N then
            Err (InvalidArgument "mutation can include at most one SetProperties operation")
          else validate_ops update_schema_ops set_properties_ops ops
      | DeleteFiles file_uuids =>
          _ ← validate_uuids ∅ file_uuids;
          validate_ops update_schema_ops set_properties_ops ops
      | RemoveProperties keys =>
          _ ← validate_keys ∅ keys;
          validate_ops update_schema_ops set_properties_ops ops
      | AppendFiles _ => validate_ops update_schema_ops set_properties_ops ops
      end
  end.

Definition validate `{TextApi} (m : t) : result CatalogError unit :=
  validate_ops 0 0 (operations m).

(** The operation list the [MutationBuilder] methods push to. *)
Definition push (m : t) (op : MutationOp) : t := mk (operations m ++ [op]).
End Mutation.

(** ** Validation, characterised *)

Lemma validate_columns_spec seen cs :
  SchemaSpec.validate_columns seen cs = Ok tt <->
  Forall (fun c => trim_is_empty (ColumnSpec.name c) = false) cs /\
  NoDup (ColumnSpec.name <$> cs) /\
  Forall (fun c => ColumnSpec.name c ∉ seen) cs.
Proof.
  revert seen; induction cs as [|c cs IH]; intros seen; cbn.
  { split; [intros _; split_and!; constructor | done]. }
  rewrite !Forall_cons, NoDup_cons.
  destruct (trim_is_empty _); [naive_solver|].
  case_bool_decide as Hin; [naive_solver|].
  rewrite IH, !Forall_forall. setoid_rewrite list_elem_of_fmap. split.
  - intros (Hb & Hd & Hs). split_and!; try done; [|set_solver].
    intros (c' & E & Hc'). apply (Hs c' Hc'). set_solver.
  - intros ([_ Hb] & [Hn Hd] & [_ Hs]). split_and!; try done.
    intros x Hx. rewrite elem_of_union, elem_of_singleton. intros [E|?]; [|by eapply Hs].
    apply Hn. eauto.
Qed.

(** A schema specification is accepted exactly when it has a column, the
    column count (as the [u32] the code compares) is within
    [MAX_COLUMNS_PER_SCHEMA], no column name is blank and no two columns share
    a name. *)
Theorem schema_spec_validate_spec s :
  SchemaSpec.validate s = Ok tt <->
  SchemaSpec.columns s <> [] /\
  (as_u32 (length (SchemaSpec.columns s)) <= limits.MAX_COLUMNS_PER_SCHEMA)%N /\
  Forall (fun c => trim_is_empty (ColumnSpec.name c) = false) (SchemaSpec.columns s) /\
  NoDup (ColumnSpec.name <$> SchemaSpec.columns s).
Proof.
  unfold SchemaSpec.validate. destruct (SchemaSpec.columns s) as [|c cs] eqn:E; [naive_solver|].
  destruct (N.ltb_spec limits.MAX_COLUMNS_PER_SCHEMA (as_u32 (length (c :: cs)))) as [H|H].
  - split; [done | lia].
  - rewrite validate_columns_spec. split; [naive_solver|]. intros (_ & _ & ? & ?).
    split_and!; try done. apply Forall_forall. set_solver.
Qed.

(** A file specification is accepted exactly when its path is not blank,
    its counts are not negative, and its partition values and format options,
    if any, are JSON objects, the latter with options its format accepts. *)
Theorem file_spec_validate_spec `{FormatApi} f :
  FileSpec.validate f = Ok tt <->
  trim_is_empty (FileSpec.file_path f) = false /\
  (0 <= FileSpec.record_count f)%Z /\
  (0 <= FileSpec.file_size_bytes f)%Z /\
  (forall v, FileSpec.partition_values f = Some v -> is_object v = true) /\
  (forall v, FileSpec.format_options f = Some v ->
     exists m, v = Object m /\
       Forall (fun p => accepts (FileSpec.file_format f) p.1 p.2 = true) m).
Proof.
  unfold FileSpec.validate. rewrite !then_ok, !fail_if_ok, !Z.ltb_ge.
  apply and_iff_compat_l, and_iff_compat_l, and_iff_compat_l.
  apply Morphisms_Prop.and_iff_morphism.
  - destruct (FileSpec.partition_values f) as [v|]; [|naive_solver].
    rewrite fail_if_ok, negb_false_iff. naive_solver.
  - destruct (FileSpec.format_options f) as [v|]; [|naive_solver].
    rewrite then_ok, fail_if_ok, negb_false_iff. unfold FileSpec.check_format_options.
    rewrite map_err_ok, validate_format_options_spec. split.
    + intros [_ H'] v' [= <-]. done.
    + intros H'. destruct (H' v eq_refl) as (m & -> & Hm). eauto.
Qed.

Lemma validate_uuids_spec `{TextApi} seen l :
  Mutation.validate_uuids seen l = Ok tt <-> NoDup l /\ Forall (fun u => u ∉ seen) l.
Proof.
  revert seen; induction l as [|u l IH]; intros seen; cbn.
  { split; [intros _; split; constructor | done]. }
  rewrite NoDup_cons, Forall_cons. case_bool_decide as Hin; [naive_solver|].
  rewrite IH, !Forall_forall. set_solver.
Qed.

Lemma validate_keys_spec seen l :
  Mutation.validate_keys seen l = Ok tt <->
  NoDup (PropertyKey.as_str <$> l) /\ Forall (fun k => PropertyKey.as_str k ∉ seen) l.
Proof.
  revert seen; induction l as [|u l IH]; intros seen; cbn.
  { split; [intros _; split; constructor | done]. }
  rewrite NoDup_cons, Forall_cons. case_bool_decide as Hin; [naive_solver|].
  rewrite IH, !Forall_forall, list_elem_of_fmap. split.
  - intros (Hd & Hs). split_and!; try done; [|set_solver].
    intros (k' & E & Hk'). apply (Hs k' Hk'). set_solver.
  - intros ([Hn Hd] & [_ Hs]). split; [done|].
    intros k Hk. rewrite elem_of_union, elem_of_singleton. intros [?|?]; [|by eapply Hs].
    apply Hn. eauto.
Qed.

Definition is_update_schema (op : MutationOp) : bool :=
  match op with UpdateSchema _ => true | _ => false end.
Definition is_set_properties (op : MutationOp) : bool :=
  match op with SetProperties _ => true | _ => false end.

(** The operations' arguments have no repetitions. *)
Definition op_distinct (op : MutationOp) : Prop :=
  match op with
  | DeleteFiles l => NoDup l
  | RemoveProperties l => NoDup (PropertyKey.as_str <$> l)
  | _ => True
  end.

Definition count_ops (p : MutationOp -> bool) (l : list MutationOp) : nat :=
  length (List.filter p l).

Lemma validate_ops_spec `{TextApi} a b ops :
  (a <= 1)%N -> (b <= 1)%N ->
  Mutation.validate_ops a b ops = Ok tt <->
  (N.of_nat (count_ops is_update_schema ops) + a <= 1)%N /\
  (N.of_nat (count_ops is_set_properties ops) + b <= 1)%N /\
  Forall op_distinct ops.
Proof.
  revert a b; induction ops as [|op ops IH]; intros a b Ha Hb.
  { cbn. split; [intros _; split_and!; [lia|lia|constructor] | done]. }
  rewrite Forall_cons.
  destruct op as [l|l|s|p|l]; unfold count_ops;
    cbn [Mutation.validate_ops List.filter is_update_schema is_set_properties op_distinct length];
    fold (count_ops is_update_schema ops) (count_ops is_set_properties ops).
  - rewrite IH by done. naive_solver.
  - rewrite then_ok, validate_uuids_spec, IH by done.
    rewrite (Forall_forall _ l). set_solver.
  - unfold wrap_u32. rewrite N.mod_small by lia. destruct (N.ltb_spec 1 (a + 1)).
    + split; [done|lia].
    + rewrite IH by lia. split; intros (? & ? & ?); split_and!; try done; try lia; naive_solver.
  - unfold wrap_u32. rewrite N.mod_small by lia. destruct (N.ltb_spec 1 (b + 1)).
    + split; [done|lia].
    + rewrite IH by lia. split; intros (? & ? & ?); split_and!; try done; try lia; naive_solver.
  - rewrite then_ok, validate_keys_spec, IH by done.
    rewrite (Forall_forall _ l). set_solver.
Qed.

(** A mutation is accepted exactly when it has at most one [UpdateSchema]
    and one [SetProperties] and none of its [DeleteFiles] and
    [RemoveProperties] names a file or a key twice; appended files are not
    looked at here. *)
Theorem mutation_validate_spec `{TextApi} m :
  Mutation.validate m = Ok tt <->
  count_ops is_update_schema (Mutation.operations m) <= 1 /\
  count_ops is_set_properties (Mutation.operations m) <= 1 /\
  Forall op_distinct (Mutation.operations m).
Proof.
  unfold Mutation.validate. rewrite validate_ops_spec by lia.
  split; intros (? & ? & ?); split_and!; (done || lia).
Qed.

(** A specification with [n] columns of distinct names. *)
Definition wide_schema (n : nat) : SchemaSpec.t :=
  SchemaSpec.mk ((fun i => ColumnSpec.new ("c" +:+ pretty i) Boolean) <$> seq 0 n).

(** The [as u32] cast makes the column limit modular: a specification with
    2^32 + 1 distinct, well-named columns passes validation. *)
Theorem schema_limit_wraps :
  exists s, N.of_nat (length (SchemaSpec.columns s)) = (2 ^ 32 + 1)%N /\
  SchemaSpec.validate s = Ok tt.
Proof.
  assert (exists n, N.of_nat n = (2 ^ 32 + 1)%N) as [n Hn].
  { exists (N.to_nat (2 ^ 32 + 1)). apply N2Nat.id. }
  assert (Hl : N.of_nat (length (SchemaSpec.columns (wide_schema n))) = (2 ^ 32 + 1)%N).
  { unfold wide_schema; cbn [SchemaSpec.columns]. by rewrite length_fmap, length_seq. }
  exists (wide_schema n). split; [exact Hl|]. apply schema_spec_validate_spec. split_and!.
  - intros E. rewrite E in Hl. discriminate Hl.
  - unfold as_u32. rewrite Hl. vm_compute. congruence.
  - unfold wide_schema; cbn [SchemaSpec.columns]. apply Forall_fmap, Forall_true.
    intros i. cbn. by destruct (pretty i) as [|x [|y z]].
  - unfold wide_schema; cbn [SchemaSpec.columns]. rewrite <- list_fmap_compose.
    apply NoDup_fmap_2; [|apply NoDup_seq].
    intros i j E. cbn in E. injection E as E. cbn in E. exact (inj pretty _ _ E).
Qed.
