(* ===== verification/Db.v ===== *)
(** * The metadata database (db/migrations/*/001_initial_schema.sql)

    The relational state the catalog's SQL statements act on.  A table is the
    list of its rows in insertion order; a row is a record of its column
    values, UUIDs and encoded types as binary values, JSON as text.  The
    statements below are the ones of src/catalog/mod.rs; each checks the
    constraints the migrations declare (primary keys, UNIQUE, foreign keys) and
    fails with the engine's error, leaving the database unchanged, when one
    would be violated.  Foreign keys have no ON DELETE action, so a referenced
    row cannot be deleted; they are enforced on both backends
    ([PRAGMA foreign_keys = ON] on SQLite). *)

From S2P Require Import Prelude Uuid Error Schema.

Module TableRow.
Record t : Type := mk {
  table_uuid : Blob;
  table_name : string;
  namespace : string;
  location : string;
  current_schema_uuid : option Blob;
  current_transaction_id : option Blob;
  created_at : DateTime;
  properties : option string;
  min_reader_version : Z;
  min_writer_version : Z
}.
End TableRow.

Module TransactionRow.
Record t : Type := mk {
  transaction_id : Blob;
  table_uuid : Blob;
  transaction_timestamp : DateTime;
  parent_transaction_id : option Blob
}.
End TransactionRow.

Module SchemaRow.
Record t : Type := mk {
  schema_uuid : Blob;
  table_uuid : Blob;
  schema_version : Z;
  valid_from_transaction_id : Blob;
  valid_to_transaction_id : option Blob;
  created_at : DateTime
}.
End SchemaRow.

Module ColumnRow.
Record t : Type := mk {
  column_uuid : Blob;
  schema_uuid : Blob;
  column_name : string;
  column_type : Blob;
  ordinal_position : Z;
  is_nullable : bool
}.
End ColumnRow.

Module FileRow.
Record t : Type := mk {
  file_uuid : Blob;
  table_uuid : Blob;
  file_format : string;
  file_path : string;
  record_count : Z;
  file_size_bytes : Z;
  added_in_transaction_id : Blob;
  removed_in_transaction_id : option Blob;
  partition_values : option string;
  format_options : option string
}.
End FileRow.

Module StatsRow.
Record t : Type := mk {
  table_uuid : Blob;
  transaction_id : Blob;
  record_count : Z;
  file_size_bytes : Z;
  file_count : Z;
  last_updated : DateTime
}.
End StatsRow.

#[export] Instance TableRow_eq_dec : EqDecision TableRow.t.
Proof. solve_decision. Defined.
#[export] Instance TransactionRow_eq_dec : EqDecision TransactionRow.t.
Proof. solve_decision. Defined.
#[export] Instance SchemaRow_eq_dec : EqDecision SchemaRow.t.
Proof. solve_decision. Defined.
#[export] Instance ColumnRow_eq_dec : EqDecision ColumnRow.t.
Proof. solve_decision. Defined.
#[export] Instance FileRow_eq_dec : EqDecision FileRow.t.
Proof. solve_decision. Defined.

Record Db : Type := mk_db {
  tables : list TableRow.t;
  transactions : list TransactionRow.t;
  schemas : list SchemaRow.t;
  columns : list ColumnRow.t;
  files : list FileRow.t;
  table_stats : list StatsRow.t
}.

Definition empty_db : Db := mk_db [] [] [] [] [] [].

(** ** Rows by key *)

Notation beq a b := (bool_decide (a = b)).

Definition has_table (db : Db) (u : Blob) : bool :=
  existsb (fun r => beq (TableRow.table_uuid r) u) (tables db).

Definition has_transaction (db : Db) (u : Blob) : bool :=
  existsb (fun r => beq (TransactionRow.transaction_id r) u) (transactions db).

Definition has_schema (db : Db) (u : Blob) : bool :=
  existsb (fun r => beq (SchemaRow.schema_uuid r) u) (schemas db).

(** A nullable foreign key. *)
Definition opt_ref (p : Blob -> bool) (o : option Blob) : bool :=
  match o with Some u => p u | None => true end.

(** ** INSERT *)

Definition insert_table (r : TableRow.t) (db : Db) : result SqlxError Db :=
  if has_table db (TableRow.table_uuid r) then Err (UniqueViolation "tables.table_uuid")
  else if existsb (fun r' => beq (TableRow.namespace r') (TableRow.namespace r)
                             && beq (TableRow.table_name r') (TableRow.table_name r)) (tables db)
  then Err (UniqueViolation "tables.namespace, tables.table_name")
  else Ok (mk_db (tables db ++ [r]) (transactions db) (schemas db) (columns db) (files db)
             (table_stats db)).

Definition insert_transaction (r : TransactionRow.t) (db : Db) : result SqlxError Db :=
  if has_transaction db (TransactionRow.transaction_id r)
  then Err (UniqueViolation "transactions.transaction_id")
  else if negb (has_table db (TransactionRow.table_uuid r)
                && opt_ref (has_transaction db) (TransactionRow.parent_transaction_id r))
  then Err (ForeignKeyViolation "transactions")
  else Ok (mk_db (tables db) (transactions db ++ [r]) (schemas db) (columns db) (files db)
             (table_stats db)).

Definition insert_schema (r : SchemaRow.t) (db : Db) : result SqlxError Db :=
  if has_schema db (SchemaRow.schema_uuid r) then Err (UniqueViolation "schemas.schema_uuid")
  else if negb (has_table db (SchemaRow.table_uuid r)
                && has_transaction db (SchemaRow.valid_from_transaction_id r)
                && opt_ref (has_transaction db) (SchemaRow.valid_to_transaction_id r))
  then Err (ForeignKeyViolation "schemas")
  else Ok (mk_db (tables db) (transactions db) (schemas db ++ [r]) (columns db) (files db)
             (table_stats db)).

Definition insert_column (r : ColumnRow.t) (db : Db) : result SqlxError Db :=
  if existsb (fun r' => beq (ColumnRow.column_uuid r') (ColumnRow.column_uuid r)) (columns db)
  then Err (UniqueViolation "columns.column_uuid")
  else if existsb (fun r' => beq (ColumnRow.schema_uuid r') (ColumnRow.schema_uuid r)
                             && beq (ColumnRow.column_name r') (ColumnRow.column_name r))
            (columns db)
  then Err (UniqueViolation "columns.schema_uuid, columns.column_name")
  else if negb (has_schema db (ColumnRow.schema_uuid r))
  then Err (ForeignKeyViolation "columns")
  else Ok (mk_db (tables db) (transactions db) (schemas db) (columns db ++ [r]) (files db)
             (table_stats db)).

Definition insert_file (r : FileRow.t) (db : Db) : result SqlxError Db :=
  if existsb (fun r' => beq (FileRow.file_uuid r') (FileRow.file_uuid r)) (files db)
  then Err (UniqueViolation "files.file_uuid")
  else if negb (has_table db (FileRow.table_uuid r)
                && has_transaction db (FileRow.added_in_transaction_id r)
                && opt_ref (has_transaction db) (FileRow.removed_in_transaction_id r))
  then Err (ForeignKeyViolation "files")
  else Ok (mk_db (tables db) (transactions db) (schemas db) (columns db) (files db ++ [r])
             (table_stats db)).

(** A multi-row INSERT: the statement fails as a whole when a row does. *)
Fixpoint insert_rows {R} (insert : R -> Db -> result SqlxError Db) (rs : list R) (db : Db) :
    result SqlxError Db :=
  match rs with
  | [] => Ok db
  | r :: rs => db ← insert r db; insert_rows insert rs db
  end.

(** ** UPDATE *)

(** [UPDATE tables SET current_schema_uuid = s, current_transaction_id = t
    WHERE table_uuid = u], with [properties] too when given. *)
Definition update_table_head (u : Blob) (s t : option Blob) (props : option string) (db : Db) :
    result SqlxError Db :=
  Ok (mk_db
    ((fun r => if beq (TableRow.table_uuid r) u then
        TableRow.mk (TableRow.table_uuid r) (TableRow.table_name r) (TableRow.namespace r)
          (TableRow.location r) s t (TableRow.created_at r)
          (match props with Some p => Some p | None => TableRow.properties r end)
          (TableRow.min_reader_version r) (TableRow.min_writer_version r)
      else r) <$> tables db)
    (transactions db) (schemas db) (columns db) (files db) (table_stats db)).

(** [UPDATE schemas SET valid_to_transaction_id = t WHERE schema_uuid = s]. *)
Definition update_schema_valid_to (t s : Blob) (db : Db) : result SqlxError Db :=
  if has_schema db s && negb (has_transaction db t) then Err (ForeignKeyViolation "schemas")
  else Ok (mk_db (tables db) (transactions db)
    ((fun r => if beq (SchemaRow.schema_uuid r) s then
        SchemaRow.mk (SchemaRow.schema_uuid r) (SchemaRow.table_uuid r)
          (SchemaRow.schema_version r) (SchemaRow.valid_from_transaction_id r) (Some t)
          (SchemaRow.created_at r)
      else r) <$> schemas db)
    (columns db) (files db) (table_stats db)).

(** [WHERE table_uuid = u AND removed_in_transaction_id IS NULL AND file_uuid IN (us)]. *)
Definition deletes (u : Blob) (us : list Blob) (r : FileRow.t) : bool :=
  beq (FileRow.table_uuid r) u
  && beq (FileRow.removed_in_transaction_id r) None
  && existsb (fun x => beq x (FileRow.file_uuid r)) us.

Definition set_removed (t : Blob) (r : FileRow.t) : FileRow.t :=
  FileRow.mk (FileRow.file_uuid r) (FileRow.table_uuid r) (FileRow.file_format r)
    (FileRow.file_path r) (FileRow.record_count r) (FileRow.file_size_bytes r)
    (FileRow.added_in_transaction_id r) (Some t) (FileRow.partition_values r)
    (FileRow.format_options r).

(** [UPDATE files SET removed_in_transaction_id = t WHERE ...]. *)
Definition update_files_removed (t u : Blob) (us : list Blob) (db : Db) : result SqlxError Db :=
  if existsb (deletes u us) (files db) && negb (has_transaction db t)
  then Err (ForeignKeyViolation "files")
  else Ok (mk_db (tables db) (transactions db) (schemas db) (columns db)
    ((fun r => if deletes u us r then set_removed t r else r) <$> files db)
    (table_stats db)).

(** ** DELETE *)

Definition named (ns name : string) (r : TableRow.t) : bool :=
  beq (TableRow.namespace r) ns && beq (TableRow.table_name r) name.

(** A row of a child table references the table [u]. *)
Definition referenced (db : Db) (u : Blob) : bool :=
  existsb (fun r => beq (TransactionRow.table_uuid r) u) (transactions db)
  || existsb (fun r => beq (SchemaRow.table_uuid r) u) (schemas db)
  || existsb (fun r => beq (FileRow.table_uuid r) u) (files db)
  || existsb (fun r => beq (StatsRow.table_uuid r) u) (table_stats db).

(** [DELETE FROM tables WHERE namespace = ns AND table_name = name], with the
    number of affected rows. *)
Definition delete_table (ns name : string) (db : Db) : result SqlxError (nat * Db) :=
  let gone := List.filter (named ns name) (tables db) in
  if existsb (fun r => referenced db (TableRow.table_uuid r)) gone
  then Err (ForeignKeyViolation "tables")
  else Ok (length gone,
    mk_db (List.filter (fun r => negb (named ns name r)) (tables db)) (transactions db)
      (schemas db) (columns db) (files db) (table_stats db)).

(** ** SELECT: the rows a WHERE clause keeps *)

Definition select_table (ns name : string) (db : Db) : list TableRow.t :=
  List.filter (named ns name) (tables db).

Definition select_tables_in (ns : string) (db : Db) : list TableRow.t :=
  List.filter (fun r => beq (TableRow.namespace r) ns) (tables db).

(** [WHERE table_uuid = u AND transaction_id = t]. *)
Definition select_transaction (u t : Blob) (db : Db) : list TransactionRow.t :=
  List.filter (fun r => beq (TransactionRow.table_uuid r) u
                        && beq (TransactionRow.transaction_id r) t) (transactions db).

Definition select_files_added (u t : Blob) (db : Db) : list FileRow.t :=
  List.filter (fun r => beq (FileRow.table_uuid r) u
                        && beq (FileRow.added_in_transaction_id r) t) (files db).

Definition select_files_removed (u t : Blob) (db : Db) : list FileRow.t :=
  List.filter (fun r => beq (FileRow.table_uuid r) u
                        && beq (FileRow.removed_in_transaction_id r) (Some t)) (files db).

(** [added_in_transaction_id <= t AND (removed_in_transaction_id IS NULL OR
    removed_in_transaction_id > t)], and the same for schemas. *)
Definition valid_at (t from : Blob) (to : option Blob) : bool :=
  blob_le from t && match to with None => true | Some x => blob_lt t x end.

Definition select_files_at (u t : Blob) (db : Db) : list FileRow.t :=
  List.filter (fun r => beq (FileRow.table_uuid r) u
    && valid_at t (FileRow.added_in_transaction_id r) (FileRow.removed_in_transaction_id r))
    (files db).

Definition select_schemas_at (u t : Blob) (db : Db) : list SchemaRow.t :=
  List.filter (fun r => beq (SchemaRow.table_uuid r) u
    && valid_at t (SchemaRow.valid_from_transaction_id r) (SchemaRow.valid_to_transaction_id r))
    (schemas db).

(** [WHERE table_uuid = u AND valid_from_transaction_id = t]. *)
Definition select_schemas_from (u t : Blob) (db : Db) : list SchemaRow.t :=
  List.filter (fun r => beq (SchemaRow.table_uuid r) u
    && beq (SchemaRow.valid_from_transaction_id r) t) (schemas db).

Definition select_schema (s : Blob) (db : Db) : list SchemaRow.t :=
  List.filter (fun r => beq (SchemaRow.schema_uuid r) s) (schemas db).

Definition select_columns (s : Blob) (db : Db) : list ColumnRow.t :=
  List.filter (fun r => beq (ColumnRow.schema_uuid r) s) (columns db).

(** [WHERE table_uuid = u AND transaction_id = t]. *)
Definition select_stats (u t : Blob) (db : Db) : list StatsRow.t :=
  List.filter (fun r => beq (StatsRow.table_uuid r) u
                        && beq (StatsRow.transaction_id r) t) (table_stats db).
