(* ===== verification/DbFacts.v ===== *)
(** * Facts about the metadata database

    What each statement of Db.v does when it succeeds, and the relational
    integrity [db_ok] — primary keys, UNIQUE constraints, foreign keys — that
    every statement preserves. *)

From S2P Require Import Prelude Uuid Error Schema Db.

(** ** Keys *)

Lemma beq_true {A} `{EqDecision A} (a b : A) : beq a b = true <-> a = b.
Proof. apply bool_decide_eq_true. Qed.

Lemma beq_false {A} `{EqDecision A} (a b : A) : beq a b = false <-> a <> b.
Proof. apply bool_decide_eq_false. Qed.

Lemma beq_refl {A} `{EqDecision A} (a : A) : beq a a = true.
Proof. by apply beq_true. Qed.

Lemma existsb_key {R K} `{EqDecision K} (f : R -> K) u l :
  existsb (fun r => beq (f r) u) l = true <-> u ∈ f <$> l.
Proof.
  rewrite existsb_exists, list_elem_of_fmap. setoid_rewrite beq_true.
  setoid_rewrite list_elem_of_In. naive_solver.
Qed.

Lemma existsb_key_false {R K} `{EqDecision K} (f : R -> K) u l :
  existsb (fun r => beq (f r) u) l = false <-> u ∉ f <$> l.
Proof. rewrite <- existsb_key. destruct (existsb _ l); naive_solver. Qed.

Lemma existsb_pair_false {R K L} `{EqDecision K, EqDecision L} (f : R -> K) (g : R -> L) u v l :
  existsb (fun r => beq (f r) u && beq (g r) v) l = false <-> (u, v) ∉ (fun r => (f r, g r)) <$> l.
Proof.
  rewrite <- (existsb_key_false (fun r => (f r, g r))).
  assert (forall b c : bool, (b = true <-> c = true) -> b = false <-> c = false) as Hb
    by (intros [] []; naive_solver).
  apply Hb. rewrite !existsb_exists. setoid_rewrite andb_true_iff. setoid_rewrite beq_true.
  naive_solver.
Qed.

Lemma nodup_snoc {A} (l : list A) x : NoDup (l ++ [x]) <-> NoDup l /\ x ∉ l.
Proof.
  rewrite NoDup_app. split.
  - intros (H & Hd & _). split; [done|]. intros Hx. apply (Hd x Hx). set_solver.
  - intros [H Hx]. split_and!; [done | set_solver | apply NoDup_singleton].
Qed.

Lemma elem_of_filter' {A} (p : A -> bool) l x : x ∈ List.filter p l <-> x ∈ l /\ p x = true.
Proof. rewrite !list_elem_of_In. apply filter_In. Qed.

Lemma filter_all_true {A} (p : A -> bool) l : (forall x, x ∈ l -> p x = true) -> List.filter p l = l.
Proof.
  induction l as [|x l IH]; intros Hp; cbn; [done|].
  rewrite (Hp x) by left. f_equal. apply IH. intros y Hy. apply Hp. by right.
Qed.

Lemma filter_all_false {A} (p : A -> bool) l :
  (forall x, x ∈ l -> p x = false) -> List.filter p l = [].
Proof.
  induction l as [|x l IH]; intros Hp; cbn; [done|].
  rewrite (Hp x) by left. apply IH. intros y Hy. apply Hp. by right.
Qed.

Lemma filter_fmap_key {A B} (p : A -> bool) (f : A -> B) l :
  (f <$> List.filter p l) ⊆ (f <$> l).
Proof. intros x. rewrite !list_elem_of_fmap. setoid_rewrite elem_of_filter'. naive_solver. Qed.

Lemma filter_fmap_nodup {A B} (p : A -> bool) (f : A -> B) l :
  NoDup (f <$> l) -> NoDup (f <$> List.filter p l).
Proof.
  induction l as [|x l IH]; cbn; [done|]. rewrite NoDup_cons. intros [Hn Hd].
  destruct (p x); cbn; [|auto]. apply NoDup_cons. split; [|auto].
  intros H. by apply Hn, (filter_fmap_key p).
Qed.

(** A row found by a key that is unique is the only one. *)
Lemma filter_permutation {A} (p : A -> bool) l k : l ≡ₚ k -> List.filter p l ≡ₚ List.filter p k.
Proof.
  induction 1 as [|x l k _ IH|x y l|l1 l2 l3 _ IH1 _ IH2]; cbn; [done | | |by rewrite IH1].
  - destruct (p x); [by constructor | done].
  - destruct (p x), (p y); try done. constructor.
Qed.

(** Rows with the same key are the same row. *)
Lemma nodup_fmap_inj {R K} (f : R -> K) l r r' :
  NoDup (f <$> l) -> r ∈ l -> r' ∈ l -> f r = f r' -> r = r'.
Proof.
  intros Hn (i & Hi)%list_elem_of_lookup (j & Hj)%list_elem_of_lookup E.
  assert (i = j) as <-; [|congruence].
  eapply (NoDup_lookup (f <$> l)); [done | |]; rewrite list_lookup_fmap; [by rewrite Hi | rewrite Hj].
  cbn. congruence.
Qed.

Lemma filter_unique {R K} (f : R -> K) (p : R -> bool) l r :
  NoDup (f <$> l) -> r ∈ l -> p r = true -> (forall r', r' ∈ l -> p r' = true -> f r' = f r) ->
  List.filter p l = [r].
Proof.
  induction l as [|x l IH]; cbn; [by rewrite elem_of_nil|].
  rewrite NoDup_cons, elem_of_cons. intros [Hn Hd] Hr Hp Hu.
  destruct (p x) eqn:Hx.
  - assert (f x = f r) as Hf by (apply Hu; [left | done]).
    destruct Hr as [-> | Hr].
    + f_equal. destruct (List.filter p l) as [|y l'] eqn:E; [done|]. exfalso.
      assert (y ∈ List.filter p l) as [Hy Hpy]%elem_of_filter' by (rewrite E; left).
      apply Hn. rewrite <- (Hu y); [|by right | done]. by apply list_elem_of_fmap_2.
    + exfalso. apply Hn. rewrite Hf. by apply list_elem_of_fmap_2.
  - destruct Hr as [-> | Hr]; [congruence|]. apply IH; try done. intros r' Hr'. apply Hu. by right.
Qed.

Lemma has_table_spec d u : has_table d u = true <-> u ∈ TableRow.table_uuid <$> tables d.
Proof. apply existsb_key. Qed.

Lemma has_transaction_spec d u :
  has_transaction d u = true <-> u ∈ TransactionRow.transaction_id <$> transactions d.
Proof. apply existsb_key. Qed.

Lemma has_schema_spec d u : has_schema d u = true <-> u ∈ SchemaRow.schema_uuid <$> schemas d.
Proof. apply existsb_key. Qed.

Definition opt_in (o : option Blob) (l : list Blob) : Prop :=
  match o with Some u => u ∈ l | None => True end.

Lemma opt_ref_spec p l o :
  (forall u, p u = true <-> u ∈ l) -> opt_ref p o = true <-> opt_in o l.
Proof. intros H. destruct o; cbn; [apply H | naive_solver]. Qed.

(** ** Successful statements *)

Notation table_keys d := (TableRow.table_uuid <$> tables d).
Notation txn_keys d := (TransactionRow.transaction_id <$> transactions d).
Notation schema_keys d := (SchemaRow.schema_uuid <$> schemas d).
Notation table_names d := ((fun r => (TableRow.namespace r, TableRow.table_name r)) <$> tables d).
Notation column_names d :=
  ((fun r => (ColumnRow.schema_uuid r, ColumnRow.column_name r)) <$> columns d).

Lemma insert_table_ok r d d' :
  insert_table r d = Ok d' <->
  TableRow.table_uuid r ∉ table_keys d /\
  (TableRow.namespace r, TableRow.table_name r) ∉ table_names d /\
  d' = mk_db (tables d ++ [r]) (transactions d) (schemas d) (columns d) (files d) (table_stats d).
Proof.
  unfold insert_table, has_table.
  rewrite <- existsb_key_false, <- existsb_pair_false.
  destruct (existsb _ (tables d)); [naive_solver|].
  destruct (existsb _ (tables d)); naive_solver.
Qed.

Lemma insert_transaction_ok r d d' :
  insert_transaction r d = Ok d' <->
  TransactionRow.transaction_id r ∉ txn_keys d /\
  TransactionRow.table_uuid r ∈ table_keys d /\
  opt_in (TransactionRow.parent_transaction_id r) (txn_keys d) /\
  d' = mk_db (tables d) (transactions d ++ [r]) (schemas d) (columns d) (files d) (table_stats d).
Proof.
  unfold insert_transaction.
  rewrite <- existsb_key_false, <- has_table_spec, <- (opt_ref_spec _ _ _ (has_transaction_spec d)).
  fold (has_transaction d (TransactionRow.transaction_id r)).
  destruct (has_transaction _ _), (has_table _ _), (opt_ref _ _); cbn; naive_solver.
Qed.

Lemma insert_schema_ok r d d' :
  insert_schema r d = Ok d' <->
  SchemaRow.schema_uuid r ∉ schema_keys d /\
  SchemaRow.table_uuid r ∈ table_keys d /\
  SchemaRow.valid_from_transaction_id r ∈ txn_keys d /\
  opt_in (SchemaRow.valid_to_transaction_id r) (txn_keys d) /\
  d' = mk_db (tables d) (transactions d) (schemas d ++ [r]) (columns d) (files d) (table_stats d).
Proof.
  unfold insert_schema.
  rewrite <- existsb_key_false, <- has_table_spec, <- has_transaction_spec,
    <- (opt_ref_spec _ _ _ (has_transaction_spec d)).
  fold (has_schema d (SchemaRow.schema_uuid r)).
  destruct (has_schema _ _), (has_table _ _), (has_transaction _ _), (opt_ref _ _); cbn; naive_solver.
Qed.

Lemma insert_column_ok r d d' :
  insert_column r d = Ok d' <->
  ColumnRow.column_uuid r ∉ ColumnRow.column_uuid <$> columns d /\
  (ColumnRow.schema_uuid r, ColumnRow.column_name r) ∉ column_names d /\
  ColumnRow.schema_uuid r ∈ schema_keys d /\
  d' = mk_db (tables d) (transactions d) (schemas d) (columns d ++ [r]) (files d) (table_stats d).
Proof.
  unfold insert_column.
  rewrite <- existsb_key_false, <- existsb_pair_false, <- has_schema_spec.
  destruct (existsb _ (columns d)); [naive_solver|].
  destruct (existsb _ (columns d)), (has_schema _ _); cbn; naive_solver.
Qed.

Lemma insert_file_ok r d d' :
  insert_file r d = Ok d' <->
  FileRow.file_uuid r ∉ FileRow.file_uuid <$> files d /\
  FileRow.table_uuid r ∈ table_keys d /\
  FileRow.added_in_transaction_id r ∈ txn_keys d /\
  opt_in (FileRow.removed_in_transaction_id r) (txn_keys d) /\
  d' = mk_db (tables d) (transactions d) (schemas d) (columns d) (files d ++ [r]) (table_stats d).
Proof.
  unfold insert_file.
  rewrite <- existsb_key_false, <- has_table_spec, <- has_transaction_spec,
    <- (opt_ref_spec _ _ _ (has_transaction_spec d)).
  destruct (existsb _ _), (has_table _ _), (has_transaction _ _), (opt_ref _ _); cbn; naive_solver.
Qed.

Lemma insert_rows_app {R} (ins : R -> Db -> result SqlxError Db) xs ys d :
  insert_rows ins (xs ++ ys) d = (insert_rows ins xs d ≫= insert_rows ins ys).
Proof.
  revert d; induction xs as [|x xs IH]; intros d; cbn; [done|].
  destruct (ins x d); cbn; [apply IH | done].
Qed.

Lemma insert_files_ok rs d d' :
  insert_rows insert_file rs d = Ok d' ->
  d' = mk_db (tables d) (transactions d) (schemas d) (columns d) (files d ++ rs) (table_stats d).
Proof.
  revert d; induction rs as [|r rs IH]; intros d; cbn.
  - intros [= <-]. rewrite app_nil_r. by destruct d.
  - rewrite bind_ok. intros (d1 & (_ & _ & _ & _ & ->)%insert_file_ok & H). apply IH in H as ->.
    cbn. by rewrite <- app_assoc.
Qed.

Lemma insert_columns_ok rs d d' :
  insert_rows insert_column rs d = Ok d' ->
  d' = mk_db (tables d) (transactions d) (schemas d) (columns d ++ rs) (files d) (table_stats d).
Proof.
  revert d; induction rs as [|r rs IH]; intros d; cbn.
  - intros [= <-]. rewrite app_nil_r. by destruct d.
  - rewrite bind_ok. intros (d1 & (_ & _ & _ & ->)%insert_column_ok & H). apply IH in H as ->.
    cbn. by rewrite <- app_assoc.
Qed.

(** The rows an UPDATE rewrites. *)
Definition set_valid_to (t s : Blob) (r : SchemaRow.t) : SchemaRow.t :=
  if beq (SchemaRow.schema_uuid r) s then
    SchemaRow.mk (SchemaRow.schema_uuid r) (SchemaRow.table_uuid r)
      (SchemaRow.schema_version r) (SchemaRow.valid_from_transaction_id r) (Some t)
      (SchemaRow.created_at r)
  else r.

Definition set_head (u : Blob) (s t : option Blob) (props : option string) (r : TableRow.t) :
    TableRow.t :=
  if beq (TableRow.table_uuid r) u then
    TableRow.mk (TableRow.table_uuid r) (TableRow.table_name r) (TableRow.namespace r)
      (TableRow.location r) s t (TableRow.created_at r)
      (match props with Some p => Some p | None => TableRow.properties r end)
      (TableRow.min_reader_version r) (TableRow.min_writer_version r)
  else r.

Definition mark_removed (t u : Blob) (us : list Blob) (r : FileRow.t) : FileRow.t :=
  if deletes u us r then set_removed t r else r.

Lemma update_table_head_ok u s t props d d' :
  update_table_head u s t props d = Ok d' <->
  d' = mk_db (set_head u s t props <$> tables d) (transactions d) (schemas d) (columns d) (files d)
         (table_stats d).
Proof. unfold update_table_head. naive_solver. Qed.

Lemma update_schema_valid_to_ok t s d d' :
  update_schema_valid_to t s d = Ok d' <->
  (s ∈ schema_keys d -> t ∈ txn_keys d) /\
  d' = mk_db (tables d) (transactions d) (set_valid_to t s <$> schemas d) (columns d) (files d)
         (table_stats d).
Proof.
  unfold update_schema_valid_to. rewrite <- has_schema_spec, <- has_transaction_spec.
  destruct (has_schema _ _), (has_transaction _ _); cbn; naive_solver.
Qed.

Lemma update_files_removed_ok t u us d d' :
  update_files_removed t u us d = Ok d' <->
  (existsb (deletes u us) (files d) = true -> t ∈ txn_keys d) /\
  d' = mk_db (tables d) (transactions d) (schemas d) (columns d)
         (mark_removed t u us <$> files d) (table_stats d).
Proof.
  unfold update_files_removed. rewrite <- has_transaction_spec.
  destruct (existsb _ _), (has_transaction _ _); cbn; naive_solver.
Qed.

(** ** Relational integrity *)

Record db_ok (d : Db) : Prop := {
  ok_table_pk : NoDup (table_keys d);
  ok_table_name : NoDup (table_names d);
  ok_txn_pk : NoDup (txn_keys d);
  ok_schema_pk : NoDup (schema_keys d);
  ok_column_pk : NoDup (ColumnRow.column_uuid <$> columns d);
  ok_column_name : NoDup (column_names d);
  ok_file_pk : NoDup (FileRow.file_uuid <$> files d);
  ok_txn_fk : Forall (fun r => TransactionRow.table_uuid r ∈ table_keys d /\
    opt_in (TransactionRow.parent_transaction_id r) (txn_keys d)) (transactions d);
  ok_schema_fk : Forall (fun r => SchemaRow.table_uuid r ∈ table_keys d /\
    SchemaRow.valid_from_transaction_id r ∈ txn_keys d /\
    opt_in (SchemaRow.valid_to_transaction_id r) (txn_keys d)) (schemas d);
  ok_column_fk : Forall (fun r => ColumnRow.schema_uuid r ∈ schema_keys d) (columns d);
  ok_file_fk : Forall (fun r => FileRow.table_uuid r ∈ table_keys d /\
    FileRow.added_in_transaction_id r ∈ txn_keys d /\
    opt_in (FileRow.removed_in_transaction_id r) (txn_keys d)) (files d)
}.

Lemma opt_in_mono o l k : l ⊆ k -> opt_in o l -> opt_in o k.
Proof. destruct o; cbn; set_solver. Qed.

Ltac db_ok_split :=
  constructor; cbn [tables transactions schemas columns files table_stats];
  rewrite ?fmap_app; cbn [fmap list_fmap];
  rewrite ?nodup_snoc, ?Forall_app, ?Forall_singleton; try done;
  try (split; [done | done]).

Lemma empty_db_ok : db_ok empty_db.
Proof. constructor; constructor. Qed.

Lemma insert_table_db_ok r d d' : insert_table r d = Ok d' -> db_ok d -> db_ok d'.
Proof.
  intros (Hk & Hn & ->)%insert_table_ok []. db_ok_split;
    (eapply Forall_impl; [eassumption|]); cbn; intros; set_solver.
Qed.

Lemma insert_transaction_db_ok r d d' : insert_transaction r d = Ok d' -> db_ok d -> db_ok d'.
Proof.
  intros (Hk & Ht & Hp & ->)%insert_transaction_ok []. db_ok_split.
  - split; [eapply Forall_impl; [eassumption|]; cbn; intros x [? ?]; split; [done|] |split; [done|]];
      (eapply opt_in_mono; [|eassumption]); set_solver.
  - eapply Forall_impl; [eassumption|]; cbn; intros x (? & ? & ?). split_and!; [done | set_solver |].
    eapply opt_in_mono; [|eassumption]; set_solver.
  - eapply Forall_impl; [eassumption|]; cbn; intros x (? & ? & ?). split_and!; [done | set_solver |].
    eapply opt_in_mono; [|eassumption]; set_solver.
Qed.

Lemma insert_schema_db_ok r d d' : insert_schema r d = Ok d' -> db_ok d -> db_ok d'.
Proof.
  intros (Hk & Ht & Hf & Hv & ->)%insert_schema_ok []. db_ok_split.
  eapply Forall_impl; [eassumption|]; cbn; intros; set_solver.
Qed.

Lemma insert_column_db_ok r d d' : insert_column r d = Ok d' -> db_ok d -> db_ok d'.
Proof. intros (Hk & Hn & Hs & ->)%insert_column_ok []. db_ok_split. Qed.

Lemma insert_file_db_ok r d d' : insert_file r d = Ok d' -> db_ok d -> db_ok d'.
Proof. intros (Hk & Ht & Ha & Hr & ->)%insert_file_ok []. db_ok_split. Qed.

Lemma insert_rows_inv {R} (ins : R -> Db -> result SqlxError Db) (P : Db -> Prop) rs d d' :
  (forall r d d', P d -> ins r d = Ok d' -> P d') ->
  P d -> insert_rows ins rs d = Ok d' -> P d'.
Proof.
  intros Hi. revert d; induction rs as [|r rs IH]; intros d HP; cbn; [by intros [= <-]|].
  rewrite bind_ok. intros (d1 & H1 & H2). eauto.
Qed.

(** An update that keeps a key column. *)
Lemma fmap_keep {A B} (f : A -> B) (g : A -> A) (l : list A) :
  (forall x, f (g x) = f x) -> f <$> (g <$> l) = f <$> l.
Proof. intros H. rewrite <- list_fmap_compose. apply list_fmap_ext. intros i x _. apply H. Qed.

Lemma set_head_uuid u s t p r : TableRow.table_uuid (set_head u s t p r) = TableRow.table_uuid r.
Proof. unfold set_head. by destruct (beq _ _). Qed.

Lemma set_head_name u s t p r :
  (TableRow.namespace (set_head u s t p r), TableRow.table_name (set_head u s t p r))
  = (TableRow.namespace r, TableRow.table_name r).
Proof. unfold set_head. by destruct (beq _ _). Qed.

Lemma set_valid_to_uuid t s r : SchemaRow.schema_uuid (set_valid_to t s r) = SchemaRow.schema_uuid r.
Proof. unfold set_valid_to. by destruct (beq _ _). Qed.

Lemma mark_removed_uuid t u us r : FileRow.file_uuid (mark_removed t u us r) = FileRow.file_uuid r.
Proof. unfold mark_removed. by destruct (deletes _ _ _). Qed.

Lemma mark_removed_added t u us r :
  FileRow.added_in_transaction_id (mark_removed t u us r) = FileRow.added_in_transaction_id r.
Proof. unfold mark_removed. by destruct (deletes _ _ _). Qed.

Lemma mark_removed_table t u us r : FileRow.table_uuid (mark_removed t u us r) = FileRow.table_uuid r.
Proof. unfold mark_removed. by destruct (deletes _ _ _). Qed.

Lemma update_table_head_db_ok u s t p d d' :
  update_table_head u s t p d = Ok d' -> db_ok d -> db_ok d'.
Proof.
  intros ->%update_table_head_ok [].
  pose proof (fmap_keep TableRow.table_uuid (set_head u s t p) (tables d) (set_head_uuid u s t p)) as Hk.
  pose proof (fmap_keep _ (set_head u s t p) (tables d) (set_head_name u s t p)) as Hn.
  constructor; cbn [tables transactions schemas columns files table_stats]; rewrite ?Hk, ?Hn; done.
Qed.

Lemma update_schema_valid_to_db_ok t s d d' :
  update_schema_valid_to t s d = Ok d' -> db_ok d -> db_ok d'.
Proof.
  intros [Ht ->]%update_schema_valid_to_ok [].
  pose proof (fmap_keep _ (set_valid_to t s) (schemas d) (set_valid_to_uuid t s)) as Hk.
  constructor; cbn [tables transactions schemas columns files table_stats]; rewrite ?Hk; try done.
  apply Forall_fmap. rewrite Forall_forall in *. intros r Hr.
  destruct (ok_schema_fk0 r Hr) as (H1 & H2 & H3). cbn. unfold set_valid_to.
  destruct (beq _ s) eqn:E; [|done]. apply bool_decide_eq_true_1 in E. cbn. split_and!; [done | done |].
  apply Ht. rewrite <- E. by apply list_elem_of_fmap_2.
Qed.

Lemma update_files_removed_db_ok t u us d d' :
  update_files_removed t u us d = Ok d' -> db_ok d -> db_ok d'.
Proof.
  intros [Ht ->]%update_files_removed_ok [].
  pose proof (fmap_keep _ (mark_removed t u us) (files d) (mark_removed_uuid t u us)) as Hk.
  constructor; cbn [tables transactions schemas columns files table_stats]; rewrite ?Hk; try done.
  apply Forall_fmap. rewrite Forall_forall in *. intros r Hr.
  destruct (ok_file_fk0 r Hr) as (H1 & H2 & H3). cbn.
  rewrite mark_removed_table, mark_removed_added. split_and!; [done | done |].
  unfold mark_removed. destruct (deletes _ _ r) eqn:E; [|done]. cbn. apply Ht, existsb_exists.
  exists r. split; [by apply list_elem_of_In | done].
Qed.

Lemma delete_table_ok ns name d n d' :
  delete_table ns name d = Ok (n, d') <->
  existsb (fun r => referenced d (TableRow.table_uuid r)) (select_table ns name d) = false /\
  n = length (select_table ns name d) /\
  d' = mk_db (List.filter (fun r => negb (named ns name r)) (tables d)) (transactions d) (schemas d)
         (columns d) (files d) (table_stats d).
Proof.
  unfold delete_table, select_table. destruct (existsb _ _); naive_solver.
Qed.

Lemma referenced_false d u :
  referenced d u = false <->
  u ∉ TransactionRow.table_uuid <$> transactions d /\
  u ∉ SchemaRow.table_uuid <$> schemas d /\
  u ∉ FileRow.table_uuid <$> files d /\
  u ∉ StatsRow.table_uuid <$> table_stats d.
Proof. unfold referenced. rewrite !orb_false_iff, !existsb_key_false. naive_solver. Qed.

(** A referenced table is not among the deleted ones. *)
Lemma delete_keeps_key ns name d u :
  u ∈ table_keys d -> referenced d u = true ->
  existsb (fun r => referenced d (TableRow.table_uuid r)) (select_table ns name d) = false ->
  u ∈ TableRow.table_uuid <$> List.filter (fun r => negb (named ns name r)) (tables d).
Proof.
  intros (t & -> & Ht)%list_elem_of_fmap Hr He. apply list_elem_of_fmap_2, elem_of_filter'.
  split; [done|]. destruct (named ns name t) eqn:E; [|done]. exfalso.
  enough (existsb (fun r => referenced d (TableRow.table_uuid r)) (select_table ns name d) = true)
    by congruence.
  apply existsb_exists. exists t. split; [|done].
  apply list_elem_of_In. unfold select_table. by apply elem_of_filter'.
Qed.

Lemma referenced_true d u :
  u ∈ TransactionRow.table_uuid <$> transactions d \/ u ∈ SchemaRow.table_uuid <$> schemas d \/
  u ∈ FileRow.table_uuid <$> files d -> referenced d u = true.
Proof.
  intros H. destruct (referenced d u) eqn:E; [done|]. apply referenced_false in E. naive_solver.
Qed.

Lemma delete_table_db_ok ns name d n d' :
  delete_table ns name d = Ok (n, d') -> db_ok d -> db_ok d'.
Proof.
  intros (He & -> & ->)%delete_table_ok [].
  assert (Hkeep := fun u H H' => delete_keeps_key ns name d u H H' He).
  constructor; cbn [tables transactions schemas columns files table_stats] in *; try done;
    try by apply filter_fmap_nodup.
  all: rewrite Forall_forall in *; intros r Hr.
  - split; [|by apply ok_txn_fk0]. apply Hkeep; [by apply ok_txn_fk0|]. apply referenced_true. left.
    by apply list_elem_of_fmap_2.
  - destruct (ok_schema_fk0 r Hr) as (? & ? & ?). split_and!; try done. apply Hkeep; [done|].
    apply referenced_true. right; left. by apply list_elem_of_fmap_2.
  - destruct (ok_file_fk0 r Hr) as (? & ? & ?). split_and!; try done. apply Hkeep; [done|].
    apply referenced_true. right; right. by apply list_elem_of_fmap_2.
Qed.

#[export] Hint Resolve insert_table_db_ok insert_transaction_db_ok insert_schema_db_ok
  insert_column_db_ok insert_file_db_ok update_table_head_db_ok update_schema_valid_to_db_ok
  update_files_removed_db_ok delete_table_db_ok : planar.
