(* ===== verification/World.v ===== *)
(** * Effects

    The catalog's methods run SQL statements against a shared database, draw
    fresh identifiers and read the clock.  [M] is the state and error monad
    they are written in.  The world is the database and a tick that every
    effect advances; what the outside answers at a tick is given by the class
    [Env]: the generators, the clock, the failures of the engine and of the
    connection, and the order in which the engine returns rows that no ORDER
    BY fixes.  [None] is a loop that ran out of fuel. *)

From S2P Require Import Prelude Uuid Error Json DataType Format Schema Models Db.

(** [serde_json::to_string] and [from_str]; errors as their text. *)
Class SerdeJson : Type := {
  json_to_string : Value -> result string string;
  json_from_str : string -> result string Value
}.

(** The values [serde_json] is known to print and parse back: no floats (their
    parsing is not exact by default), integers of its number types, objects
    with their keys in order. *)
Fixpoint json_exact (v : Value) : bool :=
  match v with
  | Num (PosInt n) => (n <? 2 ^ 64)%N
  | Num (NegInt z) => (- 2 ^ 63 <=? z)%Z && (z <? 0)%Z
  | Num (Float _) => false
  | Array l => forallb json_exact l
  | Object m =>
      bool_decide (StronglySorted key_lt m.*1) && forallb (fun p => json_exact p.2) m
  | _ => true
  end.

(** The recursion limit of the parser: entering the 128th nested array or
    object is an error.  The printer has none. *)
Definition RECURSION_LIMIT : nat := 128.

Definition json_safe (v : Value) : bool := json_exact v && (json_depth v <? RECURSION_LIMIT)%nat.

Class SerdeJsonLaws `{SerdeJson} : Prop :=
  json_round_trip : forall v s,
    json_safe v = true -> json_to_string v = Ok s -> json_from_str s = Ok v.

(** The SQL engine and [std::collections::HashMap]: both enumerate in an order
    of their own. *)
Class Enumeration : Type := {
  row_order : forall {A : Type}, list A -> list A;
  hash_order : forall {A : Type}, list A -> list A
}.

Class EnumerationLaws `{Enumeration} : Prop := {
  row_order_perm : forall A (l : list A), row_order l ≡ₚ l;
  hash_order_perm : forall A (l : list A), hash_order l ≡ₚ l
}.

(** [Uuid::new_v4], [uuid7::uuid7], [Utc::now] and the failures of statements.
    [fault] makes a statement fail for whatever sqlx reports of it besides a
    violated constraint: a lost connection, a full disk, or a column of a result
    row that does not have the Rust type it is decoded to.  These errors all
    leave the method through the same [?], as [CatalogError::Storage].  Which
    columns decode is a matter of backend and driver: on SQLite all those of the
    statements do, on PostgreSQL not [SELECT 1] as an [i64], nor a [TIMESTAMP] as
    a [DateTime<Utc>].  The theorems that hold for every [fault] cover that; those
    with [no_faults] are about databases whose statements succeed and decode. *)
Class Outside : Type := {
  gen_v4 : nat -> Uuid;
  gen_v7 : nat -> Uuid;
  clock : nat -> DateTime;
  fault : nat -> option N
}.

Class Env : Type := {
  env_ipc :: ArrowIpc;
  env_format :: FormatApi;
  env_text :: TextApi;
  env_json :: SerdeJson;
  env_enum :: Enumeration;
  env_outside :: Outside
}.

Record World : Type := mk_world {
  db : Db;
  tick : nat
}.

Definition M (A : Type) : Type := World -> option (result CatalogError A * World).

#[export] Instance M_ret : MRet M := fun A a w => Some (Ok a, w).

#[export] Instance M_bind : MBind M := fun A B f m w =>
  match m w with
  | Some (Ok a, w') => f a w'
  | Some (Err e, w') => Some (Err e, w')
  | None => None
  end.

(** A pure computation that may fail, under [?]. *)
Definition lift {A} (r : result CatalogError A) : M A := fun w => Some (r, w).

Definition fail {A} (e : CatalogError) : M A := lift (Err e).

Definition out_of_fuel {A} : M A := fun _ => None.

Section effects.
Context `{Env}.

Definition bump (w : World) : World := mk_world (db w) (S (tick w)).

Definition new_v4 : M Uuid := fun w => Some (Ok (gen_v4 (tick w)), bump w).

(** [next_transaction_id]: a UUIDv7. *)
Definition next_transaction_id : M TxnId := fun w => Some (Ok (gen_v7 (tick w)), bump w).

Definition utc_now : M DateTime := fun w => Some (Ok (clock (tick w)), bump w).

(** A statement that only reads. *)
Definition fetch {A} (q : Db -> A) : M A := fun w =>
  match fault (tick w) with
  | Some code => Some (Err (Storage (EngineFailure code)), bump w)
  | None => Some (Ok (q (db w)), bump w)
  end.

(** [fetch_all] of a SELECT without ORDER BY, [fetch_optional] and
    [fetch_one], with LIMIT. *)
Definition fetch_all {R} (q : Db -> list R) : M (list R) := fetch (fun d => row_order (q d)).

Definition fetch_limit {R} (n : N) (q : Db -> list R) : M (list R) :=
  fetch (fun d => take (N.to_nat n) (row_order (q d))).

Definition fetch_optional {R} (q : Db -> list R) : M (option R) :=
  fetch (fun d => head (row_order (q d))).

Definition fetch_one {R} (q : Db -> list R) : M R :=
  o ← fetch_optional q; lift (ok_or o (Storage RowNotFound)).

(** A statement that writes. *)
Definition execute {A} (f : Db -> result SqlxError (A * Db)) : M A := fun w =>
  match fault (tick w) with
  | Some code => Some (Err (Storage (EngineFailure code)), bump w)
  | None =>
      match f (db w) with
      | Ok (a, d) => Some (Ok a, mk_world d (S (tick w)))
      | Err e => Some (Err (Storage e), bump w)
      end
  end.

Definition execute_ (f : Db -> result SqlxError Db) : M unit :=
  execute (fun d => d ← f d; Ok (tt, d)).

(** A transaction: BEGIN, the body, COMMIT.  An early return drops the
    transaction, which rolls back; BEGIN and COMMIT may fail too, and a failed
    COMMIT leaves nothing behind: the engine has refused it.  A COMMIT that a
    remote engine carries out and whose acknowledgement is then lost, so that the
    caller sees an error, is not modelled. *)
Definition with_tx {A} (body : M A) : M A := fun w =>
  match fault (tick w) with
  | Some code => Some (Err (Storage (EngineFailure code)), bump w)
  | None =>
      match body (bump w) with
      | None => None
      | Some (Err e, w') => Some (Err e, mk_world (db w) (tick w'))
      | Some (Ok a, w') =>
          match fault (tick w') with
          | Some code =>
              Some (Err (Storage (EngineFailure code)), mk_world (db w) (S (tick w')))
          | None => Some (Ok a, bump w')
          end
      end
  end.

End effects.

(** [for x in l { body }]. *)
Fixpoint for_each {A} (l : list A) (body : A -> M unit) : M unit :=
  match l with
  | [] => mret tt
  | x :: l => _ ← body x; for_each l body
  end.

(** A loop over [l] that threads an accumulator. *)
Fixpoint fold_m {A S} (body : S -> A -> M S) (s : S) (l : list A) : M S :=
  match l with
  | [] => mret s
  | x :: l => s ← body s x; fold_m body s l
  end.

(** A loop over [l] that pushes one result per element. *)
Fixpoint map_m {A B} (body : A -> M B) (l : list A) : M (list B) :=
  match l with
  | [] => mret []
  | x :: l => y ← body x; ys ← map_m body l; mret (y :: ys)
  end.

(** ** Weakest preconditions

    [wp m Φ w]: started in [w], [m] returns, and its result and final world
    satisfy [Φ]. *)

Definition wp {A} (m : M A) (Φ : result CatalogError A -> World -> Prop) (w : World) : Prop :=
  match m w with
  | Some (r, w') => Φ r w'
  | None => False
  end.
Arguments wp {A} m Φ w : simpl never.

Lemma wp_mono {A} (m : M A) (Φ Ψ : result CatalogError A -> World -> Prop) w :
  wp m Φ w -> (forall r w', Φ r w' -> Ψ r w') -> wp m Ψ w.
Proof. unfold wp. destruct (m w) as [[r w']|]; auto. Qed.

Lemma wp_and {A} (m : M A) (Φ Ψ : result CatalogError A -> World -> Prop) w :
  wp m Φ w -> wp m Ψ w -> wp m (fun r w' => Φ r w' /\ Ψ r w') w.
Proof. unfold wp. destruct (m w) as [[r w']|]; auto. Qed.

Lemma wp_run {A} (m : M A) (Φ : result CatalogError A -> World -> Prop) w :
  wp m Φ w <-> exists r w', m w = Some (r, w') /\ Φ r w'.
Proof. unfold wp. destruct (m w) as [[r w']|]; naive_solver. Qed.

Lemma wp_elim {A} (m : M A) (Φ : result CatalogError A -> World -> Prop) w r w' :
  wp m Φ w -> m w = Some (r, w') -> Φ r w'.
Proof. unfold wp. intros H E. by rewrite E in H. Qed.

(** A run that succeeds. *)
Lemma wp_ok_run {A} (m : M A) (Q : A -> World -> Prop) w :
  wp m (fun r w' => match r with Ok a => Q a w' | Err _ => False end) w ->
  exists a w', m w = Some (Ok a, w') /\ Q a w'.
Proof. unfold wp. destruct (m w) as [[[a|e] w']|]; naive_solver. Qed.

(** A run that fails with a given error and changes nothing. *)
Lemma wp_err_run {A} (m : M A) e w :
  wp m (fun r w' => r = Err e /\ db w' = db w) w ->
  exists w', m w = Some (Err e, w') /\ db w' = db w.
Proof. unfold wp. destruct (m w) as [[r w']|]; naive_solver. Qed.

Lemma wp_bind {A B} (m : M A) (f : A -> M B) Φ w :
  wp m (fun r w' => match r with Ok a => wp (f a) Φ w' | Err e => Φ (Err e) w' end) w ->
  wp (m ≫= f) Φ w.
Proof. unfold wp, mbind, M_bind. destruct (m w) as [[[a|e] w']|]; auto. Qed.

Lemma wp_ret {A} (a : A) Φ w : Φ (Ok a) w -> wp (mret a) Φ w.
Proof. done. Qed.

Lemma wp_lift {A} (r : result CatalogError A) Φ w : Φ r w -> wp (lift r) Φ w.
Proof. done. Qed.

Lemma wp_fail {A} e (Φ : result CatalogError A -> World -> Prop) w : Φ (Err e) w -> wp (fail e) Φ w.
Proof. done. Qed.

Section wp_effects.
Context `{Env}.

Lemma wp_new_v4 Φ w : Φ (Ok (gen_v4 (tick w))) (bump w) -> wp new_v4 Φ w.
Proof. done. Qed.

Lemma wp_next_transaction_id Φ w :
  Φ (Ok (gen_v7 (tick w))) (bump w) -> wp next_transaction_id Φ w.
Proof. done. Qed.

Lemma wp_utc_now Φ w : Φ (Ok (clock (tick w))) (bump w) -> wp utc_now Φ w.
Proof. done. Qed.

Lemma wp_fetch {A} (q : Db -> A) Φ w :
  (forall code, fault (tick w) = Some code -> Φ (Err (Storage (EngineFailure code))) (bump w)) ->
  (fault (tick w) = None -> Φ (Ok (q (db w))) (bump w)) ->
  wp (fetch q) Φ w.
Proof. unfold wp, fetch. destruct (fault (tick w)); auto. Qed.

Lemma wp_execute {A} (f : Db -> result SqlxError (A * Db)) Φ w :
  (forall code, fault (tick w) = Some code -> Φ (Err (Storage (EngineFailure code))) (bump w)) ->
  (forall e, fault (tick w) = None -> f (db w) = Err e -> Φ (Err (Storage e)) (bump w)) ->
  (forall a d, fault (tick w) = None -> f (db w) = Ok (a, d) ->
     Φ (Ok a) (mk_world d (S (tick w)))) ->
  wp (execute f) Φ w.
Proof.
  unfold wp, execute. destruct (fault (tick w)); [auto|].
  destruct (f (db w)) as [[a d]|e]; auto.
Qed.

Lemma wp_execute_ (f : Db -> result SqlxError Db) Φ w :
  (forall code, fault (tick w) = Some code -> Φ (Err (Storage (EngineFailure code))) (bump w)) ->
  (forall e, f (db w) = Err e -> Φ (Err (Storage e)) (bump w)) ->
  (forall d, f (db w) = Ok d -> Φ (Ok tt) (mk_world d (S (tick w)))) ->
  wp (execute_ f) Φ w.
Proof.
  intros Hf He Ho. apply wp_execute; [done| |].
  - intros e _. destruct (f (db w)) as [d|e'] eqn:E; cbn; [done|]. intros [= <-]. auto.
  - intros [] d _. destruct (f (db w)) as [d'|e'] eqn:E; cbn; [|done]. intros [= <-]. auto.
Qed.

Lemma wp_with_tx {A} (body : M A) Φ w :
  (forall code n, Φ (Err (Storage (EngineFailure code))) (mk_world (db w) n)) ->
  wp body (fun r w' => match r with
                       | Err e => Φ (Err e) (mk_world (db w) (tick w'))
                       | Ok a => Φ (Ok a) (bump w')
                       end) (bump w) ->
  wp (with_tx body) Φ w.
Proof.
  intros Hf Hb. unfold wp, with_tx in *. destruct (fault (tick w)); [apply Hf|].
  destruct (body (bump w)) as [[[a|e] w']|]; [|done|done].
  destruct (fault (tick w')); [apply Hf | done].
Qed.

(** Without engine failures. *)
Definition no_faults : Prop := forall n, fault n = None.

Lemma wp_fetch_ok {A} (q : Db -> A) Φ w :
  no_faults -> Φ (Ok (q (db w))) (bump w) -> wp (fetch q) Φ w.
Proof. intros Hn HΦ. apply wp_fetch; [by rewrite Hn | done]. Qed.

Lemma wp_with_tx_ok {A} (body : M A) Φ w :
  no_faults ->
  wp body (fun r w' => match r with
                       | Err e => Φ (Err e) (mk_world (db w) (tick w'))
                       | Ok a => Φ (Ok a) (bump w')
                       end) (bump w) ->
  wp (with_tx body) Φ w.
Proof.
  intros Hn Hb. unfold wp, with_tx in *. rewrite Hn. destruct (body (bump w)) as [[[a|e] w']|]; [|done|done].
  by rewrite Hn.
Qed.

Lemma wp_execute__ok (f : Db -> result SqlxError Db) Φ w d :
  no_faults -> f (db w) = Ok d -> Φ (Ok tt) (mk_world d (S (tick w))) -> wp (execute_ f) Φ w.
Proof.
  intros Hn Hf HΦ. apply wp_execute_; [by rewrite Hn | by rewrite Hf |].
  rewrite Hf. by intros ? [= <-].
Qed.

End wp_effects.

(** Loops: an invariant [I] of the world, kept by each iteration that goes on. *)
Lemma wp_for_each {A} (l : list A) (body : A -> M unit) (I : list A -> World -> Prop) Φ w :
  I l w ->
  (forall x l' w', I (x :: l') w' ->
     wp (body x) (fun r w'' => match r with Ok _ => I l' w'' | Err e => Φ (Err e) w'' end) w') ->
  (forall w', I [] w' -> Φ (Ok tt) w') ->
  wp (for_each l body) Φ w.
Proof.
  intros HI Hstep Hend. revert w HI; induction l as [|x l IH]; intros w HI; cbn.
  - apply wp_ret, Hend, HI.
  - apply wp_bind. eapply wp_mono; [by apply Hstep|]. intros [[]|e] w' Hr; [by apply IH | done].
Qed.

Lemma wp_fold_m {A S} (l : list A) (body : S -> A -> M S) (I : S -> list A -> World -> Prop) Φ s w :
  I s l w ->
  (forall s' x l' w', I s' (x :: l') w' ->
     wp (body s' x) (fun r w'' => match r with Ok s'' => I s'' l' w'' | Err e => Φ (Err e) w'' end)
       w') ->
  (forall s' w', I s' [] w' -> Φ (Ok s') w') ->
  wp (fold_m body s l) Φ w.
Proof.
  intros HI Hstep Hend. revert s w HI; induction l as [|x l IH]; intros s w HI; cbn.
  - apply wp_ret, Hend, HI.
  - apply wp_bind. eapply wp_mono; [by apply Hstep|]. intros [s'|e] w' Hr; [by apply IH | done].
Qed.

Lemma wp_map_m {A B} (l : list A) (body : A -> M B) (I : list B -> list A -> World -> Prop) Φ w :
  I [] l w ->
  (forall ys x l' w', I ys (x :: l') w' ->
     wp (body x) (fun r w'' => match r with
                               | Ok y => I (ys ++ [y]) l' w''
                               | Err e => Φ (Err e) w'' end) w') ->
  (forall ys w', I ys [] w' -> Φ (Ok ys) w') ->
  wp (map_m body l) Φ w.
Proof.
  intros HI Hstep Hend.
  assert (Hgen : forall ys w, I ys l w ->
    wp (map_m body l) (fun r w' => match r with Ok zs => Φ (Ok (ys ++ zs)) w'
                                             | Err e => Φ (Err e) w' end) w).
  { clear HI. induction l as [|x l IH]; intros ys w0 HI; cbn.
    - apply wp_ret. rewrite app_nil_r. auto.
    - apply wp_bind. eapply wp_mono; [by apply Hstep|]. intros [y|e] w' Hr; [|done].
      apply wp_bind. eapply wp_mono; [by apply IH|]. intros [zs|e] w'' Hz; [|done].
      apply wp_ret. by rewrite <- app_assoc in Hz. }
  eapply wp_mono; [by apply Hgen|]. by intros [].
Qed.

(** ** Successful runs

    [okp m Q w]: started in [w], [m] returns, and if it returns [Ok a] then the
    final world satisfies [Q a].  What an [Err] leaves behind is of no concern
    inside a transaction, which rolls back. *)

Definition ok_post {A} (Q : A -> World -> Prop) (r : result CatalogError A) (w : World) : Prop :=
  match r with Ok a => Q a w | Err _ => True end.

Definition okp {A} (m : M A) (Q : A -> World -> Prop) (w : World) : Prop := wp m (ok_post Q) w.
Arguments okp {A} m Q w : simpl never.

Lemma okp_mono {A} (m : M A) (P Q : A -> World -> Prop) w :
  okp m P w -> (forall a w', P a w' -> Q a w') -> okp m Q w.
Proof. intros H HPQ. eapply wp_mono; [exact H|]. intros [a|e] w'; cbn; auto. Qed.

Lemma okp_elim {A} (m : M A) (Q : A -> World -> Prop) w a w' :
  okp m Q w -> m w = Some (Ok a, w') -> Q a w'.
Proof. intros H E. exact (wp_elim _ _ _ _ _ H E). Qed.

Lemma okp_bind {A B} (m : M A) (f : A -> M B) Q w :
  okp m (fun a w' => okp (f a) Q w') w -> okp (m ≫= f) Q w.
Proof. intros H. apply wp_bind. eapply wp_mono; [exact H|]. by intros [a|e] w'. Qed.

Lemma okp_ret {A} (a : A) (Q : A -> World -> Prop) w : Q a w -> okp (mret a) Q w.
Proof. done. Qed.

Lemma okp_lift {A} (r : result CatalogError A) (Q : A -> World -> Prop) w :
  (forall a, r = Ok a -> Q a w) -> okp (lift r) Q w.
Proof. intros H. apply wp_lift. destruct r; cbn; auto. Qed.

Lemma okp_fail {A} e (Q : A -> World -> Prop) w : okp (fail e) Q w.
Proof. done. Qed.

Lemma okp_for_each {A} (l : list A) (body : A -> M unit) (I : list A -> World -> Prop) Q w :
  I l w ->
  (forall x l' w', I (x :: l') w' -> okp (body x) (fun _ w'' => I l' w'') w') ->
  (forall w', I [] w' -> Q tt w') ->
  okp (for_each l body) Q w.
Proof.
  intros HI Hs He. eapply wp_for_each; [exact HI| |exact He].
  intros x l' w' H. eapply wp_mono; [by apply Hs|]. by intros [].
Qed.

Lemma okp_fold_m {A S} (l : list A) (body : S -> A -> M S) (I : S -> list A -> World -> Prop) Q s w :
  I s l w ->
  (forall s' x l' w', I s' (x :: l') w' -> okp (body s' x) (fun s'' w'' => I s'' l' w'') w') ->
  (forall s' w', I s' [] w' -> Q s' w') ->
  okp (fold_m body s l) Q w.
Proof.
  intros HI Hs He. eapply wp_fold_m; [exact HI| |exact He].
  intros s' x l' w' H. eapply wp_mono; [by apply Hs|]. by intros [].
Qed.

(** A loop that collects results, each related to its element, in worlds that
    satisfy [I]. *)
Lemma okp_map_m {A B} (l : list A) (body : A -> M B) (P : A -> B -> Prop) (I : World -> Prop) Q w :
  I w ->
  (forall x w', x ∈ l -> I w' -> okp (body x) (fun y w'' => P x y /\ I w'') w') ->
  (forall ys w', Forall2 P l ys -> I w' -> Q ys w') ->
  okp (map_m body l) Q w.
Proof.
  revert Q w. induction l as [|x l IH]; intros Q w HI Hs He; cbn.
  - apply okp_ret, He; [constructor | done].
  - apply okp_bind. eapply okp_mono; [apply Hs; [set_solver | done]|]. intros y w1 [HP HI1].
    apply okp_bind. apply IH; [done | set_solver |].
    intros ys w2 HF HI2. apply okp_ret, He; [by constructor | done].
Qed.

Section okp_effects.
Context `{Env}.

Lemma okp_new_v4 (Q : Uuid -> World -> Prop) w : Q (gen_v4 (tick w)) (bump w) -> okp new_v4 Q w.
Proof. done. Qed.

Lemma okp_next_transaction_id (Q : Uuid -> World -> Prop) w :
  Q (gen_v7 (tick w)) (bump w) -> okp next_transaction_id Q w.
Proof. done. Qed.

Lemma okp_utc_now (Q : DateTime -> World -> Prop) w :
  Q (clock (tick w)) (bump w) -> okp utc_now Q w.
Proof. done. Qed.

Lemma okp_fetch {A} (q : Db -> A) (Q : A -> World -> Prop) w :
  Q (q (db w)) (bump w) -> okp (fetch q) Q w.
Proof. intros H'. apply wp_fetch; [done|]. intros _. exact H'. Qed.

Lemma okp_execute {A} (f : Db -> result SqlxError (A * Db)) (Q : A -> World -> Prop) w :
  (forall a d, f (db w) = Ok (a, d) -> Q a (mk_world d (S (tick w)))) -> okp (execute f) Q w.
Proof. intros H'. apply wp_execute; [done | done |]. intros a d _ E. by apply H'. Qed.

Lemma okp_execute_ (f : Db -> result SqlxError Db) (Q : unit -> World -> Prop) w :
  (forall d, f (db w) = Ok d -> Q tt (mk_world d (S (tick w)))) -> okp (execute_ f) Q w.
Proof. intros H'. apply wp_execute_; [done | done |]. intros d E. by apply H'. Qed.

(** A transaction: either it fails and the database is as before, or its body
    succeeded. *)
Lemma wp_with_tx_okp {A} (body : M A) (Q : A -> World -> Prop) Φ w :
  okp body Q (bump w) ->
  (forall e n, Φ (Err e) (mk_world (db w) n)) ->
  (forall a w', Q a w' -> Φ (Ok a) (bump w')) ->
  wp (with_tx body) Φ w.
Proof.
  intros Hb He Ho. apply wp_with_tx; [intros; apply He|].
  eapply wp_mono; [exact Hb|]. intros [a|e] w'; cbn; auto.
Qed.

End okp_effects.

(** ** Computations that only read

    On the database [d], [m] returns and leaves [d] as it is. *)

Class ReadsOn (d : Db) {A} (m : M A) : Prop :=
  reads_on : forall n, exists r n', m (mk_world d n) = Some (r, mk_world d n').

Section reads.
Context (d : Db).

#[export] Instance reads_ret {A} (a : A) : ReadsOn d (mret a : M A).
Proof. intros n. by exists (Ok a), n. Qed.

#[export] Instance reads_lift {A} (r : result CatalogError A) : ReadsOn d (lift r).
Proof. intros n. by exists r, n. Qed.

#[export] Instance reads_fail {A} e : ReadsOn d (fail e : M A).
Proof. apply reads_lift. Qed.

#[export] Instance reads_bind {A B} (m : M A) (f : A -> M B) :
  ReadsOn d m -> (forall a, ReadsOn d (f a)) -> ReadsOn d (m ≫= f).
Proof.
  intros Hm Hf n. unfold mbind, M_bind. destruct (Hm n) as (r & n1 & ->).
  destruct r as [a|e]; [|by eauto]. destruct (Hf a n1) as (r' & n2 & ->). eauto.
Qed.

Context `{Env}.

#[export] Instance reads_fetch {A} (q : Db -> A) : ReadsOn d (fetch q).
Proof. intros n. unfold fetch. destruct (fault _); unfold bump; eauto. Qed.
#[export] Instance reads_fetch_all {R} (q : Db -> list R) : ReadsOn d (fetch_all q).
Proof. apply reads_fetch. Qed.
#[export] Instance reads_fetch_limit {R} k (q : Db -> list R) : ReadsOn d (fetch_limit k q).
Proof. apply reads_fetch. Qed.
#[export] Instance reads_fetch_optional {R} (q : Db -> list R) : ReadsOn d (fetch_optional q).
Proof. apply reads_fetch. Qed.

End reads.

Lemma wp_reads {A} (m : M A) Φ w :
  ReadsOn (db w) m -> (forall r n, m w = Some (r, mk_world (db w) n) -> Φ r (mk_world (db w) n)) ->
  wp m Φ w.
Proof.
  intros Hm HΦ. destruct w as [d n]. destruct (Hm n) as (r & n' & E).
  unfold wp. cbn in *. rewrite E. by apply HΦ.
Qed.

Lemma okp_reads d {A} (m : M A) w : ReadsOn d m -> db w = d -> okp m (fun _ w' => db w' = d) w.
Proof. intros Hm E. apply wp_reads; [by rewrite E|]. by intros [a|e] n _. Qed.
