(* ===== verification/Helpers.v ===== *)
(** * Row and JSON helpers, and the projection of a delta
      (src/catalog/helpers.rs)

    Decoding of UUID and JSON columns with its error paths, the size limit on
    JSON text, and the fold that turns the ordered events of a transaction
    range into a net delta. *)

From S2P Require Import Prelude Uuid Error Limits Json DataType Format Schema Models Db World.

Section helpers.
Context `{Env}.

Definition uuid_from_row (bytes : Blob) : result CatalogError Uuid :=
  ok_or (from_slice bytes) (InvalidArgument ("invalid uuid: " +:+ uuid_error_to_string bytes)).

Definition uuid_from_row_optional (bytes : option Blob) : result CatalogError (option Uuid) :=
  match bytes with
  | Some bytes => Some <$> uuid_from_row bytes
  | None => Ok None
  end.

(** The size check before a JSON text is parsed or stored. *)
Definition check_json_size (text : string) : result CatalogError unit :=
  fail_if (limits.MAX_JSON_SIZE_BYTES <? as_u32 (String.length text))%N
    (LimitExceeded ("JSON size " +:+ pretty (String.length text) +:+ " bytes exceeds limit of "
       +:+ pretty limits.MAX_JSON_SIZE_BYTES +:+ " bytes")).

Definition from_str (text : string) : result CatalogError Value :=
  map_err (fun error => InvalidArgument ("invalid json: " +:+ error)) (json_from_str text).

Definition parse_json (value : option string) : result CatalogError Value :=
  match value with
  | Some text => _ ← check_json_size text; from_str text
  | None => Ok (Object [])
  end.

Definition parse_table_properties (value : option string) :
    result CatalogError TableProperties.t :=
  v ← parse_json value; TableProperties.from_json v.

Definition parse_json_optional (value : option string) : result CatalogError (option Value) :=
  match value with
  | Some text => _ ← check_json_size text; Some <$> from_str text
  | None => Ok None
  end.

Definition serialize_json (value : Value) : result CatalogError string :=
  json_str ← map_err (fun error => InvalidArgument ("invalid json: " +:+ error))
    (json_to_string value);
  _ ← check_json_size json_str;
  Ok json_str.

Definition serialize_json_optional (value : option Value) :
    result CatalogError (option string) :=
  match value with
  | Some v => Some <$> serialize_json v
  | None => Ok None
  end.

(** One file change against the maps [added_by_uuid] and [removed_by_uuid]. *)
Definition apply_change (st : gmap Uuid File.t * gmap Uuid File.t) (change : TxnFileChange.t) :
    gmap Uuid File.t * gmap Uuid File.t :=
  let '(added_by_uuid, removed_by_uuid) := st in
  let file := TxnFileChange.file change in
  let file_uuid := File.file_uuid file in
  match TxnFileChange.kind change with
  | Added => (<[file_uuid := file]> added_by_uuid, delete file_uuid removed_by_uuid)
  | Removed =>
      match added_by_uuid !! file_uuid with
      | None => (added_by_uuid, <[file_uuid := file]> removed_by_uuid)
      | Some _ => (delete file_uuid added_by_uuid, removed_by_uuid)
      end
  end.

(** [into_values().collect()]. *)
Definition into_values (m : gmap Uuid File.t) : list File.t := hash_order (map_to_list m).*2.

Definition project_delta_range (from_transaction_id to_transaction_id : TxnId)
    (events : list TxnEvent.t) (new_schema : option Schema.t)
    (new_properties : option TableProperties.t) : TableDelta.t :=
  let '(added_by_uuid, removed_by_uuid) :=
    fold_left (fun st event => fold_left apply_change (TxnEvent.file_changes event) st)
      events (∅, ∅) in
  TableDelta.mk from_transaction_id to_transaction_id
    (into_values added_by_uuid) (into_values removed_by_uuid) new_schema new_properties.

End helpers.
