(* ===== verification/Catalog.v ===== *)
(** * The SQL catalog (src/catalog/mod.rs)

    The methods of [impl Catalog for SqlCatalog<Sqlite>] and
    [SqlCatalog<Postgres>].  The two implementations differ in the placeholder
    syntax of their statements, in the chunk size the backend's bind limit
    gives, and in how a writer is isolated (BEGIN IMMEDIATE or SELECT ... FOR
    UPDATE); the definitions take the backend as the parameter [kind], and the
    Modules [Sqlite] and [Postgres] at the end instantiate it. *)

From S2P Require Import Prelude Uuid Error Limits Json DataType Format Schema Models Db World Helpers.

Definition INITIAL_SCHEMA_VERSION : Z := 1.

(** Client protocol versions used for compatibility checks. *)
Module ProtocolVersions.
Record t : Type := mk {
  reader : Z;
  writer : Z
}.

Definition default : t := mk 1 1.
End ProtocolVersions.

(** ** Decoding of result rows *)

Section decode.
Context `{Env}.

Definition column_of_row (r : ColumnRow.t) : result CatalogError Column.t :=
  column_type ← decode_data_type (ColumnRow.column_type r);
  column_uuid ← uuid_from_row (ColumnRow.column_uuid r);
  schema_uuid ← uuid_from_row (ColumnRow.schema_uuid r);
  Ok (Column.mk column_uuid schema_uuid (ColumnRow.column_name r) column_type
        (ColumnRow.ordinal_position r) (ColumnRow.is_nullable r)).

Definition file_of_row (r : FileRow.t) : result CatalogError File.t :=
  file_uuid ← uuid_from_row (FileRow.file_uuid r);
  table_uuid ← uuid_from_row (FileRow.table_uuid r);
  added ← uuid_from_row (FileRow.added_in_transaction_id r);
  removed ← uuid_from_row_optional (FileRow.removed_in_transaction_id r);
  partition_values ← parse_json_optional (FileRow.partition_values r);
  format_options ← parse_json_optional (FileRow.format_options r);
  Ok (File.mk file_uuid table_uuid (FileRow.file_format r) (FileRow.file_path r)
        (FileRow.record_count r) (FileRow.file_size_bytes r) added removed
        partition_values format_options).

Definition stats_of_row (r : StatsRow.t) : result CatalogError TableStats.t :=
  table_uuid ← uuid_from_row (StatsRow.table_uuid r);
  transaction_id ← uuid_from_row (StatsRow.transaction_id r);
  Ok (TableStats.mk table_uuid transaction_id (StatsRow.record_count r)
        (StatsRow.file_size_bytes r) (StatsRow.file_count r) (StatsRow.last_updated r)).

(** [ORDER BY ordinal_position]. *)
Definition by_ordinal (a b : ColumnRow.t) : Prop :=
  (ColumnRow.ordinal_position a <= ColumnRow.ordinal_position b)%Z.

#[global] Instance by_ordinal_dec : RelDecision by_ordinal.
Proof. intros a b. unfold by_ordinal. apply _. Defined.

(** The columns query of a schema: ORDER BY ordinal_position LIMIT
    MAX_COLUMNS_PER_SCHEMA + 1, the overflow check, and the decoding loop. *)
Definition fetch_columns (what : string) (schema_uuid : Uuid) : M (list Column.t) :=
  column_rows ← fetch (fun d =>
    take (N.to_nat (limits.MAX_COLUMNS_PER_SCHEMA + 1))
      (merge_sort by_ordinal (row_order (select_columns (as_bytes schema_uuid) d))));
  _ ← lift (fail_if (limits.MAX_COLUMNS_PER_SCHEMA <? N.of_nat (length column_rows))%N
        (LimitExceeded (what +:+ " exceeds limit of " +:+ pretty limits.MAX_COLUMNS_PER_SCHEMA)));
  lift (traverse column_of_row column_rows).

Definition schema_of_row (r : SchemaRow.t) (schema_uuid : Uuid) (columns : list Column.t) :
    result CatalogError Schema.t :=
  table_uuid ← uuid_from_row (SchemaRow.table_uuid r);
  valid_from ← uuid_from_row (SchemaRow.valid_from_transaction_id r);
  valid_to ← uuid_from_row_optional (SchemaRow.valid_to_transaction_id r);
  Ok (Schema.mk schema_uuid table_uuid (SchemaRow.schema_version r) valid_from valid_to
        (SchemaRow.created_at r) columns).

(** The fuel of the parent-chain loops: one turn per transaction row, one for
    a first cursor without a row, and one for the turn that finds the cycle. *)
Definition chain_fuel : M nat := fun w => Some (Ok (S (S (length (transactions (db w))))), w).

Definition no_table (ident : TableIdent.t) : CatalogError := NotFound (TableIdent.to_string ident).

Definition no_current_transaction : CatalogError :=
  InvalidArgument "table has no current transaction".

(** The SELECT on tables of every method: the row, or [NotFound]. *)
Definition fetch_table (ident : TableIdent.t) : M TableRow.t :=
  table_row ← fetch_optional (select_table (TableIdent.namespace ident) (TableIdent.name ident));
  lift (ok_or table_row (no_table ident)).

End decode.

(** ** Reads *)

Section reads.
Context `{Env} (client_protocol : ProtocolVersions.t).

Definition ensure_reader_protocol_compatible (ident : TableIdent.t) (required_min_version : Z) :
    result CatalogError unit :=
  let client_version := ProtocolVersions.reader client_protocol in
  if (client_version <? required_min_version)%Z then
    Err (ProtocolVersionIncompatible "read" (TableIdent.to_string ident) client_version
           required_min_version)
  else Ok tt.

Definition ensure_writer_protocol_compatible (ident : TableIdent.t) (required_min_version : Z) :
    result CatalogError unit :=
  let client_version := ProtocolVersions.writer client_protocol in
  if (client_version <? required_min_version)%Z then
    Err (ProtocolVersionIncompatible "write" (TableIdent.to_string ident) client_version
           required_min_version)
  else Ok tt.

(** The [1] that says that a row exists is decoded by the driver; a driver that
    cannot is a [fault] of the statement. *)
Definition load_table (ident : TableIdent.t) : M (option TableIdent.t) :=
  row ← fetch_optional (select_table (TableIdent.namespace ident) (TableIdent.name ident));
  match row with
  | None => mret None
  | Some _ => mret (Some ident)
  end.

Definition list_tables (namespace : option string) : M (list TableIdent.t) :=
  let list_limit := (limits.MAX_TABLES_PER_LIST + 1)%N in
  rows ← match namespace with
         | Some namespace => fetch_limit list_limit (select_tables_in namespace)
         | None => fetch_limit list_limit tables
         end;
  _ ← lift (fail_if (limits.MAX_TABLES_PER_LIST <? N.of_nat (length rows))%N
        (LimitExceeded ("table count exceeds limit of " +:+ pretty limits.MAX_TABLES_PER_LIST)));
  mret ((fun row => TableIdent.mk (TableRow.namespace row) (TableRow.table_name row)) <$> rows).

Definition current_transaction_id (ident : TableIdent.t) : M TxnId :=
  table_row ← fetch_table ident;
  txn_id ← lift (uuid_from_row_optional (TableRow.current_transaction_id table_row));
  lift (ok_or txn_id no_current_transaction).

(** The walk of [read_table] from the current transaction to the requested
    one along the parent links. *)
Fixpoint find_in_history (fuel : nat) (table_uuid effective cursor_txn : Uuid)
    (visited : gset Uuid) : M bool :=
  match fuel with
  | O => out_of_fuel
  | S fuel =>
      if bool_decide (cursor_txn ∈ visited) then
        fail (InvalidArgument "transaction parent chain contains a cycle")
      else if bool_decide (cursor_txn = effective) then mret true
      else
        row ← fetch_optional (select_transaction (as_bytes table_uuid) (as_bytes cursor_txn));
        row ← lift (ok_or row (InvalidArgument "table transaction chain is broken"));
        parent_transaction_id ←
          lift (uuid_from_row_optional (TransactionRow.parent_transaction_id row));
        match parent_transaction_id with
        | Some parent_id =>
            find_in_history fuel table_uuid effective parent_id ({[cursor_txn]} ∪ visited)
        | None => mret false
        end
  end.

(** The check that a requested transaction is in the table's history. *)
Definition check_history (table_uuid effective current : Uuid) : M unit :=
  if bool_decide (effective = current) then mret tt
  else
    fuel ← chain_fuel;
    found ← find_in_history fuel table_uuid effective current ∅;
    lift (fail_if (negb found)
      (InvalidArgument "requested transaction is not in table history")).

(** The schema valid at a transaction, with its columns. *)
Definition read_schema (ident : TableIdent.t) (table_uuid effective : Uuid) : M Schema.t :=
  schema_row ← fetch_optional (fun d =>
    take 1 (row_order (select_schemas_at (as_bytes table_uuid) (as_bytes effective) d)));
  schema_row ← lift (ok_or schema_row (NotFound ("no schema for " +:+ TableIdent.to_string ident
    +:+ " at transaction " +:+ uuid_to_string effective)));
  schema_uuid ← lift (uuid_from_row (SchemaRow.schema_uuid schema_row));
  columns ← fetch_columns "column count" schema_uuid;
  lift (schema_of_row schema_row schema_uuid columns).

(** The files visible at a transaction. *)
Definition read_files (table_uuid effective : Uuid) : M (list File.t) :=
  file_rows ← fetch_limit (limits.MAX_FILES_PER_QUERY + 1)
    (select_files_at (as_bytes table_uuid) (as_bytes effective));
  _ ← lift (fail_if (limits.MAX_FILES_PER_QUERY <? N.of_nat (length file_rows))%N
        (LimitExceeded ("file count exceeds limit of " +:+ pretty limits.MAX_FILES_PER_QUERY)));
  lift (traverse file_of_row file_rows).

Definition read_stats (table_uuid effective : Uuid) : M (option TableStats.t) :=
  stats_row ← fetch_optional (select_stats (as_bytes table_uuid) (as_bytes effective));
  match stats_row with
  | Some row => lift (Some <$> stats_of_row row)
  | None => mret None
  end.

Definition read_table (ident : TableIdent.t) (at_transaction_id : option TxnId) :
    M TableView.t :=
  table_row ← fetch_table ident;
  table_uuid ← lift (uuid_from_row (TableRow.table_uuid table_row));
  _ ← lift (uuid_from_row_optional (TableRow.current_schema_uuid table_row));
  current_transaction_id ←
    lift (uuid_from_row_optional (TableRow.current_transaction_id table_row));
  properties ← lift (parse_table_properties (TableRow.properties table_row));
  _ ← lift (ensure_reader_protocol_compatible ident (TableRow.min_reader_version table_row));
  current_transaction_id ← lift (ok_or current_transaction_id no_current_transaction);
  let effective_transaction_id := default current_transaction_id at_transaction_id in
  _ ← check_history table_uuid effective_transaction_id current_transaction_id;
  schema ← read_schema ident table_uuid effective_transaction_id;
  files ← read_files table_uuid effective_transaction_id;
  stats ← read_stats table_uuid effective_transaction_id;
  mret (TableView.mk ident table_uuid effective_transaction_id schema files properties stats).

End reads.

(** ** The event log *)

(** The counters of added files, removed files and schema changes. *)
Module ScanCounts.
Record t : Type := mk {
  added_file_events : N;
  removed_file_events : N;
  schema_change_events : N
}.
End ScanCounts.

Section events.
Context `{Env} (client_protocol : ProtocolVersions.t).

(** The walk of [list_transaction_events] from [to_inclusive] back to the
    transaction after [from_exclusive]; it returns the transactions met, newest
    first, and whether the boundary was reached. *)
Fixpoint collect_chain (fuel : nat) (table_uuid : Uuid) (from_exclusive : option TxnId)
    (cursor_txn : TxnId) (visited : gset Uuid) (txn_ids_desc : list TxnId) (reached : bool) :
    M (list TxnId * bool) :=
  match fuel with
  | O => out_of_fuel
  | S fuel =>
      if bool_decide (cursor_txn ∈ visited) then
        fail (InvalidArgument "transaction parent chain contains a cycle")
      else
        row ← fetch_optional (select_transaction (as_bytes table_uuid) (as_bytes cursor_txn));
        row ← lift (ok_or row
          (InvalidArgument "requested transaction does not exist for table"));
        let txn_ids_desc := txn_ids_desc ++ [cursor_txn] in
        _ ← lift (fail_if (limits.MAX_TRANSACTIONS_PER_SCAN <? N.of_nat (length txn_ids_desc))%N
              (LimitExceeded ("transaction scan exceeds limit of "
                 +:+ pretty limits.MAX_TRANSACTIONS_PER_SCAN)));
        parent_transaction_id ←
          lift (uuid_from_row_optional (TransactionRow.parent_transaction_id row));
        match parent_transaction_id with
        | Some parent_id =>
            if bool_decide (Some parent_id = from_exclusive) then mret (txn_ids_desc, true)
            else collect_chain fuel table_uuid from_exclusive parent_id
                   ({[cursor_txn]} ∪ visited) txn_ids_desc reached
        | None => mret (txn_ids_desc, reached)
        end
  end.

(** The push loop over the added rows of a transaction, with its counter over
    the whole scan. *)
Fixpoint push_added (count : N) (rows : list FileRow.t) :
    result CatalogError (N * list TxnFileChange.t) :=
  match rows with
  | [] => Ok (count, [])
  | row :: rows =>
      let count := (count + 1)%N in
      _ ← fail_if (limits.MAX_FILES_PER_QUERY <? count)%N
            (LimitExceeded ("added file events exceed limit of "
               +:+ pretty limits.MAX_FILES_PER_QUERY));
      added ← uuid_from_row (FileRow.added_in_transaction_id row);
      file ← file_of_row row;
      '(count, changes) ← push_added count rows;
      Ok (count, TxnFileChange.mk added Added file :: changes)
  end.

Fixpoint push_removed (count : N) (rows : list FileRow.t) :
    result CatalogError (N * list TxnFileChange.t) :=
  match rows with
  | [] => Ok (count, [])
  | row :: rows =>
      let count := (count + 1)%N in
      _ ← fail_if (limits.MAX_FILES_PER_QUERY <? count)%N
            (LimitExceeded ("removed file events exceed limit of "
               +:+ pretty limits.MAX_FILES_PER_QUERY));
      removed ← uuid_from_row_optional (FileRow.removed_in_transaction_id row);
      removed ← ok_or removed (InvalidArgument "missing removed transaction id");
      file ← file_of_row row;
      '(count, changes) ← push_removed count rows;
      Ok (count, TxnFileChange.mk removed Removed file :: changes)
  end.

(** The schema a transaction made active, if any, and the new counter. *)
Definition schema_change_of (count : N) (table_uuid transaction_id : Uuid) :
    M (N * option TxnSchemaChange.t) :=
  schema_rows ← fetch_limit 2
    (select_schemas_from (as_bytes table_uuid) (as_bytes transaction_id));
  match schema_rows with
  | [] => mret (count, None)
  | [schema_row] =>
      let count := (count + 1)%N in
      _ ← lift (fail_if (limits.MAX_SCHEMA_CHANGES_PER_SCAN <? count)%N
            (LimitExceeded ("schema change events exceed limit of "
               +:+ pretty limits.MAX_SCHEMA_CHANGES_PER_SCAN)));
      schema_uuid ← lift (uuid_from_row (SchemaRow.schema_uuid schema_row));
      valid_from ← lift (uuid_from_row (SchemaRow.valid_from_transaction_id schema_row));
      columns ← fetch_columns "schema change column count" schema_uuid;
      schema ← lift (schema_of_row schema_row schema_uuid columns);
      mret (count, Some (TxnSchemaChange.mk valid_from schema))
  | _ => fail (InvalidArgument "multiple schemas found for the same transaction")
  end.

(** One turn of the event loop. *)
Definition event_of_txn (table_uuid : Uuid) (counts : ScanCounts.t) (transaction_id : TxnId) :
    M (TxnEvent.t * ScanCounts.t) :=
  added_rows ← fetch_limit (limits.MAX_FILES_PER_QUERY + 1)
    (select_files_added (as_bytes table_uuid) (as_bytes transaction_id));
  '(added, added_changes) ← lift (push_added (ScanCounts.added_file_events counts) added_rows);
  removed_rows ← fetch_limit (limits.MAX_FILES_PER_QUERY + 1)
    (select_files_removed (as_bytes table_uuid) (as_bytes transaction_id));
  '(removed, removed_changes) ←
    lift (push_removed (ScanCounts.removed_file_events counts) removed_rows);
  '(schemas, schema_change) ←
    schema_change_of (ScanCounts.schema_change_events counts) table_uuid transaction_id;
  mret (TxnEvent.mk transaction_id (added_changes ++ removed_changes) schema_change,
        ScanCounts.mk added removed schemas).

Fixpoint events_of_txns (table_uuid : Uuid) (counts : ScanCounts.t) (txns : list TxnId) :
    M (list TxnEvent.t) :=
  match txns with
  | [] => mret []
  | transaction_id :: txns =>
      '(event, counts) ← event_of_txn table_uuid counts transaction_id;
      events ← events_of_txns table_uuid counts txns;
      mret (event :: events)
  end.

(** The check that [to_inclusive] is a transaction of the table. *)
Definition check_to_inclusive (table_uuid current_transaction_id to_inclusive : Uuid) : M unit :=
  if bool_decide (current_transaction_id = to_inclusive) then mret tt
  else
    row ← fetch_optional (select_transaction (as_bytes table_uuid) (as_bytes to_inclusive));
    match row with
    | Some _ => mret tt
    | None => fail (InvalidArgument "requested transaction does not exist for table")
    end.

Definition list_transaction_events (ident : TableIdent.t) (cursor : TxnRangeCursor.t) :
    M (list TxnEvent.t) :=
  table_row ← fetch_table ident;
  table_uuid ← lift (uuid_from_row (TableRow.table_uuid table_row));
  current ← lift (uuid_from_row_optional (TableRow.current_transaction_id table_row));
  current ← lift (ok_or current no_current_transaction);
  _ ← check_to_inclusive table_uuid current (TxnRangeCursor.to_inclusive cursor);
  fuel ← chain_fuel;
  '(txn_ids_desc, reached_from_boundary) ←
    collect_chain fuel table_uuid (TxnRangeCursor.from_exclusive cursor)
      (TxnRangeCursor.to_inclusive cursor) ∅ []
      (match TxnRangeCursor.from_exclusive cursor with None => true | Some _ => false end);
  _ ← lift (fail_if (negb reached_from_boundary)
        (InvalidArgument "from transaction is not an ancestor of to transaction"));
  events_of_txns table_uuid (ScanCounts.mk 0 0 0) (reverse txn_ids_desc).

Definition diff_table (ident : TableIdent.t) (from_transaction_id to_transaction_id : TxnId) :
    M TableDelta.t :=
  events ← list_transaction_events ident
    (TxnRangeCursor.mk (Some from_transaction_id) to_transaction_id);
  from_view ← read_table client_protocol ident (Some from_transaction_id);
  to_view ← read_table client_protocol ident (Some to_transaction_id);
  let new_schema :=
    if bool_decide (Schema.schema_uuid (TableView.schema from_view)
                    <> Schema.schema_uuid (TableView.schema to_view))
    then Some (TableView.schema to_view) else None in
  let new_properties :=
    if bool_decide (TableView.properties from_view <> TableView.properties to_view)
    then Some (TableView.properties to_view) else None in
  mret (project_delta_range from_transaction_id to_transaction_id events new_schema
          new_properties).

End events.

(** ** Writes *)

(** The variables the operation loop updates. *)
Module MutState.
Record t : Type := mk {
  new_schema_uuid : option Uuid;
  properties_value : TableProperties.t
}.
End MutState.

Section writes.
Context `{Env} (kind : DbKind) (client_protocol : ProtocolVersions.t).

(** The rows of one chunk of columns. *)
Definition column_row (schema_uuid : Uuid) (col_chunk_size chunk_index : nat)
    (p : nat * ColumnSpec.t) : M ColumnRow.t :=
  let '(i, column) := p in
  let ordinal_position := wrap_i32 (Z.of_nat (chunk_index * col_chunk_size + i + 1)) in
  encoded_type ← lift (encode_data_type (ColumnSpec.column_type column));
  column_uuid ← new_v4;
  mret (ColumnRow.mk (as_bytes column_uuid) (as_bytes schema_uuid) (ColumnSpec.name column)
          encoded_type ordinal_position (ColumnSpec.is_nullable column)).

(** The chunked INSERT INTO columns of [create_table] and of [UpdateSchema]. *)
Definition insert_columns (schema_uuid : Uuid) (columns : list ColumnSpec.t) : M unit :=
  let col_chunk_size := columns_chunk kind in
  for_each (imap pair (chunks col_chunk_size columns)) (fun '(chunk_index, col_chunk) =>
    row_data ← map_m (column_row schema_uuid col_chunk_size chunk_index) (imap pair col_chunk);
    execute_ (insert_rows insert_column row_data)).

(** The transaction of [create_table]. *)
Definition create_body (ident : TableIdent.t) (location : string) (schema : SchemaSpec.t)
    (properties : option TableProperties.t) : M TableIdent.t :=
  row ← fetch_optional (select_table (TableIdent.namespace ident) (TableIdent.name ident));
  _ ← lift (match row with
            | Some _ => Err (Conflict ("table already exists: " +:+ TableIdent.to_string ident))
            | None => Ok tt
            end);
  table_uuid ← new_v4;
  created_at ← utc_now;
  let properties_value := default TableProperties.new properties in
  properties_text ← lift (serialize_json (TableProperties.to_json properties_value));
  _ ← execute_ (insert_table (TableRow.mk (as_bytes table_uuid) (TableIdent.name ident)
        (TableIdent.namespace ident) location None None created_at (Some properties_text)
        (ProtocolVersions.reader client_protocol) (ProtocolVersions.writer client_protocol)));
  transaction_id ← next_transaction_id;
  _ ← execute_ (insert_transaction (TransactionRow.mk (as_bytes transaction_id)
        (as_bytes table_uuid) created_at None));
  schema_uuid ← new_v4;
  _ ← execute_ (insert_schema (SchemaRow.mk (as_bytes schema_uuid) (as_bytes table_uuid)
        INITIAL_SCHEMA_VERSION (as_bytes transaction_id) None created_at));
  _ ← insert_columns schema_uuid (SchemaSpec.columns schema);
  _ ← execute_ (update_table_head (as_bytes table_uuid) (Some (as_bytes schema_uuid))
        (Some (as_bytes transaction_id)) None);
  mret ident.

Definition create_table (ident : TableIdent.t) (location : string) (schema : SchemaSpec.t)
    (properties : option TableProperties.t) : M TableIdent.t :=
  _ ← lift (SchemaSpec.validate schema);
  with_tx (create_body ident location schema properties).

Definition drop_table (ident : TableIdent.t) : M unit :=
  affected ← execute (delete_table (TableIdent.namespace ident) (TableIdent.name ident));
  lift (fail_if (Nat.eqb affected 0) (no_table ident)).

(** [MutationOp::AppendFiles]. *)
Definition file_row (table_uuid transaction_id : Uuid) (f : FileSpec.t) : M FileRow.t :=
  _ ← lift (FileSpec.validate f);
  file_uuid ← match FileSpec.file_uuid f with Some u => mret u | None => new_v4 end;
  partition_text ← lift (serialize_json_optional (FileSpec.partition_values f));
  format_text ← lift (serialize_json_optional (FileSpec.format_options f));
  mret (FileRow.mk (as_bytes file_uuid) (as_bytes table_uuid)
          (as_str_format (FileSpec.file_format f)) (FileSpec.file_path f)
          (FileSpec.record_count f) (FileSpec.file_size_bytes f) (as_bytes transaction_id) None
          partition_text format_text).

Definition append_files (table_uuid transaction_id : Uuid) (files : list FileSpec.t) : M unit :=
  _ ← lift (fail_if (limits.MAX_FILES_PER_APPEND <? as_u32 (length files))%N
        (LimitExceeded ("cannot append " +:+ pretty (length files)
           +:+ " files, exceeds limit of " +:+ pretty limits.MAX_FILES_PER_APPEND)));
  for_each (chunks files_chunk files) (fun chunk =>
    row_data ← map_m (file_row table_uuid transaction_id) chunk;
    execute_ (insert_rows insert_file row_data)).

(** [MutationOp::DeleteFiles]. *)
Definition delete_files (table_uuid transaction_id : Uuid) (file_uuids : list Uuid) : M unit :=
  _ ← lift (fail_if (limits.MAX_FILES_PER_DELETE <? as_u32 (length file_uuids))%N
        (LimitExceeded ("cannot delete " +:+ pretty (length file_uuids)
           +:+ " files, exceeds limit of " +:+ pretty limits.MAX_FILES_PER_DELETE)));
  for_each (chunks delete_chunk file_uuids) (fun chunk =>
    execute_ (update_files_removed (as_bytes transaction_id) (as_bytes table_uuid)
                (as_bytes <$> chunk))).

(** The map of the current columns, from their decoded rows. *)
Definition current_column (r : ColumnRow.t) : result CatalogError (string * (DataType * bool)) :=
  column_type ← decode_data_type (ColumnRow.column_type r);
  Ok (ColumnRow.column_name r, (column_type, ColumnRow.is_nullable r)).

Definition column_map (l : list (string * (DataType * bool))) : gmap string (DataType * bool) :=
  fold_left (fun m p => <[p.1 := p.2]> m) l ∅.

(** The check that no existing column is left out. *)
Definition check_no_drop (current_columns : gmap string (DataType * bool))
    (columns : list ColumnSpec.t) : result CatalogError unit :=
  let new_column_names : gset string := list_to_set (ColumnSpec.name <$> columns) in
  match List.find (fun k => negb (bool_decide (k ∈ new_column_names)))
          (hash_order (map_to_list current_columns).*1) with
  | Some existing_column_name =>
      Err (InvalidArgument ("cannot drop existing column '" +:+ existing_column_name
             +:+ "' via UpdateSchema"))
  | None => Ok tt
  end.

(** The evolution check of one new column. *)
Definition check_column (current_columns : gmap string (DataType * bool))
    (new_column : ColumnSpec.t) : result CatalogError unit :=
  match current_columns !! ColumnSpec.name new_column with
  | Some (old_type, old_nullable) =>
      _ ← fail_if (negb (can_evolve_to old_type (ColumnSpec.column_type new_column)))
            (InvalidArgument ("invalid schema evolution for column '"
               +:+ ColumnSpec.name new_column +:+ "': cannot evolve "
               +:+ debug_data_type old_type +:+ " to "
               +:+ debug_data_type (ColumnSpec.column_type new_column)));
      fail_if (old_nullable && negb (ColumnSpec.is_nullable new_column))
        (InvalidArgument ("invalid schema evolution for column '"
           +:+ ColumnSpec.name new_column
           +:+ "': cannot change from nullable to non-nullable (existing nulls would violate constraint)"))
  | None => Ok tt
  end.

Definition check_evolution (current_columns : gmap string (DataType * bool))
    (columns : list ColumnSpec.t) : result CatalogError unit :=
  _ ← check_no_drop current_columns columns;
  _ ← traverse (check_column current_columns) columns;
  Ok tt.

(** [MutationOp::UpdateSchema]; the new schema's UUID. *)
Definition update_schema (table_uuid transaction_id : Uuid) (transaction_timestamp : DateTime)
    (current_schema_uuid : option Uuid) (schema_spec : SchemaSpec.t) : M Uuid :=
  _ ← lift (SchemaSpec.validate schema_spec);
  current_schema_uuid ← lift (ok_or current_schema_uuid
    (InvalidArgument "cannot update schema without a current schema"));
  current_schema ← fetch_one (select_schema (as_bytes current_schema_uuid));
  current_column_rows ← fetch_all (select_columns (as_bytes current_schema_uuid));
  current_columns ← lift (traverse current_column current_column_rows);
  _ ← lift (check_evolution (column_map current_columns) (SchemaSpec.columns schema_spec));
  schema_uuid ← new_v4;
  let schema_version := wrap_i32 (SchemaRow.schema_version current_schema + 1) in
  _ ← execute_ (insert_schema (SchemaRow.mk (as_bytes schema_uuid) (as_bytes table_uuid)
        schema_version (as_bytes transaction_id) None transaction_timestamp));
  _ ← execute_ (update_schema_valid_to (as_bytes transaction_id)
        (as_bytes current_schema_uuid));
  _ ← insert_columns schema_uuid (SchemaSpec.columns schema_spec);
  mret schema_uuid.

(** [MutationOp::RemoveProperties]. *)
Definition remove_properties (properties_value : TableProperties.t)
    (keys : list PropertyKey.t) : result CatalogError TableProperties.t :=
  match keys with
  | [] => Ok properties_value
  | _ =>
      _ ← fail_if (limits.MAX_PROPERTY_KEYS_TO_REMOVE <? as_u32 (length keys))%N
            (LimitExceeded ("cannot remove " +:+ pretty (length keys)
               +:+ " property keys, exceeds limit of "
               +:+ pretty limits.MAX_PROPERTY_KEYS_TO_REMOVE));
      Ok (fold_left (fun p key => TableProperties.remove p (PropertyKey.as_str key))
            keys properties_value)
  end.

(** One turn of the operation loop of [commit]. *)
Definition apply_op (table_uuid transaction_id : Uuid) (transaction_timestamp : DateTime)
    (current_schema_uuid : option Uuid) (st : MutState.t) (op : MutationOp) : M MutState.t :=
  match op with
  | AppendFiles files => _ ← append_files table_uuid transaction_id files; mret st
  | DeleteFiles file_uuids => _ ← delete_files table_uuid transaction_id file_uuids; mret st
  | UpdateSchema schema_spec =>
      schema_uuid ← update_schema table_uuid transaction_id transaction_timestamp
        current_schema_uuid schema_spec;
      mret (MutState.mk (Some schema_uuid) (MutState.properties_value st))
  | SetProperties properties => mret (MutState.mk (MutState.new_schema_uuid st) properties)
  | RemoveProperties keys =>
      p ← lift (remove_properties (MutState.properties_value st) keys);
      mret (MutState.mk (MutState.new_schema_uuid st) p)
  end.

(** The checks of [commit] before its transaction begins. *)
Definition check_mutation (mutation : Mutation.t) : result CatalogError unit :=
  match Mutation.operations mutation with
  | [] => Err (InvalidArgument "mutation has no operations")
  | ops =>
      _ ← fail_if (limits.MAX_OPERATIONS_PER_MUTATION <? as_u32 (length ops))%N
            (LimitExceeded ("mutation has " +:+ pretty (length ops)
               +:+ " operations, exceeds limit of "
               +:+ pretty limits.MAX_OPERATIONS_PER_MUTATION));
      Mutation.validate mutation
  end.

Definition stale_base (base current : TxnId) : CatalogError :=
  Conflict ("base transaction " +:+ uuid_to_string base +:+ " does not match current "
              +:+ uuid_to_string current).

(** The body of the transaction of [commit]. *)
Definition commit_body (ident : TableIdent.t) (base_transaction_id : TxnId)
    (mutation : Mutation.t) : M CommitResult.t :=
  table_row ← fetch_table ident;
  table_uuid ← lift (uuid_from_row (TableRow.table_uuid table_row));
  current_schema_uuid ← lift (uuid_from_row_optional (TableRow.current_schema_uuid table_row));
  current ← lift (uuid_from_row_optional (TableRow.current_transaction_id table_row));
  properties_value ← lift (parse_table_properties (TableRow.properties table_row));
  _ ← lift (ensure_writer_protocol_compatible client_protocol ident
        (TableRow.min_writer_version table_row));
  current ← lift (ok_or current no_current_transaction);
  _ ← lift (fail_if (bool_decide (current <> base_transaction_id))
        (stale_base base_transaction_id current));
  transaction_id ← next_transaction_id;
  transaction_timestamp ← utc_now;
  _ ← execute_ (insert_transaction (TransactionRow.mk (as_bytes transaction_id)
        (as_bytes table_uuid) transaction_timestamp (Some (as_bytes current))));
  st ← fold_m (apply_op table_uuid transaction_id transaction_timestamp current_schema_uuid)
         (MutState.mk current_schema_uuid properties_value) (Mutation.operations mutation);
  let schema_uuid_to_set :=
    match MutState.new_schema_uuid st with Some s => Some s | None => current_schema_uuid end in
  properties_text ← lift (serialize_json (TableProperties.to_json (MutState.properties_value st)));
  _ ← execute_ (update_table_head (as_bytes table_uuid) (as_bytes <$> schema_uuid_to_set)
        (Some (as_bytes transaction_id)) (Some properties_text));
  mret (CommitResult.mk transaction_id None).

Definition commit (ident : TableIdent.t) (base_transaction_id : TxnId)
    (mutation : Mutation.t) : M CommitResult.t :=
  _ ← lift (check_mutation mutation);
  with_tx (commit_body ident base_transaction_id mutation).

End writes.
