(* ===== verification/Connect.v ===== *)
(** * Opening a catalog (the constructors of [SqlCatalog] in
    src/catalog/mod.rs, src/catalog/database.rs)

    Pools, connections and the migrator are sqlx's: a class of operations on an
    engine state, with the documented behaviour the constructors rely on as
    laws.  Opening a fresh database yields the empty catalog the other files
    start from; opening it again keeps what is there. *)

From S2P Require Import Prelude Error Limits Schema Models Db World Helpers Catalog.

(** ** sqlx *)

Class Sqlx := {
  Pool : DbKind -> Type;
  Engine : Type;
  (** [PoolOptions::new().connect(url)] *)
  connect kind : string -> Engine -> result SqlxError (Pool kind) * Engine;
  (** [sqlx::query(text).execute(pool)] *)
  execute {kind} : Pool kind -> string -> Engine -> result SqlxError unit * Engine;
  (** [sqlx::migrate!(directory).run(pool)] *)
  migrate {kind} : Pool kind -> string -> Engine -> result SqlxError unit * Engine;
  (** What the pool's database holds: nothing before its first migration. *)
  contents {kind} : Pool kind -> Engine -> option Db;
  (** Whether its connections enforce foreign keys. *)
  enforcing {kind} : Pool kind -> Engine -> Prop
}.

Definition Setup `{Sqlx} (A : Type) : Type := Engine -> result SqlxError A * Engine.

#[export] Instance Setup_ret `{Sqlx} : MRet Setup := fun A a e => (Ok a, e).
#[export] Instance Setup_bind `{Sqlx} : MBind Setup := fun A B f m e =>
  match m e with
  | (Ok a, e') => f a e'
  | (Err x, e') => (Err x, e')
  end.

(** ** database.rs *)

Module database.

Module sqlite.
Definition configure_pool `{Sqlx} (pool : Pool Sqlite) : Setup unit :=
  _ ← execute pool "PRAGMA foreign_keys = ON";
  _ ← execute pool "PRAGMA journal_mode = WAL";
  mret tt.
End sqlite.

Module postgres.
Definition configure_pool `{Sqlx} (pool : Pool Postgres) : Setup unit := mret tt.
End postgres.

End database.

(** ** SqlCatalog *)

Module SqlCatalog.
Section catalog.
Context `{Sqlx}.

Record t (kind : DbKind) : Type := mk {
  pool : Pool kind;
  client_protocol : ProtocolVersions.t
}.
Arguments mk {kind} _ _.
Arguments pool {kind} _.
Arguments client_protocol {kind} _.

Definition new_with_protocol_versions {kind} (pool : Pool kind) (client_protocol : ProtocolVersions.t) : t kind :=
  mk pool client_protocol.

Definition new {kind} (pool : Pool kind) : t kind :=
  new_with_protocol_versions pool ProtocolVersions.default.

Definition reader_version {kind} (self : t kind) : Z := ProtocolVersions.reader (client_protocol self).
Definition writer_version {kind} (self : t kind) : Z := ProtocolVersions.writer (client_protocol self).

Definition initialize_schema {kind} (self : t kind) : Setup unit :=
  _ ← migrate (pool self) (match kind with
                           | Sqlite => "db/migrations/sqlite"
                           | Postgres => "db/migrations/postgres"
                           end);
  mret tt.

Definition configure_database {kind} : t kind -> Setup unit :=
  match kind with
  | Sqlite => fun self => database.sqlite.configure_pool (pool self)
  | Postgres => fun self => database.postgres.configure_pool (pool self)
  end.

Definition from_connection_string_with_protocol_versions kind (connection_string : string)
    (client_protocol : ProtocolVersions.t) : Setup (t kind) :=
  pool ← connect kind connection_string;
  let catalog := new_with_protocol_versions pool client_protocol in
  _ ← configure_database catalog;
  _ ← initialize_schema catalog;
  mret catalog.

Definition from_connection_string kind (connection_string : string) : Setup (t kind) :=
  from_connection_string_with_protocol_versions kind connection_string ProtocolVersions.default.

Definition in_memory_with_protocol_versions (client_protocol : ProtocolVersions.t) : Setup (t Sqlite) :=
  from_connection_string_with_protocol_versions Sqlite "sqlite::memory:" client_protocol.

Definition in_memory : Setup (t Sqlite) := in_memory_with_protocol_versions ProtocolVersions.default.

End catalog.
Arguments mk {_ kind} _ _.
Arguments pool {_ kind} _.
Arguments client_protocol {_ kind} _.
End SqlCatalog.

(** ** What the constructors rely on

    The behaviour sqlx and SQLite document of the few operations the
    constructors make, and of no other.  The two pragmas of SQLite leave the
    rows alone, and once the first has run the connections of the pool enforce
    foreign keys (sqlx turns it on for each connection it opens); those of
    PostgreSQL always do.  The migrator, run on the directory of the pool's own
    backend, creates the tables of a new database and skips migrations that
    were applied.  A new in-memory database is empty.  Nothing is said of
    another statement, nor of another directory. *)
Class SqlxLaws `{Sqlx} : Prop := {
  foreign_keys_pragma (p : Pool Sqlite) e e' :
    execute p "PRAGMA foreign_keys = ON" e = (Ok tt, e') -> contents p e' = contents p e /\ enforcing p e';
  journal_mode_pragma (p : Pool Sqlite) e e' :
    execute p "PRAGMA journal_mode = WAL" e = (Ok tt, e') ->
    contents p e' = contents p e /\ (enforcing p e -> enforcing p e');
  postgres_enforcing (p : Pool Postgres) e : enforcing p e;
  migrate_sqlite (p : Pool Sqlite) e e' :
    migrate p "db/migrations/sqlite" e = (Ok tt, e') ->
    contents p e' = Some (default empty_db (contents p e)) /\ (enforcing p e -> enforcing p e');
  migrate_postgres (p : Pool Postgres) e e' :
    migrate p "db/migrations/postgres" e = (Ok tt, e') ->
    contents p e' = Some (default empty_db (contents p e));
  connect_memory p e e' : connect Sqlite "sqlite::memory:" e = (Ok p, e') -> contents p e' = None
}.

(** ** Theorems *)

Section opening.
Context `{Sqlx} `{!SqlxLaws}.

Lemma Setup_bind_ok {A B} (m : Setup A) (f : A -> Setup B) e b e' :
  (m ≫= f) e = (Ok b, e') -> exists a e1, m e = (Ok a, e1) /\ f a e1 = (Ok b, e').
Proof. unfold mbind, Setup_bind. destruct (m e) as [[a|x] e1]; [eauto | done]. Qed.

Lemma configured kind (c : SqlCatalog.t kind) e e' :
  SqlCatalog.configure_database c e = (Ok tt, e') ->
  contents (SqlCatalog.pool c) e' = contents (SqlCatalog.pool c) e /\ enforcing (SqlCatalog.pool c) e'.
Proof.
  destruct kind; cbn.
  - intros ([] & e1 & E1 & ([] & e2 & E2 & [= <-])%Setup_bind_ok)%Setup_bind_ok.
    apply foreign_keys_pragma in E1 as [Hc1 He1]. apply journal_mode_pragma in E2 as [Hc2 He2].
    split; [congruence | by apply He2].
  - intros [= <-]. split; [done | apply postgres_enforcing].
Qed.

Lemma initialized kind (c : SqlCatalog.t kind) e e' :
  SqlCatalog.initialize_schema c e = (Ok tt, e') ->
  contents (SqlCatalog.pool c) e' = Some (default empty_db (contents (SqlCatalog.pool c) e)) /\
  (enforcing (SqlCatalog.pool c) e -> enforcing (SqlCatalog.pool c) e').
Proof.
  intros ([] & e1 & E1 & [= <-])%Setup_bind_ok. destruct kind; [by apply migrate_sqlite|].
  split; [by apply migrate_postgres | intros _; apply postgres_enforcing].
Qed.

Lemma opened kind url client e c e' :
  SqlCatalog.from_connection_string_with_protocol_versions kind url client e = (Ok c, e') ->
  SqlCatalog.client_protocol c = client /\ enforcing (SqlCatalog.pool c) e' /\
  exists e1, connect kind url e = (Ok (SqlCatalog.pool c), e1) /\
    contents (SqlCatalog.pool c) e' = Some (default empty_db (contents (SqlCatalog.pool c) e1)).
Proof.
  intros (p & e1 & E1 & ([] & e2 & E2 & ([] & e3 & E3 & [= <- <-])%Setup_bind_ok)%Setup_bind_ok)%Setup_bind_ok.
  apply configured in E2 as [Hc2 He2]. apply initialized in E3 as [Hc3 He3]. cbn in *.
  split; [done|]. split; [by apply He3|]. exists e1. split; [done|]. by rewrite Hc3, Hc2.
Qed.

End opening.

(** C36: a catalog opened from a connection string uses the given protocol
    versions, its connections enforce foreign keys, and its database is
    migrated: it holds what was there, or the empty catalog if it was new.
    Opening in memory, with the default versions, always gives the empty
    catalog, where [reachable_catalog_inv] starts. *)
Theorem opened_catalog_ready `{Sqlx} `{!SqlxLaws} kind url client e :
  (forall c e', SqlCatalog.from_connection_string_with_protocol_versions kind url client e = (Ok c, e') ->
     SqlCatalog.client_protocol c = client /\ enforcing (SqlCatalog.pool c) e' /\
     exists e1, connect kind url e = (Ok (SqlCatalog.pool c), e1) /\
       contents (SqlCatalog.pool c) e' = Some (default empty_db (contents (SqlCatalog.pool c) e1))) /\
  (forall c e', SqlCatalog.in_memory e = (Ok c, e') ->
     SqlCatalog.client_protocol c = ProtocolVersions.default /\ enforcing (SqlCatalog.pool c) e' /\
     contents (SqlCatalog.pool c) e' = Some empty_db).
Proof.
  split; intros c e' E.
  - by apply opened.
  - apply opened in E as (Hp & He & e1 & Hc & Hd). split_and!; [done..|].
    by rewrite Hd, (connect_memory _ _ _ Hc).
Qed.

(** ** Witness: an engine of databases by name *)

Definition ref_url : string := "sqlite::memory:".

(** A pool is the number of its database, which has a flag and its contents;
    each connection opens a new one.  Any statement but the two pragmas, and any
    directory but the backend's own, destroys it. *)
Definition databases : Type := nat -> bool * option Db.

Definition change (p : nat) (f : bool * option Db -> bool * option Db) (m : databases) : databases :=
  fun q => if bool_decide (q = p) then f (m q) else m q.

Definition migrations (kind : DbKind) : string :=
  match kind with Sqlite => "db/migrations/sqlite" | Postgres => "db/migrations/postgres" end.

#[local] Instance ref_sqlx : Sqlx := {
  Pool _ := nat;
  Engine := nat * databases;
  connect kind url e := (Ok e.1, (S e.1, change e.1 (fun _ => (false, None)) e.2));
  execute kind p q e :=
    if bool_decide (q = "PRAGMA foreign_keys = ON") then (Ok tt, (e.1, change p (fun x => (true, x.2)) e.2))
    else if bool_decide (q = "PRAGMA journal_mode = WAL") then (Ok tt, e)
    else (Err RowNotFound, (e.1, change p (fun _ => (false, None)) e.2));
  migrate kind p dir e :=
    if bool_decide (dir = migrations kind)
    then (Ok tt, (e.1, change p (fun x => (x.1, Some (default empty_db x.2))) e.2))
    else (Ok tt, (e.1, change p (fun _ => (false, None)) e.2));
  contents kind p e := (e.2 p).2;
  enforcing kind p e := kind = Postgres \/ (e.2 p).1 = true
}.

Lemma change_same p f m : change p f m p = f (m p).
Proof. unfold change. by rewrite bool_decide_eq_true_2. Qed.

#[local] Instance ref_sqlx_laws : SqlxLaws.
Proof.
  split; cbn.
  - intros p e e' [= <-]. cbn. rewrite change_same. auto.
  - intros p e e' [= <-]. auto.
  - by left.
  - intros p e e' [= <-]. cbn. rewrite change_same. auto.
  - intros p e e' [= <-]. cbn. by rewrite change_same.
  - intros p e e' [= <- <-]. cbn. by rewrite change_same.
Qed.

Definition fresh_engine : Engine := (0, fun _ => (false, None)).

Lemma opened_catalog_ready_witness :
  exists c e', SqlCatalog.in_memory fresh_engine = (Ok c, e') /\
    contents (SqlCatalog.pool c) e' = Some empty_db /\ SqlCatalog.client_protocol c = ProtocolVersions.default.
Proof.
  destruct (SqlCatalog.in_memory fresh_engine) as [[c|x] e'] eqn:E; [|discriminate E].
  exists c, e'. split; [reflexivity|].
  destruct (proj2 (opened_catalog_ready Sqlite "sqlite::memory:" ProtocolVersions.default fresh_engine) c e' E)
    as (Hp & _ & Hc). split; [exact Hc | exact Hp].
Defined.
