(* ===== verification/Api.v ===== *)
(** * The catalog API (trait [Catalog] and the two [SqlCatalog] instances of
      src/catalog/mod.rs; [TableHandle], [MutationBuilder] of
      src/catalog/models.rs)

    [CatalogApi] is the trait: one operation per method.  The Modules [Sqlite]
    and [Postgres] are the two implementations, the operations of Catalog.v at
    their backend.  A [TableHandle] is an identifier used with an API, a
    [MutationBuilder] a list of operations pinned to a base transaction; both
    are written against the class only. *)

From S2P Require Import Prelude Uuid Error Limits Json DataType Format Schema Models Db World Helpers Catalog.

(** [trait Catalog].  [create_table] and [load_table] return a [TableHandle] on
    the same catalog, which is here the identifier it is bound to. *)
Class CatalogApi : Type := {
  api_create_table : TableIdent.t -> string -> SchemaSpec.t -> option TableProperties.t ->
    M TableIdent.t;
  api_load_table : TableIdent.t -> M (option TableIdent.t);
  api_list_tables : option string -> M (list TableIdent.t);
  api_drop_table : TableIdent.t -> M unit;
  api_current_transaction_id : TableIdent.t -> M TxnId;
  api_list_transaction_events : TableIdent.t -> TxnRangeCursor.t -> M (list TxnEvent.t);
  api_read_table : TableIdent.t -> option TxnId -> M TableView.t;
  api_diff_table : TableIdent.t -> TxnId -> TxnId -> M TableDelta.t;
  api_commit : TableIdent.t -> TxnId -> Mutation.t -> M CommitResult.t
}.

(** ** [impl Catalog for SqlCatalog<Sqlite>] *)

Module Sqlite.
Section sqlite.
Context `{Env} (client_protocol : ProtocolVersions.t).

Definition create_table := Catalog.create_table Limits.Sqlite client_protocol.
Definition load_table := Catalog.load_table.
Definition list_tables := Catalog.list_tables.
Definition drop_table := Catalog.drop_table.
Definition current_transaction_id := Catalog.current_transaction_id.
Definition list_transaction_events := Catalog.list_transaction_events.
Definition read_table := Catalog.read_table client_protocol.
Definition diff_table := Catalog.diff_table client_protocol.
Definition commit := Catalog.commit Limits.Sqlite client_protocol.

Definition catalog : CatalogApi := {|
  api_create_table := create_table;
  api_load_table := load_table;
  api_list_tables := list_tables;
  api_drop_table := drop_table;
  api_current_transaction_id := current_transaction_id;
  api_list_transaction_events := list_transaction_events;
  api_read_table := read_table;
  api_diff_table := diff_table;
  api_commit := commit
|}.
End sqlite.
End Sqlite.

(** ** [impl Catalog for SqlCatalog<Postgres>] *)

Module Postgres.
Section postgres.
Context `{Env} (client_protocol : ProtocolVersions.t).

Definition create_table := Catalog.create_table Limits.Postgres client_protocol.
Definition load_table := Catalog.load_table.
Definition list_tables := Catalog.list_tables.
Definition drop_table := Catalog.drop_table.
Definition current_transaction_id := Catalog.current_transaction_id.
Definition list_transaction_events := Catalog.list_transaction_events.
Definition read_table := Catalog.read_table client_protocol.
Definition diff_table := Catalog.diff_table client_protocol.
Definition commit := Catalog.commit Limits.Postgres client_protocol.

(** The parts of [commit], at this backend. *)
Definition append_files := Catalog.append_files.
Definition delete_files := Catalog.delete_files.
Definition update_schema := Catalog.update_schema Limits.Postgres.
Definition apply_op := Catalog.apply_op Limits.Postgres.
Definition insert_columns := Catalog.insert_columns Limits.Postgres.
Definition event_of_txn := Catalog.event_of_txn.
Definition read_files := Catalog.read_files.

Definition catalog : CatalogApi := {|
  api_create_table := create_table;
  api_load_table := load_table;
  api_list_tables := list_tables;
  api_drop_table := drop_table;
  api_current_transaction_id := current_transaction_id;
  api_list_transaction_events := list_transaction_events;
  api_read_table := read_table;
  api_diff_table := diff_table;
  api_commit := commit
|}.
End postgres.
End Postgres.

(** ** Handles and builders *)

Module MutationBuilder.
Record t : Type := mk {
  ident : TableIdent.t;
  base_transaction_id : TxnId;
  mutation : Mutation.t
}.

Definition new (ident : TableIdent.t) (base_transaction_id : TxnId) : t :=
  mk ident base_transaction_id (Mutation.mk []).

Definition push (b : t) (op : MutationOp) : t :=
  mk (ident b) (base_transaction_id b) (Mutation.push (mutation b) op).

Definition append_files (b : t) (files : list FileSpec.t) : t := push b (AppendFiles files).
Definition append_file (b : t) (file : FileSpec.t) : t := push b (AppendFiles [file]).
Definition delete_files (b : t) (file_uuids : list Uuid) : t := push b (DeleteFiles file_uuids).
Definition update_schema (b : t) (schema : SchemaSpec.t) : t := push b (UpdateSchema schema).
Definition set_properties (b : t) (p : TableProperties.t) : t := push b (SetProperties p).
Definition remove_properties (b : t) (keys : list PropertyKey.t) : t := push b (RemoveProperties keys).

Definition commit `{CatalogApi} (b : t) : M CommitResult.t :=
  api_commit (ident b) (base_transaction_id b) (mutation b).
End MutationBuilder.

Module TableHandle.
Record t : Type := mk { ident : TableIdent.t }.

Section handle.
Context `{CatalogApi} (h : t).

Definition read : M TableView.t := api_read_table (ident h) None.
Definition read_at (transaction_id : TxnId) : M TableView.t :=
  api_read_table (ident h) (Some transaction_id).
Definition current_transaction_id : M TxnId := api_current_transaction_id (ident h).
Definition list_transaction_events (from_exclusive : option TxnId) (to_inclusive : TxnId) :
    M (list TxnEvent.t) :=
  api_list_transaction_events (ident h) (TxnRangeCursor.mk from_exclusive to_inclusive).
Definition diff (from_transaction_id to_transaction_id : TxnId) : M TableDelta.t :=
  api_diff_table (ident h) from_transaction_id to_transaction_id.
Definition write (base_transaction_id : option TxnId) : M MutationBuilder.t :=
  txn_id ← match base_transaction_id with
           | Some id => mret id
           | None => api_current_transaction_id (ident h)
           end;
  mret (MutationBuilder.new (ident h) txn_id).
End handle.
End TableHandle.

(** ** Calls *)

(** A call of the API, and what running it does to the world. *)
Inductive Call : Type :=
  | CallCreate (ident : TableIdent.t) (location : string) (schema : SchemaSpec.t)
      (properties : option TableProperties.t)
  | CallLoad (ident : TableIdent.t)
  | CallList (namespace : option string)
  | CallDrop (ident : TableIdent.t)
  | CallCurrent (ident : TableIdent.t)
  | CallEvents (ident : TableIdent.t) (cursor : TxnRangeCursor.t)
  | CallRead (ident : TableIdent.t) (at_transaction_id : option TxnId)
  | CallDiff (ident : TableIdent.t) (from_transaction_id to_transaction_id : TxnId)
  | CallCommit (ident : TableIdent.t) (base_transaction_id : TxnId) (mutation : Mutation.t).

Definition discard {A} (m : M A) : M unit := _ ← m; mret tt.

Definition run `{CatalogApi} (c : Call) : M unit :=
  match c with
  | CallCreate i l s p => discard (api_create_table i l s p)
  | CallLoad i => discard (api_load_table i)
  | CallList ns => discard (api_list_tables ns)
  | CallDrop i => api_drop_table i
  | CallCurrent i => discard (api_current_transaction_id i)
  | CallEvents i c => discard (api_list_transaction_events i c)
  | CallRead i a => discard (api_read_table i a)
  | CallDiff i a b => discard (api_diff_table i a b)
  | CallCommit i b m => discard (api_commit i b m)
  end.

(** The catalog that a client with some protocol versions opens on a backend. *)
Definition backend `{Env} (kind : DbKind) (client_protocol : ProtocolVersions.t) : CatalogApi :=
  match kind with
  | Limits.Sqlite => Sqlite.catalog client_protocol
  | Limits.Postgres => Postgres.catalog client_protocol
  end.

(** One step of the system: some client finishes a call, or time passes. *)
Inductive step `{Env} (kind : DbKind) (w w' : World) : Prop :=
  | step_call client c r :
      run (H := backend kind client) c w = Some (r, w') -> step kind w w'
  | step_idle : db w' = db w -> tick w <= tick w' -> step kind w w'.
