(* ===== verification/RefEnv.v ===== *)
(** * A reference environment

    Concrete instances of the classes that stand for third-party code and for
    the outside world, so that the catalog's definitions can be run and the
    theorems applied: a codec for column types built from stdpp's [Countable]
    encodings, with a limit on depth as that of flatbuffers, a printer and a
    parser of JSON values with serde_json's limit on nesting, an engine that
    returns rows in insertion order and never fails, UUID generators that count
    (version 7 identifiers increase with the tick), and a clock that ticks.  The instances satisfy
    the laws [ArrowIpcLaws], [SerdeJsonLaws] and [EnumerationLaws]. *)

From S2P Require Import Prelude Uuid Error Json DataType Format Models Db World.
From Stdlib Require Import Strings.Byte.
From stdpp Require Import countable.

(** ** Trees of column types *)

Notation Leaf := (N + Z + string + gmap string string + option string)%type.

Definition leaf_n (n : N) : gen_tree Leaf := GenLeaf (inl (inl (inl (inl n)))).
Definition leaf_z (z : Z) : gen_tree Leaf := GenLeaf (inl (inl (inl (inr z)))).
Definition leaf_s (s : string) : gen_tree Leaf := GenLeaf (inl (inl (inr s))).
Definition leaf_m (m : gmap string string) : gen_tree Leaf := GenLeaf (inl (inr m)).
Definition leaf_o (o : option string) : gen_tree Leaf := GenLeaf (inr o).

Definition unit_code (u : TimeUnit) : N :=
  match u with Second => 0 | Millisecond => 1 | Microsecond => 2 | Nanosecond => 3 end.
Definition unit_of_code (n : N) : TimeUnit :=
  match n with 0%N => Second | 1%N => Millisecond | 2%N => Microsecond | _ => Nanosecond end.

Definition simple_code (t : DataType) : N :=
  match t with
  | Boolean => 0 | Int8 => 1 | Int16 => 2 | Int32 => 3 | Int64 => 4
  | UInt8 => 5 | UInt16 => 6 | UInt32 => 7 | UInt64 => 8
  | Float32 => 9 | Float64 => 10 | Date32 => 11 | Date64 => 12
  | Binary => 13 | LargeBinary => 14 | Utf8 => 15 | _ => 16
  end.
Definition simple_of_code (n : N) : DataType :=
  match n with
  | 0%N => Boolean | 1%N => Int8 | 2%N => Int16 | 3%N => Int32 | 4%N => Int64
  | 5%N => UInt8 | 6%N => UInt16 | 7%N => UInt32 | 8%N => UInt64
  | 9%N => Float32 | 10%N => Float64 | 11%N => Date32 | 12%N => Date64
  | 13%N => Binary | 14%N => LargeBinary | 15%N => Utf8 | _ => LargeUtf8
  end.

Definition field_tree (f : Field) (t : gen_tree Leaf) : gen_tree Leaf :=
  GenNode 0 [leaf_s (field_name f); t; leaf_n (if field_nullable f then 1 else 0);
             leaf_m (field_metadata f)].

Fixpoint type_tree (t : DataType) : gen_tree Leaf :=
  match t with
  | Timestamp u tz => GenNode 1 [leaf_n (unit_code u); leaf_o tz]
  | Time32 u => GenNode 2 [leaf_n (unit_code u)]
  | Time64 u => GenNode 3 [leaf_n (unit_code u)]
  | Duration u => GenNode 4 [leaf_n (unit_code u)]
  | FixedSizeBinary n => GenNode 5 [leaf_z n]
  | Decimal128 p s => GenNode 6 [leaf_n p; leaf_z s]
  | Decimal256 p s => GenNode 7 [leaf_n p; leaf_z s]
  | List f => GenNode 8 [field_tree f (type_tree (field_type f))]
  | LargeList f => GenNode 9 [field_tree f (type_tree (field_type f))]
  | FixedSizeList f n => GenNode 10 [field_tree f (type_tree (field_type f)); leaf_z n]
  | Struct fs => GenNode 11 ((fun f => field_tree f (type_tree (field_type f))) <$> fs)
  | OtherType n => GenNode 12 [leaf_n n]
  | t => GenNode 13 [leaf_n (simple_code t)]
  end.

Fixpoint type_of_tree (t : gen_tree Leaf) : DataType :=
  let field t :=
    match t with
    | GenNode 0 [GenLeaf (inl (inl (inr s))); t; GenLeaf (inl (inl (inl (inl n))));
                 GenLeaf (inl (inr m))] => mk_field s (type_of_tree t) (N.eqb n 1) m
    | _ => mk_field "" Boolean false ∅
    end in
  match t with
  | GenNode 1 [GenLeaf (inl (inl (inl (inl u)))); GenLeaf (inr tz)] => Timestamp (unit_of_code u) tz
  | GenNode 2 [GenLeaf (inl (inl (inl (inl u))))] => Time32 (unit_of_code u)
  | GenNode 3 [GenLeaf (inl (inl (inl (inl u))))] => Time64 (unit_of_code u)
  | GenNode 4 [GenLeaf (inl (inl (inl (inl u))))] => Duration (unit_of_code u)
  | GenNode 5 [GenLeaf (inl (inl (inl (inr n))))] => FixedSizeBinary n
  | GenNode 6 [GenLeaf (inl (inl (inl (inl p)))); GenLeaf (inl (inl (inl (inr s))))] => Decimal128 p s
  | GenNode 7 [GenLeaf (inl (inl (inl (inl p)))); GenLeaf (inl (inl (inl (inr s))))] => Decimal256 p s
  | GenNode 8 [f] => List (field f)
  | GenNode 9 [f] => LargeList (field f)
  | GenNode 10 [f; GenLeaf (inl (inl (inl (inr n))))] => FixedSizeList (field f) n
  | GenNode 11 fs => Struct (field <$> fs)
  | GenNode 12 [GenLeaf (inl (inl (inl (inl n))))] => OtherType n
  | GenNode 13 [GenLeaf (inl (inl (inl (inl n))))] => simple_of_code n
  | _ => Boolean
  end.

Lemma type_of_type_tree t : type_of_tree (type_tree t) = t.
Proof.
  assert (Hn : forall b : bool, N.eqb (if b then 1%N else 0%N) 1 = b) by by intros [].
  induction t as [t Ht|f IH|f IH|f n IH|l IH] using DataType_ind'.
  - destruct t as [| | | | | | | | | | |u ?| | |u|u|u| | | | | | | | | | | |]; try done;
      cbn; try (destruct u; done).
  - destruct f. cbn in *. by rewrite IH, Hn.
  - destruct f. cbn in *. by rewrite IH, Hn.
  - destruct f. cbn in *. by rewrite IH, Hn.
  - cbn. f_equal. induction IH as [|[] l Hf _ IHl]; cbn in *; [done|]. by rewrite Hf, Hn, IHl.
Qed.

#[export] Program Instance DataType_countable : Countable DataType :=
  inj_countable' type_tree type_of_tree type_of_type_tree.

(** ** JSON text

    A value is printed as a letter for its constructor followed by its parts;
    numbers in binary, each character of a string behind a mark. *)

Fixpoint print_pos (p : positive) (k : string) : string :=
  match p with
  | xH => String "." k
  | xO p => String "0" (print_pos p k)
  | xI p => String "1" (print_pos p k)
  end.

Definition print_Z (z : Z) (k : string) : string :=
  match z with
  | Z0 => String "z" k
  | Zpos p => String "+" (print_pos p k)
  | Zneg p => String "-" (print_pos p k)
  end.

Fixpoint print_chars (s : string) (k : string) : string :=
  match s with
  | EmptyString => String "." k
  | String a s => String "c" (String a (print_chars s k))
  end.

Fixpoint print_value (v : Value) (k : string) : string :=
  match v with
  | Null => String "n" k
  | Bool true => String "t" k
  | Bool false => String "f" k
  | Num (PosInt n) => String "p" (print_Z (Z.of_N n) k)
  | Num (NegInt z) => String "m" (print_Z z k)
  | Num (Float n) => String "x" (print_Z (Z.of_N n) k)
  | Str s => String "s" (print_chars s k)
  | Array l => String "[" (foldr (fun v k => String "," (print_value v k)) (String "." k) l)
  | Object m =>
      String "{" (foldr (fun p k => String "," (print_chars p.1 (print_value p.2 k))) (String "." k) m)
  end.

Fixpoint parse_pos (s : string) : option (positive * string) :=
  match s with
  | EmptyString => None
  | String a k =>
      if Ascii.eqb a "." then Some (xH, k)
      else '(p, k) ← parse_pos k; Some (if Ascii.eqb a "0" then xO p else xI p, k)
  end.

Definition parse_Z (s : string) : option (Z * string) :=
  match s with
  | EmptyString => None
  | String a k =>
      if Ascii.eqb a "z" then Some (0%Z, k)
      else '(p, k) ← parse_pos k; Some (if Ascii.eqb a "+" then Zpos p else Zneg p, k)
  end.

Fixpoint parse_chars (s : string) : option (string * string) :=
  match s with
  | String a k =>
      if Ascii.eqb a "." then Some (EmptyString, k)
      else match k with
           | String b k => '(s, k) ← parse_chars k; Some (String b s, k)
           | EmptyString => None
           end
  | EmptyString => None
  end.

Fixpoint parse_value (fuel : nat) (s : string) {struct fuel} : option (Value * string) :=
  match fuel, s with
  | S fuel, String a k =>
      if Ascii.eqb a "n" then Some (Null, k)
      else if Ascii.eqb a "t" then Some (Bool true, k)
      else if Ascii.eqb a "f" then Some (Bool false, k)
      else if Ascii.eqb a "p" then '(z, k) ← parse_Z k; Some (Num (PosInt (Z.to_N z)), k)
      else if Ascii.eqb a "m" then '(z, k) ← parse_Z k; Some (Num (NegInt z), k)
      else if Ascii.eqb a "x" then '(z, k) ← parse_Z k; Some (Num (Float (Z.to_N z)), k)
      else if Ascii.eqb a "s" then '(s, k) ← parse_chars k; Some (Str s, k)
      else if Ascii.eqb a "[" then '(l, k) ← parse_elements fuel k; Some (Array l, k)
      else '(m, k) ← parse_entries fuel k; Some (Object m, k)
  | _, _ => None
  end
with parse_elements (fuel : nat) (s : string) {struct fuel} : option (list Value * string) :=
  match fuel, s with
  | S fuel, String a k =>
      if Ascii.eqb a "." then Some ([], k)
      else '(v, k) ← parse_value fuel k; '(l, k) ← parse_elements fuel k; Some (v :: l, k)
  | _, _ => None
  end
with parse_entries (fuel : nat) (s : string) {struct fuel} : option (Map * string) :=
  match fuel, s with
  | S fuel, String a k =>
      if Ascii.eqb a "." then Some ([], k)
      else '(i, k) ← parse_chars k; '(v, k) ← parse_value fuel k;
           '(m, k) ← parse_entries fuel k; Some ((i, v) :: m, k)
  | _, _ => None
  end.

Lemma parse_print_pos p k : parse_pos (print_pos p k) = Some (p, k).
Proof. induction p as [p IH|p IH|]; cbn; [by rewrite IH | by rewrite IH | done]. Qed.

Lemma parse_print_Z z k : parse_Z (print_Z z k) = Some (z, k).
Proof. destruct z; cbn; by rewrite ?parse_print_pos. Qed.

Lemma parse_print_chars s k : parse_chars (print_chars s k) = Some (s, k).
Proof. induction s as [|a s IH]; cbn; [done | by rewrite IH]. Qed.

(** The turns that parsing a value takes. *)
Fixpoint turns (v : Value) : nat :=
  match v with
  | Array l => S (foldr (fun v n => S (turns v + n)) 1 l)
  | Object m => S (foldr (fun p n => S (turns p.2 + n)) 1 m)
  | _ => 1
  end.

Lemma parse_print_value v fuel k : turns v <= fuel -> parse_value fuel (print_value v k) = Some (v, k).
Proof.
  revert fuel k; induction v as [|[]|[]| |l IH|m IH] using Value_ind'; intros [|fuel] k Hf;
    cbn in Hf; try lia; try done.
  - cbn. rewrite parse_print_Z. cbn. by rewrite N2Z.id.
  - cbn. by rewrite parse_print_Z.
  - cbn. rewrite parse_print_Z. cbn. by rewrite N2Z.id.
  - cbn. by rewrite parse_print_chars.
  - cbn. apply le_S_n in Hf.
    assert (parse_elements fuel (foldr (fun v k => String "," (print_value v k)) (String "." k) l)
      = Some (l, k)) as ->; [|done].
    revert fuel Hf; induction IH as [|v l Hv _ IHl]; intros [|fuel] Hf; cbn in Hf; try lia; [done|].
    cbn. rewrite Hv by lia. cbn. by rewrite IHl by lia.
  - cbn. apply le_S_n in Hf.
    assert (parse_entries fuel (foldr (fun p k => String "," (print_chars p.1 (print_value p.2 k)))
      (String "." k) m) = Some (m, k)) as ->; [|done].
    revert fuel Hf; induction IH as [|[i v] m Hv _ IHm]; intros [|fuel] Hf; cbn in Hf; try lia; [done|].
    cbn in *. rewrite parse_print_chars. cbn. rewrite Hv by lia. cbn. by rewrite IHm by lia.
Qed.

Lemma print_chars_length s k : String.length k < String.length (print_chars s k).
Proof. induction s as [|a s IH]; cbn; lia. Qed.

Lemma print_Z_length z k : String.length k < String.length (print_Z z k).
Proof.
  assert (forall p, String.length k < String.length (print_pos p k)) as Hp
    by (induction p; cbn; lia).
  destruct z as [|p|p]; cbn; [lia | specialize (Hp p); lia..].
Qed.

Lemma turns_length v k : turns v + String.length k <= String.length (print_value v k).
Proof.
  revert k; induction v as [|[]|[n|z|n]|s|l IH|m IH] using Value_ind'; intros k; cbn; try lia.
  - pose proof (print_Z_length (Z.of_N n) k). lia.
  - pose proof (print_Z_length z k). lia.
  - pose proof (print_Z_length (Z.of_N n) k). lia.
  - pose proof (print_chars_length s k). lia.
  - apply le_n_S. induction IH as [|v l Hv _ IHl]; cbn; [lia|].
    specialize (Hv (foldr (fun v k => String "," (print_value v k)) (String "." k) l)). lia.
  - apply le_n_S. induction IH as [|[i v] m Hv _ IHm]; cbn in *; [lia|].
    specialize (Hv (foldr (fun p k => String "," (print_chars p.1 (print_value p.2 k))) (String "." k) m)).
    pose proof (print_chars_length i (print_value v
      (foldr (fun p k => String "," (print_chars p.1 (print_value p.2 k))) (String "." k) m))). lia.
Qed.

(** ** Bytes of an encoding *)

Fixpoint bits_bytes (p : positive) : Blob :=
  match p with xH => [] | xO p => x00 :: bits_bytes p | xI p => x01 :: bits_bytes p end.
Fixpoint bytes_bits (b : Blob) : positive :=
  match b with [] => xH | x00 :: b => xO (bytes_bits b) | _ :: b => xI (bytes_bits b) end.
Lemma bytes_bits_bytes p : bytes_bits (bits_bytes p) = p.
Proof. induction p; cbn; congruence. Qed.

(** ** The instances *)

#[local] Instance ref_ipc : ArrowIpc := {
  schema_to_fb fs := bits_bytes (encode (Struct fs));
  fb_to_schema b :=
    match decode (bytes_bits b) with
    | Some (Struct fs) => if (type_depth (Struct fs) <=? 62)%nat then Ok fs else Err "depth limit reached"
    | _ => Err "not a schema"
    end;
  other_kept _ := true
}.

#[local] Instance ref_json : SerdeJson := {
  json_to_string v := Ok (print_value v EmptyString);
  json_from_str s :=
    match parse_value (String.length s) s with
    | Some (v, EmptyString) =>
        if (json_depth v <? RECURSION_LIMIT)%nat then Ok v else Err "recursion limit exceeded"
    | _ => Err "not JSON"
    end
}.

#[local] Instance ref_enumeration : Enumeration := {
  row_order _ l := l;
  hash_order _ l := l
}.

#[local] Instance ref_text : TextApi := {
  uuid_to_string u := pretty (N.pos (encode u));
  uuid_error_to_string b := "expected 16 bytes";
  debug_data_type t := "data type"
}.

#[local] Instance ref_format : FormatApi := {
  WriterPropertiesBuilder := unit;
  WriterProperties := unit;
  WriterVersion := unit;
  builder_default := tt;
  build b := b;
  set_compression _ b := b;
  set_max_row_group_size _ b := b;
  set_data_page_size_limit _ b := b;
  set_data_page_row_count_limit _ b := b;
  set_write_batch_size _ b := b;
  set_writer_version _ b := b;
  set_bloom_filter_position _ b := b;
  set_created_by _ b := b;
  set_offset_index_disabled _ b := b;
  writer_version_from_str _ := Ok tt;
  WriteMode := string;
  write_mode_try_from s := Some s;
  default_max_rows_per_file := 1048576;
  default_max_rows_per_group := 1024;
  default_max_bytes_per_file := 96636764160;
  default_mode := "create";
  default_enable_stable_row_ids := false;
  default_enable_v2_manifest_paths := false;
  VortexWriteOptions := unit;
  vortex_default := tt;
  vortex_exclude_dtype o := o
}.

(** The identifiers drawn at a tick: version 4 ones from 2^64 on, version 7
    ones below it and increasing. *)
Definition v4 (n : nat) : Uuid := from_u128 (2 ^ 64 + N.of_nat n).
Definition v7 (n : nat) : Uuid := from_u128 (N.of_nat n).

Lemma v4_inj m n : (N.of_nat m < 2 ^ 64)%N -> (N.of_nat n < 2 ^ 64)%N -> v4 m = v4 n -> m = n.
Proof. unfold v4. intros Hm Hn E. apply from_u128_inj in E; lia. Qed.

Lemma v7_inj m n : (N.of_nat m < 2 ^ 64)%N -> (N.of_nat n < 2 ^ 64)%N -> v7 m = v7 n -> m = n.
Proof. unfold v7. intros Hm Hn E. apply from_u128_inj in E; lia. Qed.

#[local] Instance ref_outside : Outside := {
  gen_v4 := v4;
  gen_v7 := v7;
  clock n := Z.of_nat n;
  fault _ := None
}.

#[local] Instance ref_env : Env := {}.

Lemma ref_ipc_laws : ArrowIpcLaws (H := @env_ipc ref_env).
Proof.
  intros fs [[_ Hd%Nat.leb_le]%andb_true_iff _]%andb_true_iff. cbn -[type_depth]. rewrite bytes_bits_bytes, decode_encode.
  by rewrite (proj2 (Nat.leb_le _ _)) by lia.
Qed.

Lemma ref_json_laws : SerdeJsonLaws (H := @env_json ref_env).
Proof.
  intros v s [_ Hd]%andb_true_iff [= <-]. cbn [json_from_str env_json ref_env ref_json].
  pose proof (turns_length v EmptyString) as Hl. rewrite Nat.add_0_r in Hl.
  by rewrite parse_print_value, Hd.
Qed.

Lemma ref_enumeration_laws : EnumerationLaws (H := @env_enum ref_env).
Proof. split; done. Qed.

(** The world before any call. *)
Definition start : World := mk_world empty_db 1.
