(* ===== verification/Scenario.v ===== *)
(** * A concrete run

    A table is created and written twice in the reference environment: two
    files are appended; then one of them is deleted, a third is appended, a
    column is widened and another one added, and the properties are set.  The
    worlds after each call are computed by the definitions themselves; the
    theorems of the later files are applied to them. *)

From S2P Require Import Prelude Uuid Error Limits Json DataType Format Schema Models Db World Helpers Catalog Api RefEnv.

#[local] Existing Instance ref_env.

Definition client : ProtocolVersions.t := ProtocolVersions.default.

Definition events : TableIdent.t := TableIdent.mk "analytics" "events".

Definition spec1 : SchemaSpec.t := SchemaSpec.mk
  [ColumnSpec.new "id" Int32; ColumnSpec.nullable (ColumnSpec.new "name" Utf8)].

Definition spec2 : SchemaSpec.t := SchemaSpec.mk
  [ColumnSpec.new "id" Int64; ColumnSpec.nullable (ColumnSpec.new "name" Utf8);
   ColumnSpec.nullable (ColumnSpec.new "at" (Timestamp Microsecond None))].

Definition f1 : Uuid := from_u128 (2 ^ 65 + 1).
Definition f2 : Uuid := from_u128 (2 ^ 65 + 2).
Definition f3 : Uuid := from_u128 (2 ^ 65 + 3).

Definition file (u : Uuid) (path : string) : FileSpec.t :=
  FileSpec.with_uuid (FileSpec.new Parquet path 10 1000) u.

Definition mutation1 : Mutation.t := Mutation.mk [AppendFiles [file f1 "a.parquet"; file f2 "b.parquet"]].

Definition properties2 : TableProperties.t :=
  TableProperties.insert TableProperties.new "owner" (Str "team").

Definition mutation2 : Mutation.t := Mutation.mk
  [DeleteFiles [f1]; AppendFiles [file f3 "c.parquet"]; UpdateSchema spec2; SetProperties properties2].

(** The world after a call. *)
Definition after {A} (m : M A) (w : World) : World :=
  match m w with Some (_, w') => w' | None => w end.

(** Its result. *)
Definition outcome {A} (m : M A) (w : World) : option (result CatalogError A) := fst <$> m w.

Definition create_events : M TableIdent.t :=
  Sqlite.create_table client events "s3://bucket/events" spec1 None.

Definition world1 : World := after create_events start.
Definition txn1 : TxnId := v7 6.
Definition world2 : World := after (Sqlite.commit client events txn1 mutation1) world1.
Definition txn2 : TxnId := v7 17.
Definition world3 : World := after (Sqlite.commit client events txn2 mutation2) world2.
Definition txn3 : TxnId := v7 25.

(** The table's identifier, its row in the last world, and its chain. *)
Definition events_uuid : Uuid := v4 3.

Definition row3 : TableRow.t :=
  default (TableRow.mk [] "" "" "" None None 0 None 0 0) (head (tables (db world3))).
