(* ===== verification/Effects.v ===== *)
(** * What the write operations do

    An abstract account of a mutation: the relation [op_effect] says what one
    operation does to the database and to the variables of [commit], with one
    unbatched statement per operation and no loop over chunks, and
    [ops_effect] runs a list of operations.  The lemmas show that the batched,
    effectful definitions of Catalog.v implement it. *)

From S2P Require Import Prelude Uuid Error Limits Json DataType Format Schema Models Db DbFacts World Helpers Catalog.

(** ** Enumerating chunks *)

Lemma chunks_fuel_imap {A B} (f : nat -> A -> B) fuel n (l : list A) k :
  0 < n -> length l <= fuel ->
  concat (imap (fun ci c => imap (fun i x => f (k + (ci * n + i)) x) c) (chunks_fuel fuel n l))
  = imap (fun i x => f (k + i) x) l.
Proof.
  intros Hn. revert l k; induction fuel as [|fuel IH]; intros l k Hl.
  - destruct l; [done | cbn in Hl; lia].
  - destruct l as [|x l]; [done|]. cbn [chunks_fuel].
    remember (x :: l) as l' eqn:El. rewrite imap_cons. cbn [concat].
    symmetry. rewrite <- (take_drop n l') at 1. rewrite imap_app. f_equal. symmetry.
    destruct (decide (length l' <= n)) as [Hle|Hgt].
    + rewrite (drop_ge _ n) by done. by destruct fuel.
    + assert (length (take n l') = n) as -> by (rewrite length_take; lia).
      assert (length (drop n l') <= fuel) as Hd by (rewrite length_drop; subst l'; cbn in *; lia).
      transitivity (imap (fun i y => f (k + n + i) y) (drop n l')).
      * rewrite <- (IH (drop n l') (k + n) Hd). f_equal. apply imap_ext. intros ci c _.
        apply imap_ext. intros i y _. cbn. f_equal. lia.
      * apply imap_ext. intros i y _. cbn. f_equal. lia.
Qed.

Lemma chunks_imap {A B} (f : nat -> A -> B) n (l : list A) :
  0 < n ->
  concat (imap (fun ci c => imap (fun i x => f (ci * n + i) x) c) (chunks n l)) = imap f l.
Proof. intros Hn. by apply (chunks_fuel_imap f _ n l 0). Qed.

Lemma Forall2_concat {A B} (P : A -> B -> Prop) xss yss :
  Forall2 (Forall2 P) xss yss -> Forall2 P (concat xss) (concat yss).
Proof. induction 1; cbn; [constructor|]. by apply Forall2_app. Qed.

(** ** Rows *)

Section effects.
Context `{Env}.

(** The row of column number [i] (from 0) of a schema. *)
Definition is_column (schema_uuid : Uuid) (p : nat * ColumnSpec.t) (r : ColumnRow.t) : Prop :=
  exists column_uuid encoded,
    encode_data_type (ColumnSpec.column_type p.2) = Ok encoded /\
    r = ColumnRow.mk (as_bytes column_uuid) (as_bytes schema_uuid) (ColumnSpec.name p.2) encoded
          (wrap_i32 (Z.of_nat (p.1 + 1))) (ColumnSpec.is_nullable p.2).

(** The rows of a schema's columns, in order. *)
Definition are_columns (schema_uuid : Uuid) (cs : list ColumnSpec.t) (rs : list ColumnRow.t) :
    Prop := Forall2 (is_column schema_uuid) (imap pair cs) rs.

(** The row of an appended file. *)
Definition is_file (table_uuid transaction_id : Uuid) (f : FileSpec.t) (r : FileRow.t) : Prop :=
  FileSpec.validate f = Ok tt /\
  exists file_uuid partition_text format_text,
    (forall u, FileSpec.file_uuid f = Some u -> file_uuid = u) /\
    serialize_json_optional (FileSpec.partition_values f) = Ok partition_text /\
    serialize_json_optional (FileSpec.format_options f) = Ok format_text /\
    r = FileRow.mk (as_bytes file_uuid) (as_bytes table_uuid) (as_str_format (FileSpec.file_format f))
          (FileSpec.file_path f) (FileSpec.record_count f) (FileSpec.file_size_bytes f)
          (as_bytes transaction_id) None partition_text format_text.

(** The columns a schema update starts from. *)
Definition columns_of (d : Db) (schema_uuid : Uuid) :
    result CatalogError (list (string * (DataType * bool))) :=
  traverse current_column (select_columns (as_bytes schema_uuid) d).

(** An admissible evolution: no column is dropped, types widen, and nullable
    columns stay nullable. *)
Definition evolves (old : gmap string (DataType * bool)) (cs : list ColumnSpec.t) : Prop :=
  (forall k, is_Some (old !! k) -> k ∈ ColumnSpec.name <$> cs) /\
  (forall c t n, c ∈ cs -> old !! ColumnSpec.name c = Some (t, n) ->
     can_evolve_to t (ColumnSpec.column_type c) = true /\
     (n = true -> ColumnSpec.is_nullable c = true)).

(** ** Operations *)

Inductive op_effect (u t : Uuid) (ts : DateTime) (cur : option Uuid) :
    MutationOp -> MutState.t * Db -> MutState.t * Db -> Prop :=
  | effect_append files rows st d d' :
      (as_u32 (length files) <= limits.MAX_FILES_PER_APPEND)%N ->
      Forall2 (is_file u t) files rows ->
      insert_rows insert_file rows d = Ok d' ->
      op_effect u t ts cur (AppendFiles files) (st, d) (st, d')
  | effect_delete us st d d' :
      (as_u32 (length us) <= limits.MAX_FILES_PER_DELETE)%N ->
      update_files_removed (as_bytes t) (as_bytes u) (as_bytes <$> us) d = Ok d' ->
      op_effect u t ts cur (DeleteFiles us) (st, d) (st, d')
  | effect_schema spec old old_row old_columns s rows st d d1 d2 d' :
      cur = Some old ->
      SchemaSpec.validate spec = Ok tt ->
      old_row ∈ select_schema (as_bytes old) d ->
      columns_of d old = Ok old_columns ->
      evolves (column_map old_columns) (SchemaSpec.columns spec) ->
      insert_schema (SchemaRow.mk (as_bytes s) (as_bytes u)
        (wrap_i32 (SchemaRow.schema_version old_row + 1)) (as_bytes t) None ts) d = Ok d1 ->
      update_schema_valid_to (as_bytes t) (as_bytes old) d1 = Ok d2 ->
      are_columns s (SchemaSpec.columns spec) rows ->
      insert_rows insert_column rows d2 = Ok d' ->
      op_effect u t ts cur (UpdateSchema spec) (st, d)
        (MutState.mk (Some s) (MutState.properties_value st), d')
  | effect_set p st d :
      op_effect u t ts cur (SetProperties p) (st, d)
        (MutState.mk (MutState.new_schema_uuid st) p, d)
  | effect_remove keys p st d :
      remove_properties (MutState.properties_value st) keys = Ok p ->
      op_effect u t ts cur (RemoveProperties keys) (st, d)
        (MutState.mk (MutState.new_schema_uuid st) p, d).

Inductive ops_effect (u t : Uuid) (ts : DateTime) (cur : option Uuid) :
    list MutationOp -> MutState.t * Db -> MutState.t * Db -> Prop :=
  | ops_nil s : ops_effect u t ts cur [] s s
  | ops_cons op ops s1 s2 s3 :
      op_effect u t ts cur op s1 s2 -> ops_effect u t ts cur ops s2 s3 ->
      ops_effect u t ts cur (op :: ops) s1 s3.

(** ** Batched inserts *)

(** A batch of rows that satisfy [P] was inserted. *)
Definition inserted {R} (ins : R -> Db -> result SqlxError Db) (P : list R -> Prop) (d d' : Db) :
    Prop := exists rs, P rs /\ insert_rows ins rs d = Ok d'.

(** A loop that inserts batch after batch inserts all the rows in order. *)
Lemma okp_insert_batches {X R} (l : list X) (body : X -> M unit) (P : X -> list R -> Prop)
    (ins : R -> Db -> result SqlxError Db) w :
  (forall x w', x ∈ l -> okp (body x) (fun _ w'' => inserted ins (P x) (db w') (db w'')) w') ->
  okp (for_each l body)
    (fun _ w' => inserted ins (fun rs => exists rss, Forall2 P l rss /\ rs = concat rss)
       (db w) (db w')) w.
Proof.
  revert w; induction l as [|x l IH]; intros w Hg; cbn.
  - apply okp_ret. exists []. split; [by exists [] | done].
  - apply okp_bind. eapply okp_mono; [apply Hg; left|]. intros _ w1 (rs & HP & Hd).
    eapply okp_mono; [apply IH; set_solver|].
    intros _ w2 (rs' & (rss & HF & ->) & Hi). exists (rs ++ concat rss). split.
    + exists (rs :: rss). split; [by constructor | done].
    + by rewrite insert_rows_app, Hd.
Qed.

(** A batch: one row per element, each built without touching the database. *)
Lemma okp_batch {X R} (xs : list X) (row : X -> M R) (P : X -> R -> Prop)
    (ins : R -> Db -> result SqlxError Db) w :
  (forall x w', okp (row x) (fun r w'' => P x r /\ db w'' = db w') w') ->
  okp (rs ← map_m row xs; execute_ (insert_rows ins rs))
    (fun _ w' => inserted ins (Forall2 P xs) (db w) (db w')) w.
Proof.
  intros Hr. apply okp_bind.
  eapply (okp_map_m _ _ P (fun w' => db w' = db w)); [done | |].
  - intros x w' _ E. eapply okp_mono; [apply Hr|]. intros r w'' [? E']. split; [done | congruence].
  - intros rs w' HF E. apply okp_execute_. intros d Hd. exists rs. rewrite <- E. done.
Qed.

Lemma okp_column_row s n ci p w :
  okp (column_row s n ci p)
    (fun r w' => is_column s (ci * n + p.1, p.2) r /\ db w' = db w) w.
Proof.
  destruct p as [i c]. cbn. apply okp_bind, okp_lift. intros e He.
  apply okp_bind, okp_new_v4, okp_ret. split; [|done]. eexists _, e. cbn. eauto.
Qed.

Lemma okp_insert_columns kind s cs w :
  okp (insert_columns kind s cs)
    (fun _ w' => inserted insert_column (are_columns s cs) (db w) (db w')) w.
Proof.
  unfold insert_columns. eapply okp_mono.
  - apply (okp_insert_batches (imap pair (chunks (columns_chunk kind) cs)) _
      (fun p rs => Forall2 (is_column s)
         (imap (fun i x => (p.1 * columns_chunk kind + i, x)) p.2) rs) insert_column).
    intros [ci c] w' _. eapply okp_mono; [apply okp_batch; intros; apply okp_column_row|].
    intros _ w'' (rs & HF & Hi). exists rs. split; [|done]. cbn.
    apply Forall2_fmap_l in HF. by rewrite fmap_imap in HF.
  - intros _ w' (rs & (rss & HF & ->) & Hi). exists (concat rss). split; [|done].
    unfold are_columns. rewrite <- (chunks_imap pair (columns_chunk kind) cs)
      by apply columns_chunk_pos.
    apply Forall2_concat. apply Forall2_fmap_l in HF. by rewrite fmap_imap in HF.
Qed.

Lemma okp_file_row u t f w :
  okp (file_row u t f) (fun r w' => is_file u t f r /\ db w' = db w) w.
Proof.
  unfold file_row. apply okp_bind, okp_lift. intros [] Hv. apply okp_bind.
  assert (Hrest : forall fu w', (forall u0, FileSpec.file_uuid f = Some u0 -> fu = u0) ->
    db w' = db w ->
    okp (partition_text ← lift (serialize_json_optional (FileSpec.partition_values f));
         format_text ← lift (serialize_json_optional (FileSpec.format_options f));
         mret (FileRow.mk (as_bytes fu) (as_bytes u) (as_str_format (FileSpec.file_format f))
           (FileSpec.file_path f) (FileSpec.record_count f) (FileSpec.file_size_bytes f)
           (as_bytes t) None partition_text format_text))
      (fun r w' => is_file u t f r /\ db w' = db w) w').
  { intros fu w' Hu E. apply okp_bind, okp_lift. intros pt Hp.
    apply okp_bind, okp_lift. intros ft Hf. apply okp_ret. split; [|done]. split; [done|].
    by exists fu, pt, ft. }
  destruct (FileSpec.file_uuid f) as [x|] eqn:Ex.
  - apply okp_ret. apply Hrest; [by intros ? [= ->] | done].
  - apply okp_new_v4. by apply Hrest.
Qed.

Lemma okp_append_files u t fs w :
  okp (append_files u t fs)
    (fun _ w' => (as_u32 (length fs) <= limits.MAX_FILES_PER_APPEND)%N /\
       inserted insert_file (Forall2 (is_file u t) fs) (db w) (db w')) w.
Proof.
  unfold append_files. apply okp_bind, okp_lift. intros [] Hl%fail_if_ok.
  eapply okp_mono.
  - apply (okp_insert_batches (chunks files_chunk fs) _
      (fun c rs => Forall2 (is_file u t) c rs) insert_file).
    intros c w' _. apply okp_batch. intros. apply okp_file_row.
  - intros _ w' (rs & (rss & HF & ->) & Hi). split; [by apply N.ltb_ge|]. exists (concat rss). split; [|done].
    rewrite <- (chunks_concat files_chunk fs) by apply files_chunk_pos. by apply Forall2_concat.
Qed.

(** ** Batched deletes *)

Lemma mark_removed_app t u xs ys r :
  mark_removed t u ys (mark_removed t u xs r) = mark_removed t u (xs ++ ys) r.
Proof.
  unfold mark_removed, deletes. rewrite existsb_app.
  destruct (beq (FileRow.table_uuid r) u) eqn:Eu; cbn; [|by rewrite Eu].
  destruct (beq (FileRow.removed_in_transaction_id r) None) eqn:Er; cbn; [|by rewrite Eu, Er].
  destruct (existsb _ xs); cbn; [by rewrite Eu|]. by rewrite Eu, Er.
Qed.

Lemma mark_removed_nil t u r : mark_removed t u [] r = r.
Proof. unfold mark_removed, deletes. cbn. by rewrite andb_false_r. Qed.

Lemma update_files_removed_app t u xs ys d d1 d2 :
  update_files_removed t u xs d = Ok d1 -> update_files_removed t u ys d1 = Ok d2 ->
  update_files_removed t u (xs ++ ys) d = Ok d2.
Proof.
  intros [H1 ->]%update_files_removed_ok [H2 ->]%update_files_removed_ok.
  cbn [files transactions tables schemas columns table_stats] in *.
  apply update_files_removed_ok. split.
  - intros (r & Hr & Hd)%existsb_exists. unfold deletes in Hd. rewrite existsb_app in Hd.
    apply andb_true_iff in Hd as [Hur [Hx|Hy]%orb_true_iff].
    + apply H1, existsb_exists. exists r. split; [done|]. unfold deletes. by rewrite Hur, Hx.
    + destruct (deletes u xs r) eqn:Ex; [apply H1, existsb_exists; eauto|].
      apply H2, existsb_exists. exists r. split; [|unfold deletes; by rewrite Hur, Hy].
      apply list_elem_of_In, list_elem_of_fmap. exists r. unfold mark_removed. rewrite Ex.
      split; [done | by apply list_elem_of_In].
  - f_equal. rewrite <- list_fmap_compose. apply list_fmap_ext. intros i r _.
    apply mark_removed_app.
Qed.

Lemma okp_delete_files u t us w :
  okp (delete_files u t us)
    (fun _ w' => (as_u32 (length us) <= limits.MAX_FILES_PER_DELETE)%N /\
       update_files_removed (as_bytes t) (as_bytes u) (as_bytes <$> us) (db w) = Ok (db w')) w.
Proof.
  unfold delete_files. apply okp_bind, okp_lift. intros [] Hl%fail_if_ok.
  eapply (okp_for_each _ _ (fun rest w' => exists seen,
    seen ++ concat rest = us /\
    update_files_removed (as_bytes t) (as_bytes u) (as_bytes <$> seen) (db w) = Ok (db w'))).
  - exists []. split; [by apply chunks_concat, delete_chunk_pos|].
    apply update_files_removed_ok. split.
    + intros (r & _ & Hr)%existsb_exists. unfold deletes in Hr. cbn in Hr.
      by rewrite andb_false_r in Hr.
    + destruct w as [[ts xs ss cs fs st] n]; cbn. f_equal. symmetry.
      rewrite <- (list_fmap_id fs) at 2. apply list_fmap_ext. intros i r _. apply mark_removed_nil.
  - intros c rest w' (seen & E & Hu). apply okp_execute_. intros d Hd.
    exists (seen ++ c). split; [by rewrite <- app_assoc|]. rewrite fmap_app.
    by eapply update_files_removed_app.
  - intros w' (seen & E & Hu). cbn in E. rewrite app_nil_r in E. subst us.
    split; [by apply N.ltb_ge | done].
Qed.

(** ** Schema updates *)

Lemma find_none_forall {A} (p : A -> bool) l :
  List.find p l = None <-> forall x, x ∈ l -> p x = false.
Proof.
  split.
  - intros Hf x Hx. apply (find_none _ _ Hf). by apply list_elem_of_In.
  - intros Hf. destruct (List.find p l) as [x|] eqn:E; [|done].
    apply find_some in E as [Hx%list_elem_of_In Hp]. rewrite (Hf x Hx) in Hp. done.
Qed.

Lemma check_column_ok old c :
  check_column old c = Ok tt <->
  forall t n, old !! ColumnSpec.name c = Some (t, n) ->
    can_evolve_to t (ColumnSpec.column_type c) = true /\ (n = true -> ColumnSpec.is_nullable c = true).
Proof.
  unfold check_column. destruct (old !! ColumnSpec.name c) as [[t n]|]; [|naive_solver].
  rewrite then_ok, !fail_if_ok, negb_false_iff.
  destruct n, (ColumnSpec.is_nullable c); cbn; naive_solver.
Qed.

Lemma traverse_unit_ok {X} (f : X -> result CatalogError unit) l :
  (exists us, traverse f l = Ok us) <-> forall x, x ∈ l -> f x = Ok tt.
Proof.
  split.
  - intros [us HF%traverse_ok] x Hx. apply list_elem_of_lookup in Hx as [i Hi].
    destruct (Forall2_lookup_l _ _ _ _ _ HF Hi) as ([] & _ & E). exact E.
  - intros Hf. apply traverse_total. intros x Hx. exists tt. auto.
Qed.

Lemma check_evolution_ok `{!EnumerationLaws} old cs :
  check_evolution old cs = Ok tt <-> evolves old cs.
Proof.
  unfold check_evolution, evolves. rewrite then_ok, bind_ok.
  assert (Hdrop : check_no_drop old cs = Ok tt <->
    forall k, is_Some (old !! k) -> k ∈ ColumnSpec.name <$> cs).
  { unfold check_no_drop. destruct (List.find _ _) as [k|] eqn:E.
    - split; [done|]. intros H'. exfalso.
      apply find_some in E as [Hk%list_elem_of_In Hn].
      rewrite hash_order_perm, list_elem_of_fmap in Hk.
      destruct Hk as ([k' v] & -> & Hk%elem_of_map_to_list). cbn in Hn.
      rewrite negb_true_iff, bool_decide_eq_false, elem_of_list_to_set in Hn.
      apply Hn, H'. eauto.
    - rewrite find_none_forall in E. split; [|done]. intros _ k [v Hv].
      specialize (E k). rewrite negb_false_iff, bool_decide_eq_true, elem_of_list_to_set in E.
      apply E. rewrite hash_order_perm. apply list_elem_of_fmap. exists (k, v).
      split; [done | by apply elem_of_map_to_list]. }
  rewrite Hdrop. apply and_iff_compat_l.
  transitivity (exists us, traverse (check_column old) cs = Ok us); [naive_solver|].
  rewrite traverse_unit_ok. setoid_rewrite check_column_ok. naive_solver.
Qed.

Lemma traverse_perm {E A B} (f : A -> result E B) l k xs :
  l ≡ₚ k -> traverse f l = Ok xs -> exists ys, traverse f k = Ok ys /\ xs ≡ₚ ys.
Proof.
  intros Hp. revert xs. induction Hp as [|x l k Hp IH|x y l|l1 l2 l3 _ IH1 _ IH2]; intros xs.
  - intros Hx. exists xs. done.
  - cbn. rewrite bind_ok. intros (z & -> & (zs & Hz & [= <-])%bind_ok).
    destruct (IH zs Hz) as (ys & Hys & Hyp). exists (z :: ys). cbn. rewrite Hys. split; [done|].
    by constructor.
  - cbn. rewrite bind_ok. intros (z & -> & (zs & (z' & -> & Hz)%bind_ok & [= <-])%bind_ok).
    apply bind_ok in Hz as (zs' & Hz & [= <-]). exists (z' :: z :: zs'). cbn. rewrite Hz.
    split; [done | constructor].
  - intros Hx. destruct (IH1 xs Hx) as (ys & Hy & P1). destruct (IH2 ys Hy) as (zs & Hz & P2).
    exists zs. split; [done | by etrans].
Qed.

Lemma column_map_lookup_gen (l : list (string * (DataType * bool)))
    (m : gmap string (DataType * bool)) k v :
  NoDup l.*1 ->
  fold_left (fun m p => <[p.1 := p.2]> m) l m !! k = Some v <->
  (k, v) ∈ l \/ (k ∉ l.*1 /\ m !! k = Some v).
Proof.
  revert m; induction l as [|[k' v'] l IH]; intros m; cbn.
  { set_solver. }
  rewrite NoDup_cons. intros [Hn Hd]. rewrite IH by done. rewrite !elem_of_cons.
  destruct (decide (k = k')) as [->|Hk].
  - rewrite lookup_insert_eq. split.
    + intros [Hkv|[_ [= ->]]]; [by auto | by auto].
    + intros [[E|Hkv]|[Hc _]]; [simplify_eq; by auto | by auto | naive_solver].
  - rewrite lookup_insert_ne by done. naive_solver.
Qed.

Lemma column_map_lookup l k v :
  NoDup l.*1 -> column_map l !! k = Some v <-> (k, v) ∈ l.
Proof.
  intros Hd. unfold column_map. rewrite column_map_lookup_gen by done.
  rewrite lookup_empty. naive_solver.
Qed.

Lemma column_map_perm l k : NoDup l.*1 -> l ≡ₚ k -> column_map l = column_map k.
Proof.
  intros Hd Hp. apply map_eq. intros i. apply option_eq. intros v.
  rewrite !column_map_lookup; [by rewrite Hp | by rewrite <- Hp | done].
Qed.

(** The names of a schema's decoded columns are those of its rows. *)
Lemma columns_of_names d s l :
  columns_of d s = Ok l -> l.*1 = ColumnRow.column_name <$> select_columns (as_bytes s) d.
Proof.
  unfold columns_of. rewrite traverse_ok. induction 1 as [|r x rs xs Hx _ IH]; cbn; [done|].
  rewrite IH. f_equal. unfold current_column in Hx. apply bind_ok in Hx as (t & _ & [= <-]). done.
Qed.

Lemma select_columns_nodup d s :
  NoDup (column_names d) -> NoDup (ColumnRow.column_name <$> select_columns s d).
Proof.
  intros Hd. unfold select_columns. induction (columns d) as [|r l IH]; cbn in *; [constructor|].
  apply NoDup_cons in Hd as [Hn Hd]. destruct (bool_decide _) eqn:Es; cbn; [|by apply IH].
  apply bool_decide_eq_true_1 in Es. apply NoDup_cons. split; [|by apply IH].
  intros (r' & E & [Hr' Es'%bool_decide_eq_true_1]%elem_of_filter')%list_elem_of_fmap.
  apply Hn, list_elem_of_fmap. exists r'. split; [congruence | done].
Qed.

Context `{!EnumerationLaws}.

Lemma okp_fetch_one {R} (q : Db -> list R) w :
  okp (fetch_one q) (fun r w' => r ∈ q (db w) /\ db w' = db w) w.
Proof.
  unfold fetch_one, fetch_optional. apply okp_bind, okp_fetch, okp_lift. intros r Hr%ok_or_ok.
  split; [|done]. rewrite <- row_order_perm. destruct (row_order _); cbn in Hr; [done|].
  simplify_eq. left.
Qed.

Lemma okp_update_schema kind u t ts cur spec st w :
  NoDup (column_names (db w)) ->
  okp (update_schema kind u t ts cur spec)
    (fun s w' => op_effect u t ts cur (UpdateSchema spec) (st, db w)
       (MutState.mk (Some s) (MutState.properties_value st), db w')) w.
Proof.
  intros Hd. unfold update_schema. apply okp_bind, okp_lift. intros [] Hv.
  apply okp_bind, okp_lift. intros old Hold%ok_or_ok.
  apply okp_bind. eapply okp_mono; [apply okp_fetch_one|]. intros old_row w1 [Hrow E1].
  apply okp_bind, okp_fetch. rewrite E1. apply okp_bind, okp_lift. intros cols Hcols.
  eapply traverse_perm in Hcols as (cols' & Hcols' & Hperm); [|apply row_order_perm].
  apply okp_bind, okp_lift. intros [] Hev%check_evolution_ok.
  assert (column_map cols' = column_map cols) as Hmap.
  { apply column_map_perm; [|done]. rewrite (columns_of_names (db w) old) by done.
    by apply select_columns_nodup. }
  apply okp_bind, okp_new_v4. apply okp_bind, okp_execute_. intros d1 H1. cbn in H1.
  apply okp_bind, okp_execute_. intros d2 H2. cbn in H2.
  apply okp_bind. eapply okp_mono; [apply okp_insert_columns|].
  intros _ w' (rows & Hrows & Hi). apply okp_ret. rewrite E1 in H1.
  eapply effect_schema; try done. by rewrite Hmap.
Qed.

Lemma okp_apply_op kind u t ts cur st op w :
  NoDup (column_names (db w)) ->
  okp (apply_op kind u t ts cur st op)
    (fun st' w' => op_effect u t ts cur op (st, db w) (st', db w')) w.
Proof.
  intros Hd. destruct op as [fs|us|spec|p|keys]; cbn.
  - apply okp_bind. eapply okp_mono; [apply okp_append_files|].
    intros _ w' (Hl & rows & Hr & Hi). apply okp_ret. by econstructor.
  - apply okp_bind. eapply okp_mono; [apply okp_delete_files|].
    intros _ w' [Hl Hu]. apply okp_ret. by econstructor.
  - apply okp_bind. eapply okp_mono; [by apply (okp_update_schema _ _ _ _ _ _ st)|].
    intros s w' He. apply okp_ret. exact He.
  - apply okp_ret. constructor.
  - apply okp_bind, okp_lift. intros p Hp. apply okp_ret. by constructor.
Qed.

(** ** Whole calls *)

Lemma uuid_from_row_ok b u : uuid_from_row b = Ok u <-> b = as_bytes u.
Proof. unfold uuid_from_row. by rewrite ok_or_ok, from_slice_some. Qed.

Lemma uuid_from_row_optional_ok b u : uuid_from_row_optional b = Ok u <-> b = as_bytes <$> u.
Proof.
  destruct b as [b|]; [|destruct u; naive_solver]. cbn.
  destruct (uuid_from_row b) as [x|e] eqn:E; cbn.
  - apply uuid_from_row_ok in E as ->. destruct u as [u|]; cbn; [|naive_solver].
    split; [by intros [= ->] | by intros [= ->%(inj as_bytes)]].
  - split; [done|]. destruct u as [u|]; cbn; [|done]. intros [= ->].
    assert (uuid_from_row (as_bytes u) = Ok u) by by apply uuid_from_row_ok. congruence.
Qed.

Lemma okp_fetch_table ident w :
  okp (fetch_table ident)
    (fun r w' => r ∈ select_table (TableIdent.namespace ident) (TableIdent.name ident) (db w) /\
       db w' = db w) w.
Proof.
  unfold fetch_table, fetch_optional. apply okp_bind, okp_fetch, okp_lift. intros r Hr%ok_or_ok.
  split; [|done]. rewrite <- row_order_perm. destruct (row_order _); cbn in Hr; [done|].
  simplify_eq. left.
Qed.

Lemma op_effect_db_ok u t ts cur op st d st' d' :
  db_ok d -> op_effect u t ts cur op (st, d) (st', d') -> db_ok d'.
Proof.
  intros Hok He. inversion He; subst; try done.
  - eapply insert_rows_inv; [| |eassumption]; eauto with planar.
  - eauto with planar.
  - eapply insert_rows_inv; [| |eassumption]; eauto with planar.
Qed.

Lemma okp_ops kind u t ts cur st ops w :
  db_ok (db w) ->
  okp (fold_m (apply_op kind u t ts cur) st ops)
    (fun st' w' => ops_effect u t ts cur ops (st, db w) (st', db w') /\ db_ok (db w')) w.
Proof.
  revert st w; induction ops as [|op ops IH]; intros st w Hok; cbn.
  - apply okp_ret. split; [constructor | done].
  - apply okp_bind. eapply okp_mono; [by apply okp_apply_op; destruct Hok|].
    intros st1 w1 He. eapply okp_mono; [eapply IH, op_effect_db_ok; [exact Hok | exact He]|].
    intros st2 w2 [Hes Hok2]. split; [|done]. eapply ops_cons; [exact He | exact Hes].
Qed.

(** The transition a successful [commit] of [mutation] on [base] makes, with
    the new transaction [t]. *)
Inductive commit_effect (writer : Z) (ident : TableIdent.t) (base t : TxnId)
    (mutation : Mutation.t) (d d' : Db) : Prop :=
  commit_effect_intro row u ts cur props st d1 d2 text :
    row ∈ select_table (TableIdent.namespace ident) (TableIdent.name ident) d ->
    TableRow.table_uuid row = as_bytes u ->
    TableRow.current_transaction_id row = Some (as_bytes base) ->
    TableRow.current_schema_uuid row = as_bytes <$> cur ->
    parse_table_properties (TableRow.properties row) = Ok props ->
    (TableRow.min_writer_version row <= writer)%Z ->
    check_mutation mutation = Ok tt ->
    insert_transaction (TransactionRow.mk (as_bytes t) (as_bytes u) ts (Some (as_bytes base))) d
      = Ok d1 ->
    ops_effect u t ts cur (Mutation.operations mutation) (MutState.mk cur props, d1) (st, d2) ->
    serialize_json (TableProperties.to_json (MutState.properties_value st)) = Ok text ->
    update_table_head (as_bytes u)
      (as_bytes <$> match MutState.new_schema_uuid st with Some s => Some s | None => cur end)
      (Some (as_bytes t)) (Some text) d2 = Ok d' ->
    commit_effect writer ident base t mutation d d'.

Lemma okp_commit_body kind client ident base mutation w :
  db_ok (db w) -> check_mutation mutation = Ok tt ->
  okp (commit_body kind client ident base mutation)
    (fun res w' => CommitResult.table_view res = None /\
       commit_effect (ProtocolVersions.writer client) ident base
         (CommitResult.transaction_id res) mutation (db w) (db w') /\ db_ok (db w')) w.
Proof.
  intros Hok Hm. unfold commit_body.
  apply okp_bind. eapply okp_mono; [apply okp_fetch_table|]. intros row w1 [Hrow E1].
  apply okp_bind, okp_lift. intros u Hu%uuid_from_row_ok.
  apply okp_bind, okp_lift. intros cur Hcur%uuid_from_row_optional_ok.
  apply okp_bind, okp_lift. intros head Hhead%uuid_from_row_optional_ok.
  apply okp_bind, okp_lift. intros props Hprops.
  apply okp_bind, okp_lift. intros [] Hproto.
  apply okp_bind, okp_lift. intros current ->%ok_or_ok.
  apply okp_bind, okp_lift. intros [] Hbase%fail_if_ok%bool_decide_eq_false_1%dec_stable.
  subst current. apply okp_bind, okp_next_transaction_id. apply okp_bind, okp_utc_now.
  apply okp_bind, okp_execute_. intros d1 H1. cbn in H1. rewrite E1 in H1.
  apply okp_bind. eapply okp_mono; [eapply okp_ops; cbn; eauto with planar|].
  intros st w2 [Hops Hok2]. cbn in Hops.
  apply okp_bind, okp_lift. intros text Htext.
  apply okp_bind, okp_execute_. intros d3 H3. apply okp_ret. cbn.
  split; [done|]. split; [|cbn; eauto with planar].
  econstructor; try eassumption.
  unfold ensure_writer_protocol_compatible in Hproto. destruct (_ <? _)%Z eqn:El; [done|]. lia.
Qed.

(** The transition a successful [create_table] makes. *)
Inductive create_effect (client : ProtocolVersions.t) (ident : TableIdent.t) (location : string)
    (spec : SchemaSpec.t) (properties : option TableProperties.t) (d d' : Db) : Prop :=
  create_effect_intro u t s ts text rows d1 d2 d3 d4 :
    select_table (TableIdent.namespace ident) (TableIdent.name ident) d = [] ->
    SchemaSpec.validate spec = Ok tt ->
    serialize_json (TableProperties.to_json (default TableProperties.new properties)) = Ok text ->
    insert_table (TableRow.mk (as_bytes u) (TableIdent.name ident) (TableIdent.namespace ident)
      location None None ts (Some text) (ProtocolVersions.reader client)
      (ProtocolVersions.writer client)) d = Ok d1 ->
    insert_transaction (TransactionRow.mk (as_bytes t) (as_bytes u) ts None) d1 = Ok d2 ->
    insert_schema (SchemaRow.mk (as_bytes s) (as_bytes u) INITIAL_SCHEMA_VERSION (as_bytes t) None ts)
      d2 = Ok d3 ->
    are_columns s (SchemaSpec.columns spec) rows ->
    insert_rows insert_column rows d3 = Ok d4 ->
    update_table_head (as_bytes u) (Some (as_bytes s)) (Some (as_bytes t)) None d4 = Ok d' ->
    create_effect client ident location spec properties d d'.

Lemma head_none_nil {A} (l k : list A) : k ≡ₚ l -> head k = None -> l = [].
Proof. intros Hp Hh. destruct k; [|done]. symmetry in Hp. by apply Permutation_nil_r in Hp. Qed.

(** The body of the transaction of [create_table]. *)
Lemma okp_create_body kind client ident location spec properties w :
  db_ok (db w) -> SchemaSpec.validate spec = Ok tt ->
  okp (create_body kind client ident location spec properties) (fun i w' => i = ident /\
    create_effect client ident location spec properties (db w) (db w') /\ db_ok (db w')) w.
Proof.
  intros Hok Hv. apply okp_bind, okp_fetch, okp_bind, okp_lift. intros [] Hnone.
  apply okp_bind, okp_new_v4. apply okp_bind, okp_utc_now. apply okp_bind, okp_lift. intros text Htext.
  apply okp_bind, okp_execute_. intros d1 H1.
  apply okp_bind, okp_next_transaction_id. apply okp_bind, okp_execute_. intros d2 H2.
  apply okp_bind, okp_new_v4. apply okp_bind, okp_execute_. intros d3 H3.
  apply okp_bind. eapply okp_mono; [apply okp_insert_columns|].
  intros _ w' (rows & Hrows & H4).
  apply okp_bind, okp_execute_. intros d5 H5. apply okp_ret. cbn in *. split; [done|].
  assert (db_ok (db w')) as Hok4.
  { eapply insert_rows_inv; [| |exact H4]; eauto with planar. }
  split; [|eauto with planar].
  eapply create_effect_intro; try eassumption.
  destruct (head _) eqn:Eh in Hnone; [done|]. eapply head_none_nil; [apply row_order_perm | exact Eh].
Qed.

(** The whole of [create_table]. *)
Lemma wp_create_table kind client ident location spec properties Φ w :
  db_ok (db w) ->
  (forall e n, Φ (Err e) (mk_world (db w) n)) ->
  (forall w', create_effect client ident location spec properties (db w) (db w') ->
     db_ok (db w') -> Φ (Ok ident) w') ->
  wp (create_table kind client ident location spec properties) Φ w.
Proof.
  intros Hok He Ho. unfold create_table. apply wp_bind, wp_lift.
  destruct (SchemaSpec.validate spec) as [[]|e] eqn:Hv;
    [|destruct w as [d n]; apply (He e n)].
  eapply wp_with_tx_okp; [by apply okp_create_body | exact He|].
  intros i w' (-> & Hc & Hok'). by apply Ho.
Qed.

(** The whole of [commit]. *)
Lemma wp_commit kind client ident base mutation Φ w :
  db_ok (db w) ->
  (forall e n, Φ (Err e) (mk_world (db w) n)) ->
  (forall res w', CommitResult.table_view res = None ->
     commit_effect (ProtocolVersions.writer client) ident base (CommitResult.transaction_id res)
       mutation (db w) (db w') ->
     db_ok (db w') -> Φ (Ok res) w') ->
  wp (commit kind client ident base mutation) Φ w.
Proof.
  intros Hok He Ho. unfold commit. apply wp_bind, wp_lift.
  destruct (check_mutation mutation) as [[]|e] eqn:Hm; [|destruct w as [d n]; apply (He e n)].
  eapply wp_with_tx_okp; [by apply okp_commit_body | exact He|].
  intros res w' (Hv & Hc & Hok'). apply Ho; [exact Hv | exact Hc | exact Hok'].
Qed.

Lemma wp_drop_table ident Φ w :
  (forall e n, Φ (Err e) (mk_world (db w) n)) ->
  (forall k d' n, delete_table (TableIdent.namespace ident) (TableIdent.name ident) (db w)
      = Ok (S k, d') -> Φ (Ok tt) (mk_world d' n)) ->
  wp (drop_table ident) Φ w.
Proof.
  intros He Ho. unfold drop_table. apply wp_bind, wp_execute; [intros; apply He | intros; apply He|].
  intros [|k] d _ Hd; apply wp_lift; cbn; [|by eapply Ho].
  assert (d = db w) as ->; [|apply (He _ _)].
  apply delete_table_ok in Hd as (_ & Hl & ->). symmetry in Hl. apply nil_length_inv in Hl.
  rewrite (filter_all_true _ (tables (db w))); [by destruct (db w)|].
  intros r Hr. apply negb_true_iff. destruct (named _ _ r) eqn:En; [|done].
  assert (r ∈ select_table (TableIdent.namespace ident) (TableIdent.name ident) (db w)) as Hin
    by (by apply elem_of_filter'). rewrite Hl in Hin. by apply elem_of_nil in Hin.
Qed.

End effects.
