(* ===== verification/ReadFacts.v ===== *)
(** * Reading never blocks and never writes

    Every read method returns, on every database, and leaves the database as
    it was.  For the two walks along the parent chain this is the argument that
    the fuel of [chain_fuel] is enough: each turn marks another transaction row
    as visited, so on a database with [n] rows a chain, cyclic or not, is
    settled within [n + 2] turns. *)

From S2P Require Import Prelude Uuid Error Limits Json DataType Format Schema Models Db DbFacts World Helpers Catalog.

Section reads.
Context `{Env} (d : Db).

(** Visited transactions are rows of the database. *)
Definition visited_rows (visited : gset Uuid) : Prop :=
  forall u, u ∈ visited -> as_bytes u ∈ txn_keys d.

Lemma visited_size visited : visited_rows visited -> size visited <= length (transactions d).
Proof.
  intros Hv. rewrite <- (length_fmap TransactionRow.transaction_id (transactions d)).
  unfold size, set_size. cbn. rewrite <- (length_fmap as_bytes (elements visited)).
  apply submseteq_length, NoDup_submseteq.
  - apply NoDup_fmap_2; [apply _ | apply NoDup_elements].
  - intros b (u & -> & Hu%elem_of_elements)%list_elem_of_fmap. by apply Hv.
Qed.

Lemma select_transaction_head rows u t r :
  head rows = Some r -> rows ⊆ select_transaction u t d -> t ∈ txn_keys d.
Proof.
  destruct rows as [|x rows]; cbn; [done|]. intros [= ->] Hs.
  assert (r ∈ select_transaction u t d) as Hr by (apply Hs; left).
  apply elem_of_filter' in Hr as [Hr [_ E%bool_decide_eq_true_1]%andb_true_iff].
  rewrite <- E. by apply list_elem_of_fmap_2.
Qed.

Context `{!EnumerationLaws}.

(** One more visited transaction. *)
Lemma visit u t visited r :
  visited_rows visited -> t ∉ visited ->
  head (row_order (select_transaction (as_bytes u) (as_bytes t) d)) = Some r ->
  visited_rows ({[t]} ∪ visited) /\ size ({[t]} ∪ visited) = S (size visited).
Proof.
  intros Hv Hn Hh. split.
  - intros x [->%elem_of_singleton|Hx]%elem_of_union; [|by apply Hv].
    eapply select_transaction_head; [exact Hh|]. intros y. by rewrite row_order_perm.
  - rewrite size_union, size_singleton; [lia | set_solver].
Qed.

(** A query followed by a continuation that may use its answer. *)
Lemma reads_fetch_optional_then {R B} (q : Db -> list R) (k : option R -> M B) :
  (forall o, o = head (row_order (q d)) -> ReadsOn d (k o)) ->
  ReadsOn d (o ← fetch_optional q; k o).
Proof.
  intros Hk n. unfold mbind, M_bind, fetch_optional, fetch. cbn. destruct (fault n).
  - unfold bump. eauto.
  - by apply (Hk _ eq_refl).
Qed.

Lemma reads_lift_then {A B} (r : result CatalogError A) (k : A -> M B) :
  (forall a, r = Ok a -> ReadsOn d (k a)) -> ReadsOn d (a ← lift r; k a).
Proof.
  intros Hk n. unfold mbind, M_bind, lift. destruct r as [a|e]; [by apply Hk | eauto].
Qed.

Lemma find_in_history_reads fuel u eff cur visited :
  visited_rows visited -> S (length (transactions d)) < fuel + size visited ->
  ReadsOn d (find_in_history fuel u eff cur visited).
Proof.
  revert cur visited; induction fuel as [|fuel IH]; intros cur visited Hv Hf.
  - pose proof (visited_size visited Hv). lia.
  - cbn [find_in_history]. case_bool_decide as Hin; [apply _|].
    case_bool_decide; [apply _|]. apply reads_fetch_optional_then. intros o Ho.
    apply reads_lift_then. intros r Hr%ok_or_ok. rewrite Hr in Ho. symmetry in Ho.
    apply reads_lift_then. intros p _. destruct p as [p|]; [|apply _].
    destruct (visit _ _ _ _ Hv Hin Ho) as [Hv' Hs]. apply IH; [done | lia].
Qed.

Lemma collect_chain_reads fuel u from cur visited acc b :
  visited_rows visited -> S (length (transactions d)) < fuel + size visited ->
  ReadsOn d (collect_chain fuel u from cur visited acc b).
Proof.
  revert cur visited acc; induction fuel as [|fuel IH]; intros cur visited acc Hv Hf.
  - pose proof (visited_size visited Hv). lia.
  - cbn [collect_chain]. case_bool_decide as Hin; [apply _|].
    apply reads_fetch_optional_then. intros o Ho.
    apply reads_lift_then. intros r Hr%ok_or_ok. rewrite Hr in Ho. symmetry in Ho.
    apply reads_lift_then. intros _ _. apply reads_lift_then. intros p _.
    destruct p as [p|]; [|apply _]. case_bool_decide; [apply _|].
    destruct (visit _ _ _ _ Hv Hin Ho) as [Hv' Hs]. apply IH; [done | lia].
Qed.

Lemma reads_chain_fuel_then {B} (k : nat -> M B) :
  ReadsOn d (k (S (S (length (transactions d))))) -> ReadsOn d (fuel ← chain_fuel; k fuel).
Proof. intros Hk n. apply Hk. Qed.

Lemma visited_empty : visited_rows ∅.
Proof. intros u Hu. set_solver. Qed.

#[export] Instance check_history_reads u eff cur : ReadsOn d (check_history u eff cur).
Proof.
  unfold check_history. case_bool_decide; [apply _|]. apply reads_chain_fuel_then, reads_bind.
  - apply find_in_history_reads; [apply visited_empty | rewrite size_empty; lia].
  - apply _.
Qed.

#[export] Instance fetch_table_reads ident : ReadsOn d (fetch_table ident).
Proof. unfold fetch_table. apply _. Qed.

#[export] Instance fetch_columns_reads what s : ReadsOn d (fetch_columns what s).
Proof. unfold fetch_columns. apply _. Qed.

#[export] Instance read_stats_reads u t : ReadsOn d (read_stats u t).
Proof. unfold read_stats. apply reads_bind; [apply _|]. intros []; apply _. Qed.

#[export] Instance read_table_reads client ident at_ : ReadsOn d (read_table client ident at_).
Proof. unfold read_table, read_schema, read_files. repeat (apply reads_bind; [apply _|intros ?]). apply _. Qed.

#[export] Instance schema_change_reads n u t : ReadsOn d (schema_change_of n u t).
Proof.
  unfold schema_change_of. apply reads_bind; [apply _|]. intros [|r [|r' l]]; apply _.
Qed.

#[export] Instance event_of_txn_reads u counts t : ReadsOn d (event_of_txn u counts t).
Proof.
  unfold event_of_txn. apply reads_bind; [apply _|intros rows].
  apply reads_bind; [apply _|intros []]. apply reads_bind; [apply _|intros ?].
  apply reads_bind; [apply _|intros []]. apply reads_bind; [apply _|intros []]. apply _.
Qed.

#[export] Instance events_of_txns_reads u counts ts : ReadsOn d (events_of_txns u counts ts).
Proof.
  revert counts; induction ts as [|t ts IH]; intros counts; cbn; [apply _|].
  apply reads_bind; [apply _|intros []]. apply _.
Qed.

#[export] Instance check_to_inclusive_reads u c t : ReadsOn d (check_to_inclusive u c t).
Proof.
  unfold check_to_inclusive. case_bool_decide; [apply _|].
  apply reads_bind; [apply _|]. intros []; apply _.
Qed.

#[export] Instance list_transaction_events_reads ident cursor :
  ReadsOn d (list_transaction_events ident cursor).
Proof.
  unfold list_transaction_events. repeat (apply reads_bind; [apply _|intros ?]).
  apply reads_chain_fuel_then, reads_bind.
  - apply collect_chain_reads; [apply visited_empty | rewrite size_empty; lia].
  - intros []. apply _.
Qed.

#[export] Instance diff_table_reads client ident a b : ReadsOn d (diff_table client ident a b).
Proof. unfold diff_table. apply _. Qed.

#[export] Instance list_tables_reads ns : ReadsOn d (list_tables ns).
Proof. unfold list_tables. apply reads_bind; [destruct ns; apply _|]. intros ?. apply _. Qed.

#[export] Instance load_table_reads ident : ReadsOn d (load_table ident).
Proof. unfold load_table. apply reads_bind; [apply _|]. intros []; apply _. Qed.

#[export] Instance current_transaction_reads ident : ReadsOn d (current_transaction_id ident).
Proof. unfold current_transaction_id. apply _. Qed.

End reads.
