(* ===== verification/Invariant.v ===== *)
(** * The catalog invariant

    What the methods keep true of the metadata beyond relational integrity:
    the transactions of a table form one chain from its creation to its
    current transaction, its schemas take over from one another along that
    chain and the last one is the current schema, every file was added by a
    transaction of the chain and removed, if it was, by that one or a later
    one, and the columns of every schema hold encoded types and are numbered
    from 1. *)

From S2P Require Import Prelude Uuid Error Limits Json DataType Format Schema Models Db DbFacts World Helpers Catalog Effects.

(** ** Logs of a table *)

Definition history (d : Db) (u : Blob) : list TransactionRow.t :=
  List.filter (fun r => beq (TransactionRow.table_uuid r) u) (transactions d).

(** The transaction identifiers of a table, oldest first. *)
Definition chain (d : Db) (u : Blob) : list Blob := TransactionRow.transaction_id <$> history d u.

Definition schema_log (d : Db) (u : Blob) : list SchemaRow.t :=
  List.filter (fun r => beq (SchemaRow.table_uuid r) u) (schemas d).

(** Each transaction's parent is the one before it; the first has [prev]. *)
Fixpoint linked (prev : option Blob) (rows : list TransactionRow.t) : Prop :=
  match rows with
  | [] => True
  | r :: rows =>
      TransactionRow.parent_transaction_id r = prev /\
      linked (Some (TransactionRow.transaction_id r)) rows
  end.

(** Each schema is valid until the next one takes over; the last one is open. *)
Fixpoint schema_chain (rows : list SchemaRow.t) : Prop :=
  match rows with
  | [] => True
  | r :: rows =>
      SchemaRow.valid_to_transaction_id r = head (SchemaRow.valid_from_transaction_id <$> rows) /\
      schema_chain rows
  end.

(** [a] comes at or before [b]. *)
Definition precedes (ids : list Blob) (a b : Blob) : Prop :=
  exists i j, ids !! i = Some a /\ ids !! j = Some b /\ i <= j.

Definition history_ok (d : Db) (r : TableRow.t) : Prop :=
  linked None (history d (TableRow.table_uuid r)) /\
  history d (TableRow.table_uuid r) <> [] /\
  last (chain d (TableRow.table_uuid r)) = TableRow.current_transaction_id r.

Definition schemas_ok (d : Db) (r : TableRow.t) : Prop :=
  let log := schema_log d (TableRow.table_uuid r) in
  schema_chain log /\ log <> [] /\
  last (SchemaRow.schema_uuid <$> log) = TableRow.current_schema_uuid r /\
  head (SchemaRow.valid_from_transaction_id <$> log) = head (chain d (TableRow.table_uuid r)) /\
  (SchemaRow.valid_from_transaction_id <$> log) `sublist_of` chain d (TableRow.table_uuid r).

Definition file_ok (ids : list Blob) (r : FileRow.t) : Prop :=
  FileRow.added_in_transaction_id r ∈ ids /\
  match FileRow.removed_in_transaction_id r with
  | Some x => precedes ids (FileRow.added_in_transaction_id r) x
  | None => True
  end.

(** The columns of a schema are numbered from 1 in the order of insertion. *)
Definition numbered (rs : list ColumnRow.t) : Prop :=
  ColumnRow.ordinal_position <$> rs = (fun i => wrap_i32 (Z.of_nat i)) <$> seq 1 (length rs).

Definition is_uuid (b : Blob) : Prop := length b = 16.
Definition opt_uuid (o : option Blob) : Prop :=
  match o with Some b => is_uuid b | None => True end.

(** The identifiers of every row decode, and the type of every column is the
    encoding of one. *)
Record rows_decode `{ArrowIpc} (d : Db) : Prop := {
  dec_tables : Forall (fun r => is_uuid (TableRow.table_uuid r) /\
    opt_uuid (TableRow.current_schema_uuid r) /\ opt_uuid (TableRow.current_transaction_id r)) (tables d);
  dec_txns : Forall (fun r => is_uuid (TransactionRow.transaction_id r) /\
    opt_uuid (TransactionRow.parent_transaction_id r)) (transactions d);
  dec_schemas : Forall (fun r => is_uuid (SchemaRow.schema_uuid r) /\
    is_uuid (SchemaRow.table_uuid r) /\
    is_uuid (SchemaRow.valid_from_transaction_id r) /\
    opt_uuid (SchemaRow.valid_to_transaction_id r)) (schemas d);
  dec_columns : Forall (fun r => is_uuid (ColumnRow.column_uuid r) /\
    is_uuid (ColumnRow.schema_uuid r) /\
    exists t, encode_data_type t = Ok (ColumnRow.column_type r)) (columns d);
  dec_files : Forall (fun r => is_uuid (FileRow.file_uuid r) /\ is_uuid (FileRow.table_uuid r) /\
    is_uuid (FileRow.added_in_transaction_id r) /\
    opt_uuid (FileRow.removed_in_transaction_id r)) (files d)
}.

(** The type of a column decodes.  The invariant does not say so: Arrow IPC does
    not read back every schema it writes ([ipc_safe]). *)
Definition column_decodes `{ArrowIpc} (r : ColumnRow.t) : Prop :=
  exists t, decode_data_type (ColumnRow.column_type r) = Ok t.

(** Those of the columns of schema [s] do. *)
Definition types_decode `{ArrowIpc} (d : Db) (s : Blob) : Prop := Forall column_decodes (select_columns s d).

Lemma types_decode_in `{ArrowIpc} d s : Forall column_decodes (columns d) -> types_decode d s.
Proof. intros Hall. apply Forall_forall. intros r [Hr _]%elem_of_filter'. exact (proj1 (Forall_forall _ _) Hall r Hr). Qed.

Lemma columns_decode_all `{ArrowIpc} rows :
  forallb (fun r => is_ok (decode_data_type (ColumnRow.column_type r))) rows = true -> Forall column_decodes rows.
Proof.
  rewrite forallb_forall. intros Hall. apply Forall_forall. intros r Hr%list_elem_of_In.
  specialize (Hall r Hr). unfold column_decodes.
  destruct (decode_data_type (ColumnRow.column_type r)) as [t|]; [by exists t | done].
Qed.

Record catalog_inv `{ArrowIpc} (d : Db) : Prop := {
  inv_db : db_ok d;
  inv_rows : rows_decode d;
  inv_history : Forall (history_ok d) (tables d);
  inv_schemas : Forall (schemas_ok d) (tables d);
  inv_files : Forall (fun r => file_ok (chain d (FileRow.table_uuid r)) r) (files d);
  inv_columns : Forall (fun s => select_columns (SchemaRow.schema_uuid s) d <> [] /\
    numbered (select_columns (SchemaRow.schema_uuid s) d)) (schemas d);
  inv_stats : table_stats d = []
}.

(** The part of it that the walks along a history need. *)
Record log_ok `{ArrowIpc} (d : Db) : Prop := {
  log_db : db_ok d;
  log_rows : rows_decode d;
  log_history : Forall (history_ok d) (tables d)
}.

Lemma inv_log `{ArrowIpc} d : catalog_inv d -> log_ok d.
Proof. intros []. by split. Qed.

Coercion inv_log : catalog_inv >-> log_ok.

(** ** Lemmas on the logs *)

Lemma as_bytes_uuid u : is_uuid (as_bytes u).
Proof. apply uuid_bytes_length. Qed.
#[export] Hint Resolve as_bytes_uuid : planar.

Lemma linked_snoc prev rows r :
  linked prev (rows ++ [r]) <->
  linked prev rows /\
  TransactionRow.parent_transaction_id r =
    match last (TransactionRow.transaction_id <$> rows) with Some x => Some x | None => prev end.
Proof.
  revert prev; induction rows as [|x rows IH]; intros prev; cbn; [naive_solver|].
  rewrite IH. destruct rows as [|y rows]; cbn; [naive_solver|].
  destruct (last (TransactionRow.transaction_id y :: _)) eqn:E; [naive_solver|].
  apply last_None in E. done.
Qed.


Lemma precedes_app ids x a b : precedes ids a b -> precedes (ids ++ [x]) a b.
Proof.
  intros (i & j & Hi & Hj & Hl). exists i, j. split_and!; [| |done];
    (rewrite lookup_app_l; [done | by eapply lookup_lt_Some]).
Qed.

Lemma precedes_last ids a x : last ids = Some x -> a ∈ ids -> precedes ids a x.
Proof.
  intros Hl (i & Hi)%list_elem_of_lookup. rewrite last_lookup in Hl.
  exists i, (Nat.pred (length ids)). split_and!; [done | done |].
  apply lookup_lt_Some in Hi. lia.
Qed.

Lemma file_ok_app ids x r : file_ok ids r -> file_ok (ids ++ [x]) r.
Proof.
  intros [Ha Hr]. split; [set_solver|]. destruct (FileRow.removed_in_transaction_id r); [|done].
  by apply precedes_app.
Qed.

Lemma history_app d u rows :
  List.filter (fun r => beq (TransactionRow.table_uuid r) u) (transactions d ++ rows)
  = history d u ++ List.filter (fun r => beq (TransactionRow.table_uuid r) u) rows.
Proof. apply List.filter_app. Qed.

Lemma chain_eq d d' u : transactions d' = transactions d -> chain d' u = chain d u.
Proof. unfold chain, history. by intros ->. Qed.

(** Closing the last schema and appending the next one. *)
Lemma schema_chain_next pre x x' new :
  schema_chain (pre ++ [x]) ->
  SchemaRow.valid_from_transaction_id x' = SchemaRow.valid_from_transaction_id x ->
  SchemaRow.valid_to_transaction_id x' = Some (SchemaRow.valid_from_transaction_id new) ->
  SchemaRow.valid_to_transaction_id new = None ->
  schema_chain (pre ++ [x'; new]).
Proof.
  intros Hc Hf Ht Hn. induction pre as [|y pre IH]; cbn in *; [done|].
  destruct Hc as [Hy Hc]. split; [|by apply IH]. rewrite Hy.
  destruct pre; cbn; [by rewrite Hf | done].
Qed.

Lemma filter_fmap_comm {A} (p : A -> bool) (g : A -> A) l :
  (forall x, p (g x) = p x) -> List.filter p (g <$> l) = g <$> List.filter p l.
Proof.
  intros Hg. induction l as [|x l IH]; cbn; [done|]. rewrite Hg. destruct (p x); cbn; by rewrite IH.
Qed.

Lemma set_valid_to_table t s r : SchemaRow.table_uuid (set_valid_to t s r) = SchemaRow.table_uuid r.
Proof. unfold set_valid_to. by destruct (beq _ _). Qed.

Lemma set_valid_to_from t s r :
  SchemaRow.valid_from_transaction_id (set_valid_to t s r) = SchemaRow.valid_from_transaction_id r.
Proof. unfold set_valid_to. by destruct (beq _ _). Qed.

Lemma set_valid_to_other t s r : SchemaRow.schema_uuid r <> s -> set_valid_to t s r = r.
Proof. intros Hn. unfold set_valid_to. by rewrite (proj2 (beq_false _ _) Hn). Qed.

Lemma set_valid_to_others t s (rows : list SchemaRow.t) :
  s ∉ SchemaRow.schema_uuid <$> rows -> set_valid_to t s <$> rows = rows.
Proof.
  induction rows as [|r rows IH]; cbn; [done|]. intros Hn.
  rewrite set_valid_to_other by set_solver. rewrite IH by set_solver. done.
Qed.

(** ** What the operations of a commit keep *)

Section ops.
Context `{Env} (u t : Uuid) (ts : DateTime) (cur : option Uuid).

Lemma op_effect_frame op st d st' d' :
  op_effect u t ts cur op (st, d) (st', d') ->
  tables d' = tables d /\ transactions d' = transactions d /\ table_stats d' = table_stats d.
Proof.
  intros He. inversion He; subst; try done.
  - match goal with Hi : insert_rows _ _ _ = _ |- _ => by apply insert_files_ok in Hi as -> end.
  - match goal with Hi : update_files_removed _ _ _ _ = _ |- _ =>
      by apply update_files_removed_ok in Hi as [_ ->] end.
  - match goal with Hi : insert_rows _ _ _ = _ |- _ => apply insert_columns_ok in Hi as -> end.
    match goal with Hi : update_schema_valid_to _ _ _ = _ |- _ =>
      apply update_schema_valid_to_ok in Hi as [_ ->] end.
    match goal with Hi : insert_schema _ _ = _ |- _ =>
      by apply insert_schema_ok in Hi as (_ & _ & _ & _ & ->) end.
Qed.

Lemma ops_effect_frame ops s s' :
  ops_effect u t ts cur ops s s' ->
  tables s'.2 = tables s.2 /\ transactions s'.2 = transactions s.2 /\
  table_stats s'.2 = table_stats s.2.
Proof.
  induction 1 as [|op ops [st1 d1] [st2 d2] s3 He _ IH]; [done|].
  apply op_effect_frame in He. cbn in *. naive_solver congruence.
Qed.

Lemma is_file_row files rows r :
  Forall2 (is_file u t) files rows -> r ∈ rows ->
  exists f, f ∈ files /\ is_file u t f r.
Proof.
  intros HF (i & Hi)%list_elem_of_lookup.
  destruct (Forall2_lookup_r _ _ _ _ _ HF Hi) as (f & Hf & Hr).
  exists f. split; [by eapply list_elem_of_lookup_2 | done].
Qed.

(** Every file row after an operation is an old one, perhaps marked as removed
    by [t], or a new one added by [t]. *)
Lemma op_effect_files op st d st' d' r' :
  op_effect u t ts cur op (st, d) (st', d') -> r' ∈ files d' ->
  r' ∈ files d \/
  (exists r us, r ∈ files d /\ deletes (as_bytes u) us r = true /\ r' = set_removed (as_bytes t) r) \/
  (exists files f, op = AppendFiles files /\ f ∈ files /\ is_file u t f r').
Proof.
  intros He Hr. inversion He; subst; try (by left).
  - match goal with Hi : insert_rows _ _ _ = _ |- _ => apply insert_files_ok in Hi as -> end.
    apply elem_of_app in Hr as [Hr|Hr]; [by left|]. right; right.
    match goal with HF : Forall2 _ _ _ |- _ => destruct (is_file_row _ _ _ HF Hr) as (f & Hin & Hf) end.
    eauto 6.
  - match goal with Hi : update_files_removed _ _ _ _ = _ |- _ =>
      apply update_files_removed_ok in Hi as [_ ->] end.
    apply list_elem_of_fmap in Hr as (r & -> & Hr). unfold mark_removed.
    destruct (deletes _ _ r) eqn:E; [right; left; eauto | by left].
  - left. match goal with Hi : insert_rows _ _ _ = _ |- _ => apply insert_columns_ok in Hi as -> end.
    match goal with Hi : update_schema_valid_to _ _ _ = _ |- _ =>
      apply update_schema_valid_to_ok in Hi as [_ ->] end.
    match goal with Hi : insert_schema _ _ = _ |- _ =>
      by apply insert_schema_ok in Hi as (_ & _ & _ & _ & ->) end.
Qed.

Notation files_ok d := (Forall (fun r => file_ok (chain d (FileRow.table_uuid r)) r) (files d)).

Lemma op_effect_files_ok op st d st' d' :
  last (chain d (as_bytes u)) = Some (as_bytes t) ->
  op_effect u t ts cur op (st, d) (st', d') -> files_ok d -> files_ok d'.
Proof.
  intros Hl He Hok. rewrite Forall_forall in *. intros r' Hr'.
  destruct (op_effect_frame _ _ _ _ _ He) as (_ & Et & _). rewrite (chain_eq _ _ _ Et).
  destruct (op_effect_files _ _ _ _ _ _ He Hr') as [Hr|[(r & us & Hr & Hd & ->)|(fs & f & _ & _ & Hf)]].
  - by apply Hok.
  - destruct (Hok r Hr) as [Ha _]. split; [done|]. cbn. apply precedes_last; [|done].
    apply andb_true_iff in Hd as [[Hu%bool_decide_eq_true_1 _]%andb_true_iff _]. by rewrite Hu.
  - destruct Hf as (_ & fu & pt & ft & _ & _ & _ & ->). split; [|done]. cbn.
    apply last_Some in Hl as (l' & ->). set_solver.
Qed.

Lemma ops_effect_files_ok ops s s' :
  last (chain s.2 (as_bytes u)) = Some (as_bytes t) ->
  ops_effect u t ts cur ops s s' -> files_ok s.2 -> files_ok s'.2.
Proof.
  intros Hl He. revert Hl. induction He as [|op ops [st1 d1] [st2 d2] s3 He _ IH]; [done|].
  cbn in *. intros Hl Hok. apply IH.
  - destruct (op_effect_frame _ _ _ _ _ He) as (_ & Et & _). by rewrite (chain_eq _ _ _ Et).
  - by eapply op_effect_files_ok.
Qed.

Lemma op_effect_no_schema op st d st' d' :
  is_update_schema op = false -> op_effect u t ts cur op (st, d) (st', d') ->
  schemas d' = schemas d /\ columns d' = columns d /\
  MutState.new_schema_uuid st' = MutState.new_schema_uuid st.
Proof.
  intros Hop He. inversion He; subst; try done.
  - match goal with Hi : insert_rows _ _ _ = _ |- _ => by apply insert_files_ok in Hi as -> end.
  - match goal with Hi : update_files_removed _ _ _ _ = _ |- _ =>
      by apply update_files_removed_ok in Hi as [_ ->] end.
Qed.

(** What a list of operations with at most one [UpdateSchema] does to the
    schemas and the columns. *)
Inductive schema_outcome (ops : list MutationOp) (d d' : Db) (st st' : MutState.t) : Prop :=
  | outcome_same :
      List.filter is_update_schema ops = [] ->
      schemas d' = schemas d -> columns d' = columns d ->
      MutState.new_schema_uuid st' = MutState.new_schema_uuid st ->
      schema_outcome ops d d' st st'
  | outcome_next spec old old_row old_columns s rows :
      List.filter is_update_schema ops = [UpdateSchema spec] ->
      cur = Some old ->
      SchemaSpec.validate spec = Ok tt ->
      old_row ∈ schemas d -> SchemaRow.schema_uuid old_row = as_bytes old ->
      columns_of d old = Ok old_columns ->
      evolves (column_map old_columns) (SchemaSpec.columns spec) ->
      as_bytes s ∉ schema_keys d ->
      schemas d' = (set_valid_to (as_bytes t) (as_bytes old) <$> schemas d) ++
        [SchemaRow.mk (as_bytes s) (as_bytes u) (wrap_i32 (SchemaRow.schema_version old_row + 1))
           (as_bytes t) None ts] ->
      are_columns s (SchemaSpec.columns spec) rows ->
      columns d' = columns d ++ rows ->
      MutState.new_schema_uuid st' = Some s ->
      schema_outcome ops d d' st st'.

Lemma op_effect_schema spec st d st' d' :
  op_effect u t ts cur (UpdateSchema spec) (st, d) (st', d') ->
  schema_outcome [UpdateSchema spec] d d' st st'.
Proof.
  intros He. inversion He as [| |spec' old old_row cols s rows st0 d0 d1 d2 d3 Hcur Hv Hrow Hcols
    Hev H1 H2 Hrows H3| |]; subst.
  apply elem_of_filter' in Hrow as [Hrow Hid%bool_decide_eq_true_1].
  apply insert_schema_ok in H1 as (Hs & _ & _ & _ & ->).
  apply update_schema_valid_to_ok in H2 as [_ ->].
  apply insert_columns_ok in H3 as ->. cbn in *.
  eapply outcome_next; try done. cbn. rewrite fmap_app. cbn.
  rewrite set_valid_to_other; [done|]. cbn. intros E. apply Hs. rewrite E, <- Hid.
  by apply list_elem_of_fmap_2.
Qed.

Lemma ops_effect_schemas ops s s' :
  ops_effect u t ts cur ops s s' -> count_ops is_update_schema ops <= 1 ->
  schema_outcome ops s.2 s'.2 s.1 s'.1.
Proof.
  induction 1 as [|op ops [st1 d1] [st2 d2] [st3 d3] He Hrest IH]; intros Hc.
  - by apply outcome_same.
  - unfold count_ops in *. cbn in *. destruct (is_update_schema op) eqn:Eop; cbn in Hc.
    + destruct op as [| |spec| |]; try done.
      assert (List.filter is_update_schema ops = []) as Hnil by (apply nil_length_inv; lia).
      destruct (IH ltac:(lia)) as [_ E1 E2 E3|? ? ? ? ? ? Hf]; [|congruence].
      destruct (op_effect_schema _ _ _ _ _ He) as [Hn|spec' old old_row cols s rows Hf]; [done|].
      cbn in Hf. simplify_eq. eapply outcome_next; try done; cbn; [by rewrite Hnil| | |]; congruence.
    + destruct (op_effect_no_schema _ _ _ _ _ Eop He) as (E1 & E2 & E3).
      destruct (IH Hc) as [Hn F1 F2 F3|spec old old_row cols s rows Hf Hcur Hv Hrow Hid Hcols].
      * apply outcome_same; [|congruence..]. cbn. by rewrite Eop.
      * eapply outcome_next; cbn; rewrite ?Eop; try done; unfold columns_of, select_columns in *;
          rewrite <- ?E1, <- ?E2, <- ?E3; done.
Qed.

Notation file_dec := (fun r => is_uuid (FileRow.file_uuid r) /\ is_uuid (FileRow.table_uuid r) /\
    is_uuid (FileRow.added_in_transaction_id r) /\ opt_uuid (FileRow.removed_in_transaction_id r)).

Lemma ops_effect_files_dec ops s s' :
  ops_effect u t ts cur ops s s' -> Forall file_dec (files s.2) -> Forall file_dec (files s'.2).
Proof.
  induction 1 as [|op ops [st1 d1] [st2 d2] s3 He _ IH]; [done|]. intros Hd. apply IH. cbn in *.
  rewrite Forall_forall in *. intros r' Hr'.
  destruct (op_effect_files _ _ _ _ _ _ He Hr') as [Hr|[(r & us & Hr & _ & ->)|(fs & f & _ & _ & Hf)]].
  - by apply Hd.
  - destruct (Hd r Hr) as (? & ? & ? & _). cbn. split_and!; auto with planar.
  - destruct Hf as (_ & fu & pt & ft & _ & _ & _ & ->). cbn. split_and!; auto with planar.
Qed.

End ops.

(** ** The columns of a new schema *)

Section columns.
Context `{Env}.

Lemma are_columns_gen s k cs rows :
  Forall2 (is_column s) (imap (fun i c => (k + i, c)) cs) rows ->
  ColumnRow.ordinal_position <$> rows
    = (fun i => wrap_i32 (Z.of_nat i)) <$> seq (S k) (length rows) /\
  Forall (fun r => exists c, c ∈ cs /\ exists i, is_column s (i, c) r) rows /\
  length rows = length cs.
Proof.
  revert k rows; induction cs as [|c cs IH]; intros k rows; cbn.
  - intros ->%Forall2_nil_inv_l. cbn. split_and!; [done | constructor | done].
  - intros (r & rows' & Hr & HF & ->)%Forall2_cons_inv_l.
    assert (imap ((fun i c => (k + i, c)) ∘ S) cs = imap (fun i c => (S k + i, c)) cs) as Ei.
    { apply imap_ext. intros i x _. cbn. f_equal. lia. }
    rewrite Ei in HF. destruct (IH (S k) rows' HF) as (Ho & Hin & Hlen).
    split_and!; [| |cbn; congruence].
    + cbn [fmap list_fmap length seq]. f_equal; [|exact Ho].
      destruct Hr as (cu & e & _ & ->). cbn. f_equal. lia.
    + constructor; [exists c; split; [left | eauto]|]. eapply Forall_impl; [exact Hin|].
      intros x (c' & Hc' & Hx). exists c'. split; [by right | done].
Qed.

Lemma are_columns_numbered s cs rows : are_columns s cs rows -> numbered rows.
Proof. intros HF. by apply (are_columns_gen s 0 cs rows). Qed.

Lemma are_columns_length s cs rows : are_columns s cs rows -> length rows = length cs.
Proof. intros HF. by apply (are_columns_gen s 0 cs rows). Qed.

Lemma are_columns_in s cs rows r : are_columns s cs rows -> r ∈ rows ->
  exists c, c ∈ cs /\ exists i, is_column s (i, c) r.
Proof.
  intros HF Hr. destruct (are_columns_gen s 0 cs rows HF) as (_ & Hin & _).
  rewrite Forall_forall in Hin. by apply Hin.
Qed.

Lemma are_columns_schema s cs rows r : are_columns s cs rows -> r ∈ rows ->
  ColumnRow.schema_uuid r = as_bytes s.
Proof. intros HF Hr. by destruct (are_columns_in _ _ _ _ HF Hr) as (c & _ & i & cu & e & _ & ->). Qed.

Lemma spec_columns_ne spec : SchemaSpec.validate spec = Ok tt -> SchemaSpec.columns spec <> [].
Proof. unfold SchemaSpec.validate. by destruct (SchemaSpec.columns spec). Qed.

(** The columns of the schemas after a schema was added with its columns. *)
Lemma columns_next (d d' : Db) (f : SchemaRow.t -> SchemaRow.t) s new spec rows :
  db_ok d ->
  (forall r, SchemaRow.schema_uuid (f r) = SchemaRow.schema_uuid r) ->
  SchemaRow.schema_uuid new = as_bytes s -> as_bytes s ∉ schema_keys d ->
  SchemaSpec.validate spec = Ok tt -> are_columns s (SchemaSpec.columns spec) rows ->
  schemas d' = (f <$> schemas d) ++ [new] -> columns d' = columns d ++ rows ->
  Forall (fun s => select_columns (SchemaRow.schema_uuid s) d <> [] /\
    numbered (select_columns (SchemaRow.schema_uuid s) d)) (schemas d) ->
  Forall (fun s => select_columns (SchemaRow.schema_uuid s) d' <> [] /\
    numbered (select_columns (SchemaRow.schema_uuid s) d')) (schemas d').
Proof.
  intros Hok Hf Hnew Hs Hv Hrows E1 E2 Hall. rewrite E1. unfold select_columns in *. rewrite E2.
  apply Forall_app. split.
  - apply Forall_fmap. rewrite Forall_forall in *. intros r Hr. cbn. rewrite Hf, List.filter_app.
    rewrite (filter_all_false _ rows); [rewrite app_nil_r; by apply Hall|].
    intros x Hx. apply beq_false. rewrite (are_columns_schema _ _ _ _ Hrows Hx).
    intros E. apply Hs. rewrite E. by apply list_elem_of_fmap_2.
  - apply Forall_singleton. rewrite Hnew, List.filter_app.
    rewrite (filter_all_false _ (columns d)), (filter_all_true _ rows); cbn.
    + split; [|by eapply are_columns_numbered].
      intros ->. apply are_columns_length in Hrows. apply spec_columns_ne in Hv.
      by destruct (SchemaSpec.columns spec).
    + intros x Hx. apply beq_true. by eapply are_columns_schema.
    + intros x Hx. apply beq_false. intros E. apply Hs. rewrite <- E.
      pose proof (ok_column_fk _ Hok) as Hfk. rewrite Forall_forall in Hfk. by apply Hfk.
Qed.

End columns.

(** ** A commit, seen from outside *)

Lemma schema_outcome_ext `{Env} u t ts cur ops d d' e e' st st' :
  schemas e = schemas d -> columns e = columns d ->
  schemas e' = schemas d' -> columns e' = columns d' ->
  schema_outcome u t ts cur ops d d' st st' -> schema_outcome u t ts cur ops e e' st st'.
Proof.
  intros E1 E2 E3 E4 [Hn F1 F2 F3|spec old old_row cols s rows Hf Hcur Hv Hrow Hid Hcols].
  - apply outcome_same; congruence.
  - eapply outcome_next; try done; unfold columns_of, select_columns in *; rewrite ?E1, ?E2, ?E3, ?E4;
      done.
Qed.

Lemma check_mutation_ok `{Env} m :
  check_mutation m = Ok tt ->
  Mutation.operations m <> [] /\ count_ops is_update_schema (Mutation.operations m) <= 1 /\
  count_ops is_set_properties (Mutation.operations m) <= 1 /\
  Forall op_distinct (Mutation.operations m).
Proof.
  unfold check_mutation, Mutation.validate. destruct (Mutation.operations m) as [|op ops]; [done|].
  intros [_ Hv]%then_ok. apply validate_ops_spec in Hv as (H1 & H2 & H3); [|lia|lia].
  split_and!; [done | lia | lia | done].
Qed.

Section commit.
Context `{Env}.

(** The new head of the table row. *)
Definition commit_head (t : Uuid) (cur : option Uuid) (st : MutState.t) (text : string)
    (u : Blob) : TableRow.t -> TableRow.t :=
  set_head u (as_bytes <$> match MutState.new_schema_uuid st with Some s => Some s | None => cur end)
    (Some (as_bytes t)) (Some text).

Inductive commit_facts (ident : TableIdent.t) (base t : TxnId) (mutation : Mutation.t) (d d' : Db) :
    Prop :=
  commit_facts_intro row u ts cur props st text d1 d2 :
    row ∈ tables d ->
    TableRow.namespace row = TableIdent.namespace ident ->
    TableRow.table_name row = TableIdent.name ident ->
    TableRow.table_uuid row = as_bytes u ->
    TableRow.current_transaction_id row = Some (as_bytes base) ->
    TableRow.current_schema_uuid row = as_bytes <$> cur ->
    parse_table_properties (TableRow.properties row) = Ok props ->
    as_bytes t ∉ txn_keys d ->
    d1 = mk_db (tables d)
      (transactions d ++ [TransactionRow.mk (as_bytes t) (as_bytes u) ts (Some (as_bytes base))])
      (schemas d) (columns d) (files d) (table_stats d) ->
    ops_effect u t ts cur (Mutation.operations mutation) (MutState.mk cur props, d1) (st, d2) ->
    schema_outcome u t ts cur (Mutation.operations mutation) d d' (MutState.mk cur props) st ->
    serialize_json (TableProperties.to_json (MutState.properties_value st)) = Ok text ->
    d' = mk_db (commit_head t cur st text (as_bytes u) <$> tables d) (transactions d1)
      (schemas d2) (columns d2) (files d2) (table_stats d) ->
    commit_facts ident base t mutation d d'.

Lemma commit_effect_facts writer ident base t mutation d d' :
  commit_effect writer ident base t mutation d d' -> commit_facts ident base t mutation d d'.
Proof.
  intros [row u ts cur props st d1 d2 text Hrow Hu Hbase Hcur Hp _ Hm H1 Hops Htext H2].
  apply elem_of_filter' in Hrow as [Hrow Hn].
  apply andb_true_iff in Hn as [Hns%bool_decide_eq_true_1 Hnm%bool_decide_eq_true_1].
  apply insert_transaction_ok in H1 as (Ht & _ & _ & E1). cbn in Ht, E1.
  destruct (ops_effect_frame _ _ _ _ _ _ _ Hops) as (F1 & F2 & F3).
  apply check_mutation_ok in Hm as (_ & Hc & _).
  pose proof (ops_effect_schemas _ _ _ _ _ _ _ Hops Hc) as Hs.
  apply update_table_head_ok in H2. cbn in *. subst d1. cbn in *.
  eapply commit_facts_intro; try eassumption; [reflexivity | |].
  - subst d'. eapply schema_outcome_ext; [..|exact Hs]; done.
  - rewrite H2, F1, F2, F3. done.
Qed.

Context (ident : TableIdent.t) (base t : TxnId) (mutation : Mutation.t) (d d' : Db).
Context (Hinv : catalog_inv d).

Lemma same_table r row : r ∈ tables d -> row ∈ tables d ->
  TableRow.table_uuid r = TableRow.table_uuid row -> r = row.
Proof.
  intros Hr Hrow E. destruct Hinv as [[Hk] _ _ _ _ _ _].
  apply list_elem_of_lookup in Hr as [i Hi]. apply list_elem_of_lookup in Hrow as [j Hj].
  assert (i = j) as ->; [|congruence].
  eapply NoDup_lookup; [exact Hk | |]; rewrite list_lookup_fmap; [rewrite Hi | rewrite Hj]; cbn;
    [done | by rewrite E].
Qed.

Lemma commit_head_uuid cur st text u r :
  TableRow.table_uuid (commit_head t cur st text u r) = TableRow.table_uuid r.
Proof. apply set_head_uuid. Qed.

Lemma commit_head_other cur st text u r :
  TableRow.table_uuid r <> u -> commit_head t cur st text u r = r.
Proof. intros Hn. unfold commit_head, set_head. by rewrite (proj2 (beq_false _ _) Hn). Qed.

Lemma history_snoc x u v l :
  TransactionRow.table_uuid x = u ->
  List.filter (fun r => beq (TransactionRow.table_uuid r) v) (l ++ [x])
  = List.filter (fun r => beq (TransactionRow.table_uuid r) v) l ++ (if beq u v then [x] else []).
Proof. intros <-. rewrite List.filter_app. done. Qed.

(** The chain of the written table grows by [t]; the others stay. *)
Lemma commit_chain row u ts d2 cur st text v :
  d' = mk_db (commit_head t cur st text (as_bytes u) <$> tables d)
    (transactions d ++ [TransactionRow.mk (as_bytes t) (as_bytes u) ts (Some (as_bytes base))])
    (schemas d2) (columns d2) (files d2) (table_stats d) ->
  TableRow.table_uuid row = as_bytes u ->
  chain d' v = chain d v ++ (if beq (TableRow.table_uuid row) v then [as_bytes t] else []).
Proof.
  intros -> Hu. unfold chain, history. cbn [transactions]. rewrite (history_snoc _ (as_bytes u)) by done.
  rewrite fmap_app, Hu. by destruct (beq _ v).
Qed.

Lemma commit_history_ok : commit_facts ident base t mutation d d' ->
  Forall (history_ok d') (tables d').
Proof.
  intros [row u ts cur props st text d1 d2 Hrow Hns Hnm Hu Hbase Hcur Hp Ht -> _ _ _ Hd'].
  pose proof (fun v => commit_chain row u ts d2 cur st text v Hd' Hu) as Hchain.
  assert (tables d' = commit_head t cur st text (as_bytes u) <$> tables d) as -> by by rewrite Hd'.
  apply Forall_fmap. destruct Hinv as [_ _ Hh _ _ _ _]. rewrite Forall_forall in *.
  intros r Hr. cbn. destruct (Hh r Hr) as (Hl & Hne & Hlast).
  unfold history_ok. rewrite commit_head_uuid, Hchain.
  assert (history d' (TableRow.table_uuid r) = history d (TableRow.table_uuid r) ++
    (if beq (as_bytes u) (TableRow.table_uuid r) then
       [TransactionRow.mk (as_bytes t) (as_bytes u) ts (Some (as_bytes base))] else [])) as ->.
  { rewrite Hd'. unfold history at 1. cbn [transactions]. by rewrite (history_snoc _ (as_bytes u)). }
  rewrite Hu. case_bool_decide as E.
  - assert (r = row) as -> by (apply same_table; congruence).
    split_and!; [|by destruct (history d _)|].
    + apply linked_snoc. split; [done|]. cbn. unfold chain in Hlast. by rewrite Hlast, Hbase.
    + rewrite last_snoc. unfold commit_head, set_head. by rewrite Hu, beq_refl.
  - rewrite !app_nil_r. rewrite commit_head_other by done. done.
Qed.

Lemma commit_files_ok : commit_facts ident base t mutation d d' ->
  Forall (fun r => file_ok (chain d' (FileRow.table_uuid r)) r) (files d').
Proof.
  intros [row u ts cur props st text d1 d2 Hrow Hns Hnm Hu Hbase Hcur Hp Ht Hd1 Hops _ _ Hd'].
  assert (files d' = files d2) as -> by by rewrite Hd'.
  assert (transactions d' = transactions d2) as Et.
  { destruct (ops_effect_frame _ _ _ _ _ _ _ Hops) as (_ & F2 & _). cbn in F2. by rewrite Hd', F2. }
  setoid_rewrite (chain_eq d2 d' _ Et). rewrite Hd1 in Hd'.
  assert (forall v, chain d1 v = chain d v ++
    (if beq (TableRow.table_uuid row) v then [as_bytes t] else [])) as Hch.
  { intros v. rewrite <- (commit_chain row u ts d2 cur st text v Hd' Hu).
    apply chain_eq. rewrite Hd1, Hd'. done. }
  eapply (ops_effect_files_ok _ _ _ _ _ (_, d1) (_, d2)); [|exact Hops|]; cbn [snd].
  - rewrite Hch, Hu, beq_refl. apply last_snoc.
  - destruct Hinv as [_ _ _ _ Hf _ _]. assert (files d1 = files d) as -> by by rewrite Hd1.
    rewrite Forall_forall in *. intros r Hr. rewrite Hch.
    case_bool_decide; [by apply file_ok_app, Hf | rewrite app_nil_r; by apply Hf].
Qed.

Lemma head_app_ne {A} (l k : list A) : l <> [] -> head (l ++ k) = head l.
Proof. by destruct l. Qed.

Lemma chain_nonempty r : history_ok d r -> chain d (TableRow.table_uuid r) <> [].
Proof. intros (_ & Hne & _). unfold chain. by destruct (history d _). Qed.

(** The schema log of a table after its last schema was closed and a new one
    opened at [t]. *)
Lemma schema_log_next old old_row s u ver ts v :
  db_ok d -> old_row ∈ schemas d -> SchemaRow.schema_uuid old_row = old ->
  schemas d' = (set_valid_to (as_bytes t) old <$> schemas d) ++
    [SchemaRow.mk (as_bytes s) u ver (as_bytes t) None ts] ->
  schema_log d' v = (set_valid_to (as_bytes t) old <$> schema_log d v) ++
    (if beq u v then [SchemaRow.mk (as_bytes s) u ver (as_bytes t) None ts] else []).
Proof.
  intros Hok Hrow Hid E. unfold schema_log. rewrite E, List.filter_app, filter_fmap_comm; [done|].
  intros x. by rewrite set_valid_to_table.
Qed.

Lemma schema_log_in v r : r ∈ schema_log d v <-> r ∈ schemas d /\ SchemaRow.table_uuid r = v.
Proof. unfold schema_log. rewrite elem_of_filter'. by rewrite beq_true. Qed.

Lemma schema_log_nodup v : db_ok d -> NoDup (SchemaRow.schema_uuid <$> schema_log d v).
Proof. intros []. by apply filter_fmap_nodup. Qed.

(** Two schema rows with the same key are the same row. *)
Lemma same_schema r r' : r ∈ schemas d -> r' ∈ schemas d ->
  SchemaRow.schema_uuid r = SchemaRow.schema_uuid r' -> r = r'.
Proof.
  intros Hr Hrow E. destruct Hinv as [[] _ _ _ _ _ _].
  apply list_elem_of_lookup in Hr as [i Hi]. apply list_elem_of_lookup in Hrow as [j Hj].
  assert (i = j) as ->; [|congruence].
  eapply (NoDup_lookup (schema_keys d)); [done | |]; rewrite list_lookup_fmap;
    [rewrite Hi | rewrite Hj]; cbn; [done | by rewrite E].
Qed.

Lemma commit_schemas_ok : commit_facts ident base t mutation d d' ->
  Forall (schemas_ok d') (tables d').
Proof.
  intros [row u ts cur props st text d1 d2 Hrow Hns Hnm Hu Hbase Hcur Hp Ht -> _ Hout _ Hd'].
  pose proof (fun v => commit_chain row u ts d2 cur st text v Hd' Hu) as Hchain.
  assert (tables d' = commit_head t cur st text (as_bytes u) <$> tables d) as -> by by rewrite Hd'.
  apply Forall_fmap. destruct Hinv as [Hdb _ Hh Hs _ _ _]. rewrite Forall_forall in *.
  intros r Hr. cbn. unfold schemas_ok. rewrite commit_head_uuid, Hchain.
  destruct (Hs r Hr) as (Hc & Hne & Hlast & Hhead & Hsub).
  pose proof (chain_nonempty r (Hh r Hr)) as Hcne. rewrite (head_app_ne (chain d _)) by done.
  destruct Hout as [_ E1 _ E3|spec old old_row cols s rows _ Hco _ Hor Hid _ _ _ E1 _ _ E3].
  - assert (schema_log d' (TableRow.table_uuid r) = schema_log d (TableRow.table_uuid r)) as ->
      by (unfold schema_log; by rewrite E1).
    split_and!; try done; [|by apply sublist_inserts_r].
    rewrite Hlast. unfold commit_head, set_head. case_bool_decide as E; [|done]. cbn.
    assert (r = row) as -> by (apply same_table; congruence).
    rewrite E3. cbn. rewrite Hcur. by destruct cur.
  - rewrite (schema_log_next _ old_row s (as_bytes u) _ ts _ Hdb Hor Hid E1).
    rewrite Hu in *. subst cur. destruct (Hs row Hrow) as (_ & Hrne & Hrlast & _ & _).
    rewrite Hcur in Hrlast. cbn in Hrlast. case_bool_decide as E.
    + assert (r = row) as -> by (apply same_table; congruence). rewrite Hu in *.
      destruct (schema_log d (as_bytes u)) as [|x0 l0] eqn:El using rev_ind; [done|].
      rewrite !fmap_app in *. cbn in *. rewrite last_snoc in Hrlast. simplify_eq.
      pose proof (schema_log_nodup (as_bytes u) Hdb) as Hnd. rewrite El, fmap_app in Hnd. cbn in Hnd.
      apply nodup_snoc in Hnd as [_ Hnin]. rewrite (set_valid_to_others _ _ l0) by congruence.
      assert (SchemaRow.schema_uuid x0 = as_bytes old) as Hx0 by congruence.
      assert (SchemaRow.valid_from_transaction_id (set_valid_to (as_bytes t) (as_bytes old) x0)
        = SchemaRow.valid_from_transaction_id x0) as Hvf by apply set_valid_to_from.
      split_and!.
      * rewrite <- app_assoc. cbn. eapply schema_chain_next; [exact Hc | exact Hvf | | done].
        unfold set_valid_to. by rewrite Hx0, beq_refl.
      * by destruct l0.
      * rewrite last_snoc. unfold commit_head, set_head. rewrite Hu, beq_refl. cbn. by rewrite E3.
      * rewrite Hvf. rewrite head_app_ne; [exact Hhead | by destruct (_ <$> l0)].
      * rewrite Hvf. apply sublist_app; [exact Hsub | done].
    + rewrite !app_nil_r. rewrite commit_head_other by congruence.
      rewrite (set_valid_to_others _ _ (schema_log d _)); [done|].
      intros (x & Ex & Hx)%list_elem_of_fmap. apply schema_log_in in Hx as [Hx Hxt].
      assert (exists y, y ∈ schema_log d (TableRow.table_uuid row) /\ SchemaRow.schema_uuid y = as_bytes old)
        as (y & [Hy Hyt]%schema_log_in & Ey).
      { apply last_Some in Hrlast as (l' & El). assert (as_bytes old ∈ SchemaRow.schema_uuid <$>
          schema_log d (TableRow.table_uuid row)) as Hin by (rewrite El; set_solver).
        apply list_elem_of_fmap in Hin as (y & -> & Hy). eauto. }
      assert (x = y) as -> by (apply same_schema; congruence). congruence.
Qed.

Lemma commit_columns_ok : commit_facts ident base t mutation d d' ->
  Forall (fun s => select_columns (SchemaRow.schema_uuid s) d' <> [] /\
    numbered (select_columns (SchemaRow.schema_uuid s) d')) (schemas d').
Proof.
  intros [row u ts cur props st text d1 d2 Hrow Hns Hnm Hu Hbase Hcur Hp Ht -> _ Hout _ _].
  destruct Hinv as [Hdb _ _ _ _ Hcols _].
  destruct Hout as [_ E1 E2 _|spec old old_row cols s rows _ _ Hv _ _ _ _ Hs E1 Hrows E2 _].
  - unfold select_columns in *. by rewrite E1, E2.
  - by refine (columns_next d d' _ s _ spec rows Hdb (set_valid_to_uuid _ _) _ Hs Hv Hrows E1 E2 Hcols).
Qed.

Lemma is_column_encoded s p r : is_column s p r ->
  is_uuid (ColumnRow.column_uuid r) /\ is_uuid (ColumnRow.schema_uuid r) /\
  encode_data_type (ColumnSpec.column_type p.2) = Ok (ColumnRow.column_type r).
Proof.
  intros (cu & e & He & ->). cbn. split_and!; auto with planar.
Qed.

Lemma columns_encoded s cs rows : are_columns s cs rows ->
  Forall (fun r => is_uuid (ColumnRow.column_uuid r) /\ is_uuid (ColumnRow.schema_uuid r) /\
    exists t, encode_data_type t = Ok (ColumnRow.column_type r)) rows.
Proof.
  intros HF. apply Forall_forall. intros r Hr.
  destruct (are_columns_in _ _ _ _ HF Hr) as (c & _ & i & Hc). apply is_column_encoded in Hc.
  naive_solver.
Qed.

Lemma commit_rows_decode : commit_facts ident base t mutation d d' -> rows_decode d'.
Proof.
  intros [row u ts cur props st text d1 d2 Hrow Hns Hnm Hu Hbase Hcur Hp Ht Hd1 Hops Hout _ Hd'].
  destruct Hinv as [Hdb [Dt Dx Ds Dc Df] _ _ _ _ _]. constructor.
  - rewrite Hd'. cbn [tables]. apply Forall_fmap. eapply Forall_impl; [exact Dt|].
    intros r (H1 & H2 & H3). cbn. unfold commit_head, set_head. destruct (beq _ _); [|done].
    cbn. split_and!; [done | | auto with planar].
    destruct (MutState.new_schema_uuid st); [|destruct cur]; cbn; auto with planar.
  - rewrite Hd', Hd1. cbn [transactions]. apply Forall_app. split; [done|]. apply Forall_singleton.
    cbn. auto with planar.
  - destruct Hout as [_ E1 _ _|spec old old_row cols s rows _ _ _ _ _ _ _ _ E1 _ _ _]; rewrite E1;
      [done|]. apply Forall_app. split; [|apply Forall_singleton; cbn; auto with planar].
    apply Forall_fmap. eapply Forall_impl; [exact Ds|]. intros r (H1 & H2 & H3 & H4).
    cbn. unfold set_valid_to. destruct (beq _ _); [|done]. cbn. split_and!; auto with planar.
  - destruct Hout as [_ _ E2 _|spec old old_row cols s rows _ _ _ _ _ _ _ _ _ Hrows E2 _]; rewrite E2;
      [done|]. apply Forall_app. split; [done | by eapply columns_encoded].
  - assert (files d' = files d2) as -> by by rewrite Hd'.
    apply (ops_effect_files_dec _ _ _ _ _ _ _ Hops). cbn. by rewrite Hd1.
Qed.

Lemma commit_stats_ok : commit_facts ident base t mutation d d' -> table_stats d' = [].
Proof.
  intros [row u ts cur props st text d1 d2 _ _ _ _ _ _ _ _ _ _ _ _ Hd'].
  rewrite Hd'. apply Hinv.
Qed.

(** The invariant survives a commit. *)
Lemma commit_facts_inv :
  db_ok d' -> commit_facts ident base t mutation d d' -> catalog_inv d'.
Proof.
  intros Hok Hf. constructor; [done | by apply commit_rows_decode | by apply commit_history_ok
    | by apply commit_schemas_ok | by apply commit_files_ok | by apply commit_columns_ok
    | by apply commit_stats_ok].
Qed.

End commit.

(** ** Creation *)

Section create.
Context `{Env} (client : ProtocolVersions.t) (ident : TableIdent.t) (location : string)
  (spec : SchemaSpec.t) (properties : option TableProperties.t) (d d' : Db).

(** A successful [create_table], as the rows it adds. *)
Inductive create_facts : Prop :=
  create_facts_intro u t s ts text rows :
    select_table (TableIdent.namespace ident) (TableIdent.name ident) d = [] ->
    SchemaSpec.validate spec = Ok tt ->
    serialize_json (TableProperties.to_json (default TableProperties.new properties)) = Ok text ->
    as_bytes u ∉ table_keys d -> as_bytes t ∉ txn_keys d -> as_bytes s ∉ schema_keys d ->
    are_columns s (SchemaSpec.columns spec) rows ->
    d' = mk_db
      (tables d ++ [TableRow.mk (as_bytes u) (TableIdent.name ident) (TableIdent.namespace ident)
        location (Some (as_bytes s)) (Some (as_bytes t)) ts (Some text)
        (ProtocolVersions.reader client) (ProtocolVersions.writer client)])
      (transactions d ++ [TransactionRow.mk (as_bytes t) (as_bytes u) ts None])
      (schemas d ++ [SchemaRow.mk (as_bytes s) (as_bytes u) INITIAL_SCHEMA_VERSION (as_bytes t)
        None ts])
      (columns d ++ rows) (files d) (table_stats d) ->
    create_facts.

Lemma set_head_others u s t p rows :
  u ∉ TableRow.table_uuid <$> rows -> set_head u s t p <$> rows = (rows : list TableRow.t).
Proof.
  induction rows as [|r rows IH]; cbn; [done|]. intros Hn.
  unfold set_head at 1. rewrite (proj2 (beq_false _ _)) by set_solver.
  rewrite IH by set_solver. done.
Qed.

Lemma create_effect_facts : create_effect client ident location spec properties d d' -> create_facts.
Proof.
  intros [u t s ts text rows d1 d2 d3 d4 Hnone Hv Htext H1 H2 H3 Hrows H4 H5].
  apply insert_table_ok in H1 as (Hu & _ & ->). apply insert_transaction_ok in H2 as (Ht & _ & _ & ->).
  apply insert_schema_ok in H3 as (Hs & _ & _ & _ & ->). apply insert_columns_ok in H4 as ->.
  apply update_table_head_ok in H5 as Hd'. cbn in *.
  eapply create_facts_intro; try eassumption. rewrite Hd'. f_equal. rewrite fmap_app. f_equal.
  - by apply set_head_others.
  - cbn. unfold set_head. by rewrite beq_refl.
Qed.

Context (Hinv : catalog_inv d).

(** Nothing references a table that does not exist. *)
Lemma no_history u : u ∉ table_keys d -> history d u = [].
Proof.
  intros Hu. apply filter_all_false. intros r Hr. apply beq_false. intros <-. apply Hu.
  pose proof (ok_txn_fk _ (inv_db _ Hinv)) as Hfk. rewrite Forall_forall in Hfk. by apply Hfk.
Qed.

Lemma no_schema_log u : u ∉ table_keys d -> schema_log d u = [].
Proof.
  intros Hu. apply filter_all_false. intros r Hr. apply beq_false. intros <-. apply Hu.
  pose proof (ok_schema_fk _ (inv_db _ Hinv)) as Hfk. rewrite Forall_forall in Hfk. by apply Hfk.
Qed.

Lemma create_facts_inv : db_ok d' -> create_facts -> catalog_inv d'.
Proof.
  intros Hok' [u t s ts text rows Hnone Hv _ Hu Ht Hs Hrows Hd'].
  pose proof (no_history _ Hu) as Hnh. pose proof (no_schema_log _ Hu) as Hns.
  assert (Hh : forall v, history d' v = history d v ++
    (if beq (as_bytes u) v then [TransactionRow.mk (as_bytes t) (as_bytes u) ts None] else [])).
  { intros v. rewrite Hd'. unfold history at 1. cbn [transactions]. by rewrite (history_snoc _ (as_bytes u)). }
  assert (Hl : forall v, schema_log d' v = schema_log d v ++ (if beq (as_bytes u) v then
    [SchemaRow.mk (as_bytes s) (as_bytes u) INITIAL_SCHEMA_VERSION (as_bytes t) None ts] else [])).
  { intros v. rewrite Hd'. unfold schema_log at 1. cbn [schemas]. by rewrite List.filter_app. }
  assert (Hother : forall v, v ∈ table_keys d -> history d' v = history d v /\
    schema_log d' v = schema_log d v /\ chain d' v = chain d v).
  { intros v Hin. assert (as_bytes u <> v) as Hne by congruence.
    unfold chain. rewrite Hh, Hl, (proj2 (beq_false _ _) Hne), !app_nil_r. done. }
  destruct Hinv as [Hdb [Dt Dx Ds Dc Df] Hhist Hsch Hfiles Hcols Hstats].
  constructor; [done| | | | | |by rewrite Hd'].
  - constructor; rewrite Hd'; cbn [tables transactions schemas columns files]; try done;
      try (apply Forall_app; split; [done|]).
    + apply Forall_singleton. cbn. auto with planar.
    + apply Forall_singleton. cbn. auto with planar.
    + apply Forall_singleton. cbn. auto with planar.
    + by eapply columns_encoded.
  - assert (tables d' = tables d ++ [TableRow.mk (as_bytes u) (TableIdent.name ident)
      (TableIdent.namespace ident) location (Some (as_bytes s)) (Some (as_bytes t)) ts (Some text)
      (ProtocolVersions.reader client) (ProtocolVersions.writer client)]) as -> by by rewrite Hd'.
    apply Forall_app. split; [|apply Forall_singleton].
    + rewrite Forall_forall in *. intros r Hr. unfold history_ok.
      destruct (Hother (TableRow.table_uuid r)) as (-> & _ & ->); [by apply list_elem_of_fmap_2|].
      by apply Hhist.
    + unfold history_ok, chain. cbn. rewrite Hh, Hnh, beq_refl. done.
  - assert (tables d' = tables d ++ [TableRow.mk (as_bytes u) (TableIdent.name ident)
      (TableIdent.namespace ident) location (Some (as_bytes s)) (Some (as_bytes t)) ts (Some text)
      (ProtocolVersions.reader client) (ProtocolVersions.writer client)]) as -> by by rewrite Hd'.
    apply Forall_app. split; [|apply Forall_singleton].
    + rewrite Forall_forall in *. intros r Hr. unfold schemas_ok.
      destruct (Hother (TableRow.table_uuid r)) as (_ & -> & ->); [by apply list_elem_of_fmap_2|].
      by apply Hsch.
    + unfold schemas_ok, chain. cbn. rewrite Hh, Hl, Hnh, Hns, beq_refl. done.
  - assert (files d' = files d) as -> by by rewrite Hd'. rewrite Forall_forall in *. intros r Hr.
    destruct (Hother (FileRow.table_uuid r)) as (_ & _ & ->); [|by apply Hfiles].
    pose proof (ok_file_fk _ Hdb) as Hfk. rewrite Forall_forall in Hfk. by apply Hfk.
  - refine (columns_next d d' id s _ spec rows Hdb (fun _ => eq_refl) _ Hs Hv Hrows _ _ Hcols);
      rewrite Hd'; cbn [schemas columns]; [..|by rewrite list_fmap_id|]; done.
Qed.

End create.

(** A table with a history cannot be dropped: its transactions reference it,
    and their foreign key has no ON DELETE action. *)
Lemma delete_table_referenced `{ArrowIpc} d ns name r :
  catalog_inv d -> r ∈ select_table ns name d ->
  delete_table ns name d = Err (ForeignKeyViolation "tables").
Proof.
  intros Hinv Hr. unfold delete_table. fold (select_table ns name d).
  assert (existsb (fun r => referenced d (TableRow.table_uuid r)) (select_table ns name d) = true)
    as ->; [|done].
  apply existsb_exists. exists r. split; [by apply list_elem_of_In|].
  apply elem_of_filter' in Hr as [Hr _]. pose proof (inv_history _ Hinv) as Hh.
  rewrite Forall_forall in Hh. destruct (Hh r Hr) as (_ & Hne & _).
  apply referenced_true. left. destruct (history d (TableRow.table_uuid r)) as [|x l] eqn:E; [done|].
  assert (x ∈ history d (TableRow.table_uuid r)) as Hx by (rewrite E; left).
  apply elem_of_filter' in Hx as [Hx Hxu%bool_decide_eq_true_1]. rewrite <- Hxu.
  by apply list_elem_of_fmap_2.
Qed.
