(* ===== verification/Safety.v ===== *)
(** * Safety of the catalog

    The invariant of every reachable state, what a commit and a creation do as
    transitions of the database, and what failure leaves behind. *)

From S2P Require Import Prelude Uuid Error Limits Json DataType Format Schema Models Db DbFacts World Helpers Catalog Api Effects ReadFacts Invariant RefEnv Scenario.
From stdpp Require Import relations.

(** ** Calls keep the invariant *)

Section safety.
Context `{Env} `{!EnumerationLaws}.

Lemma wp_discard {A} (m : M A) (Φ : result CatalogError unit -> World -> Prop) w :
  wp m (fun r w' => Φ (match r with Ok _ => Ok tt | Err e => Err e end) w') w ->
  wp (discard m) Φ w.
Proof.
  intros Hm. unfold discard. apply wp_bind. eapply wp_mono; [exact Hm|]. by intros [a|e] w'.
Qed.

Lemma commit_effect_inv writer ident base t mutation d d' :
  catalog_inv d -> db_ok d' -> commit_effect writer ident base t mutation d d' -> catalog_inv d'.
Proof. intros Hinv Hok Hc. eapply commit_facts_inv; [done..|]. by eapply commit_effect_facts. Qed.

(** Whether a call only reads. *)
Definition is_read (c : Call) : bool :=
  match c with CallCreate _ _ _ _ | CallDrop _ | CallCommit _ _ _ => false | _ => true end.

(** What a call does to the database: nothing, or one abstract transition. *)
Inductive call_change (client : ProtocolVersions.t) : Call -> Db -> Db -> Prop :=
  | change_none c d : call_change client c d d
  | change_create ident location spec properties d d' :
      create_effect client ident location spec properties d d' -> db_ok d' ->
      call_change client (CallCreate ident location spec properties) d d'
  | change_commit ident base t mutation d d' :
      commit_effect (ProtocolVersions.writer client) ident base t mutation d d' -> db_ok d' ->
      call_change client (CallCommit ident base mutation) d d'.

Lemma call_change_inv client c d d' : catalog_inv d -> call_change client c d d' -> catalog_inv d'.
Proof.
  intros Hinv Hc. destruct Hc as [c d|i l s p d d' Hc Hok|i b t m d d' Hc Hok];
    [done | | by eapply commit_effect_inv].
  eapply create_facts_inv; [done..|]. by eapply create_effect_facts.
Qed.

(** Every call returns; a read or a failed call leaves the database as it was. *)
Lemma wp_call_change kind client c w :
  catalog_inv (db w) ->
  wp (run (H := backend kind client) c) (fun r w' => call_change client c (db w) (db w') /\
    (is_ok r = false \/ is_read c = true -> db w' = db w)) w.
Proof.
  intros Hinv. pose proof (inv_db _ Hinv) as Hok.
  assert (Hread : forall {A} (m : M A), ReadsOn (db w) m ->
    wp (discard m) (fun r w' => call_change client c (db w) (db w') /\
      (is_ok r = false \/ is_read c = true -> db w' = db w)) w).
  { intros A m Hm. apply wp_discard, wp_reads; [exact Hm|]. intros r n _. split; [by apply change_none | done]. }
  destruct c as [i l s p|i|ns|i|i|i cu|i a|i a b|i b m], kind; cbn in *;
    try (apply Hread; apply _);
    try (apply wp_discard, wp_create_table; [done | intros; split; [by apply change_none | done] |]; intros w' Hc Hok';
      split; [by eapply change_create | intros [?|?]; done]);
    try (apply wp_discard, wp_commit; [done | intros; split; [by apply change_none | done] |]; intros res w' _ Hc Hok';
      split; [by eapply change_commit | intros [?|?]; done]);
    (apply wp_drop_table; [intros; split; [by apply change_none | done]|]; intros k d' n Hd;
     destruct (select_table (TableIdent.namespace i) (TableIdent.name i) (db w)) as [|r rs] eqn:Es;
     [apply delete_table_ok in Hd as (_ & Hl & _); by rewrite Es in Hl|];
     rewrite (delete_table_referenced _ _ _ r) in Hd; [done | done | rewrite Es; left]).
Qed.

Lemma empty_inv : catalog_inv empty_db.
Proof. constructor; [apply empty_db_ok | constructor; constructor | constructor.. | done]. Qed.

Lemma run_change kind client c w r w' :
  catalog_inv (db w) -> run (H := backend kind client) c w = Some (r, w') ->
  call_change client c (db w) (db w').
Proof. intros Hinv Hrun. by destruct (wp_elim _ _ _ _ _ (wp_call_change kind client c w Hinv) Hrun). Qed.

Lemma step_change kind w w' :
  catalog_inv (db w) -> step kind w w' -> exists client c, call_change client c (db w) (db w').
Proof.
  intros Hinv [client c r Hrun|Ed _].
  - exists client, c. by eapply run_change.
  - exists ProtocolVersions.default, (CallList None). rewrite Ed. apply change_none.
Qed.

Lemma step_inv kind w w' : catalog_inv (db w) -> step kind w w' -> catalog_inv (db w').
Proof.
  intros Hinv (client & c & Hc)%step_change; [|done]. by eapply call_change_inv.
Qed.

(** What readers may rely on of what others do in the meantime: each of its steps
    makes the abstract transition of a call, or only takes time. *)
Class Moves (R : relation World) : Prop := {
  moves_change w w' : catalog_inv (db w) -> R w w' -> exists client c, call_change client c (db w) (db w');
  moves_idle w w' : db w' = db w -> tick w <= tick w' -> R w w'
}.

(** Calls that run one after the other keep that promise. *)
#[export] Instance step_moves kind : Moves (step kind).
Proof. split; [apply step_change | intros; by apply step_idle]. Qed.

Lemma move_inv `{!Moves R} w w' : catalog_inv (db w) -> R w w' -> catalog_inv (db w').
Proof. intros Hinv (client & c & Hc)%moves_change; [|done]. by eapply call_change_inv. Qed.

Lemma steps_inv R `{!Moves R} w w' : catalog_inv (db w) -> rtc R w w' -> catalog_inv (db w').
Proof. intros Hinv Hr. induction Hr as [|w w1 w2 Hs _ IH]; [done|]. by eapply IH, move_inv. Qed.

End safety.

(** C1: every state of the metadata that any sequence of API calls can reach
    from the empty database, on either backend, with any outcomes and any
    engine failures, satisfies the catalog invariant: keys and references are
    intact, each table's transactions form one chain that ends in its current
    transaction, its schemas hand over along that chain and the current one is
    last, files are removed no earlier than added, and stored columns decode
    and are numbered from 1. *)
Theorem reachable_catalog_inv `{Env} `{!EnumerationLaws} kind n w :
  rtc (step kind) (mk_world empty_db n) w -> catalog_inv (db w).
Proof.
  apply (steps_inv (step kind) (mk_world empty_db n)), empty_inv.
Qed.

(** C29: every call returns, on either backend: no loop of any method runs out
    of the fuel it is given.  A call that fails, for whatever reason, and a
    call that only reads leave the database exactly as it was: creation and
    commit are atomic. *)
Theorem call_total_and_atomic `{Env} `{!EnumerationLaws} kind client c w :
  catalog_inv (db w) ->
  exists r w', run (H := backend kind client) c w = Some (r, w') /\
    (is_ok r = false \/ is_read c = true -> db w' = db w).
Proof.
  intros Hinv. destruct (proj1 (wp_run _ _ _) (wp_call_change kind client c w Hinv)) as (r & w' & E & _ & Hr).
  eauto.
Qed.

(** C37: a table that exists can never be dropped: [drop_table] issues one
    DELETE, the table's own transactions reference the row, and their foreign
    key has no ON DELETE action, so the engine refuses. *)
Theorem drop_table_refused `{Env} ident w r :
  catalog_inv (db w) ->
  r ∈ select_table (TableIdent.namespace ident) (TableIdent.name ident) (db w) ->
  fault (tick w) = None ->
  drop_table ident w = Some (Err (Storage (ForeignKeyViolation "tables")), bump w).
Proof.
  intros Hinv Hr Hf. unfold drop_table, mbind, M_bind, execute. rewrite Hf.
  by rewrite (delete_table_referenced _ _ _ r).
Qed.

(** ** The worlds of the scenario *)

#[local] Existing Instances ref_env ref_ipc_laws ref_enumeration_laws.

Lemma start_to_world1 : step Limits.Sqlite start world1.
Proof.
  apply (step_call _ _ _ client (CallCreate events "s3://bucket/events" spec1 None) (Ok tt)).
  vm_compute. reflexivity.
Qed.

Lemma world1_to_world2 : step Limits.Sqlite world1 world2.
Proof. apply (step_call _ _ _ client (CallCommit events txn1 mutation1) (Ok tt)). vm_compute. reflexivity. Qed.

Lemma world2_to_world3 : step Limits.Sqlite world2 world3.
Proof. apply (step_call _ _ _ client (CallCommit events txn2 mutation2) (Ok tt)). vm_compute. reflexivity. Qed.

Lemma scenario_reachable : rtc (step Limits.Sqlite) start world3.
Proof.
  eapply rtc_l; [apply start_to_world1|]. eapply rtc_l; [apply world1_to_world2|].
  eapply rtc_l; [apply world2_to_world3 | apply rtc_refl].
Qed.

Lemma world1_inv : catalog_inv (db world1).
Proof. eapply step_inv; [apply (empty_inv : catalog_inv (db start)) | apply start_to_world1]. Qed.

Lemma world2_inv : catalog_inv (db world2).
Proof. eapply step_inv; [apply world1_inv | apply world1_to_world2]. Qed.

Lemma world3_inv : catalog_inv (db world3).
Proof. eapply step_inv; [apply world2_inv | apply world2_to_world3]. Qed.

Lemma reachable_catalog_inv_witness :
  rtc (step Limits.Sqlite) start world3 /\ catalog_inv (db world3) /\
  length (transactions (db world3)) = 3 /\ length (schemas (db world3)) = 2.
Proof.
  pose proof scenario_reachable as Hr.
  split; [exact Hr|]. split; [exact (reachable_catalog_inv Limits.Sqlite 1 world3 Hr)|].
  split; vm_compute; reflexivity.
Defined.

Lemma call_total_and_atomic_witness :
  catalog_inv (db world2) /\
  exists r w', run (H := backend Limits.Sqlite client) (CallCommit events txn1 mutation2) world2
    = Some (r, w') /\ (is_ok r = false \/ false = true -> db w' = db world2).
Proof.
  split; [exact world2_inv|].
  exact (call_total_and_atomic Limits.Sqlite client (CallCommit events txn1 mutation2) world2
    world2_inv).
Defined.

Lemma drop_table_refused_witness :
  exists r, r ∈ select_table "analytics" "events" (db world3) /\
    drop_table events world3 = Some (Err (Storage (ForeignKeyViolation "tables")), bump world3).
Proof.
  assert (exists r l, select_table "analytics" "events" (db world3) = r :: l) as (r & l & E)
    by (vm_compute; eauto).
  exists r. assert (r ∈ select_table "analytics" "events" (db world3)) as Hr by (rewrite E; left).
  split; [exact Hr|]. exact (drop_table_refused events world3 r world3_inv Hr eq_refl).
Defined.
