(* ===== verification/Commit.v ===== *)
(** * Commits

    The abstract view of a table — its head, its chain of transactions, its
    live files — and what a commit does to it: optimistic concurrency control,
    atomicity, the effect of the operations, and what it leaves alone. *)

From S2P Require Import Prelude Uuid Error Limits Json DataType Format Schema Models Db DbFacts World Helpers Catalog Api Effects ReadFacts Invariant RefEnv Scenario Safety.

(** ** The abstract view *)

(** The row of a table, its UUID and its current transaction. *)
Definition table_row_of (d : Db) (ident : TableIdent.t) : option TableRow.t :=
  head (select_table (TableIdent.namespace ident) (TableIdent.name ident) d).

Definition head_of (d : Db) (ident : TableIdent.t) : option TxnId :=
  r ← table_row_of d ident; b ← TableRow.current_transaction_id r; from_slice b.

(** The identifiers of the files of table [u] that no transaction removed, in
    the order they were added. *)
Definition is_live (u : Blob) (r : FileRow.t) : bool :=
  beq (FileRow.table_uuid r) u && beq (FileRow.removed_in_transaction_id r) None.

Definition live (d : Db) (u : Blob) : list Blob :=
  FileRow.file_uuid <$> List.filter (is_live u) (files d).

(** What an operation does to the live files. *)
Inductive live_op : MutationOp -> list Blob -> list Blob -> Prop :=
  | live_append files us l :
      Forall2 (fun f b => exists x, b = as_bytes x /\
        (forall y, FileSpec.file_uuid f = Some y -> x = y)) files us ->
      live_op (AppendFiles files) l (l ++ us)
  | live_delete us l :
      live_op (DeleteFiles us) l
        (List.filter (fun b => negb (existsb (fun x => beq x b) (as_bytes <$> us))) l)
  | live_other op l :
      match op with AppendFiles _ | DeleteFiles _ => False | _ => True end -> live_op op l l.

Inductive live_ops : list MutationOp -> list Blob -> list Blob -> Prop :=
  | live_nil l : live_ops [] l l
  | live_cons op ops l1 l2 l3 : live_op op l1 l2 -> live_ops ops l2 l3 -> live_ops (op :: ops) l1 l3.

(** What a commit of transaction [t] to table [u] may do to a row: close an open
    schema of the table, mark a live file of the table as removed, move the
    table's head.  Everything else is only added. *)
Definition file_kept (u t : Blob) (r r' : FileRow.t) : Prop :=
  r' = r \/
  FileRow.table_uuid r = u /\ FileRow.removed_in_transaction_id r = None /\ r' = set_removed t r.

Definition close_schema (t : Blob) (r : SchemaRow.t) : SchemaRow.t :=
  SchemaRow.mk (SchemaRow.schema_uuid r) (SchemaRow.table_uuid r) (SchemaRow.schema_version r)
    (SchemaRow.valid_from_transaction_id r) (Some t) (SchemaRow.created_at r).

Definition schema_kept (u t : Blob) (r r' : SchemaRow.t) : Prop :=
  r' = r \/
  SchemaRow.table_uuid r = u /\ SchemaRow.valid_to_transaction_id r = None /\ r' = close_schema t r.

Definition table_kept (u : Blob) (r r' : TableRow.t) : Prop :=
  r' = r \/
  TableRow.table_uuid r = u /\ exists s t p,
  r' = TableRow.mk (TableRow.table_uuid r) (TableRow.table_name r) (TableRow.namespace r)
         (TableRow.location r) s t (TableRow.created_at r) p (TableRow.min_reader_version r)
         (TableRow.min_writer_version r).

(** [l'] is [l] with rows changed as [K] allows, followed by rows that satisfy
    [P]. *)
Definition grows {R} (K : R -> R -> Prop) (P : R -> Prop) (l l' : list R) : Prop :=
  exists kept new, l' = kept ++ new /\ Forall2 K l kept /\ Forall P new.

Record extends (u t : Blob) (d d' : Db) : Prop := {
  ext_tables : Forall2 (table_kept u) (tables d) (tables d');
  ext_transactions : grows eq (fun r => TransactionRow.table_uuid r = u /\
    TransactionRow.transaction_id r = t) (transactions d) (transactions d');
  ext_schemas : grows (schema_kept u t) (fun r => SchemaRow.table_uuid r = u /\
    SchemaRow.valid_from_transaction_id r = t) (schemas d) (schemas d');
  ext_columns : grows eq (fun r => ColumnRow.schema_uuid r ∉ schema_keys d) (columns d) (columns d');
  ext_files : grows (file_kept u t) (fun r => FileRow.table_uuid r = u /\
    FileRow.added_in_transaction_id r = t) (files d) (files d');
  ext_stats : table_stats d' = table_stats d
}.

(** ** Tables by name *)

Lemma select_table_unique d ident r :
  db_ok d -> r ∈ select_table (TableIdent.namespace ident) (TableIdent.name ident) d ->
  select_table (TableIdent.namespace ident) (TableIdent.name ident) d = [r].
Proof.
  intros Hok Hr. apply elem_of_filter' in Hr as [Hr Hn].
  eapply (filter_unique (fun r => (TableRow.namespace r, TableRow.table_name r)));
    [by apply ok_table_name | done | done |].
  intros r' _ Hn'. unfold named in *. apply andb_true_iff in Hn as [A B]. apply andb_true_iff in Hn' as [A' B'].
  apply bool_decide_eq_true_1 in A, B, A', B'. congruence.
Qed.

Lemma table_row_of_in d ident r :
  db_ok d -> r ∈ select_table (TableIdent.namespace ident) (TableIdent.name ident) d ->
  table_row_of d ident = Some r.
Proof. intros Hok Hr. unfold table_row_of. by rewrite (select_table_unique _ _ _ Hok Hr). Qed.

Lemma table_row_of_some d ident r :
  table_row_of d ident = Some r ->
  r ∈ tables d /\ TableRow.namespace r = TableIdent.namespace ident /\
  TableRow.table_name r = TableIdent.name ident /\
  r ∈ select_table (TableIdent.namespace ident) (TableIdent.name ident) d.
Proof.
  unfold table_row_of. destruct (select_table _ _ _) as [|x l] eqn:E; [done|]. intros [= ->].
  assert (r ∈ select_table (TableIdent.namespace ident) (TableIdent.name ident) d) as Hr
    by (rewrite E; left).
  pose proof Hr as [Hin Hn]%elem_of_filter'. apply andb_true_iff in Hn as [A B].
  apply bool_decide_eq_true_1 in A, B. split_and!; try done. left.
Qed.

Lemma select_table_in d ns name r :
  r ∈ select_table ns name d <->
  r ∈ tables d /\ TableRow.namespace r = ns /\ TableRow.table_name r = name.
Proof.
  unfold select_table. rewrite elem_of_filter'. unfold named. rewrite andb_true_iff, !beq_true. done.
Qed.

Lemma head_of_row d ident r t :
  table_row_of d ident = Some r -> TableRow.current_transaction_id r = Some (as_bytes t) ->
  head_of d ident = Some t.
Proof. intros Hr Ht. unfold head_of. rewrite Hr. cbn. rewrite Ht. apply from_slice_as_bytes. Qed.

(** ** The effect of a commit *)

Section commit.
Context `{Env}.

(** The written table's row, before and after. *)
Lemma commit_facts_rows ident base t mutation d d' :
  catalog_inv d -> db_ok d' -> commit_facts ident base t mutation d d' ->
  exists row u row',
    table_row_of d ident = Some row /\ table_row_of d' ident = Some row' /\
    TableRow.table_uuid row = as_bytes u /\ TableRow.table_uuid row' = as_bytes u /\
    TableRow.current_transaction_id row = Some (as_bytes base) /\
    TableRow.current_transaction_id row' = Some (as_bytes t) /\
    as_bytes t ∉ txn_keys d /\
    (forall v, chain d' v = chain d v ++ (if beq (as_bytes u) v then [as_bytes t] else [])).
Proof.
  intros Hinv Hok' [row u ts cur props st text d1 d2 Hrow Hns Hnm Hu Hbase Hcur Hp Ht -> _ _ _ Hd'].
  exists row, u, (commit_head t cur st text (as_bytes u) row).
  assert (commit_head t cur st text (as_bytes u) row ∈ tables d') as Hrow'.
  { rewrite Hd'. cbn. by apply list_elem_of_fmap_2. }
  assert ((TableRow.namespace (commit_head t cur st text (as_bytes u) row),
    TableRow.table_name (commit_head t cur st text (as_bytes u) row))
    = (TableRow.namespace row, TableRow.table_name row)) as Hn by apply set_head_name.
  injection Hn as Hn1 Hn2.
  split_and!; try done.
  - apply table_row_of_in; [by apply inv_db | by apply select_table_in].
  - apply table_row_of_in; [done | apply select_table_in; split_and!; congruence].
  - by rewrite commit_head_uuid.
  - unfold commit_head, set_head. by rewrite Hu, beq_refl.
  - intros v. rewrite <- Hu. by eapply commit_chain.
Qed.

(** The live files of a table after rows of one table were appended. *)
Lemma live_appended u t fs rows d v :
  Forall2 (is_file u t) fs rows ->
  live (mk_db (tables d) (transactions d) (schemas d) (columns d) (files d ++ rows) (table_stats d)) v
  = live d v ++ (if beq (as_bytes u) v then FileRow.file_uuid <$> rows else []).
Proof.
  intros HF. unfold live. cbn [files]. rewrite List.filter_app, fmap_app. f_equal.
  assert (forall r, r ∈ rows -> is_live v r = beq (as_bytes u) v) as Hl.
  { intros r Hr. destruct (is_file_row _ _ _ _ _ HF Hr) as (f & _ & _ & fu & pt & ft & _ & _ & _ & ->).
    unfold is_live. cbn. by rewrite andb_true_r. }
  case_bool_decide as Ev.
  - by rewrite filter_all_true.
  - by rewrite filter_all_false.
Qed.

(** And after files of one table were marked removed. *)
Lemma live_mark_removed t u us d v :
  live (mk_db (tables d) (transactions d) (schemas d) (columns d) (mark_removed t u us <$> files d) (table_stats d)) v
  = if beq u v then List.filter (fun b => negb (existsb (fun x => beq x b) us)) (live d v) else live d v.
Proof.
  unfold live. cbn [files]. induction (files d) as [|r l IH]; cbn; [by destruct (beq _ _)|].
  destruct (deletes u us r) eqn:Ed.
  - assert (mark_removed t u us r = set_removed t r) as -> by (unfold mark_removed; by rewrite Ed).
    unfold is_live at 1. cbn [FileRow.table_uuid FileRow.removed_in_transaction_id set_removed].
    rewrite (bool_decide_false (Some _ = None)), andb_false_r by done. rewrite IH.
    unfold deletes in Ed. apply andb_true_iff in Ed as [[Eu Er]%andb_true_iff Ex].
    apply bool_decide_eq_true_1 in Eu, Er.
    assert (is_live v r = beq u v) as ->
      by (unfold is_live; by rewrite Eu, Er, (bool_decide_true (None = None)), andb_true_r).
    destruct (beq u v); cbn; [by rewrite Ex | done].
  - assert (mark_removed t u us r = r) as -> by (unfold mark_removed; by rewrite Ed).
    destruct (is_live v r) eqn:El; cbn; [|exact IH]. rewrite IH.
    case_bool_decide as Ev; [|done]. cbn. unfold deletes in Ed. unfold is_live in El.
    subst v. rewrite El in Ed. cbn in Ed. by rewrite Ed.
Qed.

Lemma op_effect_live u t ts cur op st d st' d' v :
  op_effect u t ts cur op (st, d) (st', d') ->
  if beq (as_bytes u) v then live_op op (live d v) (live d' v) else live d' v = live d v.
Proof.
  intros He. inversion He; subst.
  - match goal with Hi : insert_rows _ _ _ = _ |- _ => apply insert_files_ok in Hi as -> end.
    match goal with Hx : Forall2 _ _ _ |- _ => pose proof Hx as HF end.
    rewrite (live_appended _ _ _ _ _ _ HF). case_bool_decide; [|by rewrite app_nil_r].
    constructor. apply Forall2_fmap_r. eapply Forall2_impl; [exact HF|].
    intros f r (_ & fu & pt & ft & Hfu & _ & _ & ->). exists fu. cbn. naive_solver.
  - match goal with Hi : update_files_removed _ _ _ _ = _ |- _ =>
      apply update_files_removed_ok in Hi as [_ ->] end.
    rewrite live_mark_removed. case_bool_decide; [constructor | done].
  - match goal with Hi : insert_rows _ _ _ = _ |- _ => apply insert_columns_ok in Hi as -> end.
    match goal with Hi : update_schema_valid_to _ _ _ = _ |- _ =>
      apply update_schema_valid_to_ok in Hi as [_ ->] end.
    match goal with Hi : insert_schema _ _ = _ |- _ =>
      apply insert_schema_ok in Hi as (_ & _ & _ & _ & ->) end.
    case_bool_decide; [by constructor | done].
  - case_bool_decide; [by constructor | done].
  - case_bool_decide; [by constructor | done].
Qed.

Lemma ops_effect_live u t ts cur ops s s' v :
  ops_effect u t ts cur ops s s' ->
  if beq (as_bytes u) v then live_ops ops (live s.2 v) (live s'.2 v)
  else live s'.2 v = live s.2 v.
Proof.
  induction 1 as [|op ops [st1 d1] [st2 d2] s3 He _ IH]; cbn.
  - case_bool_decide; [constructor | done].
  - apply (op_effect_live _ _ _ _ _ _ _ _ _ v) in He. cbn in *.
    case_bool_decide; [by econstructor | congruence].
Qed.

Lemma grows_refl {R} (K : R -> R -> Prop) (P : R -> Prop) l :
  (forall r, K r r) -> grows K P l l.
Proof.
  intros HK. exists l, []. rewrite app_nil_r. split_and!; [done | | constructor].
  apply Forall_Forall2_diag, Forall_forall. auto.
Qed.

Lemma Forall2_eq_refl {R} (K : R -> R -> Prop) l : (forall r, K r r) -> Forall2 K l l.
Proof. intros HK. apply Forall_Forall2_diag, Forall_forall. auto. Qed.

Lemma file_kept_trans u t r1 r2 r3 :
  file_kept u t r1 r2 -> file_kept u t r2 r3 -> file_kept u t r1 r3.
Proof. unfold file_kept. intros [->|(A & B & ->)] [->|(A' & B' & ->)]; naive_solver. Qed.

Lemma op_effect_grows u t ts cur op st d st' d' l :
  op_effect u t ts cur op (st, d) (st', d') ->
  grows (file_kept (as_bytes u) (as_bytes t)) (fun r => FileRow.table_uuid r = as_bytes u /\
    FileRow.added_in_transaction_id r = as_bytes t) l (files d) ->
  grows (file_kept (as_bytes u) (as_bytes t)) (fun r => FileRow.table_uuid r = as_bytes u /\
    FileRow.added_in_transaction_id r = as_bytes t) l (files d').
Proof.
  intros He (kept & new & E & HK & HP). inversion He; subst; try by exists kept, new.
  - match goal with Hi : insert_rows _ _ _ = _ |- _ => apply insert_files_ok in Hi as -> end.
    exists kept, (new ++ rows). cbn. rewrite E, app_assoc. split_and!; [done | done |].
    apply Forall_app. split; [done|]. apply Forall_forall. intros r Hr.
    match goal with HF : Forall2 _ _ _ |- _ => destruct (is_file_row _ _ _ _ _ HF Hr)
      as (f & _ & _ & fu & pt & ft & _ & _ & _ & ->) end. done.
  - match goal with Hi : update_files_removed _ _ _ _ = _ |- _ =>
      apply update_files_removed_ok in Hi as [_ ->] end.
    exists (mark_removed (as_bytes t) (as_bytes u) (as_bytes <$> us) <$> kept),
      (mark_removed (as_bytes t) (as_bytes u) (as_bytes <$> us) <$> new). cbn.
    rewrite E, fmap_app. split_and!; [done | |].
    + apply Forall2_fmap_r. eapply Forall2_impl; [exact HK|]. intros r r' Hk.
      eapply file_kept_trans; [exact Hk|]. unfold mark_removed.
      destruct (deletes _ _ r') eqn:Ed; [|by left]. right. unfold deletes in Ed.
      apply andb_true_iff in Ed as [[Eu Er]%andb_true_iff _].
      apply bool_decide_eq_true_1 in Eu, Er. done.
    + apply Forall_fmap. eapply Forall_impl; [exact HP|]. intros r [A B]. cbn.
      by rewrite mark_removed_table, mark_removed_added.
  - exists kept, new. split_and!; try done.
    match goal with Hi : insert_rows _ _ _ = _ |- _ => apply insert_columns_ok in Hi as -> end.
    match goal with Hi : update_schema_valid_to _ _ _ = _ |- _ =>
      apply update_schema_valid_to_ok in Hi as [_ ->] end.
    match goal with Hi : insert_schema _ _ = _ |- _ =>
      by apply insert_schema_ok in Hi as (_ & _ & _ & _ & ->) end.
Qed.

Lemma ops_effect_grows u t ts cur ops s s' :
  ops_effect u t ts cur ops s s' ->
  grows (file_kept (as_bytes u) (as_bytes t)) (fun r => FileRow.table_uuid r = as_bytes u /\
    FileRow.added_in_transaction_id r = as_bytes t) (files s.2) (files s'.2).
Proof.
  intros He. assert (forall l, grows (file_kept (as_bytes u) (as_bytes t)) (fun r =>
    FileRow.table_uuid r = as_bytes u /\ FileRow.added_in_transaction_id r = as_bytes t) l (files s.2) ->
    grows (file_kept (as_bytes u) (as_bytes t)) (fun r =>
    FileRow.table_uuid r = as_bytes u /\ FileRow.added_in_transaction_id r = as_bytes t) l (files s'.2))
    as Hgen.
  { induction He as [|op ops [st1 d1] [st2 d2] s3 He _ IH]; intros l Hl; [done|]. apply IH.
    by eapply op_effect_grows. }
  apply Hgen, grows_refl. intros r. by left.
Qed.

(** The schema a commit closes is the open one of its table. *)
Lemma current_schema_open d row u old old_row :
  catalog_inv d -> row ∈ tables d -> TableRow.table_uuid row = u ->
  TableRow.current_schema_uuid row = Some old ->
  old_row ∈ schemas d -> SchemaRow.schema_uuid old_row = old ->
  SchemaRow.table_uuid old_row = u /\ SchemaRow.valid_to_transaction_id old_row = None.
Proof.
  intros Hinv Hrow Hu Hcur Hold Hid. pose proof (inv_schemas _ Hinv) as Hs.
  rewrite Forall_forall in Hs. destruct (Hs row Hrow) as (Hc & _ & Hl & _). rewrite Hcur, Hu in *.
  destruct (schema_log d u) as [|x l] eqn:El using rev_ind; [done|].
  rewrite fmap_app in Hl. cbn in Hl. rewrite last_snoc in Hl. injection Hl as Hx.
  assert (x ∈ schema_log d u) as [Hxs Hxu]%schema_log_in by (rewrite El; set_solver).
  assert (old_row = x) as -> by (eapply same_schema; [exact Hinv | done | done | congruence]).
  split; [done|]. clear -Hc. induction l as [|y l IH]; cbn in Hc; naive_solver.
Qed.

Lemma commit_extends ident base t mutation d d' :
  catalog_inv d -> commit_facts ident base t mutation d d' ->
  exists u row, table_row_of d ident = Some row /\ TableRow.table_uuid row = as_bytes u /\
    extends (as_bytes u) (as_bytes t) d d' /\
    forall v, if beq (as_bytes u) v then live_ops (Mutation.operations mutation) (live d v) (live d' v)
              else live d' v = live d v.
Proof.
  intros Hinv [row u ts cur props st text d1 d2 Hrow Hns Hnm Hu Hbase Hcur Hp Ht Hd1 Hops Hout _ Hd'].
  exists u, row. split_and!; [apply table_row_of_in; [by apply inv_db | by apply select_table_in] | done | |].
  - pose proof (ops_effect_grows _ _ _ _ _ _ _ Hops) as Hfiles. cbn in Hfiles.
    constructor.
    + rewrite Hd'. cbn [tables]. apply Forall2_fmap_r, Forall_Forall2_diag, Forall_forall. intros r _.
      unfold compose, commit_head, set_head. cbn beta. case_bool_decide as Eu; [|by left].
      right. split; [done|]. eauto.
    + rewrite Hd', Hd1. cbn. eexists _, [_]. split_and!; [done | by apply Forall2_eq_refl |].
      by apply Forall_singleton.
    + destruct Hout as [_ E1 _ _|spec old old_row cols s rows _ Hco _ Hor Hid _ _ _ E1 _ _ _].
      * rewrite E1. apply grows_refl. by left.
      * rewrite E1. eexists _, [_]. split_and!; [done | |by apply Forall_singleton].
        apply Forall2_fmap_r. apply Forall_Forall2_diag, Forall_forall. intros r Hr. unfold compose.
        unfold set_valid_to. case_bool_decide as Eid; [|by left]. right.
        assert (Hopen : SchemaRow.table_uuid r = as_bytes u /\
          SchemaRow.valid_to_transaction_id r = None).
        { eapply current_schema_open; try done. by rewrite Hcur, Hco. }
        destruct Hopen. done.
    + destruct Hout as [_ _ E2 _|spec old old_row cols s rows _ _ _ _ _ _ _ Hs _ Hrows E2 _]; rewrite E2.
      * by apply grows_refl.
      * exists (columns d), rows. split_and!; [done | by apply Forall2_eq_refl |].
        apply Forall_forall. intros r Hr. by rewrite (are_columns_schema _ _ _ _ Hrows Hr).
    + rewrite Hd'. cbn. by rewrite Hd1 in Hfiles.
    + by rewrite Hd'.
  - intros v. pose proof (ops_effect_live _ _ _ _ _ _ _ v Hops) as Hlive. cbn in Hlive.
    assert (live d' v = live d2 v) as -> by (unfold live; by rewrite Hd').
    assert (live d1 v = live d v) as E by (unfold live; by rewrite Hd1). by rewrite E in Hlive.
Qed.

Context `{!EnumerationLaws}.

Lemma row_order_singleton {A} (l : list A) x : l = [x] -> row_order l = [x].
Proof. intros ->. apply Permutation_singleton_r. apply row_order_perm. Qed.

Lemma table_row_of_select d ident r : db_ok d -> table_row_of d ident = Some r ->
  select_table (TableIdent.namespace ident) (TableIdent.name ident) d = [r].
Proof. intros Hok Hr. apply select_table_unique; [done|]. by apply table_row_of_some in Hr as (_ & _ & _ & ?). Qed.

Lemma wp_fetch_table_ok ident r Φ w :
  no_faults -> db_ok (db w) -> table_row_of (db w) ident = Some r -> Φ (Ok r) (bump w) ->
  wp (fetch_table ident) Φ w.
Proof.
  intros Hn Hok Hr HΦ. unfold fetch_table, fetch_optional. apply wp_bind, wp_fetch_ok; [done|].
  rewrite (row_order_singleton _ r) by by apply table_row_of_select. by apply wp_lift.
Qed.

(** A commit pinned to a transaction that is not the current one. *)
Lemma wp_commit_stale kind client ident base mutation row u cur props w :
  no_faults -> db_ok (db w) -> table_row_of (db w) ident = Some row ->
  rows_decode (db w) ->
  TableRow.table_uuid row = as_bytes u ->
  TableRow.current_transaction_id row = Some (as_bytes cur) ->
  parse_table_properties (TableRow.properties row) = Ok props ->
  (TableRow.min_writer_version row <= ProtocolVersions.writer client)%Z ->
  check_mutation mutation = Ok tt -> base <> cur ->
  wp (commit kind client ident base mutation) (fun r _ => r = Err (stale_base base cur)) w.
Proof.
  intros Hn Hok Hrow Hdec Hu Hcur Hp Hv Hm Hne. unfold commit. rewrite Hm.
  apply wp_bind, wp_lift. apply wp_with_tx_ok; [done|]. unfold commit_body.
  apply wp_bind, (wp_fetch_table_ok _ row); [done..|].
  apply wp_bind, wp_lift. rewrite Hu, (proj2 (uuid_from_row_ok _ u) eq_refl).
  apply wp_bind, wp_lift. apply table_row_of_some in Hrow as (Hin & _).
  pose proof (dec_tables _ Hdec) as Ht. rewrite Forall_forall in Ht.
  destruct (Ht row Hin) as (_ & Hs & _).
  destruct (uuid_from_row_optional (TableRow.current_schema_uuid row)) as [s|e] eqn:Es.
  - apply wp_bind, wp_lift. rewrite Hcur, (proj2 (uuid_from_row_optional_ok _ (Some cur)) eq_refl).
    apply wp_bind, wp_lift. rewrite Hp. apply wp_bind, wp_lift.
    unfold ensure_writer_protocol_compatible. rewrite (proj2 (Z.ltb_ge _ _)) by done.
    apply wp_bind, wp_lift. cbn. apply wp_bind, wp_lift. by rewrite bool_decide_true by congruence.
  - exfalso. destruct (TableRow.current_schema_uuid row) as [b|]; [|done]. cbn in *.
    destruct (from_slice b) eqn:Eb; [|by apply from_slice_none in Eb].
    unfold uuid_from_row in Es. by rewrite Eb in Es.
Qed.

(** A run of [commit] that succeeded. *)
Lemma commit_ok_inv kind client ident base mutation w res w' :
  db_ok (db w) -> commit kind client ident base mutation w = Some (Ok res, w') ->
  CommitResult.table_view res = None /\
  commit_effect (ProtocolVersions.writer client) ident base (CommitResult.transaction_id res)
    mutation (db w) (db w') /\ db_ok (db w').
Proof.
  intros Hok E. refine (wp_elim _ (fun r w' => forall res, r = Ok res -> _) _ _ _ _ E _ eq_refl).
  apply wp_commit; [done | done |]. intros res0 w0 Hv Hc Hok' res1 [= <-]. done.
Qed.

End commit.

(** ** Theorems *)

(** C2: [commit] refines its specification: it always returns; if it fails the
    database is unchanged, and if it succeeds the database made exactly one
    transition [commit_effect]: one transaction row with the base as parent,
    the operations in order — each as one unbatched statement — and the new
    head of the table; the result names the new transaction and carries no
    view. *)
Theorem commit_refines `{Env} `{!EnumerationLaws} kind client ident base mutation w :
  db_ok (db w) ->
  exists r w', commit kind client ident base mutation w = Some (r, w') /\
  match r with
  | Ok res => CommitResult.table_view res = None /\
      commit_effect (ProtocolVersions.writer client) ident base
        (CommitResult.transaction_id res) mutation (db w) (db w')
  | Err _ => db w' = db w
  end.
Proof. intros Hok. apply wp_run. by apply wp_commit. Qed.

(** C26: optimistic concurrency control, the success side: a commit succeeds
    only on the current transaction of the table; the new current transaction
    is the one it returns, which is fresh and becomes the last of the table's
    chain. *)
Theorem commit_on_head `{Env} `{!EnumerationLaws} kind client ident base mutation w res w' :
  catalog_inv (db w) ->
  commit kind client ident base mutation w = Some (Ok res, w') ->
  head_of (db w) ident = Some base /\
  head_of (db w') ident = Some (CommitResult.transaction_id res) /\
  as_bytes (CommitResult.transaction_id res) ∉ txn_keys (db w) /\
  exists row, table_row_of (db w) ident = Some row /\
    chain (db w') (TableRow.table_uuid row)
    = chain (db w) (TableRow.table_uuid row) ++ [as_bytes (CommitResult.transaction_id res)].
Proof.
  intros Hinv E. destruct (commit_ok_inv _ _ _ _ _ _ _ _ (inv_db _ Hinv) E) as (_ & Hc & Hok').
  destruct (commit_facts_rows _ _ _ _ _ _ Hinv Hok' (commit_effect_facts _ _ _ _ _ _ _ Hc))
    as (row & u & row' & Hr & Hr' & Hu & _ & Hb & Ht & Hf & Hch).
  unfold head_of. rewrite Hr, Hr'. cbn. rewrite Hb, Ht. cbn. rewrite !from_slice_as_bytes.
  split_and!; [done | done | done |]. exists row. split; [done|]. by rewrite Hch, Hu, beq_refl.
Qed.

(** C27: optimistic concurrency control, the failure side: a commit pinned to a
    transaction that is not the current one fails and changes nothing; when
    neither the engine nor the checks that come first fail, the error is
    [Conflict] and names both transactions. *)
Theorem commit_stale_rejected `{Env} `{!EnumerationLaws} kind client ident base mutation w cur :
  catalog_inv (db w) -> head_of (db w) ident = Some cur -> base <> cur ->
  exists e w', commit kind client ident base mutation w = Some (Err e, w') /\ db w' = db w /\
    forall row props, no_faults -> check_mutation mutation = Ok tt ->
      table_row_of (db w) ident = Some row ->
      (TableRow.min_writer_version row <= ProtocolVersions.writer client)%Z ->
      parse_table_properties (TableRow.properties row) = Ok props ->
      e = stale_base base cur.
Proof.
  intros Hinv Hh Hne. pose proof (inv_db _ Hinv) as Hok.
  assert (wp (commit kind client ident base mutation)
    (fun r w' => exists e, r = Err e /\ db w' = db w) w) as Hw.
  { apply wp_commit; [done | by eauto |]. intros res w' _ Hc Hok'. exfalso.
    destruct (commit_facts_rows _ _ _ _ _ _ Hinv Hok' (commit_effect_facts _ _ _ _ _ _ _ Hc))
      as (row & u & row' & Hr & _ & _ & _ & Hb & _).
    unfold head_of in Hh. rewrite Hr in Hh. cbn in Hh. rewrite Hb in Hh. cbn in Hh.
    rewrite from_slice_as_bytes in Hh. congruence. }
  apply wp_run in Hw as (r & w' & E & e & -> & Ed). exists e, w'. split_and!; [done | done |].
  intros row props Hn Hm Hrow Hv Hp.
  unfold head_of in Hh. rewrite Hrow in Hh. cbn in Hh.
  destruct (TableRow.current_transaction_id row) as [b|] eqn:Eb; [|done]. cbn in Hh.
  apply from_slice_some in Hh as ->.
  pose proof (dec_tables _ (inv_rows _ Hinv)) as Ht. rewrite Forall_forall in Ht.
  pose proof Hrow as (Hin & _)%table_row_of_some. destruct (Ht row Hin) as (Hlen & _ & _).
  destruct (from_slice (TableRow.table_uuid row)) as [u|] eqn:Eu;
    [apply from_slice_some in Eu | by apply from_slice_none in Eu].
  pose proof (wp_commit_stale kind client ident base mutation row u cur props w Hn Hok Hrow
    (inv_rows _ Hinv) Eu Eb Hp Hv Hm Hne) as Hs.
  by injection (wp_elim _ _ _ _ _ Hs E) as ->.
Qed.

(** C7: a successful commit acts on the live files of its table as its
    operations say, in their order — an append adds the new identifiers at the
    end, a delete takes the listed ones out, ignoring those that are not live —
    and leaves the live files of every other table alone. *)
Theorem commit_live_files `{Env} `{!EnumerationLaws} kind client ident base mutation w res w' :
  catalog_inv (db w) ->
  commit kind client ident base mutation w = Some (Ok res, w') ->
  exists row, table_row_of (db w) ident = Some row /\ forall v,
    if beq (TableRow.table_uuid row) v
    then live_ops (Mutation.operations mutation) (live (db w) v) (live (db w') v)
    else live (db w') v = live (db w) v.
Proof.
  intros Hinv E. destruct (commit_ok_inv _ _ _ _ _ _ _ _ (inv_db _ Hinv) E) as (_ & Hc & _).
  destruct (commit_extends _ _ _ _ _ _ Hinv (commit_effect_facts _ _ _ _ _ _ _ Hc))
    as (u & row & Hr & Hu & _ & Hl). exists row. split; [done|]. intros v. rewrite Hu. apply Hl.
Qed.

(** C28: the metadata is append-only: a successful commit keeps every row of
    every table except that it moves the head of its own table, closes that
    table's open schema and marks live files of that table as removed by the
    new transaction; what it adds belongs to its table and to the new
    transaction. *)
Theorem commit_append_only `{Env} `{!EnumerationLaws} kind client ident base mutation w res w' :
  catalog_inv (db w) ->
  commit kind client ident base mutation w = Some (Ok res, w') ->
  exists row, table_row_of (db w) ident = Some row /\
    extends (TableRow.table_uuid row) (as_bytes (CommitResult.transaction_id res)) (db w) (db w').
Proof.
  intros Hinv E. destruct (commit_ok_inv _ _ _ _ _ _ _ _ (inv_db _ Hinv) E) as (_ & Hc & _).
  destruct (commit_extends _ _ _ _ _ _ Hinv (commit_effect_facts _ _ _ _ _ _ _ Hc))
    as (u & row & Hr & Hu & Hx & _). exists row. split; [done|]. by rewrite Hu.
Qed.

(** ** Witnesses *)

#[local] Existing Instances ref_env ref_ipc_laws ref_enumeration_laws.

(** The commit of the scenario that takes [world2] to [world3]. *)
Lemma commit2_runs :
  commit Limits.Sqlite client events txn2 mutation2 world2
  = Some (Ok (CommitResult.mk txn3 None), world3).
Proof. vm_compute. reflexivity. Qed.

Lemma commit_refines_witness :
  db_ok (db world2) /\
  exists r w', commit Limits.Sqlite client events txn2 mutation2 world2 = Some (r, w') /\
  match r with
  | Ok res => CommitResult.table_view res = None /\
      commit_effect 1 events txn2 (CommitResult.transaction_id res) mutation2 (db world2) (db w')
  | Err _ => db w' = db world2
  end.
Proof.
  assert (db_ok (db world2)) as Hok by apply world2_inv. split; [exact Hok|].
  exact (commit_refines Limits.Sqlite client events txn2 mutation2 world2 Hok).
Defined.

Lemma commit_on_head_witness :
  head_of (db world2) events = Some txn2 /\ head_of (db world3) events = Some txn3.
Proof.
  destruct (commit_on_head Limits.Sqlite client events txn2 mutation2 world2 _ world3
    world2_inv commit2_runs) as (H1 & H2 & _). split; [exact H1 | exact H2].
Defined.

Lemma commit_stale_rejected_witness :
  txn1 <> txn2 /\ exists e w',
    commit Limits.Sqlite client events txn1 mutation2 world2 = Some (Err e, w') /\ db w' = db world2.
Proof.
  assert (txn1 <> txn2) as Hne by (intros E; apply (f_equal as_bytes) in E; vm_compute in E; congruence).
  split; [exact Hne|].
  assert (head_of (db world2) events = Some txn2) as Hh
    by (eapply head_of_row; vm_compute; reflexivity).
  destruct (commit_stale_rejected Limits.Sqlite client events txn1 mutation2 world2 txn2
    world2_inv Hh Hne) as (e & w' & H1 & H2 & _). exists e, w'. split; [exact H1 | exact H2].
Defined.

Lemma commit_live_files_witness :
  exists row, table_row_of (db world2) events = Some row /\
    live (db world2) (TableRow.table_uuid row) = [as_bytes f1; as_bytes f2] /\
    live (db world3) (TableRow.table_uuid row) = [as_bytes f2; as_bytes f3] /\
    live_ops (Mutation.operations mutation2) (live (db world2) (TableRow.table_uuid row))
      (live (db world3) (TableRow.table_uuid row)).
Proof.
  destruct (commit_live_files Limits.Sqlite client events txn2 mutation2 world2 _ world3
    world2_inv commit2_runs) as (row & Hr & Hl). exists row. split; [exact Hr|].
  vm_compute in Hr. injection Hr as <-. split; [vm_compute; reflexivity|].
  split; [vm_compute; reflexivity|]. specialize (Hl (as_bytes (v4 3))). vm_compute in Hl |- *. exact Hl.
Defined.

Lemma commit_append_only_witness :
  exists row, table_row_of (db world2) events = Some row /\
    extends (TableRow.table_uuid row) (as_bytes txn3) (db world2) (db world3).
Proof.
  exact (commit_append_only Limits.Sqlite client events txn2 mutation2 world2 _ world3
    world2_inv commit2_runs).
Defined.
