(* ===== verification/Order.v ===== *)
(** * The order of transaction identifiers

    [read_table] selects schemas and files by comparing identifiers byte by
    byte, so it relies on UUIDv7 identifiers growing from one transaction to
    the next.  [MonotoneV7] states this of the generator, for the identifiers
    drawn up to some tick (there are only 2^128 of them); under it the
    identifiers of every reachable database are sorted in the order of
    insertion, and comparing two identifiers of a table's chain is comparing
    their positions.  The proof is an invariant of worlds, [ordered], kept by
    every computation of the model. *)

From S2P Require Import Prelude Uuid Error Limits Json DataType Format Schema Models Db DbFacts World Helpers Catalog Api Invariant RefEnv Scenario Safety.
From stdpp Require Import relations.

Class MonotoneV7 `{Outside} (limit : nat) : Prop :=
  v7_monotone : forall m n, m < n -> n < limit -> blob_lt (as_bytes (gen_v7 m)) (as_bytes (gen_v7 n)) = true.

(** All identifiers in the order of insertion, and those of each table along its
    chain.  Writers to different tables may commit in another order than they
    drew their identifiers; those of one table do not. *)
Notation sorted_keys d := (StronglySorted (fun a b => blob_lt a b = true) (txn_keys d)).

Definition sorted_ids (d : Db) : Prop := forall u, StronglySorted (fun a b => blob_lt a b = true) (chain d u).

Lemma strongly_sorted_sublist {A} (R : A -> A -> Prop) l k :
  l `sublist_of` k -> StronglySorted R k -> StronglySorted R l.
Proof.
  induction 1 as [|x l k Hs IH|x l k Hs IH]; intros HS; [constructor| |].
  - apply StronglySorted_inv in HS as [HS Hx]. constructor; [by apply IH|].
    rewrite Forall_forall in *. intros y Hy. apply Hx. by eapply sublist_subseteq.
  - apply StronglySorted_inv in HS as [HS Hx]. by apply IH.
Qed.

Lemma filter_sublist {A} (p : A -> bool) l : List.filter p l `sublist_of` l.
Proof. induction l as [|x l IH]; cbn; [done|]. destruct (p x); by constructor. Qed.

Lemma fmap_sublist {A B} (f : A -> B) l k : l `sublist_of` k -> (f <$> l) `sublist_of` (f <$> k).
Proof. induction 1; cbn; by constructor. Qed.

Lemma chain_sublist d u : chain d u `sublist_of` txn_keys d.
Proof. unfold chain, history. apply fmap_sublist, filter_sublist. Qed.

Lemma sorted_chains d : sorted_keys d -> sorted_ids d.
Proof. intros Hs u. by eapply strongly_sorted_sublist, Hs; apply chain_sublist. Qed.

Section order.
Context `{Env} (limit : nat) `{!MonotoneV7 limit}.

(** Every identifier was drawn before the current tick, and they are sorted. *)
Definition ordered (w : World) : Prop :=
  Forall (fun b => exists k, k < tick w /\ b = as_bytes (gen_v7 k)) (txn_keys (db w)) /\
  sorted_keys (db w).

Lemma ordered_tick w n : ordered w -> tick w <= n -> ordered (mk_world (db w) n).
Proof.
  intros [Hd Hs] Hn. split; [|done]. eapply Forall_impl; [exact Hd|].
  intros b (k & Hk & ->). exists k. cbn. split; [lia | done].
Qed.

Lemma strongly_sorted_snoc {A} (R : A -> A -> Prop) l x :
  StronglySorted R l -> Forall (fun y => R y x) l -> StronglySorted R (l ++ [x]).
Proof.
  induction 1 as [|y l Hl IH Hy]; cbn; intros Hx; [repeat constructor|].
  apply Forall_cons in Hx as [Hyx Hx]. constructor; [by apply IH|].
  apply Forall_app. split; [done | by apply Forall_singleton].
Qed.

(** Inserting the row of the identifier that was just drawn. *)
Lemma ordered_insert w row k n d' :
  ordered w -> tick w <= k -> k < n -> n <= limit -> TransactionRow.transaction_id row = as_bytes (gen_v7 k) ->
  insert_transaction row (db w) = Ok d' -> ordered (mk_world d' n).
Proof.
  intros [Hd Hs] Hk Hn Hlim Hr (_ & _ & _ & ->)%insert_transaction_ok. unfold ordered. cbn.
  rewrite fmap_app. cbn. rewrite Hr. split.
  - apply Forall_app. split; [|apply Forall_singleton; eauto].
    eapply Forall_impl; [exact Hd|]. intros b (j & Hj & ->). exists j. split; [lia | done].
  - apply strongly_sorted_snoc; [done|]. eapply Forall_impl; [exact Hd|].
    intros b (j & Hj & ->). apply v7_monotone; lia.
Qed.

Class Keeps {A} (m : M A) : Prop :=
  keeps : forall w r w', m w = Some (r, w') ->
    tick w <= tick w' /\ (tick w' <= limit -> ordered w -> ordered w').

(** A statement that leaves the transactions table alone. *)
Class KeepsTxns {A} (f : Db -> result SqlxError (A * Db)) : Prop :=
  keeps_txns : forall d a d', f d = Ok (a, d') -> transactions d' = transactions d.

Lemma keeps_same {A} (m : M A) :
  (forall w r w', m w = Some (r, w') ->
     tick w <= tick w' /\ transactions (db w') = transactions (db w)) -> Keeps m.
Proof.
  intros Hm w r w' E. destruct (Hm w r w' E) as [Ht Ex]. split; [done|].
  intros _ Ho. destruct (ordered_tick _ _ Ho Ht) as [Hd Hs]. split; cbn in *; by rewrite Ex.
Qed.

#[export] Instance keeps_ret {A} (a : A) : Keeps (mret a : M A).
Proof. apply keeps_same. intros w r w' [= <- <-]. done. Qed.
#[export] Instance keeps_lift {A} (r : result CatalogError A) : Keeps (lift r).
Proof. apply keeps_same. intros w r' w' [= <- <-]. done. Qed.
#[export] Instance keeps_fail {A} e : Keeps (fail e : M A).
Proof. apply keeps_lift. Qed.
#[export] Instance keeps_fuel {A} : Keeps (out_of_fuel : M A).
Proof. done. Qed.
#[export] Instance keeps_chain_fuel : Keeps chain_fuel.
Proof. apply keeps_same. intros w r w' [= <- <-]. done. Qed.

#[export] Instance keeps_bind {A B} (m : M A) (f : A -> M B) :
  Keeps m -> (forall a, Keeps (f a)) -> Keeps (m ≫= f).
Proof.
  intros Hm Hf w r w'. unfold mbind, M_bind. destruct (m w) as [[[a|e] w1]|] eqn:E; [| |done].
  - intros E'. destruct (Hm _ _ _ E), (Hf _ _ _ _ E'). split; [lia | auto with lia].
  - intros [= <- <-]. by eapply Hm.
Qed.

#[export] Instance keeps_for_each {A} (l : list A) (body : A -> M unit) :
  (forall x, Keeps (body x)) -> Keeps (for_each l body).
Proof. intros Hb. induction l as [|x l IH]; cbn; apply _. Qed.
#[export] Instance keeps_fold_m {A S} (l : list A) (body : S -> A -> M S) s :
  (forall s x, Keeps (body s x)) -> Keeps (fold_m body s l).
Proof. intros Hb. revert s; induction l as [|x l IH]; intros s; cbn; apply _. Qed.
#[export] Instance keeps_map_m {A B} (l : list A) (body : A -> M B) :
  (forall x, Keeps (body x)) -> Keeps (map_m body l).
Proof. intros Hb. induction l as [|x l IH]; cbn; apply _. Qed.

#[export] Instance keeps_v4 : Keeps new_v4.
Proof. apply keeps_same. intros w r w' [= <- <-]. cbn. split; [lia | done]. Qed.
#[export] Instance keeps_now : Keeps utc_now.
Proof. apply keeps_same. intros w r w' [= <- <-]. cbn. split; [lia | done]. Qed.
#[export] Instance keeps_fetch {A} (q : Db -> A) : Keeps (fetch q).
Proof.
  apply keeps_same. intros w r w'. unfold fetch.
  destruct (fault _); intros [= <- <-]; cbn; (split; [lia | done]).
Qed.
#[export] Instance keeps_fetch_all {R} (q : Db -> list R) : Keeps (fetch_all q).
Proof. apply keeps_fetch. Qed.
#[export] Instance keeps_fetch_limit {R} n (q : Db -> list R) : Keeps (fetch_limit n q).
Proof. apply keeps_fetch. Qed.
#[export] Instance keeps_fetch_optional {R} (q : Db -> list R) : Keeps (fetch_optional q).
Proof. apply keeps_fetch. Qed.
#[export] Instance keeps_fetch_one {R} (q : Db -> list R) : Keeps (fetch_one q).
Proof. unfold fetch_one. apply _. Qed.

#[export] Instance keeps_execute {A} (f : Db -> result SqlxError (A * Db)) :
  KeepsTxns f -> Keeps (execute f).
Proof.
  intros Hf. apply keeps_same. intros w r w'. unfold execute.
  destruct (fault _); [intros [= <- <-]; cbn; split; [lia | done]|].
  destruct (f (db w)) as [[a d]|e] eqn:E; intros [= <- <-]; cbn; (split; [lia|]); [by eapply Hf | done].
Qed.

Class KeepsTxns_ (f : Db -> result SqlxError Db) : Prop :=
  keeps_txns_ : forall d d', f d = Ok d' -> transactions d' = transactions d.

#[export] Instance keeps_execute_ (f : Db -> result SqlxError Db) : KeepsTxns_ f -> Keeps (execute_ f).
Proof.
  intros Hf. apply keeps_execute. intros d [] d'. destruct (f d) eqn:E; cbn; [|done].
  intros [= <-]. by eapply Hf.
Qed.

#[export] Instance keeps_with_tx {A} (body : M A) : Keeps body -> Keeps (with_tx body).
Proof.
  intros Hb w r w'. unfold with_tx.
  assert (Hroll : forall n, tick w <= n ->
    tick w <= n /\ (n <= limit -> ordered w -> ordered (mk_world (db w) n)))
    by (intros n Hn; split; [done | intros _ Ho; by apply ordered_tick]).
  destruct (fault _); [intros [= <- <-]; apply (Hroll (S (tick w))); lia|].
  destruct (body (bump w)) as [[[a|e] w1]|] eqn:E; [| |done];
    destruct (Hb _ _ _ E) as [Ht Ho]; cbn in Ht.
  - destruct (fault _); intros [= <- <-]; [apply Hroll; lia|]. cbn. split; [lia|]. intros Hlim Hw.
    apply (ordered_tick w1); [|lia]. apply Ho; [lia|]. apply (ordered_tick w); [done | lia].
  - intros [= <- <-]. apply Hroll. lia.
Qed.

(** Drawing an identifier and inserting its row. *)
Lemma keeps_draw_insert {B} (row : TxnId -> TransactionRow.t) (k : TxnId -> M B) :
  (forall t, TransactionRow.transaction_id (row t) = as_bytes t) -> (forall t, Keeps (k t)) ->
  Keeps (t ← next_transaction_id; _ ← execute_ (insert_transaction (row t)); k t).
Proof.
  intros Hrow Hk w r w'. unfold mbind, M_bind, next_transaction_id, execute_, execute. cbn.
  destruct (fault _).
  { intros [= <- <-]. split; [cbn; lia|]. intros _ Ho. apply (ordered_tick w); [done | cbn; lia]. }
  destruct (insert_transaction _ (db w)) as [d|e] eqn:E; cbn.
  - intros E'. destruct (Hk _ _ _ _ E') as [Ht Ho]. cbn in Ht. split; [lia|]. intros Hlim Hw. apply Ho; [done|].
    eapply (ordered_insert w _ (tick w)); [done | done | lia | lia | apply Hrow | exact E].
  - intros [= <- <-]. split; [cbn; lia|]. intros _ Ho. apply (ordered_tick w); [done | cbn; lia].
Qed.

Lemma keeps_draw_now_insert {B} (row : TxnId -> DateTime -> TransactionRow.t)
    (k : TxnId -> DateTime -> M B) :
  (forall t ts, TransactionRow.transaction_id (row t ts) = as_bytes t) ->
  (forall t ts, Keeps (k t ts)) ->
  Keeps (t ← next_transaction_id; ts ← utc_now;
         _ ← execute_ (insert_transaction (row t ts)); k t ts).
Proof.
  intros Hrow Hk w r w'. unfold mbind, M_bind, next_transaction_id, utc_now, execute_, execute. cbn.
  destruct (fault _).
  { intros [= <- <-]. split; [cbn; lia|]. intros _ Ho. apply (ordered_tick w); [done | cbn; lia]. }
  destruct (insert_transaction _ (db w)) as [d|e] eqn:E; cbn.
  - intros E'. destruct (Hk _ _ _ _ _ E') as [Ht Ho]. cbn in Ht. split; [lia|]. intros Hlim Hw. apply Ho; [done|].
    eapply (ordered_insert w _ (tick w)); [done | done | lia | lia | apply Hrow | exact E].
  - intros [= <- <-]. split; [cbn; lia|]. intros _ Ho. apply (ordered_tick w); [done | cbn; lia].
Qed.

(** ** Statements *)

#[export] Instance txns_insert_table r : KeepsTxns_ (insert_table r).
Proof. by intros d d' (_ & _ & ->)%insert_table_ok. Qed.
#[export] Instance txns_insert_schema r : KeepsTxns_ (insert_schema r).
Proof. by intros d d' (_ & _ & _ & _ & ->)%insert_schema_ok. Qed.
#[export] Instance txns_insert_columns rs : KeepsTxns_ (insert_rows insert_column rs).
Proof. by intros d d' ->%insert_columns_ok. Qed.
#[export] Instance txns_insert_files rs : KeepsTxns_ (insert_rows insert_file rs).
Proof. by intros d d' ->%insert_files_ok. Qed.
#[export] Instance txns_head u s t p : KeepsTxns_ (update_table_head u s t p).
Proof. by intros d d' ->%update_table_head_ok. Qed.
#[export] Instance txns_valid_to t s : KeepsTxns_ (update_schema_valid_to t s).
Proof. by intros d d' [_ ->]%update_schema_valid_to_ok. Qed.
#[export] Instance txns_removed t u us : KeepsTxns_ (update_files_removed t u us).
Proof. by intros d d' [_ ->]%update_files_removed_ok. Qed.
#[export] Instance txns_delete ns n : KeepsTxns (delete_table ns n).
Proof. by intros d k d' (_ & _ & ->)%delete_table_ok. Qed.

End order.

(** ** Methods *)

Ltac keeps_case :=
  match goal with |- Keeps _ (match ?x with _ => _ end) => destruct x end.
Ltac keeps_go :=
  repeat first [apply _ | apply keeps_bind; [|intros ?] | keeps_case
               | apply keeps_for_each; intros ? | apply keeps_map_m; intros ?].

Section methods.
Context `{Env} (limit : nat) `{!MonotoneV7 limit}.
Notation Keeps := (Keeps limit).

#[export] Instance keeps_find fuel u eff cur visited : Keeps (find_in_history fuel u eff cur visited).
Proof. revert cur visited; induction fuel as [|fuel IH]; intros; cbn; keeps_go. Qed.
#[export] Instance keeps_collect fuel u from cur visited acc b :
  Keeps (collect_chain fuel u from cur visited acc b).
Proof. revert cur visited acc; induction fuel as [|fuel IH]; intros; cbn; keeps_go. Qed.
#[export] Instance keeps_fetch_table ident : Keeps (fetch_table ident).
Proof. unfold fetch_table. keeps_go. Qed.
#[export] Instance keeps_read_table client ident at_ : Keeps (read_table client ident at_).
Proof.
  unfold read_table, check_history, read_schema, fetch_columns, read_files, read_stats. keeps_go.
Qed.
#[export] Instance keeps_schema_change n u t : Keeps (schema_change_of n u t).
Proof. unfold schema_change_of, fetch_columns. keeps_go. Qed.
#[export] Instance keeps_events u counts ts : Keeps (events_of_txns u counts ts).
Proof. revert counts; induction ts as [|t ts IH]; intros; cbn; unfold event_of_txn; keeps_go. Qed.
#[export] Instance keeps_list_events ident cu : Keeps (list_transaction_events ident cu).
Proof. unfold list_transaction_events, check_to_inclusive. keeps_go. Qed.
#[export] Instance keeps_insert_columns kind s cs : Keeps (insert_columns kind s cs).
Proof. unfold insert_columns, column_row. keeps_go. Qed.
#[export] Instance keeps_append u t fs : Keeps (append_files u t fs).
Proof. unfold append_files, file_row. keeps_go. Qed.
#[export] Instance keeps_apply_op kind u t ts cur st op : Keeps (apply_op kind u t ts cur st op).
Proof. destruct op; cbn; unfold delete_files, update_schema; keeps_go. Qed.

#[export] Instance keeps_create kind client ident l s p : Keeps (create_table kind client ident l s p).
Proof.
  unfold create_table, create_body. apply keeps_bind; [apply _|intros _]. apply keeps_with_tx.
  repeat (first [apply (keeps_draw_insert limit); [done|] | apply keeps_bind; [apply _|] ]; intros ?). apply _.
Qed.

#[export] Instance keeps_commit kind client ident b m : Keeps (commit kind client ident b m).
Proof.
  unfold commit, commit_body. apply keeps_bind; [apply _|intros _]. apply keeps_with_tx.
  repeat (apply keeps_bind; [apply _|intros ?]). apply (keeps_draw_now_insert limit); [done|intros].
  keeps_go.
Qed.

Lemma keeps_run kind client c : Keeps (run (H := backend kind client) c).
Proof.
  destruct c, kind; cbn; unfold discard, drop_table, load_table, list_tables, current_transaction_id,
    diff_table, Sqlite.create_table, Postgres.create_table, Sqlite.commit, Postgres.commit; keeps_go.
Qed.

End methods.

Lemma ordered_when_reachable `{Env} limit `{!MonotoneV7 limit} kind n w :
  rtc (step kind) (mk_world empty_db n) w -> tick w <= limit -> ordered w.
Proof.
  intros Hr Hlim. assert (forall w0, rtc (step kind) w0 w -> tick w0 <= tick w /\
    (ordered w0 -> ordered w)) as Hgen.
  { clear n Hr. intros w0. induction 1 as [|w0 w1 w2 Hs _ IH]; [done|].
    destruct (IH Hlim) as [Ht Ho]. destruct Hs as [client c r Hrun|Ed Hle].
    - destruct (keeps_run limit kind client c _ _ _ Hrun) as [Ht' Ho']. split; [lia|].
      intros Hw. apply Ho, Ho'; [lia | done].
    - split; [lia|]. intros Hw. apply Ho. destruct (ordered_tick _ _ Hw Hle) as [A B].
      split; cbn in *; by rewrite Ed. }
  destruct (Hgen _ Hr) as [_ Ho]. apply Ho. split; constructor.
Qed.

Lemma sorted_when_reachable `{Env} limit `{!MonotoneV7 limit} kind n w :
  rtc (step kind) (mk_world empty_db n) w -> tick w <= limit -> sorted_ids (db w).
Proof.
  intros Hr Hlim. apply sorted_chains. by destruct (ordered_when_reachable limit kind n w Hr Hlim).
Qed.

(** As long as the generator's identifiers grow with time, the identifiers of
    every table of a reachable database grow along its chain, so that comparing
    identifiers is comparing positions in the history. *)
Theorem reachable_ids_sorted `{Env} limit `{!MonotoneV7 limit} kind n w :
  rtc (step kind) (mk_world empty_db n) w -> tick w <= limit -> sorted_ids (db w).
Proof. by apply sorted_when_reachable. Qed.

(** ** Witness *)

#[local] Existing Instances ref_env ref_ipc_laws ref_enumeration_laws.

(** The reference generator grows on the first hundred ticks. *)
Lemma ref_monotone : MonotoneV7 100.
Proof.
  intros m n Hm Hn. cbn [gen_v7]. unfold gen_v7. cbn.
  assert (forallb (fun n => forallb (fun m => blob_lt (as_bytes (v7 m)) (as_bytes (v7 n))) (seq 0 n))
    (seq 0 100) = true) as Hall by (vm_compute; reflexivity).
  rewrite forallb_forall in Hall. specialize (Hall n ltac:(apply in_seq; lia)).
  rewrite forallb_forall in Hall. apply Hall, in_seq. lia.
Qed.

Lemma reachable_ids_sorted_witness :
  rtc (step Limits.Sqlite) start world3 /\ tick world3 <= 100 /\ sorted_ids (db world3).
Proof.
  pose proof scenario_reachable as Hr.
  assert (tick world3 <= 100) as Ht by (apply Nat.leb_le; vm_compute; reflexivity).
  split; [exact Hr|]. split; [exact Ht|].
  exact (@reachable_ids_sorted ref_env 100 ref_monotone Limits.Sqlite 1 world3 Hr Ht).
Defined.

Lemma world3_sorted : sorted_ids (db world3).
Proof.
  apply (@sorted_when_reachable ref_env 100 ref_monotone Limits.Sqlite 1 world3 scenario_reachable).
  apply Nat.leb_le. vm_compute. reflexivity.
Qed.
