(* ===== verification/Views.v ===== *)
(** * Reading a table at a transaction

    What [read_table] returns: the walk along the parents decides exactly
    whether the transaction is in the table's history; when identifiers are
    sorted, the byte-wise range conditions select the files added and not yet
    removed along the chain up to that transaction, and exactly one schema; and
    later commits do not change what an earlier transaction shows. *)

From S2P Require Import Prelude Uuid Error Limits Json DataType Format Schema Models Db DbFacts World Helpers Catalog Api Effects ReadFacts Invariant RefEnv Scenario Safety Commit Order.
From stdpp Require Import relations sorting.

(** ** Sorted chains *)

Lemma sorted_lookup_lt (ids : list Blob) i j a b :
  StronglySorted (fun a b => blob_lt a b = true) ids ->
  ids !! i = Some a -> ids !! j = Some b -> i < j -> blob_lt a b = true.
Proof.
  intros HS. revert i j; induction HS as [|x l HS IH Hx]; intros [|i] [|j] Hi Hj Hl; cbn in *; try lia;
    try done.
  - simplify_eq. rewrite Forall_forall in Hx. apply Hx. by eapply list_elem_of_lookup_2.
  - by apply (IH i j); [..|lia].
Qed.

(** Comparing identifiers of a sorted chain is comparing positions. *)
Lemma sorted_precedes ids a t :
  StronglySorted (fun a b => blob_lt a b = true) ids -> a ∈ ids -> t ∈ ids ->
  blob_le a t = true <-> precedes ids a t.
Proof.
  intros HS (i & Hi)%list_elem_of_lookup (j & Hj)%list_elem_of_lookup. split.
  - intros Hle. exists i, j. split_and!; [done | done |]. destruct (decide (i <= j)) as [|Hn]; [done|].
    assert (blob_lt t a = true) as Hlt by (eapply sorted_lookup_lt; [exact HS | exact Hj | exact Hi | lia]).
    rewrite blob_lt_not_le, Hle in Hlt. done.
  - intros (i' & j' & Hi' & Hj' & Hl). destruct (decide (i' = j')) as [->|Hn].
    + rewrite Hi' in Hj'. injection Hj' as ->. apply blob_le_refl.
    + apply blob_lt_le. eapply sorted_lookup_lt; [exact HS | exact Hi' | exact Hj' | lia].
Qed.

Lemma and_iff_compat_l_weak (A B C : Prop) : (A -> B <-> C) -> A /\ B <-> A /\ C.
Proof. naive_solver. Qed.

(** ** What is visible *)

(** Added at or before [t] along the chain, and not removed by then. *)
Definition visible_at (ids : list Blob) (t : Blob) (r : FileRow.t) : Prop :=
  precedes ids (FileRow.added_in_transaction_id r) t /\
  forall x, FileRow.removed_in_transaction_id r = Some x -> ~ precedes ids x t.

Lemma files_at_visible `{ArrowIpc} d u t r :
  catalog_inv d -> sorted_ids d -> t ∈ chain d u ->
  r ∈ select_files_at u t d <->
  r ∈ files d /\ FileRow.table_uuid r = u /\ visible_at (chain d u) t r.
Proof.
  intros Hinv Hs Ht. unfold select_files_at. rewrite elem_of_filter'.
  rewrite andb_true_iff, beq_true. apply and_iff_compat_l_weak. intros Hr.
  apply and_iff_compat_l_weak. intros <-.
  pose proof (inv_files _ Hinv) as Hf. rewrite Forall_forall in Hf. destruct (Hf r Hr) as [Ha Hx].
  pose proof (Hs (FileRow.table_uuid r)) as HS.
  unfold valid_at, visible_at. rewrite andb_true_iff, (sorted_precedes _ _ _ HS Ha Ht).
  apply and_iff_compat_l. destruct (FileRow.removed_in_transaction_id r) as [x|]; [|naive_solver].
  assert (x ∈ chain d (FileRow.table_uuid r)) as Hxin
    by (destruct Hx as (i & j & _ & Hj & _); by eapply list_elem_of_lookup_2).
  rewrite blob_lt_not_le, negb_true_iff, <- not_true_iff_false, (sorted_precedes _ _ _ HS Hxin Ht).
  naive_solver.
Qed.

(** ** The schema in force *)

Definition schema_valid_at (t : Blob) (r : SchemaRow.t) : bool :=
  valid_at t (SchemaRow.valid_from_transaction_id r) (SchemaRow.valid_to_transaction_id r).

Lemma select_schemas_log d u t :
  select_schemas_at u t d = List.filter (schema_valid_at t) (schema_log d u).
Proof.
  unfold select_schemas_at, schema_log. induction (schemas d) as [|r l IH]; cbn; [done|].
  destruct (beq (SchemaRow.table_uuid r) u); cbn; [|done]. rewrite IH. done.
Qed.

Lemma schema_not_started t rows :
  Forall (fun r => blob_lt t (SchemaRow.valid_from_transaction_id r) = true) rows ->
  List.filter (schema_valid_at t) rows = [].
Proof.
  intros Hf. apply filter_all_false. rewrite Forall_forall in Hf. intros r Hr.
  unfold schema_valid_at, valid_at. rewrite blob_le_not_lt, (Hf r Hr). done.
Qed.

(** Of schemas that hand over to one another at increasing transactions,
    exactly one is valid at any transaction from the first one on: the last
    that started. *)
Lemma schema_chain_unique t rows r0 :
  schema_chain rows ->
  StronglySorted (fun a b => blob_lt a b = true) (SchemaRow.valid_from_transaction_id <$> rows) ->
  head rows = Some r0 -> blob_le (SchemaRow.valid_from_transaction_id r0) t = true ->
  exists s pre post, rows = pre ++ s :: post /\ List.filter (schema_valid_at t) rows = [s] /\
    blob_le (SchemaRow.valid_from_transaction_id s) t = true /\
    Forall (fun r => blob_lt t (SchemaRow.valid_from_transaction_id r) = true) post.
Proof.
  revert r0; induction rows as [|r rows IH]; intros r0 Hc HS Hh Hle; [done|].
  injection Hh as ->. cbn in Hc, HS. destruct Hc as [Hto Hc].
  apply StronglySorted_inv in HS as [HS Hr].
  assert (Hstop : Forall (fun r => blob_lt t (SchemaRow.valid_from_transaction_id r) = true) rows ->
    exists s pre post, r0 :: rows = pre ++ s :: post /\
      List.filter (schema_valid_at t) (r0 :: rows) = [s] /\
      blob_le (SchemaRow.valid_from_transaction_id s) t = true /\
      Forall (fun r => blob_lt t (SchemaRow.valid_from_transaction_id r) = true) post).
  { intros Hrest. exists r0, [], rows. split_and!; try done. cbn.
    rewrite (schema_not_started t rows Hrest).
    assert (schema_valid_at t r0 = true) as ->; [|done].
    unfold schema_valid_at, valid_at. rewrite Hle, Hto.
    destruct rows as [|r2 rows]; [done|]. cbn. by apply Forall_cons in Hrest as [-> _]. }
  destruct rows as [|r2 rows]; [apply Hstop; constructor|].
  destruct (blob_le (SchemaRow.valid_from_transaction_id r2) t) eqn:E2.
  - destruct (IH r2 Hc HS eq_refl E2) as (s & pre & post & Er & Ef & Hs & Hp).
    exists s, (r0 :: pre), post. split_and!; [by rewrite Er | | done | done].
    cbn [List.filter] in *. assert (schema_valid_at t r0 = false) as ->; [|done].
    unfold schema_valid_at, valid_at. rewrite Hto. cbn. rewrite blob_lt_not_le, E2. by rewrite andb_false_r.
  - apply Hstop. cbn in HS. apply StronglySorted_inv in HS as [_ Hr2].
    assert (blob_lt t (SchemaRow.valid_from_transaction_id r2) = true) as Hlt
      by by rewrite blob_lt_not_le, E2.
    constructor; [done|]. apply Forall_forall. intros x Hx. rewrite Forall_forall in Hr2.
    eapply blob_lt_trans; [exact Hlt|].
    apply Hr2. by apply list_elem_of_fmap_2.
Qed.

Lemma schema_at_unique `{ArrowIpc} d row t :
  catalog_inv d -> sorted_ids d -> row ∈ tables d -> t ∈ chain d (TableRow.table_uuid row) ->
  exists s pre post, schema_log d (TableRow.table_uuid row) = pre ++ s :: post /\
    select_schemas_at (TableRow.table_uuid row) t d = [s] /\
    blob_le (SchemaRow.valid_from_transaction_id s) t = true /\
    Forall (fun r => blob_lt t (SchemaRow.valid_from_transaction_id r) = true) post.
Proof.
  intros Hinv Hs Hrow Ht. rewrite select_schemas_log. pose proof (inv_schemas _ Hinv) as Hsch.
  rewrite Forall_forall in Hsch. destruct (Hsch row Hrow) as (Hc & Hne & _ & Hhead & Hsub).
  destruct (schema_log d (TableRow.table_uuid row)) as [|s0 log] eqn:El; [done|].
  pose proof (Hs (TableRow.table_uuid row)) as HS.
  eapply schema_chain_unique; [exact Hc | by eapply strongly_sorted_sublist | done |].
  cbn in Hhead. destruct (chain d (TableRow.table_uuid row)) as [|c0 ch] eqn:Ec; [done|].
  injection Hhead as ->. apply (sorted_precedes _ _ _ HS); [left | done |].
  apply list_elem_of_lookup in Ht as [j Hj]. exists 0, j. split_and!; [done | done | lia].
Qed.

(** ** The walk along the parents *)

Lemma linked_lookup prev rows i r :
  linked prev rows -> rows !! i = Some r ->
  TransactionRow.parent_transaction_id r =
    match i with O => prev | S j => (TransactionRow.transaction_id <$> rows) !! j end.
Proof.
  revert prev i; induction rows as [|x rows IH]; intros prev [|i] Hl Hi; cbn in *; try done.
  - by destruct Hl as [? _]; simplify_eq.
  - destruct Hl as [_ Hl]. rewrite (IH _ _ Hl Hi). by destruct i.
Qed.

Section walk.
Context `{Env} `{!EnumerationLaws} (d : Db) (Hlog : log_ok d) (Hnf : no_faults).
Context (row : TableRow.t) (u : Uuid) (Hrow : row ∈ tables d) (Hu : TableRow.table_uuid row = as_bytes u).

Notation ids := (chain d (as_bytes u)).

Lemma chain_nodup v : NoDup (chain d v).
Proof. apply filter_fmap_nodup, ok_txn_pk, (log_db _ Hlog). Qed.

(** The row of a transaction of the chain, and its parent. *)
Lemma chain_row i (t : Uuid) :
  ids !! i = Some (as_bytes t) ->
  exists r, select_transaction (as_bytes u) (as_bytes t) d = [r] /\
    exists p, uuid_from_row_optional (TransactionRow.parent_transaction_id r) = Ok p /\
      match i, p with
      | O, None => True
      | S j, Some q => ids !! j = Some (as_bytes q)
      | _, _ => False
      end.
Proof.
  intros Hi. unfold chain in Hi. rewrite list_lookup_fmap in Hi.
  destruct (history d (as_bytes u) !! i) as [r|] eqn:Er; [|done]. cbn in Hi. injection Hi as Hid.
  exists r. pose proof (list_elem_of_lookup_2 _ _ _ Er) as Hin.
  apply elem_of_filter' in Hin as [Hin Htu%bool_decide_eq_true_1]. split.
  - eapply (filter_unique TransactionRow.transaction_id); [apply ok_txn_pk, (log_db _ Hlog) | done | |].
    + by rewrite Htu, Hid, !beq_refl.
    + intros r' _ [_ E%bool_decide_eq_true_1]%andb_true_iff. congruence.
  - pose proof (log_history _ Hlog) as Hh. rewrite Forall_forall in Hh.
    destruct (Hh row Hrow) as (Hl & _ & _). rewrite Hu in Hl.
    pose proof (linked_lookup _ _ _ _ Hl Er) as Hp.
    pose proof (dec_txns _ (log_rows _ Hlog)) as Hd. rewrite Forall_forall in Hd.
    destruct i as [|j].
    + exists None. by rewrite Hp.
    + fold (chain d (as_bytes u)) in Hp. assert (exists q, ids !! j = Some (as_bytes q)) as [q Hq].
      { apply lookup_lt_Some in Er.
        destruct (lookup_lt_is_Some_2 (history d (as_bytes u)) j) as [rj Hrj]; [lia|].
        unfold chain. rewrite list_lookup_fmap, Hrj. cbn.
        apply list_elem_of_lookup_2, elem_of_filter' in Hrj as [Hrj _].
        destruct (Hd rj Hrj) as [Hlen _].
        destruct (from_slice (TransactionRow.transaction_id rj)) as [q|] eqn:Eq;
          [|by apply from_slice_none in Eq]. exists q. by apply from_slice_some in Eq as ->. }
      exists (Some q). split; [|done]. apply uuid_from_row_optional_ok. by rewrite Hp, Hq.
Qed.

Lemma wp_fetch_transaction i t r Φ w :
  db w = d -> ids !! i = Some (as_bytes t) ->
  select_transaction (as_bytes u) (as_bytes t) d = [r] ->
  Φ (Ok (Some r)) (bump w) ->
  wp (fetch_optional (select_transaction (as_bytes u) (as_bytes t))) Φ w.
Proof.
  intros Hd Hi Hr HΦ. apply wp_fetch_ok; [done|]. rewrite Hd.
  by rewrite (row_order_singleton _ r).
Qed.

(** The walk from position [i] of the chain finds exactly the transactions at
    or before it. *)
Lemma wp_find_in_history fuel i cur visited eff w :
  db w = d -> i < fuel -> ids !! i = Some (as_bytes cur) ->
  (forall v, v ∈ visited -> exists k, i < k /\ ids !! k = Some (as_bytes v)) ->
  wp (find_in_history fuel u eff cur visited)
    (fun r w' => db w' = d /\ exists b, r = Ok b /\
       (b = true <-> exists j, j <= i /\ ids !! j = Some (as_bytes eff))) w.
Proof.
  revert i cur visited w; induction fuel as [|fuel IH]; intros i cur visited w Hd Hf Hi Hv; [lia|].
  cbn [find_in_history]. rewrite bool_decide_false; last first.
  { intros Hin. destruct (Hv cur Hin) as (k & Hk & Hck).
    assert (i = k); [|lia]. eapply NoDup_lookup; [apply chain_nodup | exact Hi | exact Hck]. }
  case_bool_decide as E.
  { apply wp_ret. split; [done|]. exists true. split; [done|]. split; [|done].
    intros _. exists i. split; [lia | congruence]. }
  destruct (chain_row i cur Hi) as (r & Hr & p & Hp & Hlink).
  apply wp_bind, (wp_fetch_transaction i _ r); [done..|].
  apply wp_bind, wp_lift. cbn. apply wp_bind, wp_lift. rewrite Hp.
  destruct i as [|i], p as [p|]; try done.
  - apply wp_ret. split; [done|]. exists false. split; [done|]. split; [done|].
    intros (j & Hj & Hej). assert (j = 0) as -> by lia. rewrite Hi in Hej.
    by injection Hej as ->%(inj as_bytes).
  - eapply wp_mono; [apply (IH i p); [done | lia | done |]|].
    + intros v [->%elem_of_singleton|Hin]%elem_of_union; [exists (S i); split; [lia | done]|].
      destruct (Hv v Hin) as (k & Hk & Hvk). exists k. split; [lia | done].
    + intros r' w' (Hd' & b & -> & Hb). split; [done|]. exists b. split; [done|]. rewrite Hb. split.
      * intros (j & Hj & Hej). exists j. split; [lia | done].
      * intros (j & Hj & Hej). destruct (decide (j = S i)) as [->|]; [|exists j; split; [lia | done]].
        rewrite Hi in Hej. by injection Hej as ->%(inj as_bytes).
Qed.

(** The history check succeeds exactly on the transactions of the table. *)
Lemma wp_check_history eff cur w :
  db w = d -> last ids = Some (as_bytes cur) ->
  wp (check_history u eff cur)
    (fun r w' => db w' = d /\
       ((as_bytes eff ∈ ids /\ r = Ok tt) \/
        (as_bytes eff ∉ ids /\
         r = Err (InvalidArgument "requested transaction is not in table history")))) w.
Proof.
  intros Hd Hl. unfold check_history. rewrite last_lookup in Hl.
  pose proof (list_elem_of_lookup_2 _ _ _ Hl) as Hcin.
  case_bool_decide as E; [apply wp_ret; subst eff; auto|].
  apply wp_bind. unfold chain_fuel, wp at 1. rewrite Hd. apply wp_bind.
  assert (length ids <= length (transactions d)) as Hlen.
  { rewrite <- (length_fmap TransactionRow.transaction_id (transactions d)).
    apply sublist_length, chain_sublist. }
  pose proof (lookup_lt_Some _ _ _ Hl).
  eapply wp_mono; [apply (wp_find_in_history _ (Nat.pred (length ids)) cur ∅ eff w Hd); [lia | done |]|].
  { intros v Hv. set_solver. }
  intros r w' (Hd' & b & -> & Hb). apply wp_lift. split; [done|]. destruct b; cbn.
  - left. split; [|done]. destruct (proj1 Hb eq_refl) as (j & _ & Hj). by eapply list_elem_of_lookup_2.
  - right. split; [|done]. intros (j & Hj)%list_elem_of_lookup.
    assert (false = true) as Habs; [|done]. apply Hb. exists j. split; [|done].
    apply lookup_lt_Some in Hj. lia.
Qed.

End walk.

(** ** The columns of a schema, in order *)

Lemma strongly_sorted_fmap {A B} (R : A -> A -> Prop) (S : B -> B -> Prop) (f : A -> B) l :
  (forall a b, R a b -> S (f a) (f b)) -> StronglySorted R l -> StronglySorted S (f <$> l).
Proof.
  intros HRS. induction 1 as [|x l _ IH Hx]; cbn; constructor; [done|].
  apply Forall_fmap. eapply Forall_impl; [exact Hx|]. intros y. apply HRS.
Qed.

(** Two permutations of rows with distinct keys in the same key order. *)
Lemma perm_same_keys {A K} (f : A -> K) l k :
  l ≡ₚ k -> NoDup (f <$> k) -> f <$> l = f <$> k -> l = k.
Proof.
  revert k; induction l as [|x l IH]; intros k Hp Hn He.
  { by apply Permutation_nil_l in Hp. }
  destruct k as [|y k]; [done|]. cbn in *. injection He as Hxy He.
  apply NoDup_cons in Hn as [Hy Hn].
  assert (x ∈ y :: k) as [->|Hx]%elem_of_cons by (rewrite <- Hp; left).
  - f_equal. apply IH; [by apply Permutation_cons_inv in Hp | done | done].
  - exfalso. apply Hy. rewrite <- Hxy. by apply list_elem_of_fmap_2.
Qed.

Lemma numbered_ordinals rows :
  numbered rows -> length rows <= 1000 ->
  ColumnRow.ordinal_position <$> rows = Z.of_nat <$> seq 1 (length rows).
Proof.
  unfold numbered. intros -> Hl. apply list_fmap_ext. intros i x Hx.
  apply lookup_seq in Hx as [-> Hi]. apply wrap_i32_id. unfold i32_min, i32_max. lia.
Qed.

Lemma sorted_seq k n : StronglySorted Z.le (Z.of_nat <$> seq k n).
Proof.
  revert k; induction n as [|n IH]; intros k; cbn; constructor; [apply IH|].
  apply Forall_fmap, Forall_forall. intros x Hx%elem_of_seq. cbn. lia.
Qed.

#[export] Instance by_ordinal_total : Total by_ordinal.
Proof. intros a b. unfold by_ordinal. lia. Qed.
#[export] Instance by_ordinal_trans : Transitive by_ordinal.
Proof. intros a b c. unfold by_ordinal. lia. Qed.

(** ORDER BY ordinal_position gives the columns back in order of insertion,
    whatever the engine's own order. *)
Lemma sort_numbered rows rows' :
  numbered rows -> length rows <= 1000 -> rows' ≡ₚ rows -> merge_sort by_ordinal rows' = rows.
Proof.
  intros Hnum Hl Hp. pose proof (numbered_ordinals rows Hnum Hl) as Ho.
  assert (merge_sort by_ordinal rows' ≡ₚ rows) as Hms by (by rewrite merge_sort_Permutation).
  apply (perm_same_keys ColumnRow.ordinal_position); [done | |].
  - rewrite Ho. apply NoDup_fmap_2; [intros ? ? ?; lia | apply NoDup_seq].
  - apply (StronglySorted_unique Z.le); [| |by rewrite Hms].
    + eapply strongly_sorted_fmap; [|apply (StronglySorted_merge_sort by_ordinal)]. done.
    + rewrite Ho. apply sorted_seq.
Qed.

Lemma chain_head `{ArrowIpc} d (Hlog : log_ok d) row u :
  row ∈ tables d -> TableRow.table_uuid row = as_bytes u ->
  exists cur, TableRow.current_transaction_id row = Some (as_bytes cur) /\
    last (chain d (as_bytes u)) = Some (as_bytes cur).
Proof.
  intros Hrow Hu. pose proof (log_history _ Hlog) as Hh. rewrite Forall_forall in Hh.
  destruct (Hh row Hrow) as (_ & Hne & Hlast). rewrite Hu in *.
  pose proof (dec_tables _ (log_rows _ Hlog)) as Hd. rewrite Forall_forall in Hd.
  destruct (Hd row Hrow) as (_ & _ & Hd3).
  destruct (TableRow.current_transaction_id row) as [b|] eqn:Eb.
  - cbn in Hd3. destruct (from_slice b) as [c|] eqn:Ec; [|by apply from_slice_none in Ec].
    apply from_slice_some in Ec as ->. by exists c.
  - exfalso. apply last_None in Hlast. unfold chain in Hlast. by apply fmap_nil_inv in Hlast.
Qed.

(** Identifiers that decode. *)
Lemma uuid_decodes b : is_uuid b -> exists u, from_slice b = Some u /\ b = as_bytes u.
Proof.
  intros Hb. destruct (from_slice b) as [u|] eqn:E; [|by apply from_slice_none in E].
  exists u. split; [done|]. by apply from_slice_some in E.
Qed.

(** The rows of tables decode. *)
Lemma table_uuid_decodes `{ArrowIpc} d row :
  catalog_inv d -> row ∈ tables d -> exists u, TableRow.table_uuid row = as_bytes u.
Proof.
  intros Hinv Hrow.
  destruct (proj1 (Forall_forall _ _) (dec_tables _ (inv_rows _ Hinv)) row Hrow) as [(u & _ & Hu)%uuid_decodes _].
  by exists u.
Qed.

(** ** The parts of a view *)

Section schemas.
Context `{Env} `{!EnumerationLaws} (d : Db) (Hlog : log_ok d) (Hnf : no_faults).

Lemma uuid_row_decodes b : is_uuid b -> exists u, uuid_from_row b = Ok u /\ b = as_bytes u.
Proof. intros (u & _ & ->)%uuid_decodes. exists u. split; [by apply uuid_from_row_ok | done]. Qed.

Lemma opt_row_decodes o :
  opt_uuid o -> exists p, uuid_from_row_optional o = Ok p /\ o = as_bytes <$> p.
Proof.
  destruct o as [b|]; [|by exists None]. intros (u & _ & ->)%uuid_decodes.
  exists (Some u). split; [by apply uuid_from_row_optional_ok | done].
Qed.

Lemma columns_decode_total s :
  types_decode d s -> exists cols, traverse column_of_row (select_columns s d) = Ok cols.
Proof.
  intros Htypes. apply traverse_total. intros r Hin. pose proof Hin as [Hr _]%elem_of_filter'.
  pose proof (dec_columns _ (log_rows _ Hlog)) as Hd. rewrite Forall_forall in Hd.
  destruct (Hd r Hr) as (H1 & H2 & _). destruct (proj1 (Forall_forall _ _) Htypes r Hin) as (t & Ht). unfold column_of_row. rewrite Ht. cbn.
  destruct (uuid_row_decodes _ H1) as (u1 & -> & _). cbn.
  destruct (uuid_row_decodes _ H2) as (u2 & -> & _). cbn. eauto.
Qed.

(** The columns of a schema, in order, or the error when there are too many. *)
Lemma wp_fetch_columns what (s : Uuid) w Φ cols :
  db w = d -> numbered (select_columns (as_bytes s) d) ->
  traverse column_of_row (select_columns (as_bytes s) d) = Ok cols ->
  Φ (if (limits.MAX_COLUMNS_PER_SCHEMA <? N.of_nat (length (select_columns (as_bytes s) d)))%N
     then Err (LimitExceeded (what +:+ " exceeds limit of " +:+ pretty limits.MAX_COLUMNS_PER_SCHEMA))
     else Ok cols) (bump w) ->
  wp (fetch_columns what s) Φ w.
Proof.
  intros Hd Hnum Hcols HΦ. unfold fetch_columns. apply wp_bind, wp_fetch_ok; [done|]. rewrite Hd.
  pose proof (row_order_perm _ (select_columns (as_bytes s) d)) as Hp. pose proof (Permutation_length Hp) as Hlen.
  set (rows := select_columns (as_bytes s) d) in *. unfold limits.MAX_COLUMNS_PER_SCHEMA in HΦ |- *.
  apply wp_bind, wp_lift. destruct (N.ltb_spec 1000 (N.of_nat (length rows))) as [Hl|Hl].
  - rewrite (proj2 (N.ltb_lt _ _)); [done|]. rewrite length_take, merge_sort_Permutation, Hlen. lia.
  - rewrite (sort_numbered rows) by (done || lia). rewrite take_ge by lia.
    rewrite (proj2 (N.ltb_ge _ _)) by lia. apply wp_lift. by rewrite Hcols.
Qed.

Definition too_many_read_columns : CatalogError :=
  LimitExceeded ("column count" +:+ " exceeds limit of " +:+ pretty limits.MAX_COLUMNS_PER_SCHEMA).

(** The schema a read returns for the schema row [s]. *)
Definition schema_view (s : SchemaRow.t) (v : Schema.t) : Prop :=
  SchemaRow.schema_uuid s = as_bytes (Schema.schema_uuid v) /\
  SchemaRow.table_uuid s = as_bytes (Schema.table_uuid v) /\
  Schema.schema_version v = SchemaRow.schema_version s /\
  SchemaRow.valid_from_transaction_id s = as_bytes (Schema.valid_from_transaction_id v) /\
  SchemaRow.valid_to_transaction_id s = as_bytes <$> Schema.valid_to_transaction_id v /\
  Schema.created_at v = SchemaRow.created_at s /\
  traverse column_of_row (select_columns (SchemaRow.schema_uuid s) d) = Ok (Schema.columns v).

(** Its own identifiers decode. *)
Lemma schema_row_total s : s ∈ schemas d ->
  exists su, uuid_from_row (SchemaRow.schema_uuid s) = Ok su /\ SchemaRow.schema_uuid s = as_bytes su /\
    forall cols, exists v, schema_of_row s su cols = Ok v /\
      (traverse column_of_row (select_columns (as_bytes su) d) = Ok cols -> schema_view s v).
Proof.
  intros Hs. pose proof (dec_schemas _ (log_rows _ Hlog)) as Hd. rewrite Forall_forall in Hd.
  destruct (Hd s Hs) as (H1 & H2 & H3 & H4).
  destruct (uuid_row_decodes _ H1) as (su & E1 & F1). destruct (uuid_row_decodes _ H2) as (tu & E2 & F2).
  destruct (uuid_row_decodes _ H3) as (vf & E3 & F3). destruct (opt_row_decodes _ H4) as (vt & E4 & F4).
  exists su. split_and!; [done | done |]. intros cols.
  exists (Schema.mk su tu (SchemaRow.schema_version s) vf vt (SchemaRow.created_at s) cols). split.
  - unfold schema_of_row. by rewrite E2, E3, E4.
  - intros Hcols. unfold schema_view. cbn. rewrite F1. done.
Qed.

Lemma schema_row_view s : s ∈ schemas d -> types_decode d (SchemaRow.schema_uuid s) ->
  exists su cols v, uuid_from_row (SchemaRow.schema_uuid s) = Ok su /\
    SchemaRow.schema_uuid s = as_bytes su /\
    traverse column_of_row (select_columns (as_bytes su) d) = Ok cols /\
    schema_of_row s su cols = Ok v /\ schema_view s v.
Proof.
  intros Hs Htypes. destruct (schema_row_total s Hs) as (su & E & F & Hv). rewrite F in Htypes.
  destruct (columns_decode_total (as_bytes su) Htypes) as (cols & Hcols). destruct (Hv cols) as (v & Ev & Hview).
  exists su, cols, v. split_and!; [done.. | by apply Hview].
Qed.

End schemas.

Section view.
Context `{Env} `{!EnumerationLaws} (d : Db) (Hinv : catalog_inv d) (Hnf : no_faults).

Lemma wp_read_schema ident u eff s w Φ :
  db w = d -> select_schemas_at (as_bytes u) (as_bytes eff) d = [s] ->
  types_decode d (SchemaRow.schema_uuid s) ->
  (forall v n, length (select_columns (SchemaRow.schema_uuid s) d) <= 1000 -> schema_view d s v ->
     Φ (Ok v) (mk_world d n)) ->
  (forall n, 1000 < length (select_columns (SchemaRow.schema_uuid s) d) ->
     Φ (Err too_many_read_columns) (mk_world d n)) ->
  wp (read_schema ident u eff) Φ w.
Proof.
  intros Hd Hsel Htypes HΦ Hover.
  assert (s ∈ schemas d) as Hs.
  { assert (s ∈ select_schemas_at (as_bytes u) (as_bytes eff) d) as Hin by (rewrite Hsel; left).
    by apply elem_of_filter' in Hin as [? _]. }
  destruct (schema_row_view d Hinv s Hs Htypes) as (su & cols & v & E1 & F1 & Hcols & Hv & Hview).
  unfold read_schema. apply wp_bind, wp_fetch_ok; [done|]. cbn beta. rewrite Hd.
  rewrite (row_order_singleton _ s) by (rewrite (row_order_singleton _ s) by done; done).
  apply wp_bind, wp_lift. cbn. apply wp_bind, wp_lift. rewrite E1.
  pose proof (inv_columns _ Hinv) as Hc. rewrite Forall_forall in Hc. destruct (Hc s Hs) as [_ Hnum].
  rewrite F1 in *. apply wp_bind.
  eapply (wp_fetch_columns d Hnf _ _ _ _ cols); [done.. |]. unfold bump. cbn [db tick]. rewrite Hd.
  destruct (N.ltb_spec limits.MAX_COLUMNS_PER_SCHEMA (N.of_nat (length (select_columns (as_bytes su) d)))) as [Hl|Hl];
    unfold limits.MAX_COLUMNS_PER_SCHEMA in Hl.
  - apply Hover. lia.
  - apply wp_lift. rewrite Hv. apply HΦ; [lia | done].
Qed.

Lemma wp_read_files u eff rows w Φ fs :
  db w = d -> select_files_at (as_bytes u) (as_bytes eff) d = rows ->
  (N.of_nat (length rows) <= limits.MAX_FILES_PER_QUERY)%N ->
  traverse file_of_row rows = Ok fs ->
  (forall fs', fs' ≡ₚ fs -> Φ (Ok fs') (bump w)) ->
  wp (read_files u eff) Φ w.
Proof.
  intros Hd Hsel Hl Hfs HΦ. unfold read_files. apply wp_bind, wp_fetch_ok; [done|].
  rewrite Hd, Hsel. rewrite take_ge by (rewrite row_order_perm; lia).
  apply wp_bind, wp_lift. rewrite (proj2 (N.ltb_ge _ _)) by by rewrite row_order_perm.
  apply wp_lift. destruct (traverse_perm file_of_row rows (row_order rows) fs) as (fs' & -> & Hp);
    [by rewrite row_order_perm | done |]. by apply HΦ.
Qed.

Lemma wp_read_stats u eff w Φ : db w = d -> Φ (Ok None) (bump w) -> wp (read_stats u eff) Φ w.
Proof.
  intros Hd HΦ. unfold read_stats. apply wp_bind, wp_fetch_ok; [done|]. rewrite Hd.
  assert (select_stats (as_bytes u) (as_bytes eff) d = []) as ->
    by (unfold select_stats; by rewrite (inv_stats _ Hinv)).
  assert (row_order (A := StatsRow.t) [] = []) as ->
    by (apply Permutation_nil_r; apply row_order_perm).
  by apply wp_ret.
Qed.

End view.

(** ** Earlier transactions after a commit *)

Lemma grows_select {R B} (K : R -> R -> Prop) (P : R -> Prop) (p : R -> bool) (f : R -> B) l l' :
  grows K P l l' -> (forall r r', K r r' -> p r' = p r /\ (p r = true -> f r' = f r)) ->
  (forall r, P r -> p r = false) -> f <$> List.filter p l' = f <$> List.filter p l.
Proof.
  intros (kept & new & -> & HK & HP) HKp HPp. rewrite List.filter_app, fmap_app.
  rewrite (filter_all_false p new); [|rewrite Forall_forall in HP; auto]. rewrite app_nil_r.
  induction HK as [|r r' l kept Hr _ IH]; cbn; [done|].
  destruct (HKp r r' Hr) as [-> Hf]. destruct (p r); cbn; [|done]. by rewrite Hf, IH.
Qed.

(** Being removed or closed later does not matter earlier. *)
Lemma valid_at_later t t' from :
  blob_lt t t' = true -> valid_at t from (Some t') = valid_at t from None.
Proof. unfold valid_at. by intros ->. Qed.

Lemma extends_files_at {B} (f : FileRow.t -> B) u t' d d' v t :
  (forall x r, f (set_removed x r) = f r) -> extends u t' d d' -> (v = u -> blob_lt t t' = true) ->
  f <$> select_files_at v t d' = f <$> select_files_at v t d.
Proof.
  intros Hf Hx Hlt. eapply grows_select; [apply (ext_files _ _ _ _ Hx) | |].
  - intros r r' [->|(Hu & Hr & ->)]; [done|]. rewrite Hf. cbn.
    case_bool_decide; [|done]. cbn. by rewrite Hr, valid_at_later by (apply Hlt; congruence).
  - intros r [Hu ->]. case_bool_decide; [|done]. unfold valid_at.
    by rewrite blob_le_not_lt, Hlt by congruence.
Qed.

Lemma extends_schemas_at {B} (f : SchemaRow.t -> B) u t' d d' v t :
  (forall x r, f (close_schema x r) = f r) -> extends u t' d d' -> (v = u -> blob_lt t t' = true) ->
  f <$> select_schemas_at v t d' = f <$> select_schemas_at v t d.
Proof.
  intros Hf Hx Hlt. eapply grows_select; [apply (ext_schemas _ _ _ _ Hx) | |].
  - intros r r' [->|(Hu & Hr & ->)]; [done|]. rewrite Hf. cbn.
    case_bool_decide; [|done]. cbn. by rewrite Hr, valid_at_later by (apply Hlt; congruence).
  - intros r [Hu ->]. case_bool_decide; [|done]. unfold valid_at.
    by rewrite blob_le_not_lt, Hlt by congruence.
Qed.

Lemma extends_columns u t' d d' s :
  extends u t' d d' -> s ∈ schema_keys d -> select_columns s d' = select_columns s d.
Proof.
  intros Hx Hs. rewrite <- (list_fmap_id (select_columns s d')), <- (list_fmap_id (select_columns s d)).
  eapply (grows_select eq _ _ id); [apply (ext_columns _ _ _ _ Hx) | by intros r r' -> |].
  intros r Hr. apply beq_false. by intros <-.
Qed.

Lemma sorted_snoc_lt (ids : list Blob) t x :
  StronglySorted (fun a b => blob_lt a b = true) (ids ++ [x]) -> t ∈ ids -> blob_lt t x = true.
Proof.
  intros HS (i & Hi)%list_elem_of_lookup. eapply (sorted_lookup_lt _ i (length ids)); [exact HS | | |].
  - rewrite lookup_app_l; [done|]. by eapply lookup_lt_Some.
  - by rewrite lookup_app_r, Nat.sub_diag by lia.
  - by eapply lookup_lt_Some.
Qed.

Lemma chain_in_keys d u t : t ∈ chain d u -> t ∈ txn_keys d.
Proof. apply sublist_subseteq, chain_sublist. Qed.

Lemma commit_facts_keys `{Env} ident base t mutation d d' :
  commit_facts ident base t mutation d d' -> txn_keys d' = txn_keys d ++ [as_bytes t].
Proof.
  intros [row u ts cur props st text d1 d2 _ _ _ _ _ _ _ _ -> _ _ _ ->]. cbn. by rewrite fmap_app.
Qed.

(** The chain of the written table grows by the new transaction. *)
Lemma commit_facts_chain `{Env} ident base t mutation d d' row :
  catalog_inv d -> commit_facts ident base t mutation d d' -> table_row_of d ident = Some row ->
  chain d' (TableRow.table_uuid row) = chain d (TableRow.table_uuid row) ++ [as_bytes t].
Proof.
  intros Hinv [row' u ts cur props st text d1 d2 Hr Hns Hnm Hu _ _ _ _ -> _ _ _ ->] Hrow.
  assert (row' = row) as ->.
  { assert (table_row_of d ident = Some row'); [|congruence].
    apply table_row_of_in; [apply Hinv | by apply select_table_in]. }
  unfold chain, history. cbn. rewrite (history_snoc _ (as_bytes u)) by done. by rewrite Hu, beq_refl, fmap_app.
Qed.

(** What the transactions of a table see of a commit. *)
Lemma commit_after `{Env} ident base t mutation d d' u row v x :
  catalog_inv d -> sorted_ids d' -> commit_facts ident base t mutation d d' -> table_row_of d ident = Some row ->
  TableRow.table_uuid row = u -> x ∈ chain d v -> v = u -> blob_lt x (as_bytes t) = true.
Proof.
  intros Hinv Hs Hc Hrow <- Hx ->. specialize (Hs (TableRow.table_uuid row)).
  rewrite (commit_facts_chain _ _ _ _ _ _ _ Hinv Hc Hrow) in Hs. by eapply sorted_snoc_lt.
Qed.

(** ** The whole read *)

Section read.
Context `{Env} `{!EnumerationLaws} (client : ProtocolVersions.t) (ident : TableIdent.t) (w : World).
Context (row : TableRow.t) (u eff : Uuid) (at_ : option TxnId) (props : TableProperties.t).
Context (fs : list File.t) (s : SchemaRow.t).
Context (Hinv : catalog_inv (db w)) (Hnf : no_faults) (Hrow : table_row_of (db w) ident = Some row).
Context (Hu : TableRow.table_uuid row = as_bytes u).
Context (Hproto : (TableRow.min_reader_version row <= ProtocolVersions.reader client)%Z).
Context (Hprops : parse_table_properties (TableRow.properties row) = Ok props).
Context (Hin : as_bytes eff ∈ chain (db w) (as_bytes u)).
Context (Hat : at_ = Some eff \/ (at_ = None /\ TableRow.current_transaction_id row = Some (as_bytes eff))).

(** The row, its checks and the history come first. *)
Lemma wp_read_checked Φ :
  (forall w', db w' = db w -> wp (
     schema ← read_schema ident u eff;
     files ← read_files u eff;
     stats ← read_stats u eff;
     mret (TableView.mk ident u eff schema files props stats)) Φ w') ->
  wp (read_table client ident at_) Φ w.
Proof.
  intros HΦ. pose proof (inv_db _ Hinv) as Hok. pose proof Hrow as (Hrt & _)%table_row_of_some.
  pose proof (dec_tables _ (inv_rows _ Hinv)) as Hd. rewrite Forall_forall in Hd.
  destruct (Hd row Hrt) as (_ & Hd2 & _). destruct (opt_row_decodes _ Hd2) as (os & Eos & _).
  destruct (chain_head (db w) Hinv row u Hrt Hu) as (cur & Hcur & Hlast).
  assert (default cur at_ = eff) as Heff.
  { destruct Hat as [->|[-> Hc]]; [done|]. rewrite Hcur in Hc. by injection Hc as ->%(inj as_bytes). }
  unfold read_table. apply wp_bind, (wp_fetch_table_ok _ row); [done..|].
  apply wp_bind, wp_lift. rewrite Hu, (proj2 (uuid_from_row_ok _ u) eq_refl).
  apply wp_bind, wp_lift. rewrite Eos. apply wp_bind, wp_lift.
  rewrite Hcur, (proj2 (uuid_from_row_optional_ok _ (Some cur)) eq_refl).
  apply wp_bind, wp_lift. rewrite Hprops. apply wp_bind, wp_lift.
  unfold ensure_reader_protocol_compatible. rewrite (proj2 (Z.ltb_ge _ _)) by done.
  apply wp_bind, wp_lift. cbn. rewrite Heff. apply wp_bind.
  eapply wp_mono; [by eapply (wp_check_history (db w) Hinv Hnf row u Hrt Hu eff cur)|].
  intros r w1 (Hd1 & [[_ ->]|[Hnin _]]); [by apply HΦ | done].
Qed.

Context (Hsel : select_schemas_at (as_bytes u) (as_bytes eff) (db w) = [s]).
Context (Htypes : types_decode (db w) (SchemaRow.schema_uuid s)).

(** A read that succeeds, given the schema row it selects. *)
Lemma read_table_ok :
  length (select_columns (SchemaRow.schema_uuid s) (db w)) <= 1000 ->
  (N.of_nat (length (select_files_at (as_bytes u) (as_bytes eff) (db w)))
     <= limits.MAX_FILES_PER_QUERY)%N ->
  traverse file_of_row (select_files_at (as_bytes u) (as_bytes eff) (db w)) = Ok fs ->
  exists view w', read_table client ident at_ w = Some (Ok view, w') /\ db w' = db w /\
    TableView.ident view = ident /\ TableView.table_uuid view = u /\
    TableView.transaction_id view = eff /\ TableView.properties view = props /\
    TableView.stats view = None /\ TableView.files view ≡ₚ fs /\
    schema_view (db w) s (TableView.schema view).
Proof.
  intros Hcols Hlim Hfs. apply wp_ok_run, wp_read_checked. intros w1 Hd1.
  apply wp_bind, (wp_read_schema (db w) Hinv Hnf _ _ _ s); [done | done | done | | lia]. intros v n _ Hv.
  apply wp_bind. eapply (wp_read_files (db w) Hnf); [done | reflexivity | exact Hlim | exact Hfs |].
  intros fs' Hfs'. apply wp_bind, (wp_read_stats (db w) Hinv Hnf); [done|]. apply wp_ret. by split_and!.
Qed.

(** A schema with too many columns. *)
Lemma read_table_too_wide :
  1000 < length (select_columns (SchemaRow.schema_uuid s) (db w)) ->
  exists w', read_table client ident at_ w = Some (Err too_many_read_columns, w') /\ db w' = db w.
Proof.
  intros Hcols. apply wp_err_run, wp_read_checked. intros w1 Hd1.
  apply wp_bind, (wp_read_schema (db w) Hinv Hnf _ _ _ s); [done | done | done | lia | done].
Qed.

End read.

(** ** Theorems *)

(** C8: the visibility of files follows the history and not the clock: when
    identifiers are sorted, the byte-wise range condition of [read_table]
    selects, at any transaction of a table, exactly the table's files that a
    transaction at or before it in the parent chain added and none removed. *)
Theorem files_at_ancestry `{ArrowIpc} d u t r :
  catalog_inv d -> sorted_ids d -> t ∈ chain d u ->
  r ∈ select_files_at u t d <->
  r ∈ files d /\ FileRow.table_uuid r = u /\
  precedes (chain d u) (FileRow.added_in_transaction_id r) t /\
  (forall x, FileRow.removed_in_transaction_id r = Some x -> ~ precedes (chain d u) x t).
Proof. apply files_at_visible. Qed.

(** C31: at every transaction of a table exactly one of its schemas is valid,
    the last one that had started by then. *)
Theorem one_schema_at_each_transaction `{ArrowIpc} d row t :
  catalog_inv d -> sorted_ids d -> row ∈ tables d -> t ∈ chain d (TableRow.table_uuid row) ->
  exists s pre post, schema_log d (TableRow.table_uuid row) = pre ++ s :: post /\
    select_schemas_at (TableRow.table_uuid row) t d = [s] /\
    blob_le (SchemaRow.valid_from_transaction_id s) t = true /\
    Forall (fun r => blob_lt t (SchemaRow.valid_from_transaction_id r) = true) post.
Proof. apply schema_at_unique. Qed.

(** C9: a read at any transaction of the table's history succeeds, when the
    engine does not fail, the client's protocol version is high enough, the
    stored JSON and the encoded column types decode and the limits are
    respected, and returns the view of that transaction: the files visible at it, in some order, the one schema
    valid at it with its columns in their order, the properties of the table
    row, and no statistics. *)
Theorem read_table_view `{Env} `{!EnumerationLaws} client ident w row u eff at_ props fs :
  catalog_inv (db w) -> sorted_ids (db w) -> no_faults ->
  table_row_of (db w) ident = Some row -> TableRow.table_uuid row = as_bytes u ->
  (TableRow.min_reader_version row <= ProtocolVersions.reader client)%Z ->
  parse_table_properties (TableRow.properties row) = Ok props ->
  as_bytes eff ∈ chain (db w) (as_bytes u) ->
  at_ = Some eff \/ (at_ = None /\ TableRow.current_transaction_id row = Some (as_bytes eff)) ->
  (forall s, s ∈ select_schemas_at (as_bytes u) (as_bytes eff) (db w) ->
     length (select_columns (SchemaRow.schema_uuid s) (db w)) <= 1000 /\
     types_decode (db w) (SchemaRow.schema_uuid s)) ->
  (N.of_nat (length (select_files_at (as_bytes u) (as_bytes eff) (db w)))
     <= limits.MAX_FILES_PER_QUERY)%N ->
  traverse file_of_row (select_files_at (as_bytes u) (as_bytes eff) (db w)) = Ok fs ->
  exists view w', read_table client ident at_ w = Some (Ok view, w') /\ db w' = db w /\
    TableView.ident view = ident /\ TableView.table_uuid view = u /\
    TableView.transaction_id view = eff /\ TableView.properties view = props /\
    TableView.stats view = None /\ TableView.files view ≡ₚ fs /\
    exists s, select_schemas_at (as_bytes u) (as_bytes eff) (db w) = [s] /\
      schema_view (db w) s (TableView.schema view).
Proof.
  intros Hinv Hs Hnf Hrow Hu Hproto Hprops Hin Hat Hcols Hlim Hfs.
  pose proof Hrow as (Hrt & _)%table_row_of_some.
  destruct (schema_at_unique (db w) row (as_bytes eff) Hinv Hs Hrt) as (s & _ & _ & _ & Hsel & _);
    [by rewrite Hu|]. rewrite Hu in Hsel.
  destruct (read_table_ok client ident w row u eff at_ props fs s) as (view & w' & E & Hrest);
    [done.. | | | done | done |]; [apply Hcols; rewrite Hsel; left.. |].
  exists view, w'. split; [done|]. destruct Hrest as (? & ? & ? & ? & ? & ? & ? & ?).
  split_and!; try done. by exists s.
Qed.

(** A read at a transaction that is not in the table's history is refused,
    with that error when nothing else fails first. *)
Theorem read_table_unknown_transaction `{Env} `{!EnumerationLaws} client ident w row u eff props :
  catalog_inv (db w) -> no_faults ->
  table_row_of (db w) ident = Some row -> TableRow.table_uuid row = as_bytes u ->
  (TableRow.min_reader_version row <= ProtocolVersions.reader client)%Z ->
  parse_table_properties (TableRow.properties row) = Ok props ->
  as_bytes eff ∉ chain (db w) (as_bytes u) ->
  exists w', read_table client ident (Some eff) w
    = Some (Err (InvalidArgument "requested transaction is not in table history"), w').
Proof.
  intros Hinv Hnf Hrow Hu Hproto Hprops Hin.
  pose proof (inv_db _ Hinv) as Hok. pose proof Hrow as (Hrt & _)%table_row_of_some.
  pose proof (dec_tables _ (inv_rows _ Hinv)) as Hd. rewrite Forall_forall in Hd.
  destruct (Hd row Hrt) as (_ & Hd2 & Hd3).
  destruct (opt_row_decodes _ Hd2) as (os & Eos & _). destruct (opt_row_decodes _ Hd3) as (oc & Eoc & Foc).
  destruct (chain_head (db w) Hinv row u Hrt Hu) as (cur & Hcur & Hlast).
  rewrite Hcur in Foc. destruct oc as [oc|]; [|done]. injection Foc as <-%(inj as_bytes).
  enough (wp (read_table client ident (Some eff)) (fun r _ =>
    r = Err (InvalidArgument "requested transaction is not in table history")) w) as Hw.
  { apply wp_run in Hw as (r & w' & E & ->). eauto. }
  unfold read_table. apply wp_bind, (wp_fetch_table_ok _ row); [done..|].
  apply wp_bind, wp_lift. rewrite Hu, (proj2 (uuid_from_row_ok _ u) eq_refl).
  apply wp_bind, wp_lift. rewrite Eos. apply wp_bind, wp_lift. rewrite Eoc.
  apply wp_bind, wp_lift. rewrite Hprops. apply wp_bind, wp_lift.
  unfold ensure_reader_protocol_compatible. rewrite (proj2 (Z.ltb_ge _ _)) by done.
  apply wp_bind, wp_lift. cbn. apply wp_bind.
  eapply wp_mono; [by eapply (wp_check_history (db w) Hinv Hnf row u Hrt Hu eff cur)|].
  intros r w1 (_ & [[Hc _]|[_ ->]]); [by destruct (Hin Hc) | done].
Qed.

(** C10: the past is stable: when identifiers grow, a commit changes neither the
    files nor the schema, nor the schema's columns, that a read at any earlier
    transaction of any table selects. *)
Theorem time_travel_stable `{Env} `{!EnumerationLaws} kind client ident base mutation w res w' v t :
  catalog_inv (db w) -> sorted_ids (db w') ->
  commit kind client ident base mutation w = Some (Ok res, w') ->
  t ∈ chain (db w) v ->
  FileRow.file_uuid <$> select_files_at v t (db w')
    = FileRow.file_uuid <$> select_files_at v t (db w) /\
  SchemaRow.schema_uuid <$> select_schemas_at v t (db w')
    = SchemaRow.schema_uuid <$> select_schemas_at v t (db w) /\
  (forall s, s ∈ schema_keys (db w) -> select_columns s (db w') = select_columns s (db w)).
Proof.
  intros Hinv Hs E Ht. destruct (commit_ok_inv _ _ _ _ _ _ _ _ (inv_db _ Hinv) E) as (_ & Hc & _).
  apply commit_effect_facts in Hc.
  destruct (commit_extends _ _ _ _ _ _ Hinv Hc) as (u & row & Hrow & Hu & Hx & _).
  pose proof (commit_after _ _ _ _ _ _ _ _ _ _ Hinv Hs Hc Hrow Hu Ht) as Hlt.
  split_and!; [by eapply extends_files_at | by eapply extends_schemas_at |].
  intros s. by apply (extends_columns _ _ _ _ _ Hx).
Qed.

(** ** Witnesses *)

#[local] Existing Instances ref_env ref_ipc_laws ref_enumeration_laws.

Lemma world3_chain :
  chain (db world3) (as_bytes events_uuid) = [as_bytes txn1; as_bytes txn2; as_bytes txn3].
Proof. vm_compute. reflexivity. Qed.

Lemma txn2_in_chain : as_bytes txn2 ∈ chain (db world3) (as_bytes events_uuid).
Proof. rewrite world3_chain. right. left. Qed.

Lemma row3_in : row3 ∈ tables (db world3).
Proof.
  assert (tables (db world3) = [row3]) as -> by (vm_compute; reflexivity). left.
Qed.

Lemma files_at_ancestry_witness :
  exists r, FileRow.file_uuid r = as_bytes f1 /\
    r ∈ select_files_at (as_bytes events_uuid) (as_bytes txn2) (db world3) /\
    precedes (chain (db world3) (as_bytes events_uuid)) (FileRow.added_in_transaction_id r)
      (as_bytes txn2).
Proof.
  assert (exists r l, select_files_at (as_bytes events_uuid) (as_bytes txn2) (db world3) = r :: l /\
    FileRow.file_uuid r = as_bytes f1) as (r & l & E & Hf).
  { eexists _, _. split; vm_compute; reflexivity. }
  exists r. split; [exact Hf|].
  assert (r ∈ select_files_at (as_bytes events_uuid) (as_bytes txn2) (db world3)) as Hin
    by (rewrite E; left).
  split; [exact Hin|].
  apply (files_at_ancestry (db world3) (as_bytes events_uuid) (as_bytes txn2) r world3_inv world3_sorted
    txn2_in_chain). exact Hin.
Defined.

Lemma one_schema_at_each_transaction_witness :
  exists s, select_schemas_at (TableRow.table_uuid row3) (as_bytes txn2) (db world3) = [s] /\
    length (schema_log (db world3) (TableRow.table_uuid row3)) = 2.
Proof.
  assert (as_bytes txn2 ∈ chain (db world3) (TableRow.table_uuid row3)) as Hin
    by exact txn2_in_chain.
  destruct (one_schema_at_each_transaction (db world3) row3 (as_bytes txn2) world3_inv world3_sorted
    row3_in Hin) as (s & pre & post & _ & Hs & _).
  exists s. split; [exact Hs | vm_compute; reflexivity].
Defined.

Lemma few_columns s : length (select_columns s (db world3)) <= 1000.
Proof.
  transitivity (length (columns (db world3))); [apply filter_length_le|].
  apply Nat.leb_le. vm_compute. reflexivity.
Qed.

Lemma ref_no_faults : no_faults.
Proof. intros n. reflexivity. Qed.

(** The first commit, read after the second one: both appended files, the first
    schema, and the properties that the second commit set. *)
Lemma read_table_view_witness :
  exists view w', read_table client events (Some txn2) world3 = Some (Ok view, w') /\
    length (TableView.files view) = 2 /\ length (Schema.columns (TableView.schema view)) = 2 /\
    TableView.properties view = properties2.
Proof.
  destruct (traverse file_of_row
    (select_files_at (as_bytes events_uuid) (as_bytes txn2) (db world3))) as [fs|e] eqn:Efs;
    [|vm_compute in Efs; discriminate Efs].
  assert (length fs = 2) as Hl by (vm_compute in Efs; injection Efs as <-; reflexivity).
  destruct (read_table_view client events world3 row3 events_uuid txn2 (Some txn2) properties2 fs
    world3_inv world3_sorted ref_no_faults) as (view & w' & E & _ & _ & _ & _ & Hp & _ & Hf & s & Hs & Hv).
  - vm_compute. reflexivity.
  - vm_compute. reflexivity.
  - vm_compute. discriminate.
  - vm_compute. reflexivity.
  - exact txn2_in_chain.
  - left. reflexivity.
  - intros s _. split; [apply few_columns | apply types_decode_in, columns_decode_all; vm_compute; reflexivity].
  - vm_compute. discriminate.
  - exact Efs.
  - exists view, w'. split; [exact E|]. split; [rewrite Hf; exact Hl|]. split; [|exact Hp].
    destruct Hv as (_ & _ & _ & _ & _ & _ & Hcols). apply traverse_length in Hcols. rewrite Hcols.
    vm_compute in Hs. injection Hs as <-. vm_compute. reflexivity.
Defined.

Lemma read_table_unknown_transaction_witness :
  exists w', read_table client events (Some events_uuid) world3
    = Some (Err (InvalidArgument "requested transaction is not in table history"), w').
Proof.
  apply (read_table_unknown_transaction client events world3 row3 events_uuid events_uuid properties2
    world3_inv ref_no_faults).
  - vm_compute. reflexivity.
  - vm_compute. reflexivity.
  - vm_compute. discriminate.
  - vm_compute. reflexivity.
  - rewrite world3_chain. intros Hin. apply (bool_decide_eq_true_2 _) in Hin. vm_compute in Hin. discriminate Hin.
Defined.

Lemma time_travel_stable_witness :
  FileRow.file_uuid <$> select_files_at (as_bytes events_uuid) (as_bytes txn2) (db world3)
  = FileRow.file_uuid <$> select_files_at (as_bytes events_uuid) (as_bytes txn2) (db world2).
Proof.
  assert (as_bytes txn2 ∈ chain (db world2) (as_bytes events_uuid)) as Hin.
  { assert (chain (db world2) (as_bytes events_uuid) = [as_bytes txn1; as_bytes txn2]) as ->
      by (vm_compute; reflexivity). right. left. }
  exact (proj1 (time_travel_stable Limits.Sqlite client events txn2 mutation2 world2 _ world3 _ _
    world2_inv world3_sorted commit2_runs Hin)).
Defined.
