(* ===== verification/Listing.v ===== *)
(** * Listing and looking up tables

    [list_tables] and [load_table] are two views of one set of names. *)

From S2P Require Import Prelude Uuid Error Limits Json DataType Format Schema Models Db DbFacts World Helpers Catalog ReadFacts Invariant RefEnv Scenario Safety Commit Order Views.

Definition ident_of (r : TableRow.t) : TableIdent.t := TableIdent.mk (TableRow.namespace r) (TableRow.table_name r).

Definition in_namespace (ns : option string) (r : TableRow.t) : bool :=
  match ns with Some s => beq (TableRow.namespace r) s | None => true end.

Section listing.
Context `{Env} `{!EnumerationLaws} (Hnf : no_faults).

(** The tables of a namespace, by name. *)
Definition idents_in (ns : option string) (d : Db) : list TableIdent.t :=
  ident_of <$> List.filter (in_namespace ns) (tables d).

Lemma idents_nodup ns d : db_ok d -> NoDup (idents_in ns d).
Proof.
  intros Hok. eapply sublist_NoDup; [|apply fmap_sublist, filter_sublist].
  apply (NoDup_fmap_1 (fun i => (TableIdent.namespace i, TableIdent.name i))).
  rewrite <- list_fmap_compose. exact (ok_table_name _ Hok).
Qed.

Lemma load_table_runs ident w :
  load_table ident w = Some (Ok (if bool_decide (is_Some (table_row_of (db w) ident)) then Some ident else None), bump w).
Proof.
  unfold load_table, mbind, M_bind, fetch_optional, fetch. rewrite Hnf. unfold table_row_of.
  pose proof (row_order_perm _ (select_table (TableIdent.namespace ident) (TableIdent.name ident) (db w))) as Hp.
  destruct (select_table _ _ _) as [|r l] eqn:E.
  - apply Permutation_nil_r in Hp as ->. done.
  - destruct (row_order (r :: l)) as [|x k]; [by apply Permutation_nil_l in Hp | done].
Qed.

Lemma elem_of_idents ns d i :
  i ∈ idents_in ns d <-> is_Some (table_row_of d i) /\ match ns with Some s => TableIdent.namespace i = s | None => True end.
Proof.
  unfold idents_in. rewrite list_elem_of_fmap. setoid_rewrite elem_of_filter'. split.
  - intros (r & -> & Hr & Hns). split.
    + unfold table_row_of. destruct (select_table _ _ d) as [|x l] eqn:E; [|done]. exfalso.
      assert (r ∈ select_table (TableRow.namespace r) (TableRow.table_name r) d) as Hin by by apply select_table_in.
      cbn in E. rewrite E in Hin. by apply not_elem_of_nil in Hin.
    + destruct ns; cbn in *; [by apply bool_decide_eq_true in Hns | done].
  - intros [[r Hr] Hns]. apply table_row_of_some in Hr as (Hin & En & Em & _). exists r. split_and!.
    + destruct i. unfold ident_of. cbn in *. by rewrite En, Em.
    + done.
    + destruct ns; cbn; [apply bool_decide_eq_true; congruence | done].
Qed.

(** The first rows of a query, cut off one beyond the limit. *)
Lemma list_tables_runs ns w :
  exists l, l ≡ₚ idents_in ns (db w) /\
  list_tables ns w = Some (if (limits.MAX_TABLES_PER_LIST <? N.of_nat (length l))%N
    then Err (LimitExceeded ("table count exceeds limit of " +:+ pretty limits.MAX_TABLES_PER_LIST)) else Ok l, bump w).
Proof.
  set (q := match ns with Some s => select_tables_in s | None => tables end).
  assert (q (db w) = List.filter (in_namespace ns) (tables (db w))) as Hq.
  { unfold q. destruct ns; [done|]. symmetry. by apply filter_all_true. }
  exists (ident_of <$> row_order (q (db w))). split; [by rewrite row_order_perm, Hq|].
  rewrite length_fmap. set (rows := row_order (q (db w))).
  assert (list_tables ns w = Some ((_ ← fail_if (limits.MAX_TABLES_PER_LIST
      <? N.of_nat (length (take (N.to_nat (limits.MAX_TABLES_PER_LIST + 1)) rows)))%N
      (LimitExceeded ("table count exceeds limit of " +:+ pretty limits.MAX_TABLES_PER_LIST));
    Ok (ident_of <$> take (N.to_nat (limits.MAX_TABLES_PER_LIST + 1)) rows)), bump w)) as ->.
  { unfold list_tables, rows, q. destruct ns; unfold mbind, M_bind, fetch_limit, fetch; rewrite Hnf; cbn;
      by destruct (_ <? _)%N. }
  f_equal. f_equal. rewrite length_take. destruct (decide (length rows <= N.to_nat limits.MAX_TABLES_PER_LIST)) as [Hl|Hl].
  - rewrite (take_ge rows) by lia. rewrite !(proj2 (N.ltb_ge _ _)) by lia. done.
  - rewrite !(proj2 (N.ltb_lt _ _)) by lia. done.
Qed.

End listing.

(** C35: [list_tables] and [load_table] agree: up to the limit, a listing names
    each table of the namespace (of every namespace, if none is given) exactly
    once, and names exactly those [load_table] finds; beyond it the call
    fails.  Neither changes anything. *)
Theorem listing_is_lookup `{Env} `{!EnumerationLaws} ns w :
  db_ok (db w) -> no_faults ->
  exists r, list_tables ns w = Some (r, bump w) /\
  match r with
  | Ok l => NoDup l /\ (N.of_nat (length l) <= limits.MAX_TABLES_PER_LIST)%N /\
      forall i, i ∈ l <-> load_table i w = Some (Ok (Some i), bump w) /\
        match ns with Some s => TableIdent.namespace i = s | None => True end
  | Err e => e = LimitExceeded ("table count exceeds limit of " +:+ pretty limits.MAX_TABLES_PER_LIST) /\
      (limits.MAX_TABLES_PER_LIST < N.of_nat (length (idents_in ns (db w))))%N
  end.
Proof.
  intros Hok Hnf. destruct (list_tables_runs Hnf ns w) as (l & Hl & E). eexists. split; [exact E|].
  destruct (limits.MAX_TABLES_PER_LIST <? N.of_nat (length l))%N eqn:En.
  - split; [done|]. apply N.ltb_lt in En. by rewrite <- Hl.
  - apply N.ltb_ge in En. split; [rewrite Hl; by apply idents_nodup|]. split; [done|].
    intros i. rewrite Hl, elem_of_idents, (load_table_runs Hnf). apply and_iff_compat_r.
    case_bool_decide; split; naive_solver.
Qed.

(** ** Witness *)

#[local] Existing Instances ref_env ref_ipc_laws ref_enumeration_laws.

Lemma listing_is_lookup_witness :
  exists l, list_tables (Some "analytics") world3 = Some (Ok l, bump world3) /\ NoDup l /\ events ∈ l.
Proof.
  destruct (listing_is_lookup (Some "analytics") world3 (inv_db _ world3_inv) ref_no_faults) as (r & E & Hr).
  destruct r as [l|e]; [|vm_compute in E; discriminate E]. exists l. split; [exact E|].
  destruct Hr as (Hn & _ & Hi). split; [exact Hn|]. apply Hi. split; vm_compute; reflexivity.
Defined.
