(* ===== verification/Later.v ===== *)
(** * Later states of the catalog

    What the states that calls lead to keep of the state they start from: the
    history of each table grows at its end, and what is selected at a
    transaction, added by it, removed by it or made active by it stays. *)

From S2P Require Import Prelude Uuid Error Limits Json DataType Format Schema Models Db DbFacts World Helpers Catalog Api Effects ReadFacts Invariant Safety Commit Order Views.
From stdpp Require Import relations.

(** What is read, but for the marks that later commits leave on it. *)
Definition unremoved_row (r : FileRow.t) : FileRow.t :=
  FileRow.mk (FileRow.file_uuid r) (FileRow.table_uuid r) (FileRow.file_format r) (FileRow.file_path r)
    (FileRow.record_count r) (FileRow.file_size_bytes r) (FileRow.added_in_transaction_id r) None
    (FileRow.partition_values r) (FileRow.format_options r).

Definition unclosed_row (r : SchemaRow.t) : SchemaRow.t :=
  SchemaRow.mk (SchemaRow.schema_uuid r) (SchemaRow.table_uuid r) (SchemaRow.schema_version r)
    (SchemaRow.valid_from_transaction_id r) None (SchemaRow.created_at r).

(** A table's row, but for its current transaction, schema and properties. *)
Definition same_table_row (r r' : TableRow.t) : Prop :=
  TableRow.table_uuid r' = TableRow.table_uuid r /\ TableRow.namespace r' = TableRow.namespace r /\
  TableRow.table_name r' = TableRow.table_name r /\
  TableRow.min_reader_version r' = TableRow.min_reader_version r.

Record later (d d' : Db) : Prop := {
  later_txns : exists more, transactions d' = transactions d ++ more;
  later_keys : forall s, s ∈ schema_keys d -> s ∈ schema_keys d';
  later_files v t : t ∈ chain d v ->
    unremoved_row <$> select_files_at v t d' = unremoved_row <$> select_files_at v t d;
  later_schemas v t : t ∈ chain d v ->
    unclosed_row <$> select_schemas_at v t d' = unclosed_row <$> select_schemas_at v t d;
  later_added v t : t ∈ chain d v ->
    unremoved_row <$> select_files_added v t d' = unremoved_row <$> select_files_added v t d;
  later_removed v t : t ∈ chain d v -> select_files_removed v t d' = select_files_removed v t d;
  later_from v t : t ∈ chain d v ->
    unclosed_row <$> select_schemas_from v t d' = unclosed_row <$> select_schemas_from v t d;
  later_columns s : s ∈ schema_keys d -> select_columns s d' = select_columns s d;
  later_tables ident r : table_row_of d ident = Some r ->
    exists r', table_row_of d' ident = Some r' /\ same_table_row r r'
}.

Lemma later_refl d : later d d.
Proof. constructor; try done; [exists []; by rewrite app_nil_r | unfold same_table_row; eauto 6]. Qed.

Lemma later_txn_keys d d' t : later d d' -> t ∈ txn_keys d -> t ∈ txn_keys d'.
Proof. intros (more & ->)%later_txns Ht. rewrite fmap_app. apply elem_of_app. by left. Qed.

Lemma grown_chain d d' more v : transactions d' = transactions d ++ more ->
  exists l, chain d' v = chain d v ++ l.
Proof. intros E. unfold chain, history. rewrite E, List.filter_app, fmap_app. by eexists. Qed.

Lemma later_chain_in d d' v t : later d d' -> t ∈ chain d v -> t ∈ chain d' v.
Proof.
  intros (more & E)%later_txns Ht. destruct (grown_chain _ _ _ v E) as (l & ->). apply elem_of_app. by left.
Qed.

Lemma later_length d d' : later d d' -> length (transactions d) <= length (transactions d').
Proof. intros (more & ->)%later_txns. rewrite length_app. lia. Qed.

Lemma later_trans d1 d2 d3 : later d1 d2 -> later d2 d3 -> later d1 d3.
Proof.
  intros H12 H23. pose proof (fun v t => later_chain_in d1 d2 v t H12) as Hk.
  destruct H12 as [(m & E) K F S A D G C T], H23 as [(m' & E') K' F' S' A' D' G' C' T'].
  constructor.
  - exists (m ++ m'). by rewrite E', E, app_assoc.
  - auto.
  - intros v t Ht. by rewrite (F' v t (Hk v t Ht)), F.
  - intros v t Ht. by rewrite (S' v t (Hk v t Ht)), S.
  - intros v t Ht. by rewrite (A' v t (Hk v t Ht)), A.
  - intros v t Ht. by rewrite (D' v t (Hk v t Ht)), D.
  - intros v t Ht. by rewrite (G' v t (Hk v t Ht)), G.
  - intros s Hs. by rewrite (C' s (K s Hs)), C.
  - intros ident r (r' & (r2 & Hr2 & A1 & A2 & A3 & A4)%T' & B1 & B2 & B3 & B4)%T. exists r2.
    split; [done|]. unfold same_table_row. split_and!; congruence.
Qed.

Lemma later_sorted d d' : later d d' -> sorted_ids d' -> sorted_ids d.
Proof.
  intros (more & E)%later_txns Hs u. destruct (grown_chain _ _ _ u E) as (l & El). specialize (Hs u).
  rewrite El in Hs. eapply strongly_sorted_sublist; [|exact Hs]. by apply sublist_inserts_r.
Qed.

Lemma grows_eq {R} (P : R -> Prop) l l' : grows eq P l l' -> exists more, l' = l ++ more.
Proof. intros (kept & new & -> & HK & _). exists new. f_equal. symmetry. by apply list_eq_Forall2. Qed.

Lemma before_ne x t : blob_lt x t = true -> t <> x.
Proof. intros Hlt ->. by rewrite blob_lt_irrefl in Hlt. Qed.

Lemma kept_table u d d' ident r :
  Forall2 (table_kept u) (tables d) (tables d') -> table_row_of d ident = Some r ->
  exists r', table_row_of d' ident = Some r' /\ same_table_row r r'.
Proof.
  unfold table_row_of, select_table. induction 1 as [|x x' l l' Hx _ IH]; cbn; [done|].
  assert (same_table_row x x') as Hs by (destruct Hx as [->|(_ & s & t & p & ->)]; done).
  assert (named (TableIdent.namespace ident) (TableIdent.name ident) x'
    = named (TableIdent.namespace ident) (TableIdent.name ident) x) as ->.
  { destruct Hs as (_ & En & Et & _). unfold named. by rewrite En, Et. }
  destruct (named _ _ x); [|done].
  intros [= <-]. eauto.
Qed.

(** Files are removed no earlier than they are added. *)
Lemma removed_not_before `{ArrowIpc} d r x :
  catalog_inv d -> sorted_ids d -> r ∈ files d -> blob_lt x (FileRow.added_in_transaction_id r) = true ->
  FileRow.removed_in_transaction_id r <> Some x.
Proof.
  intros Hinv Hs Hr Hlt Hx. pose proof (proj1 (Forall_forall _ _) (inv_files _ Hinv) r Hr) as [Ha Hp].
  rewrite Hx in Hp. assert (x ∈ chain d (FileRow.table_uuid r)) as Hin
    by (destruct Hp as (i & j & _ & Hj & _); by eapply list_elem_of_lookup_2).
  apply (sorted_precedes _ _ _ (Hs _) Ha Hin) in Hp. by rewrite blob_le_not_lt, Hlt in Hp.
Qed.

Lemma grows_in {R} (K : R -> R -> Prop) (P : R -> Prop) l l' :
  grows K P l l' -> grows K (fun r => P r /\ r ∈ l') l l'.
Proof.
  intros (kept & new & -> & HK & HP). exists kept, new. split_and!; [done..|].
  rewrite Forall_forall in *. intros r Hr. split; [by apply HP | apply elem_of_app; by right].
Qed.

Lemma extends_later u t d d' :
  extends u t d d' -> (forall v x, x ∈ chain d v -> v = u -> blob_lt x t = true) ->
  (forall r x, r ∈ files d' -> blob_lt x (FileRow.added_in_transaction_id r) = true ->
     FileRow.removed_in_transaction_id r <> Some x) -> later d d'.
Proof.
  intros Hx Hlt Hrem. pose proof Hx as [_ Ht Hs _ _ _]. constructor.
  - by eapply grows_eq.
  - destruct Hs as (kept & new & -> & HK & _). intros s Hs. rewrite fmap_app. apply elem_of_app. left.
    assert (SchemaRow.schema_uuid <$> kept = schema_keys d) as ->; [|done].
    symmetry. apply list_eq_Forall2, Forall2_fmap. eapply Forall2_impl; [exact HK|].
    by intros r r' [->|(_ & _ & ->)].
  - intros v x Hin. by eapply extends_files_at; [|exact Hx|by apply Hlt].
  - intros v x Hin. by eapply extends_schemas_at; [|exact Hx|by apply Hlt].
  - intros v x Hin. eapply grows_select; [apply (ext_files _ _ _ _ Hx) | |].
    + by intros r r' [->|(_ & _ & ->)].
    + intros r [Eu ->]. rewrite andb_false_iff, !beq_false.
      destruct (decide (v = u)) as [E|E]; [right | left; congruence]. by eapply before_ne, Hlt.
  - intros v x Hin. rewrite <- (list_fmap_id (select_files_removed v x d')),
      <- (list_fmap_id (select_files_removed v x d)).
    eapply grows_select; [apply grows_in, (ext_files _ _ _ _ Hx) | |].
    + intros r r' [->|(Eu & Hr & ->)]; [done|]. cbn. rewrite Hr, (proj2 (beq_false None (Some x))) by done.
      split; [|by rewrite andb_false_r]. rewrite andb_false_r, andb_false_iff, !beq_false.
      destruct (decide (v = u)) as [E|E]; [right | left; congruence].
      intros [= Ex]. by apply (before_ne x t (Hlt v x Hin E)).
    + intros r [[Eu <-] Hr]. rewrite andb_false_iff, !beq_false.
      destruct (decide (v = u)) as [E|E]; [right | left; congruence]. by eapply Hrem, Hlt.
  - intros v x Hin. eapply grows_select; [apply (ext_schemas _ _ _ _ Hx) | |].
    + by intros r r' [->|(_ & _ & ->)].
    + intros r [Eu ->]. rewrite andb_false_iff, !beq_false.
      destruct (decide (v = u)) as [E|E]; [right | left; congruence]. by eapply before_ne, Hlt.
  - intros s. by apply (extends_columns _ _ _ _ _ Hx).
  - intros ident r Hr. eapply kept_table; [apply (ext_tables _ _ _ _ Hx) | done].
Qed.

Section later.
Context `{Env} `{!EnumerationLaws}.

Lemma create_later client ident location spec properties d d' :
  catalog_inv d -> create_facts client ident location spec properties d d' -> later d d'.
Proof.
  intros Hinv [u t s ts text rows _ _ _ Hu Ht Hs Hrows ->].
  assert (forall v x, x ∈ chain d v -> as_bytes u <> v) as Hnew.
  { intros v x Hx <-. unfold chain in Hx. rewrite (no_history d Hinv) in Hx by done. by apply elem_of_nil in Hx. }
  constructor; cbn.
  - eauto.
  - intros x Hx. rewrite fmap_app. set_solver.
  - done.
  - intros v x Hx. unfold select_schemas_at. cbn. rewrite List.filter_app. cbn.
    rewrite (proj2 (beq_false (as_bytes u) v)) by by eapply Hnew. by rewrite app_nil_r.
  - done.
  - done.
  - intros v x Hx. unfold select_schemas_from. cbn. rewrite List.filter_app. cbn.
    rewrite (proj2 (beq_false (as_bytes u) v)) by by eapply Hnew. by rewrite app_nil_r.
  - intros x Hx. unfold select_columns. cbn. rewrite List.filter_app, (filter_all_false _ rows), app_nil_r; [done|].
    intros r Hr. apply beq_false. rewrite (are_columns_schema _ _ _ _ Hrows Hr). by intros <-.
  - intros ident' r Hr. exists r. split; [|done]. unfold table_row_of, select_table in *. cbn.
    rewrite List.filter_app. by destruct (List.filter _ (tables d)).
Qed.

Lemma change_later client c d d' :
  catalog_inv d -> sorted_ids d' -> call_change client c d d' -> later d d'.
Proof.
  intros Hinv Hs Hc. pose proof (call_change_inv _ _ _ _ Hinv Hc) as Hinv'.
  destruct Hc as [c d|i l s p d d' Hc _|i b t m d d' Hc _]; [apply later_refl | |].
  - eapply create_later; [done|]. by eapply create_effect_facts.
  - apply commit_effect_facts in Hc. destruct (commit_extends _ _ _ _ _ _ Hinv Hc) as (u & row & Hrow & Hu & Hx & _).
    eapply extends_later; [exact Hx| |by intros; apply (removed_not_before d')].
    intros v x Hin. exact (commit_after _ _ _ _ _ _ _ _ _ _ Hinv Hs Hc Hrow Hu Hin).
Qed.

Lemma steps_later R `{!Moves R} w w' :
  catalog_inv (db w) -> sorted_ids (db w') -> rtc R w w' -> later (db w) (db w').
Proof.
  intros Hinv Hs Hr. induction Hr as [w|w w1 w2 Hst _ IH]; [apply later_refl|].
  specialize (IH (move_inv _ _ Hinv Hst) Hs). eapply later_trans; [|exact IH].
  destruct (moves_change _ _ Hinv Hst) as (client & c & Hc).
  eapply change_later; [done | by eapply later_sorted | exact Hc].
Qed.

(** A transaction of the earlier state reads the same. *)
Lemma later_transaction d d' u t :
  db_ok d' -> later d d' -> t ∈ txn_keys d -> select_transaction u t d' = select_transaction u t d.
Proof.
  intros Hok (more & E)%later_txns Ht. pose proof (ok_txn_pk _ Hok) as Hn. unfold select_transaction. rewrite E in *.
  rewrite List.filter_app, (filter_all_false _ more), app_nil_r; [done|].
  intros r Hr. rewrite andb_false_iff. right. apply beq_false. intros <-.
  rewrite fmap_app in Hn. apply NoDup_app in Hn as (_ & Hn & _). apply (Hn _ Ht). by apply list_elem_of_fmap_2.
Qed.

End later.
