(* ===== verification/Statements.v ===== *)
(** * Reads as sequences of statements

    [read_table] runs its SELECTs one after the other on the pool, outside any
    transaction.  Here it is the sequence of its statements, a computation of
    [R] that asks the database one question at a time; run on one state it is
    the [read_table] of Catalog.v. *)

From S2P Require Import Prelude Uuid Error Limits Json DataType Format Schema Models Db DbFacts World Helpers Catalog ReadFacts.

(** ** Computations that ask *)

Inductive R (A : Type) : Type :=
  | Return (r : result CatalogError A)
  | Ask {X : Type} (q : Db -> X) (k : X -> R A)
  | Stuck.
Arguments Return {A} r.
Arguments Ask {A X} q k.
Arguments Stuck {A}.

Fixpoint bind {A B} (m : R A) (f : A -> R B) : R B :=
  match m with
  | Return (Ok a) => f a
  | Return (Err e) => Return (Err e)
  | Ask q k => Ask q (fun x => bind (k x) f)
  | Stuck => Stuck
  end.

#[export] Instance R_ret : MRet R := fun A a => Return (Ok a).
#[export] Instance R_bind : MBind R := fun A B f m => bind m f.

Definition ask {X} (q : Db -> X) : R X := Ask q (fun x => Return (Ok x)).
Definition pure {A} (r : result CatalogError A) : R A := Return r.

(** One statement of the world after the other. *)
Fixpoint denote `{Env} {A} (m : R A) : M A :=
  match m with
  | Return r => lift r
  | Ask q k => x ← fetch q; denote (k x)
  | Stuck => out_of_fuel
  end.

(** ** [read_table], statement by statement *)

Section reads.
Context `{Env} (client_protocol : ProtocolVersions.t).

Definition ask_optional {T} (q : Db -> list T) : R (option T) := ask (fun d => head (row_order (q d))).

Definition ask_limit {T} (n : N) (q : Db -> list T) : R (list T) :=
  ask (fun d => take (N.to_nat n) (row_order (q d))).

Definition ask_table (ident : TableIdent.t) : R TableRow.t :=
  table_row ← ask_optional (select_table (TableIdent.namespace ident) (TableIdent.name ident));
  pure (ok_or table_row (no_table ident)).

Fixpoint ask_in_history (fuel : nat) (table_uuid effective cursor_txn : Uuid) (visited : gset Uuid) :
    R bool :=
  match fuel with
  | O => Stuck
  | S fuel =>
      if bool_decide (cursor_txn ∈ visited) then
        pure (Err (InvalidArgument "transaction parent chain contains a cycle"))
      else if bool_decide (cursor_txn = effective) then mret true
      else
        row ← ask_optional (select_transaction (as_bytes table_uuid) (as_bytes cursor_txn));
        row ← pure (ok_or row (InvalidArgument "table transaction chain is broken"));
        parent_transaction_id ← pure (uuid_from_row_optional (TransactionRow.parent_transaction_id row));
        match parent_transaction_id with
        | Some parent_id =>
            ask_in_history fuel table_uuid effective parent_id ({[cursor_txn]} ∪ visited)
        | None => mret false
        end
  end.

Definition ask_history (fuel : nat) (table_uuid effective current : Uuid) : R unit :=
  if bool_decide (effective = current) then mret tt
  else
    found ← ask_in_history fuel table_uuid effective current ∅;
    pure (fail_if (negb found) (InvalidArgument "requested transaction is not in table history")).

Definition ask_columns (what : string) (schema_uuid : Uuid) : R (list Column.t) :=
  column_rows ← ask (fun d =>
    take (N.to_nat (limits.MAX_COLUMNS_PER_SCHEMA + 1))
      (merge_sort by_ordinal (row_order (select_columns (as_bytes schema_uuid) d))));
  _ ← pure (fail_if (limits.MAX_COLUMNS_PER_SCHEMA <? N.of_nat (length column_rows))%N
        (LimitExceeded (what +:+ " exceeds limit of " +:+ pretty limits.MAX_COLUMNS_PER_SCHEMA)));
  pure (traverse column_of_row column_rows).

Definition ask_schema (ident : TableIdent.t) (table_uuid effective : Uuid) : R Schema.t :=
  schema_row ← ask_optional (fun d =>
    take 1 (row_order (select_schemas_at (as_bytes table_uuid) (as_bytes effective) d)));
  schema_row ← pure (ok_or schema_row (NotFound ("no schema for " +:+ TableIdent.to_string ident
    +:+ " at transaction " +:+ uuid_to_string effective)));
  schema_uuid ← pure (uuid_from_row (SchemaRow.schema_uuid schema_row));
  columns ← ask_columns "column count" schema_uuid;
  pure (schema_of_row schema_row schema_uuid columns).

Definition ask_files (table_uuid effective : Uuid) : R (list File.t) :=
  file_rows ← ask_limit (limits.MAX_FILES_PER_QUERY + 1)
    (select_files_at (as_bytes table_uuid) (as_bytes effective));
  _ ← pure (fail_if (limits.MAX_FILES_PER_QUERY <? N.of_nat (length file_rows))%N
        (LimitExceeded ("file count exceeds limit of " +:+ pretty limits.MAX_FILES_PER_QUERY)));
  pure (traverse file_of_row file_rows).

Definition ask_stats (table_uuid effective : Uuid) : R (option TableStats.t) :=
  stats_row ← ask_optional (select_stats (as_bytes table_uuid) (as_bytes effective));
  match stats_row with
  | Some row => pure (Some <$> stats_of_row row)
  | None => mret None
  end.

(** What follows the SELECT on tables; [fuel] bounds the history walk. *)
Definition ask_rest (fuel : nat) (ident : TableIdent.t) (at_transaction_id : option TxnId)
    (table_row : TableRow.t) : R TableView.t :=
  table_uuid ← pure (uuid_from_row (TableRow.table_uuid table_row));
  _ ← pure (uuid_from_row_optional (TableRow.current_schema_uuid table_row));
  current_transaction_id ← pure (uuid_from_row_optional (TableRow.current_transaction_id table_row));
  properties ← pure (parse_table_properties (TableRow.properties table_row));
  _ ← pure (ensure_reader_protocol_compatible client_protocol ident (TableRow.min_reader_version table_row));
  current_transaction_id ← pure (ok_or current_transaction_id no_current_transaction);
  let effective_transaction_id := default current_transaction_id at_transaction_id in
  _ ← ask_history fuel table_uuid effective_transaction_id current_transaction_id;
  schema ← ask_schema ident table_uuid effective_transaction_id;
  files ← ask_files table_uuid effective_transaction_id;
  stats ← ask_stats table_uuid effective_transaction_id;
  mret (TableView.mk ident table_uuid effective_transaction_id schema files properties stats).

Definition ask_read_table (fuel : nat) (ident : TableIdent.t) (at_transaction_id : option TxnId) :
    R TableView.t :=
  table_row ← ask_table ident;
  ask_rest fuel ident at_transaction_id table_row.

End reads.

(** ** Run on one state, it is [read_table] *)

Section denote.
Context `{Env} `{!EnumerationLaws} (d : Db).

Definition same_on {A} (m m' : M A) : Prop := forall n, m (mk_world d n) = m' (mk_world d n).

Lemma same_bind {A B} (m m' : M A) (f f' : A -> M B) :
  ReadsOn d m' -> same_on m m' -> (forall a, same_on (f a) (f' a)) -> same_on (m ≫= f) (m' ≫= f').
Proof.
  intros Hr Hm Hf n. unfold mbind, M_bind. rewrite (Hm n).
  destruct (Hr n) as (r & n' & ->). destruct r; [apply Hf | done].
Qed.

Lemma denote_bind {A B} (m : R A) (f : A -> R B) w :
  denote (m ≫= f) w = (denote m ≫= (fun a => denote (f a))) w.
Proof.
  change (m ≫= f) with (bind m f). revert w.
  induction m as [[a|e]|X q k IH|]; intros w; [done | done | | done]. cbn. unfold mbind, M_bind.
  destruct (fetch q w) as [[[x|e] w']|]; [apply IH | done | done].
Qed.

Lemma same_denote {A B} (m : R A) (m' : M A) (f : A -> R B) (f' : A -> M B) :
  ReadsOn d m' -> same_on (denote m) m' -> (forall a, same_on (denote (f a)) (f' a)) ->
  same_on (denote (m ≫= f)) (m' ≫= f').
Proof. intros Hr Hm Hf n. rewrite denote_bind. by apply same_bind. Qed.

Lemma same_refl {A} (m : M A) : same_on m m.
Proof. done. Qed.

Lemma same_ask {X} (q : Db -> X) : same_on (denote (ask q)) (fetch q).
Proof. intros n. unfold ask. cbn. unfold mbind, M_bind. by destruct (fetch q _) as [[[]]|]. Qed.

Lemma same_ask_optional {T} (q : Db -> list T) : same_on (denote (ask_optional q)) (fetch_optional q).
Proof. apply same_ask. Qed.

(** A statement that answers like the model's, then what depends on it. *)
Lemma same_optional_then {T B} (q : Db -> list T) (f : option T -> R B) (f' : option T -> M B) :
  (forall o, o = head (row_order (q d)) -> same_on (denote (f o)) (f' o)) ->
  same_on (denote (ask_optional q ≫= f)) (fetch_optional q ≫= f').
Proof.
  intros Hf n. rewrite denote_bind. unfold mbind, M_bind. rewrite (same_ask_optional q n).
  unfold fetch_optional, fetch. cbn. destruct (fault n); [done | by apply Hf].
Qed.

Lemma same_pure_then {A B} (r : result CatalogError A) (f : A -> R B) (f' : A -> M B) :
  (forall a, r = Ok a -> same_on (denote (f a)) (f' a)) ->
  same_on (denote (pure r ≫= f)) (lift r ≫= f').
Proof. intros Hf n. destruct r as [a|e]; [by apply Hf | done]. Qed.

Lemma same_in_history fuel fuel' u eff cur visited :
  visited_rows d visited -> S (length (transactions d)) < fuel + size visited ->
  S (length (transactions d)) < fuel' + size visited ->
  same_on (denote (ask_in_history fuel u eff cur visited)) (find_in_history fuel' u eff cur visited).
Proof.
  revert fuel' cur visited; induction fuel as [|fuel IH]; intros [|fuel'] cur visited Hv Hf Hf';
    try (pose proof (visited_size d visited Hv); lia).
  cbn [ask_in_history find_in_history]. case_bool_decide as Hin; [done|]. case_bool_decide; [done|].
  apply same_optional_then. intros o Ho. apply same_pure_then. intros r Hr%ok_or_ok.
  rewrite Hr in Ho. symmetry in Ho. apply same_pure_then. intros [p|] _; [|done].
  destruct (visit d _ _ _ _ Hv Hin Ho) as [Hv' Hs]. apply IH; [done | lia..].
Qed.

(** Any fuel from that of [chain_fuel] on. *)
Context (fuel : nat) (Hfuel : S (S (length (transactions d))) <= fuel).

Lemma same_history u eff cur : same_on (denote (ask_history fuel u eff cur)) (check_history u eff cur).
Proof.
  unfold ask_history, check_history. case_bool_decide; [done|]. intros n.
  assert (forall fuel', S (S (length (transactions d))) <= fuel' ->
    S (length (transactions d)) < fuel' + size (∅ : gset Uuid)) as Hf by (intros; rewrite size_empty; lia).
  apply (same_denote _ (find_in_history (S (S (length (transactions d)))) u eff cur ∅)); [| |done].
  - exact (find_in_history_reads d _ u eff cur ∅ (visited_empty d) (Hf _ (le_n _))).
  - exact (same_in_history fuel _ u eff cur ∅ (visited_empty d) (Hf _ Hfuel) (Hf _ (le_n _))).
Qed.

Lemma same_fetch_table ident : same_on (denote (ask_table ident)) (fetch_table ident).
Proof. by apply same_optional_then. Qed.

Lemma same_columns what s : same_on (denote (ask_columns what s)) (fetch_columns what s).
Proof. apply same_denote; [apply _ | apply same_ask | intros ?; by apply same_pure_then]. Qed.

Lemma same_read_schema ident u eff : same_on (denote (ask_schema ident u eff)) (read_schema ident u eff).
Proof.
  apply same_optional_then. intros o _. apply same_pure_then. intros r _. apply same_pure_then. intros s _.
  apply same_denote; [apply _ | apply same_columns | done].
Qed.

Lemma same_files u eff : same_on (denote (ask_files u eff)) (read_files u eff).
Proof. apply same_denote; [apply _ | apply same_ask | intros ?; by apply same_pure_then]. Qed.

Lemma same_stats u eff : same_on (denote (ask_stats u eff)) (read_stats u eff).
Proof. apply same_optional_then. by intros [r|] _. Qed.

Lemma same_read_table client ident at_ :
  same_on (denote (ask_read_table client fuel ident at_)) (read_table client ident at_).
Proof.
  apply same_denote; [apply _ | apply same_fetch_table | intros row]. unfold ask_rest.
  do 6 (apply same_pure_then; intros ? _).
  apply same_denote; [apply _ | apply same_history | intros _].
  apply same_denote; [apply _ | apply same_read_schema | intros ?].
  apply same_denote; [apply _ | apply same_files | intros ?].
  apply same_denote; [apply _ | apply same_stats | done].
Qed.

End denote.

(** The fuel of [chain_fuel] on a state. *)
Definition walk_fuel (w : World) : nat := S (S (length (transactions (db w)))).

(** Run without interruption, the sequence of statements [ask_read_table] is
    [read_table], on every state and with every result. *)
Lemma denote_read_table `{Env} `{!EnumerationLaws} client fuel ident at_ w :
  walk_fuel w <= fuel ->
  denote (ask_read_table client fuel ident at_) w = read_table client ident at_ w.
Proof. destruct w as [d n]. intros Hf. by apply same_read_table. Qed.
