(* ===== verification/Interleave.v ===== *)
(** * Reads interleaved with other calls

    The calls of other clients may come between the statements of a read.  Run
    like that, [read_table] still returns a snapshot, that of the state its
    first statement saw: its later statements select by transaction, and what
    they select at a transaction of the history no later call changes. *)

From S2P Require Import Prelude Uuid Error Limits Json DataType Format Schema Models Db DbFacts World Helpers Catalog Api Effects ReadFacts Invariant RefEnv Scenario Safety Commit Order Views Later Statements.
From stdpp Require Import relations.

(** ** Runs with other calls in between

    A statement reads the database as it is; then any calls of any clients may
    complete before the next one.  [None] is a walk out of fuel. *)

Fixpoint irun `{Env} (others : relation World) {A} (m : R A) (w : World) (r : option (result CatalogError A))
    (w' : World) : Prop :=
  match m with
  | Return r0 => r = Some r0 /\ w' = w
  | Ask q k =>
      match fault (tick w) with
      | Some code => r = Some (Err (Storage (EngineFailure code))) /\ w' = bump w
      | None => exists w1, rtc others (bump w) w1 /\ irun others (k (q (db w))) w1 r w'
      end
  | Stuck => r = None /\ w' = w
  end.

(** The same, of what is returned. *)
Definition unremoved (f : File.t) : File.t :=
  File.mk (File.file_uuid f) (File.table_uuid f) (File.file_format f) (File.file_path f)
    (File.record_count f) (File.file_size_bytes f) (File.added_in_transaction_id f) None
    (File.partition_values f) (File.format_options f).

Definition unclosed (s : Schema.t) : Schema.t :=
  Schema.mk (Schema.schema_uuid s) (Schema.table_uuid s) (Schema.schema_version s)
    (Schema.valid_from_transaction_id s) None (Schema.created_at s) (Schema.columns s).

(** The same snapshot: equal but for those marks and the order of the files. *)
Record same_snapshot (v v' : TableView.t) : Prop := {
  snap_ident : TableView.ident v' = TableView.ident v;
  snap_table : TableView.table_uuid v' = TableView.table_uuid v;
  snap_transaction : TableView.transaction_id v' = TableView.transaction_id v;
  snap_schema : unclosed (TableView.schema v') = unclosed (TableView.schema v);
  snap_files : unremoved <$> TableView.files v' ≡ₚ unremoved <$> TableView.files v;
  snap_properties : TableView.properties v' = TableView.properties v;
  snap_stats : TableView.stats v' = TableView.stats v
}.

(** ** Simulation

    [answer d m]: what [m] returns when every statement reads [d]. *)

Fixpoint answer {A} (d : Db) (m : R A) : option (result CatalogError A) :=
  match m with
  | Return r => Some r
  | Ask q k => answer d (k (q d))
  | Stuck => None
  end.

(** Whatever states of [J] its statements read, [m] returns a result that
    satisfies [Q]. *)
Fixpoint settles (J : Db -> Prop) {A} (m : R A) (Q : result CatalogError A -> Prop) : Prop :=
  match m with
  | Return r => Q r
  | Ask q k => forall d, J d -> settles J (k (q d)) Q
  | Stuck => False
  end.

Lemma settles_mono (J : Db -> Prop) {A} (m : R A) (P Q : result CatalogError A -> Prop) :
  settles J m P -> (forall r, P r -> Q r) -> settles J m Q.
Proof. intros Hm HPQ. induction m as [r|X q k IH|]; cbn in *; auto. Qed.

Lemma settles_weaken (J J' : Db -> Prop) {A} (m : R A) Q :
  (forall d, J' d -> J d) -> settles J m Q -> settles J' m Q.
Proof. intros HJ. induction m as [r|X q k IH|]; cbn; auto. Qed.

Lemma settles_bind (J : Db -> Prop) {A B} (m : R A) (f : A -> R B) Q :
  settles J m (fun r => match r with Ok a => settles J (f a) Q | Err e => Q (Err e) end) ->
  settles J (m ≫= f) Q.
Proof.
  change (m ≫= f) with (bind m f). induction m as [[a|e]|X q k IH|]; cbn; auto.
Qed.

Lemma settles_answer (J : Db -> Prop) {A} (m : R A) Q d :
  J d -> settles J m Q -> exists r, answer d m = Some r /\ Q r.
Proof. intros Hd. induction m as [r|X q k IH|]; cbn; [eauto | auto | done]. Qed.

Lemma settles_ok (J : Db -> Prop) {A B} (m : R A) (f : A -> R B) a Q :
  settles J m (fun r => r = Ok a) -> settles J (f a) Q -> settles J (m ≫= f) Q.
Proof. intros Hm Hf. apply settles_bind. eapply settles_mono; [exact Hm|]. by intros r ->. Qed.

Lemma settles_pure (J : Db -> Prop) {A B} (r : result CatalogError A) (f : A -> R B) a Q :
  r = Ok a -> settles J (f a) Q -> settles J (pure r ≫= f) Q.
Proof. by intros ->. Qed.

Lemma answer_bind {A B} d (m : R A) (f : A -> R B) :
  answer d (m ≫= f) = match answer d m with
                      | Some (Ok a) => answer d (f a)
                      | Some (Err e) => Some (Err e)
                      | None => None
                      end.
Proof. change (m ≫= f) with (bind m f). induction m as [[a|e]|X q k IH|]; cbn; auto. Qed.

(** Both succeed, with related results, or both fail. *)
Definition both {A B} (E : A -> B -> Prop) (r : result CatalogError A) (r' : result CatalogError B) :
    Prop :=
  match r, r' with
  | Ok a, Ok b => E a b
  | Err _, Err _ => True
  | _, _ => False
  end.

Section sim.
Context (d0 : Db) (J : Db -> Prop).

(** The run of [n] over the states of [J] follows that of [m] on [d0]. *)
Definition sim {A B} (E : A -> B -> Prop) (m : R A) (n : R B) : Prop :=
  settles J n (fun r' => exists r, answer d0 m = Some r /\ both E r r').

Lemma sim_bind {A B A' B'} (E : A -> B -> Prop) (F : A' -> B' -> Prop) m n f g :
  sim E m n -> (forall a b, E a b -> sim F (f a) (g b)) -> sim F (m ≫= f) (n ≫= g).
Proof.
  intros Hn Hfg. apply settles_bind. eapply settles_mono; [exact Hn|].
  intros r' (r & Hr & Hb). destruct r as [a|e], r' as [b|e']; try done.
  - eapply settles_mono; [by apply Hfg|]. intros r2 (r1 & Hr1 & Hb1). exists r1. by rewrite answer_bind, Hr.
  - exists (Err e). by rewrite answer_bind, Hr.
Qed.

Lemma sim_mono {A B} (E F : A -> B -> Prop) m n : sim E m n -> (forall a b, E a b -> F a b) -> sim F m n.
Proof.
  intros Hn HEF. eapply settles_mono; [exact Hn|]. intros r' (r & Hr & Hb). exists r. split; [done|].
  destruct r, r'; cbn in *; auto.
Qed.

Lemma sim_pure {A B} (E : A -> B -> Prop) r r' : both E r r' -> sim E (pure r) (pure r').
Proof. intros Hb. by exists r. Qed.

Lemma sim_ret {A B} (E : A -> B -> Prop) a b : E a b -> sim E (mret a) (mret b).
Proof. intros Hb. by exists (Ok a). Qed.

Lemma sim_ask {X} (E : X -> X -> Prop) q : (forall d, J d -> E (q d0) (q d)) -> sim E (ask q) (ask q).
Proof. intros Hq d Hd. exists (Ok (q d0)). split; [done|]. by apply Hq. Qed.

(** What does not depend on the database. *)
Lemma sim_pure_then {A B B'} (F : B -> B' -> Prop) (r : result CatalogError A) f g :
  (forall a, r = Ok a -> sim F (f a) (g a)) -> sim F (pure r ≫= f) (pure r ≫= g).
Proof. intros Hf. destruct r as [a|e]; [by apply Hf | by exists (Err e)]. Qed.

(** What settles whatever the states are settles on [d0] too. *)
Lemma sim_settled {A B} (E : A -> B -> Prop) (m : R A) (n : R B) P Q :
  J d0 -> settles J m P -> settles J n Q -> (forall r r', P r -> Q r' -> both E r r') -> sim E m n.
Proof.
  intros Hd Hm Hn HE. eapply settles_mono; [exact Hn|]. intros r' HQ.
  destruct (settles_answer _ _ _ _ Hd Hm) as (r & Hr & HP). exists r. auto.
Qed.

End sim.

(** ** Rows without their marks *)

Lemma unclosed_of_row `{Env} s su cols :
  opt_uuid (SchemaRow.valid_to_transaction_id s) ->
  unclosed <$> schema_of_row s su cols = schema_of_row (unclosed_row s) su cols.
Proof.
  intros (p & Hp & _)%opt_row_decodes. unfold schema_of_row. rewrite Hp. cbn.
  destruct (uuid_from_row (SchemaRow.table_uuid s)); cbn; [|done].
  by destruct (uuid_from_row (SchemaRow.valid_from_transaction_id s)).
Qed.

(** A schema from its row and its columns. *)
Lemma same_schema_of_row `{Env} r r' su cols :
  unclosed_row r' = unclosed_row r ->
  opt_uuid (SchemaRow.valid_to_transaction_id r) -> opt_uuid (SchemaRow.valid_to_transaction_id r') ->
  both (fun v v' => unclosed v' = unclosed v) (schema_of_row r su cols) (schema_of_row r' su cols).
Proof.
  intros Er Hr%(unclosed_of_row _ su cols) Hr'%(unclosed_of_row _ su cols). rewrite Er, <- Hr in Hr'.
  destruct (schema_of_row r su cols), (schema_of_row r' su cols); try done.
  unfold fmap, result_fmap in Hr'. cbn [both]. congruence.
Qed.

Lemma unremoved_of_row `{Env} r :
  opt_uuid (FileRow.removed_in_transaction_id r) ->
  unremoved <$> file_of_row r = file_of_row (unremoved_row r).
Proof.
  intros (p & Hp & _)%opt_row_decodes. unfold file_of_row. rewrite Hp. cbn.
  destruct (uuid_from_row (FileRow.file_uuid r)); cbn; [|done].
  destruct (uuid_from_row (FileRow.table_uuid r)); cbn; [|done].
  destruct (uuid_from_row (FileRow.added_in_transaction_id r)); cbn; [|done].
  destruct (parse_json_optional (FileRow.partition_values r)); cbn; [|done].
  by destruct (parse_json_optional (FileRow.format_options r)).
Qed.

Lemma traverse_fmap_result {E A B C} (f : A -> result E B) (g : B -> C) l :
  fmap (M := result E) (fmap (M := list) g) (traverse f l)
  = traverse (fun a => fmap (M := result E) g (f a)) l.
Proof.
  induction l as [|a l IH]; cbn; [done|]. destruct (f a); cbn; [|done]. rewrite <- IH.
  by destruct (traverse f l).
Qed.

(** What is decoded from rows that agree but for their marks and their order,
    if decoding commutes with forgetting the marks. *)
Lemma same_traverse {A B} (f : A -> result CatalogError B) (ga : A -> A) (gb : B -> B) (P : A -> Prop) rows rows' :
  (forall r, P r -> fmap (M := result CatalogError) gb (f r) = f (ga r)) -> Forall P rows -> Forall P rows' ->
  ga <$> rows' ≡ₚ ga <$> rows ->
  both (fun xs xs' => gb <$> xs' ≡ₚ gb <$> xs) (traverse f rows) (traverse f rows').
Proof.
  intros Hg H1 H2 Hp.
  assert (forall l, Forall P l -> fmap (M := result CatalogError) (fmap (M := list) gb) (traverse f l)
    = traverse f (ga <$> l)) as Htr.
  { intros l Hl. rewrite traverse_fmap_result. induction Hl as [|r l Hr _ IH]; cbn; [done|]. by rewrite Hg, IH. }
  apply Htr in H1, H2.
  destruct (traverse f rows) as [fs|e], (traverse f rows') as [fs'|e']; cbn in *; [| | |done].
  - destruct (traverse_perm f (ga <$> rows) (ga <$> rows') (gb <$> fs)) as (xs & Hx & Hxp); [done | done |].
    rewrite <- H2 in Hx. by injection Hx as ->.
  - destruct (traverse_perm f (ga <$> rows) (ga <$> rows') (gb <$> fs)) as (xs & Hx & _); [done | done |].
    by rewrite <- H2 in Hx.
  - destruct (traverse_perm f (ga <$> rows') (ga <$> rows) (gb <$> fs')) as (xs & Hx & _); [done | done |].
    by rewrite <- H1 in Hx.
Qed.

(** ** The statements of [read_table] *)

Section statements.
Context `{Env} `{!EnumerationLaws} (d0 : Db) (Hinv0 : catalog_inv d0).
Context (Hsorted : sorted_ids d0).

Definition seen (d : Db) : Prop := catalog_inv d /\ later d0 d.

Context (row : TableRow.t) (u : Uuid) (Hrow : row ∈ tables d0) (Hu : TableRow.table_uuid row = as_bytes u).

Notation ids := (chain d0 (as_bytes u)).
Notation sim := (sim d0 seen).

Lemma visited_next i cur (visited : gset Uuid) :
  ids !! S i = Some (as_bytes cur) ->
  (forall v, v ∈ visited -> exists k, S i < k /\ ids !! k = Some (as_bytes v)) ->
  forall v, v ∈ {[cur]} ∪ visited -> exists k, i < k /\ ids !! k = Some (as_bytes v).
Proof.
  intros Hi Hv v [->%elem_of_singleton|Hin]%elem_of_union; [exists (S i); split; [lia | done]|].
  destruct (Hv v Hin) as (k & Hk & Hvk). exists k. split; [lia | done].
Qed.

Lemma not_visited i cur (visited : gset Uuid) :
  ids !! i = Some (as_bytes cur) ->
  (forall v, v ∈ visited -> exists k, i < k /\ ids !! k = Some (as_bytes v)) -> cur ∉ visited.
Proof.
  intros Hi Hv Hin. destruct (Hv cur Hin) as (k & Hk & Hck).
  assert (i = k); [|lia]. eapply NoDup_lookup; [by apply (chain_nodup d0 Hinv0) | exact Hi | exact Hck].
Qed.

(** The row of a transaction of the chain. *)
Lemma settled_transaction i cur :
  ids !! i = Some (as_bytes cur) -> exists r,
  settles seen (ask_optional (select_transaction (as_bytes u) (as_bytes cur))) (fun o => o = Ok (Some r)) /\
  exists p, uuid_from_row_optional (TransactionRow.parent_transaction_id r) = Ok p /\
    match i, p with
    | O, None => True
    | S j, Some q => ids !! j = Some (as_bytes q)
    | _, _ => False
    end.
Proof.
  intros Hi. destruct (chain_row d0 Hinv0 row u Hrow Hu i cur Hi) as (r & Hr & p & Hp & Hlink).
  exists r. split; [|exists p; split; [done | by destruct i, p]].
  intros d [Hd Hl]. rewrite (later_transaction d0 d); [| apply Hd | done |].
  - by rewrite Hr, (row_order_singleton _ r).
  - by eapply chain_in_keys, list_elem_of_lookup_2.
Qed.

Lemma seen_start : seen d0.
Proof. split; [done | apply later_refl]. Qed.

(** The walk along the parents, started at position [i] of the chain. *)
Lemma settled_in_history fuel i cur visited eff :
  i < fuel -> ids !! i = Some (as_bytes cur) ->
  (forall v, v ∈ visited -> exists k, i < k /\ ids !! k = Some (as_bytes v)) ->
  settles seen (ask_in_history fuel u eff cur visited)
    (fun r => r = Ok (bool_decide (as_bytes eff ∈ take (S i) ids))).
Proof.
  revert i cur visited; induction fuel as [|fuel IH]; intros i cur visited Hf Hi Hv; [lia|].
  cbn [ask_in_history]. rewrite bool_decide_false by (by apply (not_visited i)).
  pose proof (take_S_r ids i _ Hi) as Htake.
  case_bool_decide as Ec; [rewrite Htake; cbn; rewrite bool_decide_eq_true_2; [done|set_solver]|].
  destruct (settled_transaction i cur Hi) as (r & Hr & p & Hp & Hlink). eapply settles_ok; [exact Hr|].
  eapply settles_pure; [done|]. eapply settles_pure; [exact Hp|].
  assert (bool_decide (as_bytes eff ∈ take (S i) ids) = bool_decide (as_bytes eff ∈ take i ids)) as ->.
  { apply bool_decide_ext. rewrite Htake, elem_of_app, list_elem_of_singleton. split; [|by left].
    intros [?|?%(inj as_bytes)]; congruence. }
  destruct i as [|i], p as [p|]; try done. apply (IH i p); [lia | done | by apply visited_next].
Qed.

Lemma chain_short : length ids <= length (transactions d0).
Proof.
  rewrite <- (length_fmap TransactionRow.transaction_id (transactions d0)).
  apply sublist_length, chain_sublist.
Qed.

Definition history_result (eff : Uuid) : result CatalogError unit :=
  fail_if (negb (bool_decide (as_bytes eff ∈ ids)))
    (InvalidArgument "requested transaction is not in table history").

Lemma settled_history fuel eff cur :
  length (transactions d0) < fuel -> last ids = Some (as_bytes cur) ->
  settles seen (ask_history fuel u eff cur) (fun r => r = history_result eff).
Proof.
  intros Hf Hl. rewrite last_lookup in Hl. unfold ask_history, history_result. pose proof chain_short.
  case_bool_decide as E.
  { subst. rewrite bool_decide_eq_true_2; [done | by eapply list_elem_of_lookup_2]. }
  pose proof (lookup_lt_Some _ _ _ Hl).
  eapply settles_ok; [apply (settled_in_history _ (Nat.pred (length ids))); [lia | done | set_solver]|].
  by rewrite take_ge by lia.
Qed.

Lemma sim_history fuel eff cur :
  length (transactions d0) < fuel -> last ids = Some (as_bytes cur) ->
  sim (fun _ _ => as_bytes eff ∈ ids) (ask_history fuel u eff cur) (ask_history fuel u eff cur).
Proof.
  intros Hf Hl. pose proof (settled_history fuel eff cur Hf Hl) as Hs.
  eapply sim_settled; [apply seen_start | exact Hs | exact Hs |].
  intros ? ? -> ->. unfold history_result. by case_bool_decide.
Qed.

Lemma sim_columns what s :
  as_bytes s ∈ schema_keys d0 -> sim eq (ask_columns what s) (ask_columns what s).
Proof.
  intros Hs. eapply (sim_bind _ _ eq); [|intros rows ? <-].
  - apply sim_ask. intros d [_ Hl]. by rewrite (later_columns _ _ Hl).
  - apply sim_pure_then. intros [] _. apply sim_pure. by destruct (traverse column_of_row rows).
Qed.

Lemma sim_stats eff : sim eq (ask_stats u eff) (ask_stats u eff).
Proof.
  eapply (sim_bind _ _ (fun o o' => o = None /\ o' = None)); [|intros ? ? [-> ->]; by apply sim_ret].
  assert (forall d, catalog_inv d -> head (row_order (select_stats (as_bytes u) (as_bytes eff) d)) = None) as Hs.
  { intros d Hd. unfold select_stats. rewrite (inv_stats _ Hd). cbn.
    assert (row_order (A := StatsRow.t) [] = []) as -> by (apply Permutation_nil_r; apply row_order_perm).
    done. }
  apply sim_ask. intros d [Hd _]. split; by apply Hs.
Qed.

(** The one schema row, as each state has it. *)
Definition one_schema (s : SchemaRow.t) (o : option SchemaRow.t) : Prop :=
  exists s', o = Some s' /\ unclosed_row s' = unclosed_row s /\
    opt_uuid (SchemaRow.valid_to_transaction_id s').

Lemma one_schema_seen s eff d :
  as_bytes eff ∈ ids -> select_schemas_at (as_bytes u) (as_bytes eff) d0 = [s] -> seen d ->
  one_schema s (head (row_order (take 1 (row_order (select_schemas_at (as_bytes u) (as_bytes eff) d))))).
Proof.
  intros Hin Hs [Hd Hl].
  pose proof (later_schemas _ _ Hl (as_bytes u) _ Hin) as E. rewrite Hs in E.
  destruct (select_schemas_at (as_bytes u) (as_bytes eff) d) as [|s' [|]] eqn:Es; try done.
  rewrite (row_order_singleton [s'] s') by done. rewrite (row_order_singleton _ s') by done.
  exists s'. split; [done|]. rewrite !list_fmap_singleton in E. split; [congruence|].
  assert (s' ∈ select_schemas_at (as_bytes u) (as_bytes eff) d) as Hs' by (rewrite Es; left).
  apply elem_of_filter' in Hs' as [Hs' _]. pose proof (dec_schemas _ (inv_rows _ Hd)) as Hdec.
  rewrite Forall_forall in Hdec. by apply Hdec.
Qed.

Lemma sim_schema ident eff :
  as_bytes eff ∈ ids ->
  sim (fun v v' => unclosed v' = unclosed v) (ask_schema ident u eff) (ask_schema ident u eff).
Proof.
  intros Hin. destruct (schema_at_unique d0 row (as_bytes eff) Hinv0 Hsorted Hrow) as
    (s & _ & _ & _ & Hs & _); [by rewrite Hu|]. rewrite Hu in Hs.
  assert (as_bytes <$> from_slice (SchemaRow.schema_uuid s) = Some (SchemaRow.schema_uuid s) /\
    SchemaRow.schema_uuid s ∈ schema_keys d0) as [Hsu Hkey].
  { assert (s ∈ select_schemas_at (as_bytes u) (as_bytes eff) d0) as Hin' by (rewrite Hs; left).
    apply elem_of_filter' in Hin' as [Hin' _]. pose proof (dec_schemas _ (inv_rows _ Hinv0)) as Hdec.
    rewrite Forall_forall in Hdec. destruct (Hdec s Hin') as [Hsu _].
    split; [|by apply list_elem_of_fmap_2]. apply uuid_decodes in Hsu as (v & -> & ->). done. }
  destruct (from_slice (SchemaRow.schema_uuid s)) as [su|] eqn:Esu; [|done]. injection Hsu as Hsu.
  eapply (sim_bind _ _ (fun o o' => one_schema s o /\ one_schema s o')).
  { apply sim_ask. intros d Hd. split; apply one_schema_seen; try done. split; [done | apply later_refl]. }
  intros o o' [(r & -> & Er & Hr) (r' & -> & Er' & Hr')].
  assert (SchemaRow.schema_uuid r = as_bytes su /\ SchemaRow.schema_uuid r' = as_bytes su) as [Hru Hru'].
  { rewrite Hsu. by injection Er; injection Er'. }
  eapply (sim_bind _ _ (fun a a' => a = r /\ a' = r')); [by apply sim_pure|]. intros ? ? [-> ->].
  rewrite Hru, Hru', (proj2 (uuid_from_row_ok _ su) eq_refl). apply sim_pure_then. intros ? [= <-].
  eapply sim_bind; [apply sim_columns; by rewrite Hsu|]. intros cols ? <-. apply sim_pure.
  apply same_schema_of_row; [congruence | done | done].
Qed.

(** The rows of a query on files, as each state has them. *)
Record same_rows (n : nat) (rows rows' : list FileRow.t) : Prop := {
  rows_length : length rows' = length rows;
  rows_removed : Forall (fun r => opt_uuid (FileRow.removed_in_transaction_id r)) rows;
  rows_removed' : Forall (fun r => opt_uuid (FileRow.removed_in_transaction_id r)) rows';
  rows_distinct : NoDup (FileRow.file_uuid <$> rows);
  rows_perm : length rows <= n -> unremoved_row <$> rows' ≡ₚ unremoved_row <$> rows
}.

Lemma sim_file_rows n (q : Db -> list FileRow.t) :
  (forall d, exists p, q d = List.filter p (files d)) ->
  (forall d, later d0 d -> unremoved_row <$> q d = unremoved_row <$> q d0) ->
  sim (same_rows (N.to_nat n)) (ask_limit (n + 1) q) (ask_limit (n + 1) q).
Proof.
  intros Hq Hl. apply sim_ask. intros d [Hd Hld]. specialize (Hl d Hld).
  assert (forall x, catalog_inv x ->
    Forall (fun r => opt_uuid (FileRow.removed_in_transaction_id r)) (take (N.to_nat (n + 1)) (row_order (q x)))) as Hrem.
  { intros x Hx. apply Forall_take. rewrite row_order_perm. apply Forall_forall. destruct (Hq x) as [p ->].
    intros r [Hr _]%elem_of_filter'. by apply (proj1 (Forall_forall _ _) (dec_files _ (inv_rows _ Hx))). }
  assert (length (row_order (q d)) = length (row_order (q d0))) as El.
  { rewrite !row_order_perm. apply (f_equal length) in Hl. by rewrite !length_fmap in Hl. }
  split; [by rewrite !length_take, El | by apply Hrem | by apply Hrem | |].
  - eapply sublist_NoDup; [|apply fmap_sublist, sublist_take]. rewrite row_order_perm. destruct (Hq d0) as [p ->].
    eapply sublist_NoDup; [apply (ok_file_pk _ (inv_db _ Hinv0))|apply fmap_sublist, filter_sublist].
  - intros Hle. rewrite length_take in Hle. rewrite !take_ge by lia. by rewrite !row_order_perm, Hl.
Qed.

Lemma sim_files eff :
  as_bytes eff ∈ ids ->
  sim (fun fs fs' => unremoved <$> fs' ≡ₚ unremoved <$> fs) (ask_files u eff) (ask_files u eff).
Proof.
  intros Hin. eapply (sim_bind _ _ (same_rows (N.to_nat limits.MAX_FILES_PER_QUERY))).
  { apply sim_file_rows; [by eexists|]. intros d Hl. by apply (later_files _ _ Hl). }
  intros rows rows' [Hl Hd Hd' _ Hp]. rewrite Hl. apply sim_pure_then. intros [] Hlim. apply sim_pure.
  eapply same_traverse; [exact unremoved_of_row | done | done |]. apply Hp.
  destruct (limits.MAX_FILES_PER_QUERY <? N.of_nat (length rows))%N eqn:En; [done|]. apply N.ltb_ge in En. lia.
Qed.

(** What follows the SELECT on tables. *)
Lemma sim_rest client fuel ident at_ :
  length (transactions d0) < fuel ->
  sim same_snapshot (ask_rest client fuel ident at_ row) (ask_rest client fuel ident at_ row).
Proof.
  intros Hf. destruct (chain_head d0 Hinv0 row u Hrow Hu) as (cur & Hcur & Hlast).
  unfold ask_rest. rewrite Hu, (proj2 (uuid_from_row_ok _ u) eq_refl).
  apply sim_pure_then. intros ? [= <-]. apply sim_pure_then. intros _ _.
  rewrite Hcur. apply sim_pure_then. intros c Hc%uuid_from_row_optional_ok.
  destruct c as [c|]; [|done]. injection Hc as <-%(inj as_bytes).
  apply sim_pure_then. intros props _. apply sim_pure_then. intros _ _.
  apply sim_pure_then. intros ? [= <-]. cbn zeta.
  eapply sim_bind; [by apply sim_history|]. intros ? ? Hin.
  eapply sim_bind; [by apply sim_schema|]. intros v v' Hv.
  eapply sim_bind; [by apply sim_files|]. intros fs fs' Hfs.
  eapply sim_bind; [apply sim_stats|]. intros st ? <-. by apply sim_ret.
Qed.

End statements.

(** ** Runs *)

Definition engine_failed {A} (r : result CatalogError A) : Prop :=
  exists code, r = Err (Storage (EngineFailure code)).

Section runs.
Context `{Env} (others : relation World) `{!Moves others}.

Lemma irun_steps {A} (m : R A) w r w' : irun others m w r w' -> rtc others w w'.
Proof.
  revert w; induction m as [r0|X q k IH|]; intros w; cbn.
  - by intros [_ ->].
  - assert (others w (bump w)) as Hb by (apply moves_idle; cbn; [done | lia]).
    destruct (fault (tick w)); [intros [_ ->]; by apply rtc_once|].
    intros (w1 & Hr & Hk). eapply rtc_l; [exact Hb|]. etrans; [exact Hr | by eapply IH].
  - by intros [_ ->].
Qed.

Lemma irun_settles (J : Db -> Prop) {A} (m : R A) Q w r w' :
  irun others m w r w' ->
  (forall wd, rtc others w wd -> rtc others wd w' -> J (db wd)) ->
  settles J m Q -> exists r1, r = Some r1 /\ (engine_failed r1 \/ Q r1).
Proof.
  revert w; induction m as [r0|X q k IH|]; intros w; cbn [irun settles].
  - intros [-> _] _ HQ. eauto.
  - intros Hrun HJ HQ. pose proof (irun_steps (Ask q k) w r w' Hrun) as Hw.
    destruct (fault (tick w)) as [code|]; [destruct Hrun as [-> _]; unfold engine_failed; eauto|].
    destruct Hrun as (w1 & Hr & Hk). eapply (IH _ w1 Hk); [|by apply HQ, HJ].
    intros wd Hd Hd'. apply HJ; [|done]. eapply rtc_l; [|etrans; [exact Hr | exact Hd]].
    apply moves_idle; cbn; [done | lia].
  - by intros _ _ [].
Qed.

(** What is read on the way is seen from the start. *)
Lemma steps_seen `{!EnumerationLaws} w w' wd :
  catalog_inv (db w) -> sorted_ids (db w') -> rtc others w wd -> rtc others wd w' ->
  seen (db w) (db wd).
Proof.
  intros Hinv Hs Hd1 Hd2. pose proof (steps_inv _ _ _ Hinv Hd1) as Hd. split; [done|].
  apply (steps_later others); [done | | done]. eapply later_sorted; [by apply (steps_later others) | exact Hs].
Qed.

(** Run alone, a computation answers what it answers on the one state it sees. *)
Lemma denote_answer {A} (m : R A) w r :
  answer (db w) m = Some r ->
  exists r' n, denote m w = Some (r', mk_world (db w) n) /\ (engine_failed r' \/ r' = r).
Proof.
  destruct w as [d n]. cbn. revert n; induction m as [r0|X q k IH|]; intros n; cbn; [|intros Ha|done].
  - intros [= ->]. eauto.
  - unfold mbind, M_bind, fetch, bump. cbn. destruct (fault n) as [code|]; [unfold engine_failed; eauto 6|].
    by apply IH.
Qed.

End runs.

(** ** Runs against one state *)

Lemma irun_bind `{Env} others {A B} (m : R A) (f : A -> R B) w r w' :
  irun others (m ≫= f) w r w' ->
  exists r1 w1, irun others m w r1 w1 /\
    match r1 with
    | Some (Ok a) => irun others (f a) w1 r w'
    | Some (Err e) => r = Some (Err e) /\ w' = w1
    | None => r = None /\ w' = w1
    end.
Proof.
  change (m ≫= f) with (bind m f). revert w; induction m as [[a|e]|X q k IH|]; intros w; cbn [bind irun].
  - intros Hr. by exists (Some (Ok a)), w.
  - intros [-> ->]. by exists (Some (Err e)), w.
  - destruct (fault (tick w)) as [code|].
    + intros [-> ->]. by eexists _, _.
    + intros (w1 & Hw1 & (r1 & w2 & Hr1 & Hr)%IH). exists r1, w2. split; [eauto | done].
  - intros [-> ->]. by exists None, w.
Qed.

(** [r] is what [m] answers on [d], up to [E], unless the engine failed. *)
Definition follows (d : Db) {A B} (E : A -> B -> Prop) (m : R A) (r : option (result CatalogError B)) : Prop :=
  exists r1, r = Some r1 /\ (engine_failed r1 \/ exists r2, answer d m = Some r2 /\ both E r2 r1).

Lemma follows_mono d {A B} (E F : A -> B -> Prop) m r :
  follows d E m r -> (forall a b, E a b -> F a b) -> follows d F m r.
Proof.
  intros (r1 & -> & Hr) HEF. exists r1. split; [done|]. destruct Hr as [?|(r2 & Ha & Hb)]; [by left | right].
  exists r2. split; [done|]. destruct r2, r1; cbn in *; auto.
Qed.

Lemma follows_bind `{Env} others `{!Moves others} d {A B A' B'} (E : A -> B -> Prop) (F : A' -> B' -> Prop) m n f g w r w' :
  irun others (n ≫= g) w r w' ->
  (forall r1 w1, irun others n w r1 w1 -> rtc others w1 w' -> follows d E m r1) ->
  (forall a b w1, E a b -> rtc others w w1 -> irun others (g b) w1 r w' -> follows d F (f a) r) ->
  follows d F (m ≫= f) r.
Proof.
  intros (r1 & w1 & Hn & Hg)%irun_bind Hm Hf. pose proof (irun_steps others _ _ _ _ Hn) as Hw1.
  destruct r1 as [[b|e]|].
  - destruct (Hm _ _ Hn (irun_steps others _ _ _ _ Hg)) as (r2 & [= <-] & [(c & [=])|(r3 & Ha & Hb)]).
    destruct r3 as [a|e]; [|done]. unfold follows in *. rewrite answer_bind, Ha. by apply (Hf a b w1).
  - destruct Hg as [-> ->]. destruct (Hm _ _ Hn (rtc_refl _ _)) as (r2 & [= <-] & Hr).
    exists (Err e). split; [done|]. destruct Hr as [(c & [= ->])|(r3 & Ha & Hb)]; [left; by exists c | right].
    destruct r3 as [|e']; [done|]. exists (Err e'). by rewrite answer_bind, Ha.
  - destruct Hg as [-> ->]. by destruct (Hm _ _ Hn (rtc_refl _ _)) as (r2 & [=] & _).
Qed.

(** Against the method run alone. *)
Lemma follows_denote `{Env} {A B} (E : A -> B -> Prop) (m : R A) (m' : M A) w r r0 w0 :
  denote m w = m' w -> m' w = Some (r0, w0) -> follows (db w) E m r ->
  exists r1, r = Some r1 /\ (engine_failed r0 \/ engine_failed r1 \/ both E r0 r1).
Proof.
  intros Hm Hseq (r1 & -> & Hr). exists r1. split; [done|]. destruct Hr as [?|(r2 & Ha & Hb)]; [by right; left|].
  destruct (denote_answer _ _ _ Ha) as (r3 & n & E' & Hr3). rewrite Hm, Hseq in E'. injection E' as -> _.
  destruct Hr3 as [?| ->]; [by left | by right; right].
Qed.

(** A read that starts in [w] and is interrupted. *)
Lemma irun_read `{Env} `{!EnumerationLaws} others `{!Moves others} client fuel ident at_ w r w' :
  catalog_inv (db w) -> sorted_ids (db w') -> walk_fuel w <= fuel ->
  irun others (ask_read_table client fuel ident at_) w r w' ->
  follows (db w) same_snapshot (ask_read_table client fuel ident at_) r.
Proof.
  intros Hinv Hs Hfuel Hrun. pose proof (irun_steps others _ _ _ _ Hrun) as Hsteps. unfold follows.
  cbn in Hrun. destruct (fault (tick w)) as [code|].
  { destruct Hrun as [-> _]. unfold engine_failed. eauto 6. }
  destruct Hrun as (w1 & Hw1 & Hrun). cbn.
  set (o := head (row_order (select_table (TableIdent.namespace ident) (TableIdent.name ident) (db w))))
    in *.
  destruct o as [row|] eqn:Eo; cbn in Hrun |- *.
  - assert (row ∈ tables (db w)) as Hrow.
    { unfold o in Eo. apply head_Some_elem_of in Eo. rewrite row_order_perm in Eo.
      by apply elem_of_filter' in Eo as [Hrow _]. }
    destruct (table_uuid_decodes _ _ Hinv Hrow) as [u Hu].
    assert (sorted_ids (db w)) as Hsw by (eapply later_sorted; [by apply (steps_later others) | exact Hs]).
    assert (length (transactions (db w)) < fuel) as Hlen by (unfold walk_fuel in *; lia).
    pose proof (sim_rest (db w) Hinv Hsw row u Hrow Hu client fuel ident at_ Hlen) as Hsim.
    eapply (irun_settles others (seen (db w))) in Hrun as (r1 & -> & Hr1); [| |exact Hsim].
    + exists r1. split; [done|]. destruct Hr1 as [Hf|Hr1]; [by left | right; exact Hr1].
    + intros wd Hd1 Hd2. apply (steps_seen others w w'); [done..| |done].
      eapply rtc_l; [|etrans; [exact Hw1 | done]]. apply moves_idle; cbn; [done | lia].
  - destruct Hrun as [-> _]. eexists. split; [done|]. right. eexists. by split.
Qed.

(** C11: reads are linearizable.  [read_table] opens no transaction: others may
    change the database between two of its statements.  Whatever they do that
    keeps the promises of [Moves] (any calls of any clients, one after the other
    or as transactions that run at once), it returns after finitely many statements, and unless the engine fails
    what it would have returned on the state its first statement saw: it fails
    if that fails, and if that succeeds it returns the same snapshot — the same
    schema and columns, the same files, properties and transaction — but for
    the order of the files and the marks that say by which later transaction a
    file was removed or the schema replaced. *)
Theorem interleaved_read_linearizable `{Env} `{!EnumerationLaws}
    others `{!Moves others} client fuel ident at_ w r w' r0 w0 :
  catalog_inv (db w) -> sorted_ids (db w') -> walk_fuel w <= fuel ->
  irun others (ask_read_table client fuel ident at_) w r w' ->
  read_table client ident at_ w = Some (r0, w0) ->
  exists r1, r = Some r1 /\ (engine_failed r0 \/ engine_failed r1 \/ both same_snapshot r0 r1).
Proof.
  intros Hinv Hs Hf Hrun Hseq.
  eapply follows_denote; [exact (denote_read_table client fuel ident at_ w Hf) | exact Hseq |].
  by eapply irun_read.
Qed.

(** ** Witnesses *)

(** A run that nobody interrupts. *)
Fixpoint alone `{Env} {A} (m : R A) (w : World) : option (result CatalogError A) * World :=
  match m with
  | Return r => (Some r, w)
  | Ask q k =>
      match fault (tick w) with
      | Some code => (Some (Err (Storage (EngineFailure code))), bump w)
      | None => alone (k (q (db w))) (bump w)
      end
  | Stuck => (None, w)
  end.

(** A run interrupted once, after [n] statements and the next one. *)
Fixpoint interrupted `{Env} (n : nat) (call : World -> World) {A} (m : R A) (w : World) {struct m} :
    option (result CatalogError A) * World :=
  match m with
  | Return r => (Some r, w)
  | Ask q k =>
      match fault (tick w), n with
      | Some code, _ => (Some (Err (Storage (EngineFailure code))), bump w)
      | None, O => alone (k (q (db w))) (call (bump w))
      | None, S n => interrupted n call (k (q (db w))) (bump w)
      end
  | Stuck => (None, w)
  end.

Lemma irun_alone `{Env} others {A} (m : R A) w : irun others m w (alone m w).1 (alone m w).2.
Proof.
  revert w; induction m as [r|X q k IH|]; intros w; cbn; [done | | done].
  destruct (fault (tick w)); [done|]. exists (bump w). split; [apply rtc_refl | apply IH].
Qed.

Lemma irun_interrupted `{Env} others n call {A} (m : R A) w :
  (forall w, others w (call w)) -> irun others m w (interrupted n call m w).1 (interrupted n call m w).2.
Proof.
  intros Hc. revert n w; induction m as [r|X q k IH|]; intros n w; cbn; [done | | done].
  destruct (fault (tick w)); [by destruct n|]. destruct n as [|n].
  - exists (call (bump w)). split; [by apply rtc_once | apply irun_alone].
  - exists (bump w). split; [apply rtc_refl | apply IH].
Qed.

#[local] Existing Instances ref_env ref_ipc_laws ref_enumeration_laws.

(** A commit of this client, as one step. *)
Definition commit_call (base : TxnId) (mutation : Mutation.t) (w : World) : World :=
  after (Sqlite.commit client events base mutation) w.

Lemma commit_call_step base mutation w : step Limits.Sqlite w (commit_call base mutation w).
Proof.
  unfold commit_call, after. destruct (Sqlite.commit client events base mutation w) as [[r w']|] eqn:E.
  - apply (step_call _ _ _ client (CallCommit events base mutation) (_ ← r; Ok tt)).
    cbn. unfold discard, mbind, M_bind. cbn in E. rewrite E. by destruct r.
  - by apply step_idle.
Qed.

(** The reachable worlds of the reference environment are sorted. *)
Lemma ref_sorted w w' :
  rtc (step Limits.Sqlite) start w -> rtc (step Limits.Sqlite) w w' -> Nat.leb (tick w') 100 = true ->
  sorted_ids (db w').
Proof.
  intros Hr Hr' Ht%Nat.leb_le.
  apply (@sorted_when_reachable ref_env 100 ref_monotone Limits.Sqlite 1 w'); [by etrans | exact Ht].
Qed.

Lemma world2_reachable : rtc (step Limits.Sqlite) start world2.
Proof. eapply rtc_l; [apply start_to_world1 | apply rtc_once, world1_to_world2]. Qed.

(** The second commit completes between the first and the second statement. *)
Definition interrupted_read : option (result CatalogError TableView.t) * World :=
  interrupted 0 (commit_call txn2 mutation2) (ask_read_table client (walk_fuel world2) events None) world2.

Lemma interrupted_read_runs :
  irun (step Limits.Sqlite) (ask_read_table client (walk_fuel world2) events None) world2
    interrupted_read.1 interrupted_read.2.
Proof. apply irun_interrupted, commit_call_step. Qed.

Lemma interrupted_read_sorted : sorted_ids (db interrupted_read.2).
Proof.
  apply (ref_sorted world2); [apply world2_reachable | | vm_compute; reflexivity].
  exact (irun_steps (step Limits.Sqlite) _ _ _ _ interrupted_read_runs).
Qed.

(** The read returns the two files of the first commit, although the second one,
    which deletes one of them, completes while it runs. *)
Lemma interleaved_read_linearizable_witness :
  exists r w' view, irun (step Limits.Sqlite) (ask_read_table client (walk_fuel world2) events None) world2 r w' /\
    length (transactions (db w')) = 3 /\ r = Some (Ok view) /\
    TableView.transaction_id view = txn2 /\ length (TableView.files view) = 2.
Proof.
  destruct (read_table client events None world2) as [[r0 w0]|] eqn:E; [|vm_compute in E; discriminate E].
  assert (exists v0, r0 = Ok v0 /\ TableView.transaction_id v0 = txn2 /\ length (TableView.files v0) = 2)
    as (v0 & Ev & Ht & Hf).
  { vm_compute in E. injection E as <- _. eexists. split; [reflexivity|]. split; [apply (inj as_bytes)|]; vm_compute; reflexivity. }
  destruct (interleaved_read_linearizable (step Limits.Sqlite) client (walk_fuel world2) events None world2 _ _ r0 w0
    world2_inv interrupted_read_sorted (le_n _) interrupted_read_runs E)
    as (r1 & Er & [[c Hc]|[[c Hc]|Hboth]]).
  - exfalso. rewrite Ev in Hc. discriminate Hc.
  - exfalso. rewrite Hc in Er. vm_compute in Er. discriminate Er.
  - rewrite Ev in Hboth. destruct r1 as [view|e]; [|destruct Hboth].
    exists interrupted_read.1, interrupted_read.2, view.
    split; [exact interrupted_read_runs|]. split; [vm_compute; reflexivity|].
    split; [exact Er|]. split; [rewrite (snap_transaction _ _ Hboth); exact Ht|].
    rewrite <- Hf, <- (length_fmap unremoved (TableView.files view)), (snap_files _ _ Hboth).
    apply length_fmap.
Defined.
