(* ===== verification/ReadErrors.v ===== *)
(** * The errors of a read

    On the states the catalog reaches, a read can fail in a few ways only.  The
    other errors of the code — a broken or cyclic parent chain, a table without
    a current transaction, a transaction without a schema, identifiers that do
    not decode — never occur. *)

From S2P Require Import Prelude Uuid Error Limits Json DataType Format Schema Models Db DbFacts World Helpers Catalog Api Effects ReadFacts Invariant RefEnv Scenario Safety Commit Order Views Later Statements Interleave.

Section errors.
Context `{Env} `{!EnumerationLaws} (d : Db) (Hinv : catalog_inv d) (Hsorted : sorted_ids d).

(** How [read_table] may fail on [d]. *)
Inductive read_error (client : ProtocolVersions.t) (ident : TableIdent.t) (at_ : option TxnId) :
    CatalogError -> Prop :=
  | err_engine code : read_error client ident at_ (Storage (EngineFailure code))
  | err_no_table : table_row_of d ident = None -> read_error client ident at_ (no_table ident)
  | err_properties row e :
      table_row_of d ident = Some row -> parse_table_properties (TableRow.properties row) = Err e ->
      read_error client ident at_ e
  | err_protocol row e :
      table_row_of d ident = Some row -> (ProtocolVersions.reader client < TableRow.min_reader_version row)%Z ->
      ensure_reader_protocol_compatible client ident (TableRow.min_reader_version row) = Err e ->
      read_error client ident at_ e
  | err_history row t :
      table_row_of d ident = Some row -> at_ = Some t -> as_bytes t ∉ chain d (TableRow.table_uuid row) ->
      read_error client ident at_ (InvalidArgument "requested transaction is not in table history")
  | err_columns s :
      s ∈ schemas d ->
      (limits.MAX_COLUMNS_PER_SCHEMA < N.of_nat (length (select_columns (SchemaRow.schema_uuid s) d)))%N ->
      read_error client ident at_
        (LimitExceeded ("column count" +:+ " exceeds limit of " +:+ pretty limits.MAX_COLUMNS_PER_SCHEMA))
  | err_type r e :
      r ∈ columns d -> decode_data_type (ColumnRow.column_type r) = Err e -> read_error client ident at_ e
  | err_files row t :
      table_row_of d ident = Some row ->
      (limits.MAX_FILES_PER_QUERY < N.of_nat (length (select_files_at (TableRow.table_uuid row) (as_bytes t) d)))%N ->
      read_error client ident at_
        (LimitExceeded ("file count exceeds limit of " +:+ pretty limits.MAX_FILES_PER_QUERY))
  | err_json r e :
      r ∈ files d ->
      parse_json_optional (FileRow.partition_values r) = Err e \/ parse_json_optional (FileRow.format_options r) = Err e ->
      read_error client ident at_ e.

(** [m], run on [d], succeeds with [K] or fails with one of [P]. *)
Definition only (P : CatalogError -> Prop) {A} (m : R A) (K : A -> Prop) : Prop :=
  settles (eq d) m (fun r => match r with Ok a => K a | Err e => P e end).

Lemma only_bind P {A B} (m : R A) (f : A -> R B) K :
  only P m (fun a => only P (f a) K) -> only P (m ≫= f) K.
Proof. apply settles_bind. Qed.

Lemma only_pure P {A B} (r : result CatalogError A) (f : A -> R B) K :
  match r with Ok a => only P (f a) K | Err e => P e end -> only P (pure r ≫= f) K.
Proof. by destruct r. Qed.

Lemma only_ask P {X B} (q : Db -> X) (f : X -> R B) K : only P (f (q d)) K -> only P (ask q ≫= f) K.
Proof. intros Hf ? <-. exact Hf. Qed.

Lemma only_ok P {A} (m : R A) a (K : A -> Prop) :
  settles (eq d) m (fun r => r = Ok a) -> K a -> only P m K.
Proof. intros Hm HK. eapply settles_mono; [exact Hm|]. by intros r ->. Qed.

Lemma traverse_error {E A B} (f : A -> result E B) l e :
  traverse f l = Err e -> exists x, x ∈ l /\ f x = Err e.
Proof.
  induction l as [|x l IH]; cbn; [done|]. destruct (f x) as [y|e'] eqn:Ef; cbn.
  - destruct (traverse f l); cbn; [done|]. intros [= ->]. destruct IH as (z & Hz & Ez); [done|].
    exists z. split; [by right | done].
  - intros [= ->]. exists x. split; [left | done].
Qed.

(** Only the JSON of a stored file may fail to decode. *)
Lemma file_row_error r e :
  r ∈ files d -> file_of_row r = Err e ->
  parse_json_optional (FileRow.partition_values r) = Err e \/ parse_json_optional (FileRow.format_options r) = Err e.
Proof.
  intros Hr. pose proof (proj1 (Forall_forall _ _) (dec_files _ (inv_rows _ Hinv)) r Hr) as (D1 & D2 & D3 & D4).
  unfold file_of_row. destruct (uuid_row_decodes _ D1) as (? & -> & _). cbn.
  destruct (uuid_row_decodes _ D2) as (? & -> & _). cbn. destruct (uuid_row_decodes _ D3) as (? & -> & _). cbn.
  destruct (opt_row_decodes _ D4) as (? & -> & _). cbn.
  destruct (parse_json_optional (FileRow.partition_values r)); cbn; [|intros [= ->]; by left].
  destruct (parse_json_optional (FileRow.format_options r)); cbn; [done | intros [= ->]; by right].
Qed.

(** Only the type of a stored column may fail to decode. *)
Lemma column_row_error r e :
  r ∈ columns d -> column_of_row r = Err e -> decode_data_type (ColumnRow.column_type r) = Err e.
Proof.
  intros Hr. pose proof (proj1 (Forall_forall _ _) (dec_columns _ (inv_rows _ Hinv)) r Hr) as (D1 & D2 & _).
  unfold column_of_row. destruct (uuid_row_decodes _ D1) as (? & -> & _). cbn.
  destruct (uuid_row_decodes _ D2) as (? & -> & _). cbn. by destruct (decode_data_type _); cbn; [|intros [= ->]].
Qed.

Context (client : ProtocolVersions.t) (ident : TableIdent.t) (at_ : option TxnId).
Notation allowed := (read_error client ident at_).

Section table.
Context (row : TableRow.t) (u : Uuid) (Hid : table_row_of d ident = Some row).
Context (Hrow : row ∈ tables d) (Hu : TableRow.table_uuid row = as_bytes u).
Notation ids := (chain d (as_bytes u)).

Lemma only_schema eff : as_bytes eff ∈ ids -> only allowed (ask_schema ident u eff) (fun _ => True).
Proof.
  intros Hin. destruct (schema_at_unique d row (as_bytes eff) Hinv Hsorted Hrow) as (s & _ & _ & _ & Hs & _);
    [by rewrite Hu|]. rewrite Hu in Hs.
  assert (s ∈ schemas d) as Hsin.
  { assert (s ∈ select_schemas_at (as_bytes u) (as_bytes eff) d) as Hx by (rewrite Hs; left).
    by apply elem_of_filter' in Hx as [? _]. }
  destruct (schema_row_total d Hinv s Hsin) as (su & E1 & F1 & Hv).
  unfold ask_schema. apply only_bind, only_ask. rewrite Hs.
  rewrite (row_order_singleton [s] s) by done. rewrite (row_order_singleton _ s) by done. cbn [head].
  apply only_pure. cbn [ok_or]. apply only_pure. rewrite E1. apply only_bind. unfold ask_columns. apply only_ask.
  set (rows := take _ _). assert (forall r, r ∈ rows -> r ∈ select_columns (as_bytes su) d) as Hrows.
  { intros r Hr. unfold rows in Hr. eapply sublist_subseteq in Hr; [|apply sublist_take].
    by rewrite merge_sort_Permutation, row_order_perm in Hr. }
  assert (length rows <= length (select_columns (as_bytes su) d)) as Hl.
  { unfold rows. rewrite length_take, merge_sort_Permutation, row_order_perm. lia. }
  apply only_pure. destruct (limits.MAX_COLUMNS_PER_SCHEMA <? N.of_nat (length rows))%N eqn:En; cbn [fail_if].
  { apply N.ltb_lt in En. apply (err_columns _ _ _ s); [done | rewrite F1; lia]. }
  destruct (traverse column_of_row rows) as [cols|e] eqn:Et.
  - cbn. destruct (Hv cols) as (v & -> & _). done.
  - destruct (traverse_error _ _ _ Et) as (r & [Hr _]%Hrows%elem_of_filter' & Er).
    by apply (err_type _ _ _ r), column_row_error.
Qed.

Lemma only_files eff : only allowed (ask_files u eff) (fun _ => True).
Proof.
  unfold ask_files. apply only_bind, only_ask. set (rows := take _ _). apply only_pure.
  destruct (limits.MAX_FILES_PER_QUERY <? N.of_nat (length rows))%N eqn:En; cbn [fail_if].
  - apply N.ltb_lt in En. apply (err_files _ _ _ row eff); [done|]. rewrite Hu. unfold rows in En.
    rewrite length_take, row_order_perm in En. lia.
  - destruct (traverse file_of_row rows) as [fs|e] eqn:Et; [done|]. cbn.
    destruct (traverse_error _ _ _ Et) as (r & Hr & Er). unfold rows in Hr.
    assert (r ∈ files d) as Hin.
    { eapply sublist_subseteq in Hr; [|apply sublist_take]. rewrite row_order_perm in Hr. by apply elem_of_filter' in Hr as [? _]. }
    by apply (err_json _ _ _ r), file_row_error.
Qed.

Lemma only_rest fuel : length (transactions d) < fuel -> only allowed (ask_rest client fuel ident at_ row) (fun _ => True).
Proof.
  intros Hf. destruct (chain_head d Hinv row u Hrow Hu) as (cur & Hcur & Hlast).
  destruct (proj1 (Forall_forall _ _) (dec_tables _ (inv_rows _ Hinv)) row Hrow) as (_ & Hsch & _).
  unfold ask_rest. apply only_pure. rewrite Hu, (proj2 (uuid_from_row_ok _ u) eq_refl).
  apply only_pure. destruct (opt_row_decodes _ Hsch) as (? & -> & _). apply only_pure.
  rewrite Hcur, (proj2 (uuid_from_row_optional_ok _ (Some cur)) eq_refl). apply only_pure.
  destruct (parse_table_properties (TableRow.properties row)) as [p|e] eqn:Ep; [|by eapply err_properties].
  apply only_pure. destruct (ensure_reader_protocol_compatible _ _ _) as [[]|e] eqn:Er.
  2: { apply (err_protocol _ _ _ row e); [done | | done]. unfold ensure_reader_protocol_compatible in Er.
       destruct (_ <? _)%Z eqn:E; [by apply Z.ltb_lt | done]. }
  apply only_pure. cbn [ok_or]. cbn zeta. set (eff := default cur at_).
  apply only_bind. pose proof (settled_history d Hinv Hsorted row u Hrow Hu fuel eff cur Hf Hlast) as Hh.
  eapply settles_mono; [eapply settles_weaken; [|exact Hh]; intros ? <-; split; [done | apply later_refl]|].
  intros ? ->. unfold history_result. case_bool_decide as Hin; cbn [negb fail_if].
  - apply only_bind. eapply settles_mono; [by apply only_schema|]. intros [v|e]; [intros _|done].
    apply only_bind. eapply settles_mono; [apply only_files|]. intros [fs|e]; [intros _|done].
    unfold ask_stats. apply only_bind, only_bind, only_ask. unfold select_stats. rewrite (inv_stats _ Hinv). cbn.
    assert (row_order (A := StatsRow.t) [] = []) as -> by (apply Permutation_nil_r; apply row_order_perm). done.
  - destruct at_ as [t|] eqn:Eat; [apply (err_history _ _ _ row t); [done | done | by rewrite Hu]|].
    exfalso. apply Hin. rewrite last_lookup in Hlast. by eapply list_elem_of_lookup_2.
Qed.

End table.

Lemma only_read_table fuel :
  length (transactions d) < fuel -> only allowed (ask_read_table client fuel ident at_) (fun _ => True).
Proof.
  intros Hf. unfold ask_read_table, ask_table. apply only_bind, only_bind, only_ask.
  destruct (table_row_of d ident) as [row|] eqn:Hid.
  - rewrite (row_order_singleton _ row) by (apply table_row_of_select; [apply Hinv | done]). cbn.
    pose proof Hid as (Hrow & _)%table_row_of_some.
    destruct (table_uuid_decodes _ _ Hinv Hrow) as [u Hu].
    by eapply only_rest.
  - pose proof Hid as Hn. unfold table_row_of in Hn. apply head_None in Hn. rewrite Hn.
    assert (row_order (A := TableRow.t) [] = []) as -> by (apply Permutation_nil_r; apply row_order_perm).
    cbn. by apply err_no_table.
Qed.

End errors.

(** C34: a read of a reachable state fails in no other way than these: the engine
    fails; there is no such table; the client's protocol version is too low;
    the requested transaction is not in the table's history; a schema has more
    columns, or a transaction more files, than a query may return; stored JSON
    does not parse, or the encoded type of a column does not decode. *)
Theorem read_table_errors `{Env} `{!EnumerationLaws} client ident at_ w e w' :
  catalog_inv (db w) -> sorted_ids (db w) ->
  read_table client ident at_ w = Some (Err e, w') -> read_error (db w) client ident at_ e.
Proof.
  intros Hinv Hs E.
  pose proof (only_read_table (db w) Hinv Hs client ident at_ (walk_fuel w) ltac:(unfold walk_fuel; lia)) as Ho.
  apply settles_answer with (d := db w) in Ho as (r & Hr & Hok); [|done].
  destruct (denote_answer _ _ _ Hr) as (r' & n & E' & Hr'). rewrite denote_read_table, E in E' by done.
  injection E' as <- _. destruct Hr' as [(code & [= ->])| <-]; [apply err_engine | exact Hok].
Qed.

(** ** Witness *)

#[local] Existing Instances ref_env ref_ipc_laws ref_enumeration_laws.

Lemma read_table_errors_witness :
  exists e w', read_table client events (Some f1) world3 = Some (Err e, w') /\
    read_error (db world3) client events (Some f1) e.
Proof.
  destruct (read_table client events (Some f1) world3) as [[[v|e] w']|] eqn:E; [vm_compute in E; discriminate E | |
    vm_compute in E; discriminate E].
  exists e, w'. split; [reflexivity|]. exact (read_table_errors client events (Some f1) world3 e w' world3_inv world3_sorted E).
Defined.
