(* ===== verification/Create.v ===== *)
(** * Creating a table

    What [create_table] adds, what a read of the new table returns, and the
    errors: a name that is taken, a client whose protocol version is too low.
    The JSON of table properties round-trips through the database. *)

From S2P Require Import Prelude Uuid Error Limits Json DataType Format Schema Models Db DbFacts World Helpers Catalog Api Effects ReadFacts Invariant RefEnv Scenario Safety Commit Order Views.

(** ** JSON text *)

Section json.
Context `{Env} `{!SerdeJsonLaws}.

Lemma serialize_json_parse v text :
  json_safe v = true -> serialize_json v = Ok text -> parse_json (Some text) = Ok v.
Proof.
  intros Hs (t & Ht%map_err_ok & Hrest)%bind_ok. apply then_ok in Hrest as [Hl [= ->]].
  cbn. rewrite Hl. cbn. unfold from_str. by rewrite (json_round_trip _ _ Hs Ht).
Qed.

Lemma properties_text p text :
  json_safe (TableProperties.to_json p) = true ->
  serialize_json (TableProperties.to_json p) = Ok text ->
  parse_table_properties (Some text) = Ok p.
Proof.
  intros Hs Ht. unfold parse_table_properties. rewrite (serialize_json_parse _ _ Hs Ht). by destruct p.
Qed.

End json.

(** ** What a creation adds *)

(** The columns a view shows for a specification. *)
Definition columns_view (spec : SchemaSpec.t) (cols : list Column.t) : Prop :=
  Forall2 (fun p c => Column.column_name c = ColumnSpec.name p.2 /\
      Column.column_type c = ColumnSpec.column_type p.2 /\
      Column.is_nullable c = ColumnSpec.is_nullable p.2 /\
      Column.ordinal_position c = wrap_i32 (Z.of_nat (p.1 + 1)))
    (imap pair (SchemaSpec.columns spec)) cols.

Section create.
Context `{Env} `{!EnumerationLaws}.

Lemma create_ok_inv kind client ident location spec properties w i w' :
  db_ok (db w) -> create_table kind client ident location spec properties w = Some (Ok i, w') ->
  i = ident /\ db_ok (db w') /\ create_facts client ident location spec properties (db w) (db w').
Proof.
  intros Hok E. refine (wp_elim _ (fun r w' => forall i, r = Ok i -> _) _ _ _ _ E _ eq_refl).
  apply wp_create_table; [done | done |]. intros w0 Hc Hok' i1 [= <-].
  split_and!; [done | done |]. by apply create_effect_facts.
Qed.

(** The types of a specification that the store gives back. *)
Definition types_safe (spec : SchemaSpec.t) : bool :=
  forallb (fun c => ipc_safe (placeholder (ColumnSpec.column_type c))) (SchemaSpec.columns spec).

Lemma is_column_decode `{!ArrowIpcLaws} s p r :
  is_column s p r -> ipc_safe (placeholder (ColumnSpec.column_type p.2)) = true ->
  decode_data_type (ColumnRow.column_type r) = Ok (ColumnSpec.column_type p.2).
Proof. intros (_ & _ & [= <-])%is_column_encoded Hs. by apply decode_encode. Qed.

Lemma are_columns_decode `{!ArrowIpcLaws} s spec rows :
  are_columns s (SchemaSpec.columns spec) rows -> types_safe spec = true ->
  Forall column_decodes rows.
Proof.
  intros HF Hsafe. apply Forall_forall. intros r Hr.
  destruct (are_columns_in _ _ _ _ HF Hr) as (c & Hin & i & Hc).
  exists (ColumnSpec.column_type c). apply (is_column_decode _ _ _ Hc).
  by apply (proj1 (forallb_forall _ _) Hsafe), list_elem_of_In.
Qed.

Lemma are_columns_view `{!ArrowIpcLaws} s spec rows cols :
  types_safe spec = true -> are_columns s (SchemaSpec.columns spec) rows -> traverse column_of_row rows = Ok cols ->
  columns_view spec cols.
Proof.
  intros Hsafe HF Ht%traverse_ok. unfold are_columns, columns_view, types_safe in *.
  assert (Forall (fun p : nat * ColumnSpec.t => ipc_safe (placeholder (ColumnSpec.column_type p.2)) = true)
    (imap pair (SchemaSpec.columns spec))) as Hs.
  { apply Forall_forall. intros p (i & c & -> & Hc)%elem_of_lookup_imap_1.
    rewrite forallb_forall in Hsafe. by apply Hsafe, list_elem_of_In, (list_elem_of_lookup_2 _ i). }
  clear Hsafe. revert cols Ht.
  induction HF as [|p r ps rows Hr _ IH]; intros cols Ht; inversion Ht as [|? c ? cols' Hc Ht']; subst;
    constructor; apply Forall_cons in Hs as [Hp Hs]; [|by apply IH].
  pose proof (is_column_decode _ _ _ Hr Hp) as Hd.
  destruct Hr as (cu & e & _ & ->). cbn in *. unfold column_of_row in Hc. cbn in Hc. rewrite Hd in Hc.
  cbn in Hc. apply bind_ok in Hc as (u1 & _ & Hc). apply bind_ok in Hc as (u2 & _ & [= <-]). done.
Qed.

(** The new table, in the database after its creation. *)
Lemma create_facts_table client ident location spec properties d d' :
  catalog_inv d -> db_ok d' -> create_facts client ident location spec properties d d' ->
  exists row u t s text rows,
    table_row_of d ident = None /\ table_row_of d' ident = Some row /\
    TableRow.table_uuid row = as_bytes u /\ TableRow.location row = location /\
    TableRow.current_transaction_id row = Some (as_bytes t) /\
    TableRow.min_reader_version row = ProtocolVersions.reader client /\
    TableRow.min_writer_version row = ProtocolVersions.writer client /\
    serialize_json (TableProperties.to_json (default TableProperties.new properties)) = Ok text /\
    TableRow.properties row = Some text /\
    chain d' (as_bytes u) = [as_bytes t] /\ (forall t', select_files_at (as_bytes u) t' d' = []) /\
    (exists srow, select_schemas_at (as_bytes u) (as_bytes t) d' = [srow] /\
       SchemaRow.schema_uuid srow = as_bytes s /\ SchemaRow.schema_version srow = 1%Z) /\
    are_columns s (SchemaSpec.columns spec) rows /\ select_columns (as_bytes s) d' = rows.
Proof.
  intros Hinv Hok' [u t s ts text rows Hnone Hv Htext Hu Ht Hs Hrows Hd'].
  pose proof (no_history _ Hinv _ Hu) as Hnh. pose proof (no_schema_log _ Hinv _ Hu) as Hns.
  eexists (TableRow.mk _ _ _ _ _ _ _ _ _ _), u, t, s, text, rows. split_and!.
  - unfold table_row_of. by rewrite Hnone.
  - apply table_row_of_in; [done|]. apply select_table_in. rewrite Hd'. cbn.
    split_and!; [apply elem_of_app; right; left | done | done].
  - done.
  - done.
  - done.
  - done.
  - done.
  - done.
  - done.
  - unfold chain, history in *. rewrite Hd'. cbn. rewrite (history_snoc _ (as_bytes u)), Hnh, beq_refl by done.
    done.
  - intros t'. apply filter_all_false. rewrite Hd'. cbn. intros r Hr.
    rewrite (proj2 (beq_false _ _)); [done|]. intros E. apply Hu. rewrite <- E.
    pose proof (ok_file_fk _ (inv_db _ Hinv)) as Hfk. rewrite Forall_forall in Hfk. by apply Hfk.
  - exists (SchemaRow.mk (as_bytes s) (as_bytes u) INITIAL_SCHEMA_VERSION (as_bytes t) None ts).
    split; [|done].
    rewrite select_schemas_log. unfold schema_log in *. rewrite Hd'. cbn.
    rewrite List.filter_app, Hns. cbn. rewrite beq_refl. cbn.
    unfold schema_valid_at, valid_at. cbn. by rewrite blob_le_refl.
  - done.
  - unfold select_columns. rewrite Hd'. cbn. rewrite List.filter_app.
    rewrite (filter_all_false _ (columns d)), (filter_all_true _ rows); [done | |].
    + intros x Hx. apply beq_true. by eapply are_columns_schema.
    + intros x Hx. apply beq_false. intros E. apply Hs. rewrite <- E.
      pose proof (ok_column_fk _ (inv_db _ Hinv)) as Hfk. rewrite Forall_forall in Hfk. by apply Hfk.
Qed.

End create.

(** ** Theorems *)

(** C30: what is created is what is read: after a successful [create_table], a
    read by the same client returns the columns of the specification — names,
    types, if Arrow IPC keeps them, nullability, positions from 1 — no files,
    and the given properties. *)
Theorem create_then_read `{Env} `{!EnumerationLaws} `{!ArrowIpcLaws} `{!SerdeJsonLaws}
    kind client ident location spec properties w i w' :
  catalog_inv (db w) -> no_faults ->
  json_safe (TableProperties.to_json (default TableProperties.new properties)) = true ->
  length (SchemaSpec.columns spec) <= 1000 -> types_safe spec = true ->
  create_table kind client ident location spec properties w = Some (Ok i, w') ->
  exists view w'', read_table client ident None w' = Some (Ok view, w'') /\ db w'' = db w' /\
    columns_view spec (Schema.columns (TableView.schema view)) /\
    Schema.schema_version (TableView.schema view) = INITIAL_SCHEMA_VERSION /\
    TableView.files view = [] /\
    TableView.properties view = default TableProperties.new properties.
Proof.
  intros Hinv Hnf Hsafe Hlen Htypes E.
  destruct (create_ok_inv _ _ _ _ _ _ _ _ _ (inv_db _ Hinv) E) as (_ & Hok' & Hf).
  pose proof (create_facts_inv _ _ _ _ _ _ _ Hinv Hok' Hf) as Hinv'.
  destruct (create_facts_table _ _ _ _ _ _ _ Hinv Hok' Hf) as (row & u & t & s & text & rows & _ & Hrow &
    Hu & _ & Hcur & Hmr & _ & Htext & Hprops & Hchain & Hfiles & (srow & Hsel & Hsid & Hver) & Hrows & Hcols).
  destruct (read_table_ok client ident w' row u t None (default TableProperties.new properties) [] srow)
    as (view & w'' & Er & Ed & _ & _ & _ & Hp & _ & Hfs & Hv);
    [done | done | done | done | by rewrite Hmr | by rewrite Hprops; apply properties_text
    | rewrite Hchain; left | by right | done | | | by rewrite Hfiles | by rewrite Hfiles |].
  { unfold types_decode. rewrite Hsid, Hcols. by eapply are_columns_decode. }
  { rewrite Hsid, Hcols. apply are_columns_length in Hrows. lia. }
  exists view, w''. split_and!; [done | done | | | by apply Permutation_nil_r | done].
  - destruct Hv as (_ & _ & _ & _ & _ & _ & Ht). rewrite Hsid, Hcols in Ht.
    eapply are_columns_view; [exact Htypes | exact Hrows | exact Ht].
  - destruct Hv as (_ & _ & Hv & _). by rewrite Hv, Hver.
Qed.

(** A name can be used once: creating a table whose name is taken fails and
    changes nothing, with a [Conflict] that names the table when the
    specification is valid and the engine does not fail. *)
Theorem create_existing_rejected `{Env} `{!EnumerationLaws} kind client ident location spec properties
    w row :
  db_ok (db w) -> table_row_of (db w) ident = Some row ->
  exists e w', create_table kind client ident location spec properties w = Some (Err e, w') /\
    db w' = db w /\
    (no_faults -> SchemaSpec.validate spec = Ok tt ->
     e = Conflict ("table already exists: " +:+ TableIdent.to_string ident)).
Proof.
  intros Hok Hrow.
  assert (wp (create_table kind client ident location spec properties)
    (fun r w' => exists e, r = Err e /\ db w' = db w) w) as Hw.
  { apply wp_create_table; [done | by eauto |]. intros w' [u t s ts text rows d1 d2 d3 d4 Hnone] _.
    unfold table_row_of in Hrow. by rewrite Hnone in Hrow. }
  apply wp_run in Hw as (r & w' & E & e & -> & Ed). exists e, w'. split_and!; [done | done |].
  intros Hnf Hv.
  assert (wp (create_table kind client ident location spec properties) (fun r _ =>
    r = Err (Conflict ("table already exists: " +:+ TableIdent.to_string ident))) w) as Hw2.
  { unfold create_table, create_body. rewrite Hv. apply wp_bind, wp_lift, wp_with_tx_ok; [done|].
    apply wp_bind, wp_fetch_ok; [done|]. cbn.
    rewrite (row_order_singleton _ row) by by apply table_row_of_select.
    by apply wp_bind, wp_lift. }
  by injection (wp_elim _ _ _ _ _ Hw2 E).
Qed.

(** Table properties survive storage: the text [serialize_json] makes of
    them parses back to them, through the size check on both ways. *)
Theorem properties_round_trip `{Env} `{!SerdeJsonLaws} p text :
  json_safe (TableProperties.to_json p) = true ->
  serialize_json (TableProperties.to_json p) = Ok text ->
  parse_table_properties (Some text) = Ok p.
Proof. apply properties_text. Qed.

(** Protocol gating: a client whose reader version is below the table's
    minimum cannot read it, and one whose writer version is below the minimum
    cannot commit to it, and the errors say so. *)
Theorem protocol_gate `{Env} `{!EnumerationLaws} kind client ident w row props at_ base mutation :
  catalog_inv (db w) -> no_faults -> table_row_of (db w) ident = Some row ->
  parse_table_properties (TableRow.properties row) = Ok props ->
  ((ProtocolVersions.reader client < TableRow.min_reader_version row)%Z ->
   exists w', read_table client ident at_ w = Some (Err (ProtocolVersionIncompatible "read"
     (TableIdent.to_string ident) (ProtocolVersions.reader client) (TableRow.min_reader_version row)), w')
     /\ db w' = db w) /\
  ((ProtocolVersions.writer client < TableRow.min_writer_version row)%Z ->
   check_mutation mutation = Ok tt ->
   exists w', commit kind client ident base mutation w = Some (Err (ProtocolVersionIncompatible "write"
     (TableIdent.to_string ident) (ProtocolVersions.writer client) (TableRow.min_writer_version row)), w')
     /\ db w' = db w).
Proof.
  intros Hinv Hnf Hrow Hprops. pose proof (inv_db _ Hinv) as Hok.
  pose proof Hrow as (Hrt & _)%table_row_of_some.
  pose proof (dec_tables _ (inv_rows _ Hinv)) as Hd. rewrite Forall_forall in Hd.
  destruct (Hd row Hrt) as (Hd1 & Hd2 & Hd3). destruct (uuid_row_decodes _ Hd1) as (u & Eu & _).
  destruct (opt_row_decodes _ Hd2) as (os & Eos & _). destruct (opt_row_decodes _ Hd3) as (oc & Eoc & _).
  split.
  - intros Hlt. apply wp_err_run. unfold read_table.
    apply wp_bind, (wp_fetch_table_ok _ row); [done..|].
    apply wp_bind, wp_lift. rewrite Eu. apply wp_bind, wp_lift. rewrite Eos.
    apply wp_bind, wp_lift. rewrite Eoc. apply wp_bind, wp_lift. rewrite Hprops. apply wp_bind, wp_lift.
    unfold ensure_reader_protocol_compatible. by rewrite (proj2 (Z.ltb_lt _ _)).
  - intros Hlt Hm. apply wp_err_run. unfold commit. rewrite Hm. apply wp_bind, wp_lift.
    apply wp_with_tx_ok; [done|]. unfold commit_body.
    apply wp_bind, (wp_fetch_table_ok _ row); [done..|].
    apply wp_bind, wp_lift. rewrite Eu. apply wp_bind, wp_lift. rewrite Eos.
    apply wp_bind, wp_lift. rewrite Eoc. apply wp_bind, wp_lift. rewrite Hprops. apply wp_bind, wp_lift.
    unfold ensure_writer_protocol_compatible. by rewrite (proj2 (Z.ltb_lt _ _)).
Qed.

(** ** Witnesses *)

#[local] Existing Instances ref_env ref_ipc_laws ref_json_laws ref_enumeration_laws.

Lemma create_runs :
  create_table Limits.Sqlite client events "s3://bucket/events" spec1 None start
  = Some (Ok events, world1).
Proof. vm_compute. reflexivity. Qed.

Lemma create_then_read_witness :
  exists view w'', read_table client events None world1 = Some (Ok view, w'') /\
    TableView.files view = [] /\ columns_view spec1 (Schema.columns (TableView.schema view)) /\
    TableView.properties view = TableProperties.new.
Proof.
  destruct (create_then_read Limits.Sqlite client events "s3://bucket/events" spec1 None start events
    world1) as (view & w'' & E & _ & Hc & _ & Hf & Hp).
  - exact empty_inv.
  - exact ref_no_faults.
  - vm_compute. reflexivity.
  - apply Nat.leb_le. reflexivity.
  - vm_compute. reflexivity.
  - exact create_runs.
  - exists view, w''. split; [exact E|]. split; [exact Hf|]. split; [exact Hc | exact Hp].
Defined.

Lemma create_existing_rejected_witness :
  exists e w', create_table Limits.Postgres client events "elsewhere" spec2 None world3
    = Some (Err e, w') /\ db w' = db world3.
Proof.
  assert (table_row_of (db world3) events = Some row3) as Hrow by (vm_compute; reflexivity).
  destruct (create_existing_rejected Limits.Postgres client events "elsewhere" spec2 None world3 row3
    (inv_db _ world3_inv) Hrow) as (e & w' & E & Ed & _).
  exists e, w'. split; [exact E | exact Ed].
Defined.

Lemma properties_round_trip_witness :
  exists text, serialize_json (TableProperties.to_json properties2) = Ok text /\
    parse_table_properties (Some text) = Ok properties2.
Proof.
  destruct (serialize_json (TableProperties.to_json properties2)) as [text|e] eqn:E;
    [|vm_compute in E; discriminate E].
  exists text. split; [reflexivity|]. apply properties_round_trip; [vm_compute; reflexivity | exact E].
Defined.

(** A client of protocol version 0. *)
Definition old_client : ProtocolVersions.t := ProtocolVersions.mk 0 0.

Lemma protocol_gate_witness :
  (exists w', read_table old_client events None world3
     = Some (Err (ProtocolVersionIncompatible "read" "analytics.events" 0 1), w')) /\
  (exists w', commit Limits.Sqlite old_client events txn3 mutation1 world3
     = Some (Err (ProtocolVersionIncompatible "write" "analytics.events" 0 1), w')).
Proof.
  destruct (protocol_gate Limits.Sqlite old_client events world3 row3 properties2 None txn3 mutation1
    world3_inv ref_no_faults) as [Hr Hw].
  - vm_compute. reflexivity.
  - vm_compute. reflexivity.
  - split.
    + destruct Hr as (w' & E & _); [vm_compute; reflexivity | exists w'; exact E].
    + destruct Hw as (w' & E & _); [vm_compute; reflexivity | vm_compute; reflexivity | exists w'; exact E].
Defined.
