(* ===== verification/Evolution.v ===== *)
(** * Schema evolution through commits

    [UpdateSchema] succeeds only for an admissible evolution, and then the new
    schema replaces the old one: every column of the old one is still there,
    with a type that can hold the old values and no stricter nullability. *)

From S2P Require Import Prelude Uuid Error Limits Json DataType Format Schema Models Db DbFacts World Helpers Catalog Api Effects ReadFacts Invariant RefEnv Scenario Safety Commit.

(** The column [r] of the old schema is carried over into the specification. *)
Definition carried_over `{Env} (spec : SchemaSpec.t) (r : ColumnRow.t) : Prop :=
  exists c t, c ∈ SchemaSpec.columns spec /\ ColumnSpec.name c = ColumnRow.column_name r /\
    decode_data_type (ColumnRow.column_type r) = Ok t /\
    can_evolve_to t (ColumnSpec.column_type c) = true /\
    (ColumnRow.is_nullable r = true -> ColumnSpec.is_nullable c = true).

Section evolution.
Context `{Env}.

Lemma current_column_ok r p : current_column r = Ok p ->
  p.1 = ColumnRow.column_name r /\ p.2.2 = ColumnRow.is_nullable r /\
  decode_data_type (ColumnRow.column_type r) = Ok p.2.1.
Proof. unfold current_column. intros (t & -> & [= <-])%bind_ok. done. Qed.

Lemma evolves_carried d old cols spec r :
  db_ok d -> columns_of d old = Ok cols -> evolves (column_map cols) (SchemaSpec.columns spec) ->
  r ∈ select_columns (as_bytes old) d -> carried_over spec r.
Proof.
  intros Hok Hcols [Hkeep Hev] Hr. pose proof Hcols as HF%traverse_ok.
  apply list_elem_of_lookup in Hr as [i Hi].
  destruct (Forall2_lookup_l _ _ _ _ _ HF Hi) as ([k [t n]] & Hk & (E1 & E2 & E3)%current_column_ok).
  cbn in E1, E2, E3.
  assert (column_map cols !! k = Some (t, n)) as Hl.
  { apply column_map_lookup; [|by eapply list_elem_of_lookup_2].
    rewrite (columns_of_names d old) by done. apply select_columns_nodup, (ok_column_name _ Hok). }
  destruct (proj1 (list_elem_of_fmap _ _ _) (Hkeep k (ex_intro _ _ Hl))) as (c & Ec & Hc).
  destruct (Hev c t n Hc) as [Hty Hn]; [by rewrite <- Ec|].
  exists c, t. split_and!; [done | congruence | done | done | by rewrite <- E2].
Qed.

Lemma update_schema_in_filter spec spec' ops :
  UpdateSchema spec ∈ ops -> List.filter is_update_schema ops = [UpdateSchema spec'] -> spec' = spec.
Proof.
  intros Hin Hf. assert (UpdateSchema spec ∈ List.filter is_update_schema ops) as Hx by by apply elem_of_filter'.
  rewrite Hf in Hx. apply list_elem_of_singleton in Hx. by injection Hx.
Qed.

End evolution.

(** ** Theorems *)

(** The check of a schema update accepts exactly the admissible
    evolutions: no column of the current schema is left out, the type of each
    can evolve to the new one, and a nullable column stays nullable. *)
Theorem check_evolution_spec `{Env} `{!EnumerationLaws} old cs :
  check_evolution old cs = Ok tt <->
  (forall k, is_Some (old !! k) -> exists c, c ∈ cs /\ ColumnSpec.name c = k) /\
  (forall c t n, c ∈ cs -> old !! ColumnSpec.name c = Some (t, n) ->
     can_evolve_to t (ColumnSpec.column_type c) = true /\
     (n = true -> ColumnSpec.is_nullable c = true)).
Proof.
  rewrite check_evolution_ok. unfold evolves. apply and_iff_compat_r.
  setoid_rewrite list_elem_of_fmap. naive_solver.
Qed.

(** The row of the written table after a commit. *)
Lemma committed_row ident t cur st text u row d d' :
  db_ok d' -> table_row_of d ident = Some row -> tables d' = commit_head t cur st text u <$> tables d ->
  table_row_of d' ident = Some (commit_head t cur st text u row).
Proof.
  intros Hok (Hin & Hns & Hnm & _)%table_row_of_some Hd. apply table_row_of_in; [done|]. apply select_table_in.
  split; [rewrite Hd; by apply list_elem_of_fmap_2|].
  pose proof (set_head_name u (as_bytes <$> match MutState.new_schema_uuid st with Some s => Some s | None => cur end)
    (Some (as_bytes t)) (Some text) row) as [= E1 E2].
  unfold commit_head. split; congruence.
Qed.

(** The columns of a schema that is new. *)
Lemma new_schema_columns `{Env} d s cs rows :
  db_ok d -> as_bytes s ∉ schema_keys d -> are_columns s cs rows ->
  List.filter (fun r => beq (ColumnRow.schema_uuid r) (as_bytes s)) (columns d ++ rows) = rows.
Proof.
  intros Hok Hs Hrows. rewrite List.filter_app.
  rewrite (filter_all_false _ (columns d)), (filter_all_true _ rows); [done | |].
  - intros x Hx. apply beq_true. by eapply are_columns_schema.
  - intros x Hx. apply beq_false. intros Ex. apply Hs. rewrite <- Ex.
    pose proof (ok_column_fk _ Hok) as Hfk. rewrite Forall_forall in Hfk. by apply Hfk.
Qed.

(** C24: a committed schema update is an evolution of the current schema: it
    creates a schema of the next version, valid from the new transaction, with
    the specified columns; the table's current schema becomes it; and every
    column of the previous schema is carried over. *)
Theorem schema_update_evolves `{Env} `{!EnumerationLaws} kind client ident base mutation w res w' spec :
  catalog_inv (db w) ->
  commit kind client ident base mutation w = Some (Ok res, w') ->
  UpdateSchema spec ∈ Mutation.operations mutation ->
  exists row row' old s old_row new_row rows,
    table_row_of (db w) ident = Some row /\ table_row_of (db w') ident = Some row' /\
    TableRow.current_schema_uuid row = Some (as_bytes old) /\
    TableRow.current_schema_uuid row' = Some (as_bytes s) /\ as_bytes s ∉ schema_keys (db w) /\
    old_row ∈ schemas (db w) /\ SchemaRow.schema_uuid old_row = as_bytes old /\
    new_row ∈ schemas (db w') /\ SchemaRow.schema_uuid new_row = as_bytes s /\
    SchemaRow.schema_version new_row = wrap_i32 (SchemaRow.schema_version old_row + 1) /\
    SchemaRow.valid_from_transaction_id new_row = as_bytes (CommitResult.transaction_id res) /\
    are_columns s (SchemaSpec.columns spec) rows /\ select_columns (as_bytes s) (db w') = rows /\
    (forall r, r ∈ select_columns (as_bytes old) (db w) -> carried_over spec r).
Proof.
  intros Hinv E Hop. destruct (commit_ok_inv _ _ _ _ _ _ _ _ (inv_db _ Hinv) E) as (_ & Hc & Hok').
  apply commit_effect_facts in Hc.
  pose proof (commit_facts_rows _ _ _ _ _ _ Hinv Hok' Hc) as (row & u & row' & Hr & Hr' & _).
  destruct Hc as [row0 u0 ts cur props st text d1 d2 Hin0 Hns Hnm Hu0 _ Hcur _ _ _ _ Hout _ Hd'].
  assert (table_row_of (db w) ident = Some row0) as Hr0
    by (apply table_row_of_in; [by apply inv_db | by apply select_table_in]).
  rewrite Hr in Hr0. injection Hr0 as <-.
  destruct Hout as [Hnil|spec' old old_row cols s rows Hf Hco Hv Hold Hid Hcols Hev Hs Hsch Hrows Hcolumns Hst].
  { assert (UpdateSchema spec ∈ List.filter is_update_schema (Mutation.operations mutation)) as Hx
      by by apply elem_of_filter'. rewrite Hnil in Hx. by apply not_elem_of_nil in Hx. }
  pose proof (update_schema_in_filter _ _ _ Hop Hf) as ->.
  pose proof (committed_row ident (CommitResult.transaction_id res) cur st text (as_bytes u0) row (db w) (db w')
    Hok' Hr ltac:(by rewrite Hd')) as Hx.
  eexists row, _, old, s, old_row, _, rows. split_and!.
  - done.
  - done.
  - by rewrite Hcur, Hco.
  - unfold commit_head, set_head. rewrite Hu0, beq_refl, Hst. done.
  - done.
  - done.
  - done.
  - rewrite Hsch. apply elem_of_app. right. left.
  - done.
  - done.
  - done.
  - done.
  - unfold select_columns. rewrite Hcolumns. by eapply new_schema_columns; [apply inv_db | |].
  - intros r Hrc. by eapply evolves_carried; [apply inv_db| | |].
Qed.

(** ** Witness *)

#[local] Existing Instances ref_env ref_ipc_laws ref_json_laws ref_enumeration_laws.

Lemma check_evolution_spec_witness :
  check_evolution (column_map [("id", (Int32, false)); ("name", (Utf8, true))]) (SchemaSpec.columns spec2) = Ok tt /\
  check_evolution (column_map [("id", (Utf8, false))]) (SchemaSpec.columns spec2) <> Ok tt.
Proof.
  split; [vm_compute; reflexivity|]. intros E.
  apply check_evolution_spec in E as [_ E].
  destruct (E (ColumnSpec.new "id" Int64) Utf8 false) as [H _]; [left | reflexivity | discriminate H].
Defined.

(** The second commit of the scenario widens a column and adds one. *)
Lemma schema_update_evolves_witness :
  exists old s, as_bytes s ∉ schema_keys (db world2) /\
    (forall r, r ∈ select_columns (as_bytes old) (db world2) -> carried_over spec2 r) /\
    exists rows, are_columns s (SchemaSpec.columns spec2) rows /\ select_columns (as_bytes s) (db world3) = rows.
Proof.
  destruct (schema_update_evolves Limits.Sqlite client events txn2 mutation2 world2 _ world3 spec2
    world2_inv commit2_runs) as (row & row' & old & s & old_row & new_row & rows & _ & _ & _ & _ & Hs & _ &
      _ & _ & _ & _ & _ & Hrows & Hsel & Hcarried).
  - right. right. left.
  - exists old, s. split; [exact Hs|]. split; [exact Hcarried|]. exists rows. split; [exact Hrows | exact Hsel].
Defined.
