(* ===== verification/Events.v ===== *)
(** * The event log

    What [list_transaction_events] returns: the walk from [to_inclusive] back
    along the parents collects exactly the transactions after
    [from_exclusive], and each of them yields one event with the files it
    added, the files it removed and the schema it made current. *)

From S2P Require Import Prelude Uuid Error Limits Json DataType Format Schema Models Db DbFacts World Helpers Catalog Api Effects ReadFacts Invariant RefEnv Scenario Safety Commit Order Views.

Definition too_many_transactions : CatalogError :=
  LimitExceeded ("transaction scan exceeds limit of " +:+ pretty limits.MAX_TRANSACTIONS_PER_SCAN).

Definition not_an_ancestor : CatalogError :=
  InvalidArgument "from transaction is not an ancestor of to transaction".

Definition too_many_added : CatalogError :=
  LimitExceeded ("added file events exceed limit of " +:+ pretty limits.MAX_FILES_PER_QUERY).

Definition too_many_removed : CatalogError :=
  LimitExceeded ("removed file events exceed limit of " +:+ pretty limits.MAX_FILES_PER_QUERY).

Definition too_many_schemas : CatalogError :=
  LimitExceeded ("schema change events exceed limit of " +:+ pretty limits.MAX_SCHEMA_CHANGES_PER_SCAN).

Definition unknown_transaction : CatalogError :=
  InvalidArgument "requested transaction does not exist for table".

Definition too_many_columns : CatalogError :=
  LimitExceeded ("schema change column count exceeds limit of " +:+ pretty limits.MAX_COLUMNS_PER_SCHEMA).

(** The transactions of a history from position [k] up to position [i]. *)
Definition segment (us : list Uuid) (k i : nat) : list Uuid := drop k (take (S i) us).

(** [k] is the position after [from] in the history [us], seen from [i]: 0 when
    [from] is absent or not before [i]. *)
Definition starts_after (us : list Uuid) (from : option Uuid) (k i : nat) : Prop :=
  k <= i /\ forall j, j < i -> k <= S j -> (from = us !! j <-> S j = k).

Lemma segment_last us k i cur :
  us !! i = Some cur -> k <= i -> segment us k i = drop k (take i us) ++ [cur].
Proof.
  intros Hi Hk. unfold segment. rewrite (take_S_r _ _ _ Hi), drop_app_le; [done|].
  apply lookup_lt_Some in Hi. rewrite length_take. lia.
Qed.

Lemma segment_length us k i cur : us !! i = Some cur -> length (segment us k i) = S i - k.
Proof.
  intros Hi%lookup_lt_Some. unfold segment. rewrite length_drop, length_take. lia.
Qed.

Lemma starts_after_none us i x : us !! i = Some x -> starts_after us None 0 i.
Proof.
  intros Hi%lookup_lt_Some. split; [lia|].
  intros j Hj _. destruct (lookup_lt_is_Some_2 us j) as [y Hy]; [lia|]. by rewrite Hy.
Qed.

Lemma starts_after_some us f j i :
  NoDup us -> us !! j = Some f -> j < i -> starts_after us (Some f) (S j) i.
Proof.
  intros Hn Hj Hi. split; [lia|]. intros j' _ _. split; [|by intros [= ->]].
  intros E. symmetry in E. f_equal. by eapply NoDup_lookup.
Qed.

Lemma starts_after_foreign us f i : f ∉ take i us -> starts_after us (Some f) 0 i.
Proof.
  intros Hf. split; [lia|]. intros j Hj _. split; [|done]. intros E. symmetry in E.
  destruct Hf. apply list_elem_of_lookup. exists j. by rewrite lookup_take_lt.
Qed.

(** A schema change recorded for a schema row. *)
Definition schema_change_view `{Env} (d : Db) (t : Uuid) (s : SchemaRow.t) (c : TxnSchemaChange.t) : Prop :=
  TxnSchemaChange.transaction_id c = t /\ schema_view d s (TxnSchemaChange.schema c).

(** The event of a transaction: its added and its removed files, each group in
    the engine's order, and the schema it introduced. *)
Definition event_ok `{Env} (d : Db) (u t : Uuid) (e : TxnEvent.t) : Prop :=
  TxnEvent.transaction_id e = t /\
  (exists added removed fa fr,
     added ≡ₚ select_files_added (as_bytes u) (as_bytes t) d /\
     removed ≡ₚ select_files_removed (as_bytes u) (as_bytes t) d /\
     traverse file_of_row added = Ok fa /\ traverse file_of_row removed = Ok fr /\
     TxnEvent.file_changes e =
       (TxnFileChange.mk t Added <$> fa) ++ (TxnFileChange.mk t Removed <$> fr)) /\
  match select_schemas_from (as_bytes u) (as_bytes t) d, TxnEvent.schema_change e with
  | [], None => True
  | [s], Some c => schema_change_view d t s c
  | _, _ => False
  end.

(** How many files the transactions [ts] added and removed, and how many of them
    started a schema. *)
Definition added_by (d : Db) (u : Uuid) (ts : list Uuid) : N :=
  N.of_nat (length (ts ≫= fun t => select_files_added (as_bytes u) (as_bytes t) d)).

Definition removed_by (d : Db) (u : Uuid) (ts : list Uuid) : N :=
  N.of_nat (length (ts ≫= fun t => select_files_removed (as_bytes u) (as_bytes t) d)).

Definition schemas_of (d : Db) (u : Uuid) (ts : list Uuid) : N :=
  N.of_nat (length (ts ≫= fun t => select_schemas_from (as_bytes u) (as_bytes t) d)).

(** One of them started a schema of more columns than a scan may return. *)
Definition too_wide (d : Db) (u : Uuid) (ts : list Uuid) : Prop :=
  exists t s, t ∈ ts /\ s ∈ select_schemas_from (as_bytes u) (as_bytes t) d /\
    (limits.MAX_COLUMNS_PER_SCHEMA < N.of_nat (length (select_columns (SchemaRow.schema_uuid s) d)))%N.

Lemma too_wide_cons d u t ts : too_wide d u (t :: ts) <-> too_wide d u [t] \/ too_wide d u ts.
Proof. unfold too_wide. setoid_rewrite elem_of_cons. setoid_rewrite elem_of_nil. naive_solver. Qed.

(** The files of a table decode. *)
Definition files_decode `{Env} (d : Db) (u : Uuid) : Prop :=
  forall r, r ∈ files d -> FileRow.table_uuid r = as_bytes u -> exists f, file_of_row r = Ok f.

(** The columns of its schemas decode. *)
Definition schemas_decode `{ArrowIpc} (d : Db) (u : Uuid) : Prop :=
  forall s, s ∈ schemas d -> SchemaRow.table_uuid s = as_bytes u -> types_decode d (SchemaRow.schema_uuid s).

(** The rows of a table decode, and its schemas are within their limit. *)
Record rows_ok `{Env} (d : Db) (u : Uuid) : Prop := {
  rows_columns : forall s, s ∈ schemas d -> SchemaRow.table_uuid s = as_bytes u ->
    length (select_columns (SchemaRow.schema_uuid s) d) <= 1000;
  rows_decode_files : files_decode d u;
  rows_decode_types : schemas_decode d u
}.

Lemma rows_not_wide `{Env} d u ts : rows_ok d u -> ~ too_wide d u ts.
Proof.
  intros [Hc _ _] (t & s & _ & (Hs & [Hu%bool_decide_eq_true_1 _]%andb_true_iff)%elem_of_filter' & Hl).
  specialize (Hc s Hs Hu). unfold limits.MAX_COLUMNS_PER_SCHEMA in Hl. lia.
Qed.

(** What the scan relies on in the schemas of a table: at most one starts at a
    transaction, and their columns are numbered and decode. *)
Record schemas_scan `{ArrowIpc} (d : Db) (u : Uuid) : Prop := {
  scan_one : forall t, length (select_schemas_from (as_bytes u) t d) <= 1;
  scan_numbered : forall s, s ∈ schemas d -> SchemaRow.table_uuid s = as_bytes u ->
    numbered (select_columns (SchemaRow.schema_uuid s) d);
  scan_types : schemas_decode d u
}.

(** What the transactions [ts] did is within the limits of a scan. *)
Record scan_ok `{Env} (d : Db) (u : Uuid) (ts : list Uuid) : Prop := {
  scan_added : (added_by d u ts <= limits.MAX_FILES_PER_QUERY)%N;
  scan_removed : (removed_by d u ts <= limits.MAX_FILES_PER_QUERY)%N;
  scan_schemas : (schemas_of d u ts <= limits.MAX_SCHEMA_CHANGES_PER_SCAN)%N;
  scan_rows : rows_ok d u
}.

(** What the loop over the transactions [ts] gives, with counters that start
    from [counts]: their events, if each of the three counts and each started
    schema stays within its limit, or the error of one that does not. *)
Definition scan_outcome `{Env} (d : Db) (u : Uuid) (counts : ScanCounts.t) (ts : list Uuid)
    (r : result CatalogError (list TxnEvent.t)) : Prop :=
  let added := (ScanCounts.added_file_events counts + added_by d u ts)%N in
  let removed := (ScanCounts.removed_file_events counts + removed_by d u ts)%N in
  let started := (ScanCounts.schema_change_events counts + schemas_of d u ts)%N in
  match r with
  | Ok es =>
      (added <= limits.MAX_FILES_PER_QUERY)%N /\ (removed <= limits.MAX_FILES_PER_QUERY)%N /\
      (started <= limits.MAX_SCHEMA_CHANGES_PER_SCAN)%N /\ ~ too_wide d u ts /\ Forall2 (event_ok d u) ts es
  | Err e =>
      (e = too_many_added /\ (limits.MAX_FILES_PER_QUERY < added)%N) \/
      (e = too_many_removed /\ (limits.MAX_FILES_PER_QUERY < removed)%N) \/
      (e = too_many_schemas /\ (limits.MAX_SCHEMA_CHANGES_PER_SCAN < started)%N) \/
      (e = too_many_columns /\ too_wide d u ts)
  end.

(** What [list_transaction_events] returns on the history [us] of the table [u],
    for any range. *)
Inductive events_outcome `{Env} (d : Db) (u : Uuid) (us : list Uuid) (from : option Uuid) (to_ : Uuid) :
    result CatalogError (list TxnEvent.t) -> Prop :=
  | outcome_unknown : to_ ∉ us -> events_outcome d u us from to_ (Err unknown_transaction)
  | outcome_long i k :
      us !! i = Some to_ -> starts_after us from k i ->
      (limits.MAX_TRANSACTIONS_PER_SCAN < N.of_nat (length (segment us k i)))%N ->
      events_outcome d u us from to_ (Err too_many_transactions)
  | outcome_stranger i f :
      us !! i = Some to_ -> from = Some f -> starts_after us from 0 i ->
      (N.of_nat (length (segment us 0 i)) <= limits.MAX_TRANSACTIONS_PER_SCAN)%N ->
      events_outcome d u us from to_ (Err not_an_ancestor)
  | outcome_scan i k r :
      us !! i = Some to_ -> starts_after us from k i -> from = None \/ 0 < k ->
      (N.of_nat (length (segment us k i)) <= limits.MAX_TRANSACTIONS_PER_SCAN)%N ->
      scan_outcome d u (ScanCounts.mk 0 0 0) (segment us k i) r ->
      events_outcome d u us from to_ r.

Section walk.
Context `{Env} `{!EnumerationLaws} (d : Db) (Hlog : log_ok d) (Hnf : no_faults).
Context (row : TableRow.t) (u : Uuid) (Hrow : row ∈ tables d) (Hu : TableRow.table_uuid row = as_bytes u).
Context (us : list Uuid) (Hus : chain d (as_bytes u) = as_bytes <$> us).

(** ** The walk *)

Lemma uuids_nodup : NoDup us.
Proof. apply (NoDup_fmap_1 as_bytes). rewrite <- Hus. by apply chain_nodup. Qed.

Lemma uuid_chain_lookup i t : us !! i = Some t -> chain d (as_bytes u) !! i = Some (as_bytes t).
Proof. intros Hi. by rewrite Hus, list_lookup_fmap, Hi. Qed.

Lemma chain_lookup_uuid i t : chain d (as_bytes u) !! i = Some (as_bytes t) -> us !! i = Some t.
Proof.
  rewrite Hus, list_lookup_fmap. destruct (us !! i); [|done]. cbn. by intros [= ->%(inj as_bytes)].
Qed.

(** The result of the walk from position [i] with [acc] collected so far. *)
Definition walk_result (acc : list Uuid) (k i : nat) (reached : bool) :
    result CatalogError (list Uuid * bool) :=
  if (N.of_nat (length acc + (S i - k)) <=? limits.MAX_TRANSACTIONS_PER_SCAN)%N
  then Ok (acc ++ reverse (segment us k i), if Nat.eqb k 0 then reached else true)
  else Err too_many_transactions.

Lemma wp_collect_chain fuel from k i cur visited acc reached w :
  db w = d -> i < fuel -> us !! i = Some cur -> starts_after us from k i ->
  (forall v, v ∈ visited -> exists j, i < j /\ us !! j = Some v) ->
  wp (collect_chain fuel u from cur visited acc reached)
    (fun r w' => db w' = d /\ r = walk_result acc k i reached) w.
Proof.
  revert i cur visited acc w; induction fuel as [|fuel IH]; intros i cur visited acc w Hd Hf Hi [Hk Hs] Hv;
    [lia|].
  cbn [collect_chain]. rewrite bool_decide_false; last first.
  { intros Hin. destruct (Hv cur Hin) as (j & Hj & Hcj).
    assert (i = j); [|lia]. eapply NoDup_lookup; [apply uuids_nodup | exact Hi | exact Hcj]. }
  destruct (chain_row d Hlog row u Hrow Hu i cur (uuid_chain_lookup _ _ Hi)) as (r & Hr & p & Hp & Hlink).
  apply wp_bind, (wp_fetch_transaction d Hnf u i _ r); [done | by apply uuid_chain_lookup | done |].
  apply wp_bind, wp_lift. cbn. apply wp_bind, wp_lift.
  destruct (N.ltb_spec limits.MAX_TRANSACTIONS_PER_SCAN (N.of_nat (length (acc ++ [cur]))))
    as [Hlim|Hlim]; rewrite length_app in Hlim; cbn in Hlim.
  { split; [done|]. unfold walk_result. rewrite (proj2 (N.leb_gt _ _)) by lia. done. }
  apply wp_bind, wp_lift. rewrite Hp. destruct i as [|i], p as [p|]; try done.
  - assert (k = 0) as -> by lia. apply wp_ret. split; [done|]. unfold walk_result.
    rewrite (proj2 (N.leb_le _ _)) by lia. unfold segment. cbn. by rewrite (take_S_r _ _ _ Hi).
  - apply chain_lookup_uuid in Hlink. case_bool_decide as E.
    + assert (k = S i) as ->. { symmetry. apply Hs; [lia | lia | congruence]. }
      apply wp_ret. split; [done|]. unfold walk_result. rewrite (proj2 (N.leb_le _ _)) by lia.
      rewrite (segment_last _ _ _ _ Hi) by lia. rewrite drop_ge by (rewrite length_take; lia). done.
    + assert (k <= i) as Hki. { destruct (decide (k = S i)) as [->|]; [|lia]. exfalso. apply E.
        symmetry. rewrite <- Hlink. by apply Hs; [lia | lia |]. }
      eapply wp_mono; [apply (IH i p); [done | lia | done | |]|].
      * split; [done|]. intros j Hj Hkj. apply Hs; lia.
      * intros v [->%elem_of_singleton|Hin]%elem_of_union; [exists (S i); split; [lia | done]|].
        destruct (Hv v Hin) as (j & Hj & Hvj). exists j. split; [lia | done].
      * intros r' w' [Hd' ->]. split; [done|]. unfold walk_result. rewrite length_app. cbn [length].
        replace (length acc + 1 + (S i - k)) with (length acc + (S (S i) - k)) by lia.
        rewrite (segment_last _ _ _ _ Hi) by lia. unfold segment. by rewrite reverse_app, <- app_assoc.
Qed.

(** ** The whole call *)

Context (ident : TableIdent.t) (w : World) (Hd : db w = d) (Hident : table_row_of d ident = Some row).

(** The walk and the events behind the checks of the call. *)
Lemma wp_list_events from i k to_ Φ :
  us !! i = Some to_ -> starts_after us from k i ->
  (forall w', db w' = d -> length (segment us k i) <= N.to_nat limits.MAX_TRANSACTIONS_PER_SCAN ->
     from = None \/ 0 < k ->
     wp (events_of_txns u (ScanCounts.mk 0 0 0) (segment us k i)) Φ w') ->
  (forall w', db w' = d -> N.to_nat limits.MAX_TRANSACTIONS_PER_SCAN < length (segment us k i) ->
     Φ (Err too_many_transactions) w') ->
  (forall w', db w' = d -> length (segment us k i) <= N.to_nat limits.MAX_TRANSACTIONS_PER_SCAN ->
     from <> None -> k = 0 -> Φ (Err not_an_ancestor) w') ->
  wp (list_transaction_events ident (TxnRangeCursor.mk from to_)) Φ w.
Proof.
  intros Hi Hs HΦ Hlim Hanc. pose proof (log_db _ Hlog) as Hok.
  destruct (chain_head d Hlog row u Hrow Hu) as (cur & Hcur & Hlast).
  assert (uuid_from_row_optional (Some (as_bytes cur)) = Ok (Some cur)) as Eoc
    by by apply uuid_from_row_optional_ok.
  unfold list_transaction_events. cbn [TxnRangeCursor.from_exclusive TxnRangeCursor.to_inclusive].
  apply wp_bind, (wp_fetch_table_ok _ row); [done | by rewrite Hd | by rewrite Hd |].
  apply wp_bind, wp_lift. rewrite Hu, (proj2 (uuid_from_row_ok _ u) eq_refl).
  apply wp_bind, wp_lift. rewrite Hcur, Eoc. apply wp_bind, wp_lift. cbn [ok_or]. apply wp_bind.
  assert (forall w', db w' = d -> wp (fuel ← chain_fuel;
    '(txn_ids_desc, reached) ← collect_chain fuel u from to_ ∅ []
      (match from with None => true | Some _ => false end);
    _ ← lift (fail_if (negb reached) not_an_ancestor);
    events_of_txns u (ScanCounts.mk 0 0 0) (reverse txn_ids_desc)) Φ w') as Hrest.
  { intros w' Hd'. apply wp_bind. unfold chain_fuel, wp at 1. rewrite Hd'. apply wp_bind.
    assert (length us <= length (transactions d)) as Hlen.
    { rewrite <- (length_fmap TransactionRow.transaction_id (transactions d)),
        <- (length_fmap as_bytes us), <- Hus. apply sublist_length, chain_sublist. }
    pose proof (lookup_lt_Some _ _ _ Hi). pose proof (segment_length us k i to_ Hi) as Hseg.
    eapply wp_mono; [apply (wp_collect_chain _ from k i to_ ∅ [] _ w'); [done | lia | done | done |]|].
    { intros v Hv. set_solver. }
    intros r w2 [Hd2 ->]. unfold walk_result. cbn [length]. rewrite Nat.add_0_l, <- Hseg.
    destruct (N.leb_spec (N.of_nat (length (segment us k i))) limits.MAX_TRANSACTIONS_PER_SCAN);
      [|apply Hlim; [done | lia]].
    rewrite app_nil_l. apply wp_bind, wp_lift. destruct (Nat.eqb_spec k 0) as [Hk0|Hk0], from as [f|]; cbn [negb].
    - apply Hanc; [done | lia | done | done].
    - rewrite reverse_involutive. apply HΦ; [done | lia | by left].
    - rewrite reverse_involutive. apply HΦ; [done | lia | right; lia].
    - rewrite reverse_involutive. apply HΦ; [done | lia | by left]. }
  unfold check_to_inclusive. case_bool_decide as E; [by apply wp_ret, Hrest|].
  destruct (chain_row d Hlog row u Hrow Hu i to_ (uuid_chain_lookup _ _ Hi)) as (r & Hr & _).
  apply wp_bind, (wp_fetch_transaction d Hnf u i _ r); [done | by apply uuid_chain_lookup | done |].
  by apply wp_ret, Hrest.
Qed.

(** A [to_inclusive] outside the history. *)
Lemma wp_list_unknown from to_ Φ :
  to_ ∉ us -> (forall w', db w' = d -> Φ (Err unknown_transaction) w') ->
  wp (list_transaction_events ident (TxnRangeCursor.mk from to_)) Φ w.
Proof.
  intros Hto HΦ. pose proof (log_db _ Hlog) as Hok.
  destruct (chain_head d Hlog row u Hrow Hu) as (cur & Hcur & Hlast).
  assert (cur ∈ us) as Hcin.
  { rewrite Hus, fmap_last in Hlast. destruct (last us) as [x|] eqn:El; [|done].
    injection Hlast as <-%(inj as_bytes). apply last_Some in El as [l' ->]. set_solver. }
  unfold list_transaction_events. cbn [TxnRangeCursor.from_exclusive TxnRangeCursor.to_inclusive].
  apply wp_bind, (wp_fetch_table_ok _ row); [done | by rewrite Hd | by rewrite Hd |].
  apply wp_bind, wp_lift. rewrite Hu, (proj2 (uuid_from_row_ok _ u) eq_refl).
  apply wp_bind, wp_lift. rewrite Hcur, (proj2 (uuid_from_row_optional_ok _ (Some cur)) eq_refl).
  apply wp_bind, wp_lift. cbn [ok_or]. apply wp_bind. unfold check_to_inclusive.
  rewrite bool_decide_false by (by intros ->).
  apply wp_bind, wp_fetch_ok; [done|]. cbn. rewrite Hd.
  assert (select_transaction (as_bytes u) (as_bytes to_) d = []) as ->.
  { apply filter_all_false. intros r Hr. apply not_true_iff_false. rewrite andb_true_iff, !bool_decide_eq_true.
    intros [Etu Et]. apply Hto. apply (list_elem_of_fmap_inj as_bytes). rewrite <- Hus, <- Et.
    apply list_elem_of_fmap_2, elem_of_filter'. split; [done | by apply bool_decide_eq_true_2]. }
  assert (row_order (A := TransactionRow.t) [] = []) as -> by (apply Permutation_nil_r, row_order_perm).
  by apply wp_fail, HΦ.
Qed.

(** Every range has its position. *)
Lemma starts_after_some_position from i to_ :
  us !! i = Some to_ -> exists k, starts_after us from k i.
Proof.
  intros Hi. destruct from as [f|]; [|exists 0; by eapply starts_after_none].
  destruct (decide (f ∈ take i us)) as [Hf|Hf]; [|exists 0; by apply starts_after_foreign].
  apply list_elem_of_lookup in Hf as [j [Hj Hji]%lookup_take_Some].
  exists (S j). apply starts_after_some; [apply uuids_nodup | done | done].
Qed.

End walk.

(** In a log where no two schemas start at the same transaction, at most one
    starts at a given one. *)
Lemma schemas_from_one d u t :
  NoDup (SchemaRow.valid_from_transaction_id <$> schema_log d u) -> length (select_schemas_from u t d) <= 1.
Proof.
  intros Hn. assert (select_schemas_from u t d = List.filter
    (fun r => bool_decide (SchemaRow.valid_from_transaction_id r = t)) (schema_log d u)) as ->.
  { unfold select_schemas_from, schema_log. induction (schemas d) as [|r l IH]; cbn; [done|].
    destruct (bool_decide (SchemaRow.table_uuid r = u)); cbn; [|done]. by rewrite IH. }
  induction (schema_log d u) as [|r l IH]; cbn; [lia|].
  apply NoDup_cons in Hn as [Hr Hn]. case_bool_decide as E; [|by apply IH].
  rewrite filter_all_false; [done|]. intros x Hx. apply bool_decide_eq_false_2.
  intros E'. apply Hr. rewrite E, <- E'. by apply list_elem_of_fmap_2.
Qed.

(** Under the catalog invariant the schemas are fit for a scan. *)
Section schemas.
Context `{Env} (d : Db) (Hinv : catalog_inv d) (row : TableRow.t) (u : Uuid).
Context (Hrow : row ∈ tables d) (Hu : TableRow.table_uuid row = as_bytes u).

(** A transaction starts at most one schema of its table. *)
Lemma schemas_from_unique t : length (select_schemas_from (as_bytes u) t d) <= 1.
Proof.
  pose proof (inv_schemas _ Hinv) as Hs. rewrite Forall_forall in Hs.
  destruct (Hs row Hrow) as (_ & _ & _ & _ & Hsub). rewrite Hu in Hsub.
  apply schemas_from_one. eapply sublist_NoDup; [exact (chain_nodup d Hinv (as_bytes u)) | exact Hsub].
Qed.

Lemma inv_scan : schemas_decode d u -> schemas_scan d u.
Proof.
  intros Htypes. split; [exact schemas_from_unique | | exact Htypes]. intros s Hs _.
  pose proof (inv_columns _ Hinv) as Hic. rewrite Forall_forall in Hic. by destruct (Hic s Hs).
Qed.

End schemas.

Section events.
Context `{Env} `{!EnumerationLaws} (d : Db) (Hlog : log_ok d) (Hnf : no_faults).
Context (u : Uuid) (Hscan : schemas_scan d u) (Hfiles : files_decode d u).

(** ** One event *)

Lemma push_added_spec (t : Uuid) count rows fs :
  (forall r, r ∈ rows -> FileRow.added_in_transaction_id r = as_bytes t) ->
  traverse file_of_row rows = Ok fs -> (count <= limits.MAX_FILES_PER_QUERY)%N ->
  push_added count rows =
    if (limits.MAX_FILES_PER_QUERY <? count + N.of_nat (length rows))%N then Err too_many_added
    else Ok ((count + N.of_nat (length rows))%N, TxnFileChange.mk t Added <$> fs).
Proof.
  revert count fs; induction rows as [|r rows IH]; intros count fs Ht Hfs Hl.
  - injection Hfs as <-. cbn. by rewrite N.add_0_r, (proj2 (N.ltb_ge _ _)).
  - apply traverse_ok in Hfs. apply Forall2_cons_inv_l in Hfs as (f & fs' & Hf & Hfs & ->).
    cbn [push_added length].
    replace (count + N.of_nat (S (length rows)))%N with (count + 1 + N.of_nat (length rows))%N by lia.
    destruct (N.ltb_spec limits.MAX_FILES_PER_QUERY (count + 1)) as [Hover|Hin].
    { by rewrite (proj2 (N.ltb_lt _ _)) by lia. }
    cbn. rewrite (proj2 (uuid_from_row_ok _ t)) by (apply Ht; left). cbn. rewrite Hf. cbn.
    rewrite (IH (count + 1)%N fs'); [by destruct (_ <? _)%N | | by apply traverse_ok | done].
    intros r' Hr'. apply Ht. by right.
Qed.

Lemma push_removed_spec (t : Uuid) count rows fs :
  (forall r, r ∈ rows -> FileRow.removed_in_transaction_id r = Some (as_bytes t)) ->
  traverse file_of_row rows = Ok fs -> (count <= limits.MAX_FILES_PER_QUERY)%N ->
  push_removed count rows =
    if (limits.MAX_FILES_PER_QUERY <? count + N.of_nat (length rows))%N then Err too_many_removed
    else Ok ((count + N.of_nat (length rows))%N, TxnFileChange.mk t Removed <$> fs).
Proof.
  revert count fs; induction rows as [|r rows IH]; intros count fs Ht Hfs Hl.
  - injection Hfs as <-. cbn. by rewrite N.add_0_r, (proj2 (N.ltb_ge _ _)).
  - apply traverse_ok in Hfs. apply Forall2_cons_inv_l in Hfs as (f & fs' & Hf & Hfs & ->).
    cbn [push_removed length].
    replace (count + N.of_nat (S (length rows)))%N with (count + 1 + N.of_nat (length rows))%N by lia.
    destruct (N.ltb_spec limits.MAX_FILES_PER_QUERY (count + 1)) as [Hover|Hin].
    { by rewrite (proj2 (N.ltb_lt _ _)) by lia. }
    cbn. rewrite (proj2 (uuid_from_row_optional_ok _ (Some t))) by (apply Ht; left). cbn. rewrite Hf. cbn.
    rewrite (IH (count + 1)%N fs'); [by destruct (_ <? _)%N | | by apply traverse_ok | done].
    intros r' Hr'. apply Ht. by right.
Qed.

(** A query that stops one row after its limit returns all its rows, or more
    than the limit of them. *)
Lemma wp_fetch_over {R} (q : Db -> list R) n Φ w :
  db w = d ->
  (forall rows, (forall r, r ∈ rows -> r ∈ q d) ->
     rows ≡ₚ q d \/ (n < N.of_nat (length rows) <= N.of_nat (length (q d)))%N -> Φ (Ok rows) (bump w)) ->
  wp (fetch_limit (n + 1) q) Φ w.
Proof.
  intros Hd HΦ. apply wp_fetch_ok; [done|]. rewrite Hd. pose proof (row_order_perm _ (q d)) as Hp.
  apply HΦ.
  - intros r Hr. rewrite <- Hp. by eapply sublist_subseteq, Hr; apply sublist_take.
  - pose proof (Permutation_length Hp) as Hl.
    destruct (decide (length (q d) <= N.to_nat (n + 1))) as [Hle|Hgt].
    + left. rewrite take_ge; [done|lia].
    + right. rewrite length_take. lia.
Qed.

Lemma too_wide_one t s :
  select_schemas_from (as_bytes u) (as_bytes t) d = [s] ->
  too_wide d u [t] <->
  (limits.MAX_COLUMNS_PER_SCHEMA < N.of_nat (length (select_columns (SchemaRow.schema_uuid s) d)))%N.
Proof.
  intros Es. split.
  - intros (t' & s' & ->%list_elem_of_singleton & Hs & Hl). rewrite Es in Hs.
    by apply list_elem_of_singleton in Hs as ->.
  - intros Hl. exists t, s. rewrite Es. split_and!; [left | left | done].
Qed.

Lemma not_wide_nil t : select_schemas_from (as_bytes u) (as_bytes t) d = [] -> ~ too_wide d u [t].
Proof. intros Es (t' & s' & ->%list_elem_of_singleton & Hs & _). rewrite Es in Hs. by apply not_elem_of_nil in Hs. Qed.

(** What the query of the started schema gives, with the counter at [count]. *)
Definition change_outcome (count : N) (t : Uuid) (r : result CatalogError (N * option TxnSchemaChange.t)) : Prop :=
  let started := (count + N.of_nat (length (select_schemas_from (as_bytes u) (as_bytes t) d)))%N in
  match r with
  | Ok (n, c) => n = started /\ (started <= limits.MAX_SCHEMA_CHANGES_PER_SCAN)%N /\ ~ too_wide d u [t] /\
      match select_schemas_from (as_bytes u) (as_bytes t) d, c with
      | [], None => True
      | [s], Some c => schema_change_view d t s c
      | _, _ => False
      end
  | Err e => (e = too_many_schemas /\ (limits.MAX_SCHEMA_CHANGES_PER_SCAN < started)%N) \/
      (e = too_many_columns /\ too_wide d u [t])
  end.

Lemma wp_schema_change_of count t w Φ :
  db w = d -> (count <= limits.MAX_SCHEMA_CHANGES_PER_SCAN)%N ->
  (forall r w', db w' = d -> change_outcome count t r -> Φ r w') ->
  wp (schema_change_of count u t) Φ w.
Proof.
  intros Hd Hcount HΦ. pose proof (scan_one _ _ Hscan (as_bytes t)) as H1. unfold change_outcome in HΦ.
  unfold schema_change_of. apply wp_bind, (wp_fetch_over _ 1); [done|]. intros rows _ Hrows.
  assert (rows ≡ₚ select_schemas_from (as_bytes u) (as_bytes t) d) as Hp by (destruct Hrows; [done | lia]).
  destruct (select_schemas_from (as_bytes u) (as_bytes t) d) as [|s [|s2 l]] eqn:Es; [| |cbn in H1; lia].
  - apply Permutation_nil_r in Hp as ->. apply wp_ret, HΦ; [done|]. cbn. rewrite N.add_0_r.
    split_and!; [done | done | by apply not_wide_nil | done].
  - apply Permutation_singleton_r in Hp as ->. cbn [length] in *. change (N.of_nat 1) with 1%N in HΦ.
    assert (s ∈ select_schemas_from (as_bytes u) (as_bytes t) d) as Hin by (rewrite Es; left).
    apply elem_of_filter' in Hin as (Hin & [Etu%bool_decide_eq_true_1 Evf%bool_decide_eq_true_1]%andb_true_iff).
    destruct (schema_row_view d Hlog s Hin (scan_types _ _ Hscan s Hin Etu)) as (su & cols & v & E1 & F1 & Hc & Hv & Hview).
    pose proof (scan_numbered _ _ Hscan s Hin Etu) as Hnum. pose proof (too_wide_one t s Es) as Hwide.
    rewrite F1 in Hnum, Hwide.
    apply wp_bind, wp_lift. destruct (N.ltb_spec limits.MAX_SCHEMA_CHANGES_PER_SCAN (count + 1)) as [Ho|Hin1];
      [apply HΦ; [done | by left]|].
    apply wp_bind, wp_lift. rewrite E1. apply wp_bind, wp_lift. rewrite Evf, (proj2 (uuid_from_row_ok _ t) eq_refl).
    apply wp_bind. eapply (wp_fetch_columns d Hnf _ _ _ _ cols); [done..|].
    destruct (N.ltb_spec limits.MAX_COLUMNS_PER_SCHEMA (N.of_nat (length (select_columns (as_bytes su) d)))) as [Hw|Hw].
    { apply HΦ; [done|]. right. split; [done | by apply Hwide]. }
    apply wp_bind, wp_lift. rewrite Hv. apply wp_ret, HΦ; [done|]. split_and!; [done | done | rewrite Hwide; lia | done].
Qed.

(** ** The loop over the transactions *)

Lemma files_added_in t r : r ∈ select_files_added (as_bytes u) t d ->
  r ∈ files d /\ FileRow.table_uuid r = as_bytes u /\ FileRow.added_in_transaction_id r = t.
Proof. by intros (? & [?%bool_decide_eq_true_1 ?%bool_decide_eq_true_1]%andb_true_iff)%elem_of_filter'. Qed.

Lemma files_removed_in t r : r ∈ select_files_removed (as_bytes u) t d ->
  r ∈ files d /\ FileRow.table_uuid r = as_bytes u /\ FileRow.removed_in_transaction_id r = Some t.
Proof. by intros (? & [?%bool_decide_eq_true_1 ?%bool_decide_eq_true_1]%andb_true_iff)%elem_of_filter'. Qed.

Lemma added_by_cons t ts :
  added_by d u (t :: ts) = (N.of_nat (length (select_files_added (as_bytes u) (as_bytes t) d)) + added_by d u ts)%N.
Proof. unfold added_by. cbn. rewrite length_app. lia. Qed.

Lemma removed_by_cons t ts :
  removed_by d u (t :: ts)
  = (N.of_nat (length (select_files_removed (as_bytes u) (as_bytes t) d)) + removed_by d u ts)%N.
Proof. unfold removed_by. cbn. rewrite length_app. lia. Qed.

Lemma schemas_of_cons t ts :
  schemas_of d u (t :: ts)
  = (N.of_nat (length (select_schemas_from (as_bytes u) (as_bytes t) d)) + schemas_of d u ts)%N.
Proof. unfold schemas_of. cbn. rewrite length_app. lia. Qed.

(** The counters are within their limits. *)
Definition counts_ok (c : ScanCounts.t) : Prop :=
  (ScanCounts.added_file_events c <= limits.MAX_FILES_PER_QUERY)%N /\
  (ScanCounts.removed_file_events c <= limits.MAX_FILES_PER_QUERY)%N /\
  (ScanCounts.schema_change_events c <= limits.MAX_SCHEMA_CHANGES_PER_SCAN)%N.

Lemma wp_event_of_txn counts t w Φ :
  db w = d -> counts_ok counts ->
  (forall r w', db w' = d ->
     match r with
     | Ok (e, c) => event_ok d u t e /\ counts_ok c /\ ~ too_wide d u [t] /\
         c = ScanCounts.mk (ScanCounts.added_file_events counts + added_by d u [t])
               (ScanCounts.removed_file_events counts + removed_by d u [t])
               (ScanCounts.schema_change_events counts + schemas_of d u [t])
     | Err e => scan_outcome d u counts [t] (Err e)
     end -> Φ r w') ->
  wp (event_of_txn u counts t) Φ w.
Proof.
  intros Hd (Ha & Hr & Hs) HΦ. destruct counts as [na nr ns]. unfold event_of_txn. cbn in *.
  rewrite added_by_cons, removed_by_cons, schemas_of_cons in HΦ.
  apply wp_bind, wp_fetch_over; [done|]. intros rows_a Hin_a Hpa.
  destruct (traverse_total file_of_row rows_a) as [fa Hfa].
  { intros r (Hin & Htu & _)%Hin_a%files_added_in. by apply Hfiles. }
  apply wp_bind, wp_lift. rewrite (push_added_spec t _ _ fa); [|..|done|done].
  2:{ intros r Hin. by apply Hin_a, files_added_in in Hin as (_ & _ & ?). }
  destruct (N.ltb_spec limits.MAX_FILES_PER_QUERY (na + N.of_nat (length rows_a))) as [Ho|Hi].
  { apply HΦ; [done|]. left. split; [done|]. destruct Hpa as [Hpa|?]; [rewrite Hpa in Ho|]; lia. }
  destruct Hpa as [Hpa|?]; [|lia]. pose proof (Permutation_length Hpa) as Hla. rewrite Hla in Hi |- *.
  apply wp_bind, wp_fetch_over; [done|]. intros rows_r Hin_r Hpr.
  destruct (traverse_total file_of_row rows_r) as [fr Hfr].
  { intros r (Hin & Htu & _)%Hin_r%files_removed_in. by apply Hfiles. }
  apply wp_bind, wp_lift. rewrite (push_removed_spec t _ _ fr); [|..|done|done].
  2:{ intros r Hin. by apply Hin_r, files_removed_in in Hin as (_ & _ & ?). }
  destruct (N.ltb_spec limits.MAX_FILES_PER_QUERY (nr + N.of_nat (length rows_r))) as [Ho|Hi2].
  { apply HΦ; [done|]. right; left. split; [done|]. destruct Hpr as [Hpr|?]; [rewrite Hpr in Ho|]; lia. }
  destruct Hpr as [Hpr|?]; [|lia]. pose proof (Permutation_length Hpr) as Hlr. rewrite Hlr in Hi2 |- *.
  apply wp_bind, wp_schema_change_of; [done..|]. intros [[n c]|e] w' Hd'.
  - intros (-> & Hlim & Hw & Hsc). apply wp_ret, HΦ; [done|]. split; [|split; [|split; [done|]]].
    + split; [done|]. split; [|done]. exists rows_a, rows_r, fa, fr. done.
    + unfold counts_ok. cbn. lia.
    + f_equal; unfold added_by, removed_by, schemas_of; cbn; lia.
  - intros Ho. apply HΦ; [done|]. right; right. destruct Ho as [[-> ?]|[-> ?]]; [left | by right].
    split; [done|]. lia.
Qed.

(** The counts and the schemas of one more transaction. *)
Ltac count_one :=
  rewrite ?added_by_cons, ?removed_by_cons, ?schemas_of_cons in *;
  change (added_by d u []) with 0%N in *; change (removed_by d u []) with 0%N in *;
  change (schemas_of d u []) with 0%N in *.

Lemma wp_events_of_txns counts ts w :
  db w = d -> counts_ok counts ->
  wp (events_of_txns u counts ts) (fun r w' => db w' = d /\ scan_outcome d u counts ts r) w.
Proof.
  intros Hd. revert counts w Hd. induction ts as [|t ts IH]; intros counts w Hd Hc; cbn [events_of_txns].
  { apply wp_ret. destruct Hc as (? & ? & ?). split; [done|]. cbn. rewrite !N.add_0_r. split_and!; try done.
    intros (t & s & Ht & _). by apply not_elem_of_nil in Ht. }
  apply wp_bind, wp_event_of_txn; [done..|]. intros [[e c]|e] w' Hd' Hr.
  - destruct Hr as (He & Hc' & Hw & ->). apply wp_bind. eapply wp_mono; [by apply IH|].
    intros r w2 (Hd2 & Ho). unfold scan_outcome in Ho. cbn in Ho.
    destruct r as [es|err]; [apply wp_ret|]; (split; [done|]); cbn; rewrite too_wide_cons; count_one.
    + destruct Ho as (? & ? & ? & ? & ?). split_and!; [lia.. | naive_solver | by constructor].
    + destruct Ho as [[-> ?]|[[-> ?]|[[-> ?]|[-> ?]]]];
        [left | right; left | right; right; left | right; right; right]; (split; [done|]); [lia..|by right].
  - split; [done|]. cbn in Hr |- *. rewrite too_wide_cons. count_one.
    destruct Hr as [[-> ?]|[[-> ?]|[[-> ?]|[-> ?]]]];
      [left | right; left | right; right; left | right; right; right]; (split; [done|]); [lia..|by left].
Qed.

(** ** The whole call *)

Context (row : TableRow.t) (Hrow : row ∈ tables d) (Hu : TableRow.table_uuid row = as_bytes u).
Context (us : list Uuid) (Hus : chain d (as_bytes u) = as_bytes <$> us).
Context (ident : TableIdent.t) (w : World) (Hd : db w = d) (Hident : table_row_of d ident = Some row).

Lemma wp_list_outcome from to_ :
  wp (list_transaction_events ident (TxnRangeCursor.mk from to_))
    (fun r w' => db w' = d /\ events_outcome d u us from to_ r) w.
Proof.
  destruct (decide (to_ ∈ us)) as [Hin|Hn].
  2:{ apply (wp_list_unknown d Hlog Hnf row u Hrow Hu us Hus ident w Hd Hident); [done|]. intros w' Hd'. split; [done | by apply outcome_unknown]. }
  apply list_elem_of_lookup in Hin as [i Hi]. destruct (starts_after_some_position d Hlog u us Hus from i to_ Hi) as [k Hk].
  eapply (wp_list_events d Hlog Hnf row u Hrow Hu us Hus ident w Hd Hident); [done..| | |].
  - intros w' Hd' Hle Hpos. eapply wp_mono; [apply wp_events_of_txns; [done | by split_and!]|].
    intros r w2 (Hd2 & Ho). split; [done|]. eapply outcome_scan; [done | done | done | lia | done].
  - intros w' Hd' Hlt. split; [done|]. eapply outcome_long; [done | done | lia].
  - intros w' Hd' Hle Hf ->. split; [done|]. destruct from as [f|]; [|done].
    eapply outcome_stranger; [done | done | done | lia].
Qed.

End events.

(** The identifiers of a history decode. *)
Lemma chain_uuids `{ArrowIpc} d u :
  catalog_inv d -> exists us, chain d u = as_bytes <$> us.
Proof.
  intros Hinv. pose proof (dec_txns _ (inv_rows _ Hinv)) as Hd. unfold chain, history.
  induction Hd as [|r l [Hr _] _ IH]; cbn; [by exists []|]. destruct IH as [us Hus].
  case_bool_decide; [|by exists us]. destruct (uuid_decodes _ Hr) as (t & _ & Et).
  exists (t :: us). cbn. by rewrite Et, Hus.
Qed.

Lemma run_of_wp {A} (m : M A) w (Q : result CatalogError A -> Prop) :
  wp m (fun r _ => Q r) w -> exists r w', m w = Some (r, w') /\ Q r.
Proof. apply wp_run. Qed.

(** The call on a range, within the limits. *)
Lemma list_events_ok `{Env} `{!EnumerationLaws} ident w row u us from k i to_ :
  catalog_inv (db w) -> no_faults ->
  table_row_of (db w) ident = Some row -> TableRow.table_uuid row = as_bytes u ->
  chain (db w) (as_bytes u) = as_bytes <$> us -> us !! i = Some to_ ->
  match from with
  | None => k = 0
  | Some f => exists j, us !! j = Some f /\ j < i /\ k = S j
  end ->
  (N.of_nat (length (segment us k i)) <= limits.MAX_TRANSACTIONS_PER_SCAN)%N ->
  scan_ok (db w) u (segment us k i) ->
  exists es w', list_transaction_events ident (TxnRangeCursor.mk from to_) w = Some (Ok es, w') /\
    db w' = db w /\ Forall2 (event_ok (db w) u) (segment us k i) es.
Proof.
  intros Hinv Hnf Hrow Hu Hus Hi Hk Hl Hscan. pose proof Hrow as (Hrt & _)%table_row_of_some.
  assert (starts_after us from k i /\ (from = None \/ 0 < k)) as [Hs Hpos].
  { destruct from as [f|].
    - destruct Hk as (j & Hj & Hji & ->). split; [|right; lia].
      apply starts_after_some; [exact (uuids_nodup (db w) Hinv u us Hus) | done | done].
    - subst k. split; [by eapply starts_after_none | by left]. }
  apply wp_ok_run.
  eapply (wp_list_events (db w) Hinv); [done.. | | |].
  - intros w' Hd' _ _. destruct Hscan as [Ha Hr Hc Hrows]. eapply wp_mono.
    + eapply (wp_events_of_txns (db w) Hinv Hnf); [by eapply inv_scan, Hrows | apply Hrows | done | by split_and!].
    + pose proof (rows_not_wide _ _ (segment us k i) Hrows). intros r w2 (Hd2 & Ho). unfold scan_outcome in Ho.
      cbn in Ho. destruct r as [es|e]; [by destruct Ho as (_ & _ & _ & _ & Ho)|]. naive_solver lia.
  - intros w' _ Hlt. lia.
  - intros w' _ _ Hf ->. destruct Hpos; [done | lia].
Qed.

(** ** Theorems *)

(** C25: the events of a range are the events of its transactions: for a
    [to_inclusive] in the table's history and a [from_exclusive] that is absent
    or earlier in it, [list_transaction_events] succeeds, within the limits of
    a scan, with one event per transaction after [from_exclusive] up to
    [to_inclusive], oldest first; each lists exactly the files that
    transaction added and removed, and the schema it made current. *)
Theorem events_in_range `{Env} `{!EnumerationLaws} ident w row u us from k i to_ :
  catalog_inv (db w) -> no_faults ->
  table_row_of (db w) ident = Some row -> TableRow.table_uuid row = as_bytes u ->
  chain (db w) (as_bytes u) = as_bytes <$> us -> us !! i = Some to_ ->
  match from with
  | None => k = 0
  | Some f => exists j, us !! j = Some f /\ j < i /\ k = S j
  end ->
  (N.of_nat (length (segment us k i)) <= limits.MAX_TRANSACTIONS_PER_SCAN)%N ->
  scan_ok (db w) u (segment us k i) ->
  exists es w', list_transaction_events ident (TxnRangeCursor.mk from to_) w = Some (Ok es, w') /\
    db w' = db w /\ Forall2 (event_ok (db w) u) (segment us k i) es.
Proof. apply list_events_ok. Qed.

(** C33: everything [list_transaction_events] can answer about a table, for any
    range: it refuses a [to_inclusive] outside the table's history, a range of
    more transactions than a scan may return, and a [from_exclusive] that is not
    strictly before [to_inclusive]; otherwise it returns the events of the range
    if the files added, the files removed, the schemas started and the columns of
    each of those stay within their limit, exactly at the limit included, and
    else the error of one of the limits exceeded.  The stored JSON and column
    types are supposed to decode, and the engine not to fail. *)
Theorem events_complete `{Env} `{!EnumerationLaws} ident w row u us from to_ :
  catalog_inv (db w) -> no_faults ->
  table_row_of (db w) ident = Some row -> TableRow.table_uuid row = as_bytes u ->
  chain (db w) (as_bytes u) = as_bytes <$> us -> files_decode (db w) u -> schemas_decode (db w) u ->
  exists r w', list_transaction_events ident (TxnRangeCursor.mk from to_) w = Some (r, w') /\
    db w' = db w /\ events_outcome (db w) u us from to_ r.
Proof.
  intros Hinv Hnf Hrow Hu Hus Hrows Htypes. pose proof Hrow as (Hrt & _)%table_row_of_some.
  apply wp_run. pose proof (inv_scan _ Hinv _ _ Hrt Hu Htypes). by eapply (wp_list_outcome (db w) Hinv).
Qed.

(** The ranges that are refused: a [to_inclusive] outside the table's
    history; a [from_exclusive] that is not strictly before it; more
    transactions than a scan may return. *)
Theorem events_rejected `{Env} `{!EnumerationLaws} ident w row u us from to_ :
  catalog_inv (db w) -> no_faults ->
  table_row_of (db w) ident = Some row -> TableRow.table_uuid row = as_bytes u ->
  chain (db w) (as_bytes u) = as_bytes <$> us ->
  let run := list_transaction_events ident (TxnRangeCursor.mk from to_) w in
  (to_ ∉ us -> exists w',
     run = Some (Err unknown_transaction, w')) /\
  (forall i f, us !! i = Some to_ -> from = Some f -> f ∉ take i us ->
     (N.of_nat (S i) <= limits.MAX_TRANSACTIONS_PER_SCAN)%N ->
     exists w', run = Some (Err not_an_ancestor, w')) /\
  (forall i k, us !! i = Some to_ -> starts_after us from k i ->
     (limits.MAX_TRANSACTIONS_PER_SCAN < N.of_nat (S i - k))%N ->
     exists w', run = Some (Err too_many_transactions, w')).
Proof.
  intros Hinv Hnf Hrow Hu Hus run. pose proof Hrow as (Hrt & _)%table_row_of_some.
  assert (forall e, wp (list_transaction_events ident (TxnRangeCursor.mk from to_))
    (fun r _ => r = Err e) w -> exists w', run = Some (Err e, w')) as Hrun.
  { intros e (r & w' & E & ->)%run_of_wp. by exists w'. }
  split_and!.
  - intros Hto. apply Hrun. by eapply (wp_list_unknown (db w) Hinv).
  - intros i f Hi -> Hf Hl. apply Hrun. pose proof (segment_length us 0 i to_ Hi).
    eapply (wp_list_events (db w) Hinv); [done.. | by apply starts_after_foreign | | |].
    + intros w' _ _ [?|?]; [done | lia].
    + intros w' _ Hlt. lia.
    + done.
  - intros i k Hi Hs Hl. apply Hrun. pose proof (segment_length us k i to_ Hi).
    eapply (wp_list_events (db w) Hinv); [done.. | | |].
    + intros w' _ Hle _. lia.
    + done.
    + intros w' _ Hle _ _. lia.
Qed.

(** ** Witnesses *)

#[local] Existing Instances ref_env ref_ipc_laws ref_json_laws ref_enumeration_laws.

Definition txns3 : list Uuid := [txn1; txn2; txn3].

Lemma txns3_chain : chain (db world3) (as_bytes events_uuid) = as_bytes <$> txns3.
Proof. vm_compute. reflexivity. Qed.

Lemma world3_rows : rows_ok (db world3) events_uuid.
Proof.
  split.
  - intros s _ _. apply few_columns.
  - intros r Hr _. assert (exists fs, traverse file_of_row (files (db world3)) = Ok fs) as [fs Hfs].
    { destruct (traverse file_of_row (files (db world3))) as [fs|e] eqn:E; [by exists fs|].
      vm_compute in E. discriminate E. }
    apply traverse_ok in Hfs. apply list_elem_of_lookup in Hr as [i Hi].
    destruct (Forall2_lookup_l _ _ _ _ _ Hfs Hi) as (f & _ & Hf). by exists f.
  - intros s _ _. apply types_decode_in, columns_decode_all. vm_compute. reflexivity.
Qed.

Lemma world3_scan ts : ts = [txn3] \/ ts = [txn2; txn3] -> scan_ok (db world3) events_uuid ts.
Proof.
  intros Hts. split; [..|apply world3_rows]; destruct Hts as [->| ->]; vm_compute; discriminate.
Qed.

Lemma events_in_range_witness :
  exists e2 e3 w',
    list_transaction_events events (TxnRangeCursor.mk (Some txn1) txn3) world3
      = Some (Ok [e2; e3], w') /\
    event_ok (db world3) events_uuid txn2 e2 /\ event_ok (db world3) events_uuid txn3 e3 /\
    length (select_files_removed (as_bytes events_uuid) (as_bytes txn3) (db world3)) = 1.
Proof.
  destruct (events_in_range events world3 row3 events_uuid txns3 (Some txn1) 1 2 txn3 world3_inv
    ref_no_faults) as (es & w' & E & _ & Hes).
  - vm_compute. reflexivity.
  - vm_compute. reflexivity.
  - exact txns3_chain.
  - reflexivity.
  - exists 0. split; [reflexivity|]. split; [lia | reflexivity].
  - vm_compute. discriminate.
  - apply world3_scan. right. reflexivity.
  - change (segment txns3 1 2) with [txn2; txn3] in Hes.
    inversion Hes as [|? e2 ? es' H2 Hes']; subst. inversion Hes' as [|? e3 ? es'' H3 Hnil]; subst.
    inversion Hnil; subst. exists e2, e3, w'. split; [exact E|]. split; [exact H2|]. split; [exact H3|].
    vm_compute. reflexivity.
Defined.

Lemma events_rejected_witness :
  exists w', list_transaction_events events (TxnRangeCursor.mk (Some txn3) txn2) world3
    = Some (Err not_an_ancestor, w').
Proof.
  destruct (events_rejected events world3 row3 events_uuid txns3 (Some txn3) txn2 world3_inv
    ref_no_faults) as (_ & H & _).
  - vm_compute. reflexivity.
  - vm_compute. reflexivity.
  - exact txns3_chain.
  - apply (H 1 txn3); [reflexivity | reflexivity | | vm_compute; discriminate].
    change (take 1 txns3) with [txn1]. intros Hin.
    apply (bool_decide_eq_true_2 _) in Hin. vm_compute in Hin. discriminate Hin.
Defined.

(** The whole history of the table: its three events. *)
Lemma events_complete_witness :
  exists r w', list_transaction_events events (TxnRangeCursor.mk None txn3) world3 = Some (r, w') /\
    events_outcome (db world3) events_uuid txns3 None txn3 r /\ is_ok r = true.
Proof.
  destruct (events_complete events world3 row3 events_uuid txns3 None txn3 world3_inv ref_no_faults)
    as (r & w' & E & _ & Ho).
  - vm_compute. reflexivity.
  - vm_compute. reflexivity.
  - exact txns3_chain.
  - exact (rows_decode_files _ _ world3_rows).
  - exact (rows_decode_types _ _ world3_rows).
  - exists r, w'. split; [exact E|]. split; [exact Ho|].
    destruct r as [es|e]; [reflexivity|]. vm_compute in E. discriminate E.
Defined.
