(* ===== verification/Diff.v ===== *)
(** * Differences of two snapshots

    [project_delta_range] folds the ordered events of a range into a net delta,
    one file at a time; [diff_table] returns exactly the difference of the two
    views at its ends.  A table's properties are not versioned, so a delta
    never reports a change of them; and the range from a transaction to itself
    is refused. *)

From S2P Require Import Prelude Uuid Error Limits Json DataType Format Schema Models Db DbFacts World Helpers Catalog Api Effects ReadFacts Invariant RefEnv Scenario Safety Commit Order Views Events.

(** ** One file under the fold *)

Definition file_id (c : TxnFileChange.t) : Uuid := File.file_uuid (TxnFileChange.file c).

(** What the two maps hold for one file. *)
Definition entry (q : Uuid) (st : gmap Uuid File.t * gmap Uuid File.t) :
    option File.t * option File.t := (st.1 !! q, st.2 !! q).

Definition apply_entry (e : option File.t * option File.t) (c : TxnFileChange.t) :
    option File.t * option File.t :=
  match TxnFileChange.kind c, e.1 with
  | Added, _ => (Some (TxnFileChange.file c), None)
  | Removed, None => (None, Some (TxnFileChange.file c))
  | Removed, Some _ => (None, e.2)
  end.

Definition changes_of (q : Uuid) (cs : list TxnFileChange.t) : list TxnFileChange.t :=
  List.filter (fun c => bool_decide (file_id c = q)) cs.

Lemma apply_change_entry q st c :
  entry q (apply_change st c) =
    if bool_decide (file_id c = q) then apply_entry (entry q st) c else entry q st.
Proof.
  destruct st as [A R]. unfold apply_change, apply_entry, entry, file_id. cbn.
  case_bool_decide as E.
  - subst q. destruct (TxnFileChange.kind c).
    + cbn. by rewrite lookup_insert_eq, lookup_delete_eq.
    + destruct (A !! _) eqn:EA; cbn; [by rewrite lookup_delete_eq | by rewrite EA, lookup_insert_eq].
  - destruct (TxnFileChange.kind c).
    + cbn. by rewrite lookup_insert_ne, lookup_delete_ne.
    + destruct (A !! _) eqn:EA; cbn; [by rewrite lookup_delete_ne | by rewrite lookup_insert_ne].
Qed.

Lemma fold_entry q cs st :
  entry q (fold_left apply_change cs st) = fold_left apply_entry (changes_of q cs) (entry q st).
Proof.
  revert st; induction cs as [|c cs IH]; intros st; cbn; [done|].
  rewrite IH, apply_change_entry. by case_bool_decide.
Qed.

Lemma fold_events st (es : list TxnEvent.t) :
  fold_left (fun st e => fold_left apply_change (TxnEvent.file_changes e) st) es st
  = fold_left apply_change (es ≫= TxnEvent.file_changes) st.
Proof.
  revert st; induction es as [|e es IH]; intros st; cbn; [done|]. by rewrite IH, fold_left_app.
Qed.

(** The changes of one file that [a] added and [x], if any, removed. *)
Definition file_log (f : File.t) (a : Uuid) (x : option Uuid) (t : Uuid) : list TxnFileChange.t :=
  (if bool_decide (a = t) then [TxnFileChange.mk t Added f] else []) ++
  (if bool_decide (x = Some t) then [TxnFileChange.mk t Removed f] else []).

Definition removed_within (x : option Uuid) (ts : list Uuid) : bool :=
  match x with Some t => bool_decide (t ∈ ts) | None => false end.

(** A file counts as added when it was added in the range and not removed in
    it, as removed in the opposite case. *)
Definition net_entry (f : File.t) (a : Uuid) (x : option Uuid) (ts : list Uuid) :
    option File.t * option File.t :=
  (if bool_decide (a ∈ ts) && negb (removed_within x ts) then Some f else None,
   if negb (bool_decide (a ∈ ts)) && removed_within x ts then Some f else None).

(** [x] does not come before [a]. *)
Definition in_order (ts : list Uuid) (a : Uuid) (x : option Uuid) : Prop :=
  forall i j t, ts !! i = Some a -> x = Some t -> ts !! j = Some t -> i <= j.

Lemma in_order_prefix ts t a x : in_order (ts ++ [t]) a x -> in_order ts a x.
Proof.
  intros Ho i j t' Hi Hx Hj. apply (Ho i j t' (lookup_app_l_Some _ _ _ _ Hi) Hx (lookup_app_l_Some _ _ _ _ Hj)).
Qed.

Lemma in_order_last ts t x : NoDup (ts ++ [t]) -> in_order (ts ++ [t]) t x -> removed_within x ts = false.
Proof.
  intros Hn Ho. destruct x as [t'|]; [|done]. cbn. apply bool_decide_eq_false_2.
  intros (j & Hj)%list_elem_of_lookup.
  specialize (Ho (length ts) j t' (list_lookup_middle _ _ _ _ eq_refl) eq_refl (lookup_app_l_Some _ _ _ _ Hj)).
  apply lookup_lt_Some in Hj. lia.
Qed.

Lemma removed_within_snoc x ts t :
  removed_within x (ts ++ [t]) = removed_within x ts || bool_decide (x = Some t).
Proof.
  destruct x as [t'|]; [|done]. cbn. destruct (decide (t' = t)) as [->|Hn].
  - rewrite bool_decide_eq_true_2 by set_solver. by rewrite (bool_decide_eq_true_2 (Some t = _)), orb_true_r.
  - rewrite (bool_decide_eq_false_2 (Some t' = _)), orb_false_r by congruence.
    apply bool_decide_ext. set_solver.
Qed.

Lemma elem_of_snoc_bool (a : Uuid) ts t :
  bool_decide (a ∈ ts ++ [t]) = bool_decide (a ∈ ts) || bool_decide (a = t).
Proof.
  destruct (decide (a = t)) as [->|Hn].
  - rewrite bool_decide_eq_true_2 by set_solver. by rewrite (bool_decide_eq_true_2 (t = t)), orb_true_r.
  - rewrite (bool_decide_eq_false_2 (a = t)), orb_false_r by done. apply bool_decide_ext. set_solver.
Qed.

Lemma fold_file_log f a x ts :
  NoDup ts -> in_order ts a x ->
  fold_left apply_entry (ts ≫= file_log f a x) (None, None) = net_entry f a x ts.
Proof.
  induction ts as [|t ts IH] using rev_ind; intros Hn Ho.
  - unfold net_entry. rewrite bool_decide_eq_false_2 by set_solver. by destruct x.
  - rewrite bind_app, fold_left_app, IH by (eapply in_order_prefix + apply NoDup_app in Hn as []; done).
    cbn. rewrite app_nil_r. unfold net_entry. rewrite elem_of_snoc_bool, removed_within_snoc.
    unfold file_log. destruct (decide (a = t)) as [->|Hat].
    + rewrite (in_order_last _ _ _ Hn Ho). assert (t ∉ ts) as Ht
        by (apply NoDup_app in Hn as (_ & Hd & _); intros Hin; apply (Hd t Hin); left).
      rewrite (bool_decide_eq_true_2 (t = t)), (bool_decide_eq_false_2 (t ∈ ts)) by done.
      by case_bool_decide.
    + rewrite (bool_decide_eq_false_2 (a = t)), orb_false_r by done. cbn.
      case_bool_decide as Hx; cbn; [|by rewrite orb_false_r].
      assert (removed_within x ts = false) as ->.
      { subst x. cbn. apply bool_decide_eq_false_2. apply NoDup_app in Hn as (_ & Hd & _).
        intros Hin. apply (Hd t Hin). left. }
      by case_bool_decide.
Qed.

(** ** One file in the events *)

Section changes.
Context `{Env} (d : Db) (u : Uuid) (Hok : db_ok d).

(** The row [r] of the table decodes to [f]. *)
Definition row_file (r : FileRow.t) (f : File.t) : Prop :=
  r ∈ files d /\ FileRow.table_uuid r = as_bytes u /\ file_of_row r = Ok f.

Lemma file_of_row_ids r f : file_of_row r = Ok f ->
  FileRow.file_uuid r = as_bytes (File.file_uuid f) /\
  FileRow.added_in_transaction_id r = as_bytes (File.added_in_transaction_id f) /\
  FileRow.removed_in_transaction_id r = as_bytes <$> File.removed_in_transaction_id f.
Proof.
  unfold file_of_row. intros (fu & Hfu%uuid_from_row_ok & (tu & _ & (a & Ha%uuid_from_row_ok &
    (x & Hx%uuid_from_row_optional_ok & (pv & _ & (fo & _ & [= <-])%bind_ok)%bind_ok)%bind_ok)%bind_ok)%bind_ok)%bind_ok.
  done.
Qed.

Lemma row_file_unique r f r' f' :
  row_file r f -> row_file r' f' -> File.file_uuid f = File.file_uuid f' -> r = r' /\ f = f'.
Proof.
  intros (Hr & _ & Hf) (Hr' & _ & Hf') E.
  destruct (file_of_row_ids _ _ Hf) as (E1 & _). destruct (file_of_row_ids _ _ Hf') as (E1' & _).
  assert (r = r') as ->; [|split; [done | congruence]].
  eapply (nodup_fmap_inj FileRow.file_uuid); [apply (ok_file_pk _ Hok) | done | done | congruence].
Qed.

Lemma decode_filter q rows fs :
  traverse file_of_row rows = Ok fs ->
  traverse file_of_row (List.filter (fun r => bool_decide (FileRow.file_uuid r = as_bytes q)) rows)
  = Ok (List.filter (fun f => bool_decide (File.file_uuid f = q)) fs).
Proof.
  intros HF%traverse_ok. induction HF as [|r f rows fs Hr _ IH]; cbn; [done|].
  destruct (file_of_row_ids _ _ Hr) as (E & _).
  rewrite (bool_decide_ext _ (File.file_uuid f = q)) by (rewrite E; split; [by intros ?%(inj as_bytes) | by intros ->]).
  case_bool_decide; cbn; [|done]. by rewrite Hr, IH.
Qed.

(** The decoded files of a query that keeps the rows satisfying [p], at the
    identifier of [r]. *)
Lemma decode_at r f (p : FileRow.t -> bool) rows fs :
  row_file r f -> rows ≡ₚ List.filter p (files d) -> traverse file_of_row rows = Ok fs ->
  List.filter (fun f' => bool_decide (File.file_uuid f' = File.file_uuid f)) fs
  = if p r then [f] else [].
Proof.
  intros Hrf Hp Hfs. pose proof Hrf as (Hr & _ & Hf). destruct (file_of_row_ids _ _ Hf) as (E & _).
  pose proof (decode_filter (File.file_uuid f) rows fs Hfs) as Hd.
  set (g := fun r' => bool_decide (FileRow.file_uuid r' = as_bytes (File.file_uuid f))) in *.
  assert (List.filter g rows ≡ₚ List.filter g (List.filter p (files d))) as Hg by by apply filter_permutation.
  assert (List.filter g (List.filter p (files d)) = if p r then [r] else []) as Hone.
  { destruct (p r) eqn:Epr.
    - eapply (filter_unique FileRow.file_uuid); [apply filter_fmap_nodup, (ok_file_pk _ Hok) | | |].
      + apply elem_of_filter'. done.
      + unfold g. by apply bool_decide_eq_true_2.
      + intros r' _ E'%bool_decide_eq_true_1. congruence.
    - apply filter_all_false. intros r' [Hr' Hpr']%elem_of_filter'. apply bool_decide_eq_false_2.
      intros E'. assert (r = r') as ->; [|congruence].
      eapply (nodup_fmap_inj FileRow.file_uuid); [apply (ok_file_pk _ Hok) | done | done | congruence]. }
  rewrite Hone in Hg. destruct (p r).
  - apply Permutation_singleton_r in Hg. rewrite Hg in Hd. cbn in Hd. rewrite Hf in Hd. cbn in Hd.
    by injection Hd as <-.
  - apply Permutation_nil_r in Hg. rewrite Hg in Hd. by injection Hd as <-.
Qed.

Lemma changes_of_tagged q t k fs :
  changes_of q (TxnFileChange.mk t k <$> fs)
  = TxnFileChange.mk t k <$> List.filter (fun f => bool_decide (File.file_uuid f = q)) fs.
Proof.
  unfold changes_of, file_id. induction fs as [|f fs IH]; cbn; [done|]. rewrite IH. by case_bool_decide.
Qed.

Lemma changes_of_app q cs cs' : changes_of q (cs ++ cs') = changes_of q cs ++ changes_of q cs'.
Proof. apply List.filter_app. Qed.

(** The changes an event lists for one file. *)
Lemma event_changes r f t e :
  row_file r f -> event_ok d u t e ->
  changes_of (File.file_uuid f) (TxnEvent.file_changes e)
  = file_log f (File.added_in_transaction_id f) (File.removed_in_transaction_id f) t.
Proof.
  intros Hrf (_ & (added & removed & fa & fr & Ha & Hr & Hfa & Hfr & ->) & _).
  pose proof Hrf as (_ & Htu & Hf). destruct (file_of_row_ids _ _ Hf) as (_ & Ea & Ex).
  rewrite changes_of_app, !changes_of_tagged, (decode_at r f _ _ _ Hrf Ha Hfa), (decode_at r f _ _ _ Hrf Hr Hfr).
  unfold file_log. rewrite Htu, Ea, Ex, (bool_decide_eq_true_2 (as_bytes u = _)) by done. cbn [andb]. f_equal.
  - rewrite (bool_decide_ext _ (File.added_in_transaction_id f = t)); [by case_bool_decide|].
    split; [by intros ?%(inj as_bytes) | by intros ->].
  - rewrite (bool_decide_ext _ (File.removed_in_transaction_id f = Some t)); [by case_bool_decide|].
    destruct (File.removed_in_transaction_id f) as [x|]; cbn; [|done].
    split; [by intros [= ->%(inj as_bytes)] | by intros [= ->]].
Qed.

(** Every change comes from a row of the table. *)
Lemma event_change_row t e c :
  event_ok d u t e -> c ∈ TxnEvent.file_changes e -> exists r, row_file r (TxnFileChange.file c).
Proof.
  intros (_ & (added & removed & fa & fr & Ha & Hr & Hfa & Hfr & ->) & _).
  assert (Hdec : forall rows fs f, traverse file_of_row rows = Ok fs -> f ∈ fs ->
    exists r, r ∈ rows /\ file_of_row r = Ok f).
  { intros rows fs f HF%traverse_ok (i & Hi)%list_elem_of_lookup.
    destruct (Forall2_lookup_r _ _ _ _ _ HF Hi) as (r & Hri & Hrf).
    exists r. split; [by eapply list_elem_of_lookup_2 | done]. }
  intros [(f & -> & Hin)%list_elem_of_fmap|(f & -> & Hin)%list_elem_of_fmap]%elem_of_app; cbn.
  - destruct (Hdec _ _ _ Hfa Hin) as (r & Hrow & Hf). rewrite Ha in Hrow.
    apply elem_of_filter' in Hrow as (? & [?%bool_decide_eq_true_1 _]%andb_true_iff). by exists r.
  - destruct (Hdec _ _ _ Hfr Hin) as (r & Hrow & Hf). rewrite Hr in Hrow.
    apply elem_of_filter' in Hrow as (? & [?%bool_decide_eq_true_1 _]%andb_true_iff). by exists r.
Qed.

Lemma changes_of_bind q es : changes_of q (es ≫= TxnEvent.file_changes)
  = es ≫= fun e => changes_of q (TxnEvent.file_changes e).
Proof.
  induction es as [|e es IH]; [done|]. cbn [mbind list_bind]. by rewrite changes_of_app, <- IH.
Qed.

(** The two maps of the projection, at one file. *)
Lemma delta_entry ts es r f :
  NoDup ts -> Forall2 (event_ok d u) ts es -> row_file r f ->
  in_order ts (File.added_in_transaction_id f) (File.removed_in_transaction_id f) ->
  entry (File.file_uuid f) (fold_left apply_change (es ≫= TxnEvent.file_changes) (∅, ∅))
  = net_entry f (File.added_in_transaction_id f) (File.removed_in_transaction_id f) ts.
Proof.
  intros Hn Hes Hrf Ho. rewrite fold_entry, changes_of_bind.
  assert (es ≫= (fun e => changes_of (File.file_uuid f) (TxnEvent.file_changes e))
    = ts ≫= file_log f (File.added_in_transaction_id f) (File.removed_in_transaction_id f)) as ->.
  { clear Hn Ho. induction Hes as [|t e ts es He _ IH]; [done|]. cbn [mbind list_bind].
    rewrite IH. f_equal. by apply (event_changes r). }
  rewrite <- fold_file_log by done. by unfold entry; cbn; rewrite !lookup_empty.
Qed.

(** A file in either map comes from a row of the table. *)
Lemma delta_row ts es q f :
  Forall2 (event_ok d u) ts es ->
  (entry q (fold_left apply_change (es ≫= TxnEvent.file_changes) (∅, ∅))).1 = Some f \/
  (entry q (fold_left apply_change (es ≫= TxnEvent.file_changes) (∅, ∅))).2 = Some f ->
  File.file_uuid f = q /\ exists r, row_file r f.
Proof.
  intros Hes. rewrite fold_entry.
  assert (Hall : Forall (fun c => file_id c = q /\ exists r, row_file r (TxnFileChange.file c))
    (changes_of q (es ≫= TxnEvent.file_changes))).
  { apply Forall_forall. intros c [Hc Hq%bool_decide_eq_true_1]%elem_of_filter'. split; [done|].
    apply list_elem_of_bind in Hc as (e & Hc & He). apply list_elem_of_lookup in He as [i Hi].
    destruct (Forall2_lookup_r _ _ _ _ _ Hes Hi) as (t & _ & Hok'). by eapply event_change_row. }
  assert (Hgen : forall cs st,
    Forall (fun c => file_id c = q /\ exists r, row_file r (TxnFileChange.file c)) cs ->
    (forall g, st.1 = Some g \/ st.2 = Some g -> File.file_uuid g = q /\ exists r, row_file r g) ->
    forall g, (fold_left apply_entry cs st).1 = Some g \/ (fold_left apply_entry cs st).2 = Some g ->
    File.file_uuid g = q /\ exists r, row_file r g).
  { induction cs as [|c cs IH]; intros st Hcs Hst; cbn; [done|].
    apply Forall_cons in Hcs as [Hc Hcs]. apply IH; [done|]. intros g.
    unfold apply_entry. destruct (TxnFileChange.kind c), st as [[]?]; cbn; naive_solver. }
  apply Hgen; [done|]. unfold entry. cbn. rewrite !lookup_empty. naive_solver.
Qed.

End changes.

(** ** Positions in the history *)

Lemma precedes_positions us i j a b :
  NoDup us -> us !! i = Some a -> us !! j = Some b ->
  precedes (as_bytes <$> us) (as_bytes a) (as_bytes b) <-> i <= j.
Proof.
  intros Hn Hi Hj. split.
  - intros (i' & j' & Hi' & Hj' & Hl). rewrite !list_lookup_fmap in *.
    destruct (us !! i') as [a'|] eqn:Ea; [|done]. destruct (us !! j') as [b'|] eqn:Eb; [|done].
    injection Hi' as ->%(inj as_bytes). injection Hj' as ->%(inj as_bytes).
    rewrite (NoDup_lookup us i i' a) by done. by rewrite (NoDup_lookup us j j' b).
  - intros Hl. exists i, j. rewrite !list_lookup_fmap, Hi, Hj. done.
Qed.

Lemma segment_lookup us k i n x : segment us k i !! n = Some x <-> us !! (k + n) = Some x /\ k + n <= i.
Proof.
  unfold segment. rewrite lookup_drop. split.
  - intros [Hl Hi]%lookup_take_Some. split; [done | lia].
  - intros [Hl Hi]. apply lookup_take_Some. split; [done | lia].
Qed.

Lemma elem_of_segment us k i p x :
  NoDup us -> us !! p = Some x -> x ∈ segment us k i <-> k <= p <= i.
Proof.
  intros Hn Hp. rewrite list_elem_of_lookup. setoid_rewrite segment_lookup. split.
  - intros (n & Hx & Hl). rewrite (NoDup_lookup us p (k + n) x) by done. lia.
  - intros [Hk Hi]. exists (p - k). by replace (k + (p - k)) with p by lia.
Qed.

Lemma segment_nodup us k i : NoDup us -> NoDup (segment us k i).
Proof. intros Hn. eapply sublist_NoDup; [exact Hn|]. etrans; [apply sublist_drop | apply sublist_take]. Qed.

Section delta.
Context `{Env} `{!EnumerationLaws} (d : Db) (Hinv : catalog_inv d) (Hs : sorted_ids d).
Context (u : Uuid) (us : list Uuid) (Hus : chain d (as_bytes u) = as_bytes <$> us).

Lemma us_nodup : NoDup us.
Proof. apply (NoDup_fmap_1 as_bytes). rewrite <- Hus. exact (chain_nodup d Hinv (as_bytes u)). Qed.

(** Where a file was added, and where it was removed. *)
Lemma row_file_positions r f :
  row_file d u r f -> exists p, us !! p = Some (File.added_in_transaction_id f) /\
    forall x, File.removed_in_transaction_id f = Some x -> exists n, us !! n = Some x /\ p <= n.
Proof.
  intros (Hr & Htu & Hf). destruct (file_of_row_ids _ _ Hf) as (_ & Ea & Ex).
  pose proof (inv_files _ Hinv) as Hall. rewrite Forall_forall in Hall.
  destruct (Hall r Hr) as [Hadd Hrem]. rewrite Htu, Hus, Ea in *.
  apply (list_elem_of_fmap_inj as_bytes) in Hadd. apply list_elem_of_lookup in Hadd as [p Hp].
  exists p. split; [done|]. intros x Hx. rewrite Ex, Hx in Hrem. cbn in Hrem.
  pose proof Hrem as (_ & j & _ & Hj & _). rewrite list_lookup_fmap in Hj.
  destruct (us !! j) as [x'|] eqn:Ej; [|done]. injection Hj as ->%(inj as_bytes).
  exists j. split; [done|]. eapply precedes_positions; [apply us_nodup | done | done | done].
Qed.

Lemma visible_positions r f p n t :
  row_file d u r f -> us !! n = Some t -> us !! p = Some (File.added_in_transaction_id f) ->
  r ∈ select_files_at (as_bytes u) (as_bytes t) d <->
  p <= n /\ forall x j, File.removed_in_transaction_id f = Some x -> us !! j = Some x -> n < j.
Proof.
  intros Hrf Hn Hp. pose proof Hrf as (Hr & Htu & Hf). destruct (file_of_row_ids _ _ Hf) as (_ & Ea & Ex).
  pose proof us_nodup as Hnd.
  rewrite files_at_visible by (done || by rewrite Hus; apply list_elem_of_fmap_2; eapply list_elem_of_lookup_2).
  unfold visible_at. rewrite Hus, Ea, Ex, (precedes_positions us p n) by done. split.
  - intros (_ & _ & Hl & Hx). split; [done|]. intros x j Hxe Hj.
    specialize (Hx (as_bytes x)). rewrite Hxe in Hx. specialize (Hx eq_refl).
    rewrite (precedes_positions us j n) in Hx by done. lia.
  - intros [Hl Hx]. split_and!; [done.. |]. intros b Hb.
    destruct (File.removed_in_transaction_id f) as [x|] eqn:Exf; [|done]. injection Hb as <-.
    destruct (row_file_positions _ _ Hrf) as (p' & _ & Hrem). destruct (Hrem x Exf) as (j & Hj & _).
    rewrite (precedes_positions us j n) by done. specialize (Hx x j eq_refl Hj). lia.
Qed.

Lemma row_file_in_order r f k i :
  row_file d u r f ->
  in_order (segment us k i) (File.added_in_transaction_id f) (File.removed_in_transaction_id f).
Proof.
  intros Hrf n m t [Hn _]%segment_lookup Ht [Hm _]%segment_lookup.
  destruct (row_file_positions _ _ Hrf) as (p & Hp & Hrem). destruct (Hrem t Ht) as (j & Hj & Hl).
  pose proof (NoDup_lookup us _ _ _ us_nodup Hn Hp). pose proof (NoDup_lookup us _ _ _ us_nodup Hm Hj). lia.
Qed.

(** The net effect of the transactions after [a], at [k], up to [b], at [i], on
    a file is the difference of its visibility at the two ends. *)
Lemma net_entry_visible r f k i a b :
  row_file d u r f -> us !! k = Some a -> us !! i = Some b -> k < i ->
  let e := net_entry f (File.added_in_transaction_id f) (File.removed_in_transaction_id f)
             (segment us (S k) i) in
  let before := r ∈ select_files_at (as_bytes u) (as_bytes a) d in
  let after := r ∈ select_files_at (as_bytes u) (as_bytes b) d in
  (forall g, e.1 = Some g <-> g = f /\ after /\ ~ before) /\
  (forall g, e.2 = Some g <-> g = f /\ before /\ ~ after).
Proof.
  intros Hrf Hk Hi Hki e before after. pose proof us_nodup as Hnd.
  destruct (row_file_positions _ _ Hrf) as (p & Hp & Hrem).
  pose proof (visible_positions _ _ p k a Hrf Hk Hp) as Hbefore.
  pose proof (visible_positions _ _ p i b Hrf Hi Hp) as Hafter.
  fold before in Hbefore. fold after in Hafter.
  assert (Hseg : bool_decide (File.added_in_transaction_id f ∈ segment us (S k) i) = bool_decide (S k <= p <= i)).
  { apply bool_decide_ext. by apply elem_of_segment. }
  unfold e, net_entry. rewrite Hseg.
  destruct (File.removed_in_transaction_id f) as [x|] eqn:Ex; cbn.
  - destruct (Hrem x eq_refl) as (n & Hn & Hpn).
    assert (Hx : forall m, (forall x' j, Some x = Some x' -> us !! j = Some x' -> m < j) <-> m < n).
    { intros m. split; [intros Hm; by eapply Hm|]. intros Hm x' j [= <-] Hj.
      by rewrite (NoDup_lookup us j n x). }
    rewrite Hx in Hbefore, Hafter.
    assert (bool_decide (x ∈ segment us (S k) i) = bool_decide (S k <= n <= i)) as ->
      by (apply bool_decide_ext; by apply elem_of_segment).
    repeat case_bool_decide; cbn; split; intros g; rewrite Hbefore, Hafter;
      (split; [intros Hg; simplify_eq; split; first [done | lia] | intros (-> & ? & ?); (done || lia)]).
  - assert (Hx : forall m, (forall x' j, @None Uuid = Some x' -> us !! j = Some x' -> m < j) <-> True)
      by by intros m.
    rewrite Hx in Hbefore, Hafter.
    repeat case_bool_decide; cbn; split; intros g; rewrite Hbefore, Hafter;
      (split; [intros Hg; simplify_eq; split; first [done | lia] | intros (-> & ? & ?); (done || lia)]).
Qed.

Lemma elem_of_into_values (m : gmap Uuid File.t) f : f ∈ into_values m <-> exists q, m !! q = Some f.
Proof.
  unfold into_values. rewrite hash_order_perm, list_elem_of_fmap. split.
  - intros ([q g] & -> & Hin%elem_of_map_to_list). by exists q.
  - intros [q Hq]. exists (q, f). split; [done | by apply elem_of_map_to_list].
Qed.

Lemma into_values_nodup (m : gmap Uuid File.t) :
  (forall q f, m !! q = Some f -> File.file_uuid f = q) -> NoDup (File.file_uuid <$> into_values m).
Proof.
  intros Hm. unfold into_values. rewrite hash_order_perm. rewrite <- list_fmap_compose.
  rewrite (list_fmap_ext _ fst).
  - apply NoDup_fst_map_to_list.
  - intros n [q f] Hn. apply Hm, elem_of_map_to_list. by eapply list_elem_of_lookup_2.
Qed.

(** One file under the projection of the events after [a] up to [b]. *)
Lemma projected_file k i a b es r f :
  us !! k = Some a -> us !! i = Some b -> k < i ->
  Forall2 (event_ok d u) (segment us (S k) i) es -> row_file d u r f ->
  let e := entry (File.file_uuid f) (fold_left apply_change (es ≫= TxnEvent.file_changes) (∅, ∅)) in
  let before := r ∈ select_files_at (as_bytes u) (as_bytes a) d in
  let after := r ∈ select_files_at (as_bytes u) (as_bytes b) d in
  (forall g, e.1 = Some g <-> g = f /\ after /\ ~ before) /\
  (forall g, e.2 = Some g <-> g = f /\ before /\ ~ after).
Proof.
  intros Hk Hi Hki Hes Hr e. unfold e.
  rewrite (delta_entry d u (inv_db _ Hinv) (segment us (S k) i) es r f);
    [|by apply segment_nodup, us_nodup | done | done | by eapply row_file_in_order].
  by apply net_entry_visible.
Qed.

(** The files of a projection over the events after [a] up to [b]. *)
Lemma project_files k i a b es ns np :
  us !! k = Some a -> us !! i = Some b -> k < i ->
  Forall2 (event_ok d u) (segment us (S k) i) es ->
  let delta := project_delta_range a b es ns np in
  let before r := r ∈ select_files_at (as_bytes u) (as_bytes a) d in
  let after r := r ∈ select_files_at (as_bytes u) (as_bytes b) d in
  (forall f, f ∈ TableDelta.added_files delta <-> exists r, row_file d u r f /\ after r /\ ~ before r) /\
  (forall f, f ∈ TableDelta.removed_files delta <-> exists r, row_file d u r f /\ before r /\ ~ after r) /\
  NoDup (File.file_uuid <$> TableDelta.added_files delta) /\
  NoDup (File.file_uuid <$> TableDelta.removed_files delta).
Proof.
  intros Hk Hi Hki Hes delta before after.
  pose proof (fun r f => projected_file k i a b es r f Hk Hi Hki Hes) as Hfile.
  pose proof (fun q f => delta_row d u (segment us (S k) i) es q f Hes) as Hrow.
  unfold delta, project_delta_range. rewrite fold_events.
  destruct (fold_left apply_change (es ≫= TxnEvent.file_changes) (∅, ∅)) as [A R]. cbn in *.
  assert (HA : forall q f, A !! q = Some f <->
    File.file_uuid f = q /\ exists r, row_file d u r f /\ after r /\ ~ before r).
  { intros q f. split.
    - intros Hq. destruct (Hrow q f (or_introl Hq)) as (<- & r & Hr). split; [done|].
      exists r. split; [done|]. exact (proj2 (proj1 (proj1 (Hfile r f Hr) f) Hq)).
    - intros (<- & r & Hr & Hv). exact (proj2 (proj1 (Hfile r f Hr) f) (conj eq_refl Hv)). }
  assert (HR : forall q f, R !! q = Some f <->
    File.file_uuid f = q /\ exists r, row_file d u r f /\ before r /\ ~ after r).
  { intros q f. split.
    - intros Hq. destruct (Hrow q f (or_intror Hq)) as (<- & r & Hr). split; [done|].
      exists r. split; [done|]. exact (proj2 (proj1 (proj2 (Hfile r f Hr) f) Hq)).
    - intros (<- & r & Hr & Hv). exact (proj2 (proj2 (Hfile r f Hr) f) (conj eq_refl Hv)). }
  split_and!.
  - intros f. rewrite elem_of_into_values. setoid_rewrite HA. naive_solver.
  - intros f. rewrite elem_of_into_values. setoid_rewrite HR. naive_solver.
  - apply into_values_nodup. intros q f. rewrite HA. naive_solver.
  - apply into_values_nodup. intros q f. rewrite HR. naive_solver.
Qed.

End delta.

(** ** Views *)

Section views.
Context `{Env} `{!EnumerationLaws}.

(** A schema row and its columns determine the schema a read returns. *)
Lemma schema_view_fun d s v v' : schema_view d s v -> schema_view d s v' -> v = v'.
Proof.
  destruct v as [su tu ver vf vt ca cols], v' as [su' tu' ver' vf' vt' ca' cols'].
  intros (E1 & E2 & E3 & E4 & E5 & E6 & E7) (F1 & F2 & F3 & F4 & F5 & F6 & F7). cbn in *.
  rewrite E1 in F1. rewrite E2 in F2. rewrite E4 in F4. rewrite E5 in F5. rewrite E7 in F7.
  apply (inj as_bytes) in F1, F2, F4. apply (inj (fmap as_bytes)) in F5. by simplify_eq.
Qed.

(** The files of a view, as rows. *)
Lemma view_files d u t fs fs' f :
  traverse file_of_row (select_files_at (as_bytes u) t d) = Ok fs -> fs' ≡ₚ fs ->
  f ∈ fs' <-> exists r, row_file d u r f /\ r ∈ select_files_at (as_bytes u) t d.
Proof.
  intros HF%traverse_ok ->. rewrite list_elem_of_lookup. split.
  - intros (i & Hi). destruct (Forall2_lookup_r _ _ _ _ _ HF Hi) as (r & Hri & Hrf).
    apply list_elem_of_lookup_2 in Hri. exists r. split; [|done].
    apply elem_of_filter' in Hri as (? & [?%bool_decide_eq_true_1 _]%andb_true_iff). done.
  - intros (r & (_ & _ & Hf) & (i & Hi)%list_elem_of_lookup). exists i.
    destruct (Forall2_lookup_l _ _ _ _ _ HF Hi) as (g & Hg & Hrg). congruence.
Qed.

Lemma decodes_at d u t :
  (forall r, r ∈ files d -> FileRow.table_uuid r = as_bytes u -> exists f, file_of_row r = Ok f) ->
  exists fs, traverse file_of_row (select_files_at (as_bytes u) t d) = Ok fs.
Proof.
  intros Hd. apply traverse_total. intros r (? & [?%bool_decide_eq_true_1 _]%andb_true_iff)%elem_of_filter'.
  by apply Hd.
Qed.

(** The properties a view shows are those of the table's current row. *)
Lemma okp_read_table_properties client ident at_ w :
  okp (read_table client ident at_) (fun v w' => db w' = db w /\
    exists row, row ∈ select_table (TableIdent.namespace ident) (TableIdent.name ident) (db w) /\
      parse_table_properties (TableRow.properties row) = Ok (TableView.properties v)) w.
Proof.
  unfold read_table. apply okp_bind. eapply okp_mono; [apply okp_fetch_table|]. intros row w1 [Hrow E1].
  apply okp_bind, okp_lift. intros u _. apply okp_bind, okp_lift. intros cs _.
  apply okp_bind, okp_lift. intros ct _. apply okp_bind, okp_lift. intros props Hprops.
  apply okp_bind, okp_lift. intros _ _. apply okp_bind, okp_lift. intros cur _.
  apply okp_bind. eapply okp_mono; [by apply (okp_reads (db w)); [apply _|]|]. cbn. intros _ w2 E2.
  apply okp_bind. eapply okp_mono; [by apply (okp_reads (db w)); [unfold read_schema; apply _|]|]. cbn. intros sch w3 E3.
  apply okp_bind. eapply okp_mono; [by apply (okp_reads (db w)); [unfold read_files; apply _|]|]. cbn. intros fs w4 E4.
  apply okp_bind. eapply okp_mono; [by apply (okp_reads (db w)); [apply _|]|]. cbn. intros st w5 E5.
  apply okp_ret. cbn. split; [done|]. by exists row.
Qed.

End views.

(** A read of the range [ts] of transactions of a table, in any world with
    that database. *)
Lemma read_in_scan `{Env} `{!EnumerationLaws} client ident d row u us props ts n t w :
  catalog_inv d -> sorted_ids d -> no_faults ->
  table_row_of d ident = Some row -> TableRow.table_uuid row = as_bytes u ->
  (TableRow.min_reader_version row <= ProtocolVersions.reader client)%Z ->
  parse_table_properties (TableRow.properties row) = Ok props ->
  chain d (as_bytes u) = as_bytes <$> us -> us !! n = Some t -> scan_ok d u ts ->
  (N.of_nat (length (select_files_at (as_bytes u) (as_bytes t) d)) <= limits.MAX_FILES_PER_QUERY)%N ->
  db w = d ->
  exists v w', read_table client ident (Some t) w = Some (Ok v, w') /\ db w' = d /\
    TableView.properties v = props /\
    (forall f, f ∈ TableView.files v <->
       exists r, row_file d u r f /\ r ∈ select_files_at (as_bytes u) (as_bytes t) d) /\
    (forall s, select_schemas_at (as_bytes u) (as_bytes t) d = [s] -> schema_view d s (TableView.schema v)) /\
    exists s, select_schemas_at (as_bytes u) (as_bytes t) d = [s].
Proof.
  intros Hinv Hs Hnf Hrow Hu Hproto Hprops Hus Hn Hscan Hlim Ew.
  pose proof Hrow as (Hrt & _)%table_row_of_some.
  destruct (decodes_at d u (as_bytes t) (rows_decode_files _ _ (scan_rows _ _ _ Hscan))) as [fs Hfs].
  assert (as_bytes t ∈ chain d (as_bytes u)) as Hin
    by (rewrite Hus; apply list_elem_of_fmap_2; by eapply list_elem_of_lookup_2).
  destruct (schema_at_unique d row (as_bytes t) Hinv Hs Hrt) as (s & _ & _ & _ & Hsel & _);
    [by rewrite Hu|]. rewrite Hu in Hsel.
  assert (s ∈ select_schemas_at (as_bytes u) (as_bytes t) d) as Hsin by (rewrite Hsel; left).
  apply elem_of_filter' in Hsin as (Hsin & [Hst%bool_decide_eq_true_1 _]%andb_true_iff).
  destruct (read_table_ok client ident w row u t (Some t) props fs s)
    as (v & w2 & E & Ed & _ & _ & _ & Hp & _ & Hf & Hv);
    rewrite ?Ew in *; try done;
    [by left | by apply (rows_decode_types _ _ (scan_rows _ _ _ Hscan)) | by apply (rows_columns _ _ (scan_rows _ _ _ Hscan)) |].
  exists v, w2. split_and!; [done.. | | | by exists s].
  - intros f. by apply view_files with fs.
  - intros s'. rewrite Hsel. by intros [= <-].
Qed.

Lemma unique_difference {R} (F A B : R -> Prop) :
  (forall r r', F r -> F r' -> r = r') ->
  (exists r, F r /\ A r /\ ~ B r) <-> (exists r, F r /\ A r) /\ ~ (exists r, F r /\ B r).
Proof.
  intros Hu. split.
  - intros (r & HF & HA & HB). split; [by exists r|]. intros (r' & HF' & HB').
    by rewrite (Hu r r' HF HF') in HB.
  - intros [(r & HF & HA) Hn]. exists r. split_and!; [done | done |]. intros HB. apply Hn. by exists r.
Qed.

(** ** Theorems *)

(** C3: a delta is the difference of the snapshots at its ends: for [a] before
    [b] in a table's history, within the limits, [diff_table] succeeds and its
    added files are exactly those of the view at [b] that the view at [a] does
    not have, its removed files the converse, each once; the schema is reported
    when it changed; properties never are. *)
Theorem diff_is_view_difference `{Env} `{!EnumerationLaws} client ident w row u us props k i a b :
  catalog_inv (db w) -> sorted_ids (db w) -> no_faults ->
  table_row_of (db w) ident = Some row -> TableRow.table_uuid row = as_bytes u ->
  (TableRow.min_reader_version row <= ProtocolVersions.reader client)%Z ->
  parse_table_properties (TableRow.properties row) = Ok props ->
  chain (db w) (as_bytes u) = as_bytes <$> us -> us !! k = Some a -> us !! i = Some b -> k < i ->
  (N.of_nat (length (segment us (S k) i)) <= limits.MAX_TRANSACTIONS_PER_SCAN)%N ->
  scan_ok (db w) u (segment us (S k) i) ->
  (forall t, t = a \/ t = b ->
     (N.of_nat (length (select_files_at (as_bytes u) (as_bytes t) (db w)))
        <= limits.MAX_FILES_PER_QUERY)%N) ->
  exists delta va vb w1 w2 w3,
    diff_table client ident a b w = Some (Ok delta, w1) /\ db w1 = db w /\
    read_table client ident (Some a) w = Some (Ok va, w2) /\
    read_table client ident (Some b) w = Some (Ok vb, w3) /\
    TableDelta.from_transaction_id delta = a /\ TableDelta.to_transaction_id delta = b /\
    (forall f, f ∈ TableDelta.added_files delta <-> f ∈ TableView.files vb /\ f ∉ TableView.files va) /\
    (forall f, f ∈ TableDelta.removed_files delta <-> f ∈ TableView.files va /\ f ∉ TableView.files vb) /\
    NoDup (File.file_uuid <$> TableDelta.added_files delta) /\
    NoDup (File.file_uuid <$> TableDelta.removed_files delta) /\
    TableDelta.new_schema delta =
      (if decide (Schema.schema_uuid (TableView.schema va) = Schema.schema_uuid (TableView.schema vb))
       then None else Some (TableView.schema vb)) /\
    TableDelta.new_properties delta = None.
Proof.
  intros Hinv Hs Hnf Hrow Hu Hproto Hprops Hus Ha Hb Hki Hl Hscan Hlim.
  pose proof Hrow as (Hrt & _)%table_row_of_some.
  destruct (list_events_ok ident w row u us (Some a) (S k) i b) as (es & w1 & E1 & Ed1 & Hes);
    [done.. | by exists k | done | done |].
  pose proof (Hlim a (or_introl eq_refl)) as Hla. pose proof (Hlim b (or_intror eq_refl)) as Hlb.
  edestruct (read_in_scan client ident (db w) row u us props (segment us (S k) i) k a w1)
    as (va' & w2 & E2 & Ed2 & Hpa & _ & Hsva & sa & Hsa); [done..|].
  edestruct (read_in_scan client ident (db w) row u us props (segment us (S k) i) i b w2)
    as (vb' & w3 & E3 & Ed3 & Hpb & _ & Hsvb & sb & Hsb); [done..|].
  edestruct (read_in_scan client ident (db w) row u us props (segment us (S k) i) k a w)
    as (va & wa & Ea & _ & _ & Hina & Hsva2 & _); [done..|].
  edestruct (read_in_scan client ident (db w) row u us props (segment us (S k) i) i b w)
    as (vb & wb & Eb & _ & _ & Hinb & Hsvb2 & _); [done..|].
  pose proof (schema_view_fun _ _ _ _ (Hsva sa Hsa) (Hsva2 sa Hsa)) as Esa.
  pose proof (schema_view_fun _ _ _ _ (Hsvb sb Hsb) (Hsvb2 sb Hsb)) as Esb.
  set (ns := if bool_decide (Schema.schema_uuid (TableView.schema va') <> Schema.schema_uuid (TableView.schema vb'))
    then Some (TableView.schema vb') else None).
  set (np := if bool_decide (TableView.properties va' <> TableView.properties vb')
    then Some (TableView.properties vb') else None).
  exists (project_delta_range a b es ns np), va, vb, w3, wa, wb.
  destruct (project_files (db w) Hinv Hs u us Hus k i a b es ns np Ha Hb Hki Hes) as (HA & HR & HnA & HnR).
  split; [unfold diff_table, mbind, M_bind; rewrite E1, E2, E3; done|].
  split; [done|]. split; [done|]. split; [done|].
  assert (Hone : forall f r r', row_file (db w) u r f -> row_file (db w) u r' f -> r = r').
  { intros f r r' Hr Hr'. by destruct (row_file_unique _ _ (inv_db _ Hinv) _ _ _ _ Hr Hr' eq_refl). }
  split_and!.
  - unfold project_delta_range. by destruct (fold_left _ es _).
  - unfold project_delta_range. by destruct (fold_left _ es _).
  - intros f. rewrite HA, Hina, Hinb. apply unique_difference. intros r r'. apply Hone.
  - intros f. rewrite HR, Hina, Hinb. apply unique_difference. intros r r'. apply Hone.
  - done.
  - done.
  - unfold project_delta_range. destruct (fold_left _ es _). cbn. unfold ns. rewrite Esa, Esb.
    by destruct (decide _) as [E|E]; case_bool_decide.
  - unfold project_delta_range. destruct (fold_left _ es _). cbn. unfold np. rewrite Hpa, Hpb.
    by rewrite bool_decide_eq_false_2 by (intros Hn; by apply Hn).
Qed.

(** a delta never reports a change of properties, whatever happened to
    them between its two transactions: properties are not versioned, and both
    views show the current ones. *)
Theorem diff_never_reports_properties `{Env} `{!EnumerationLaws} client ident a b w delta w' :
  db_ok (db w) -> diff_table client ident a b w = Some (Ok delta, w') ->
  TableDelta.new_properties delta = None.
Proof.
  intros Hok E. refine (okp_elim _ (fun delta _ => TableDelta.new_properties delta = None) _ _ _ _ E).
  unfold diff_table. apply okp_bind. apply wp_reads; [apply _|]. intros [es|e] n _; [cbn | done].
  apply okp_bind. eapply okp_mono; [apply okp_read_table_properties|]. intros va w1 (E1 & ra & Hra & Hpa).
  apply okp_bind. eapply okp_mono; [apply okp_read_table_properties|]. intros vb w2 (E2 & rb & Hrb & Hpb).
  cbn in *. rewrite E1 in Hrb. apply okp_ret. unfold project_delta_range. destruct (fold_left _ es _). cbn.
  rewrite (select_table_unique _ _ _ Hok Hra) in Hrb. apply list_elem_of_singleton in Hrb as ->.
  rewrite Hpa in Hpb. injection Hpb as ->. by rewrite bool_decide_eq_false_2 by (intros Hn; by apply Hn).
Qed.

(** a transaction has no delta to itself: [diff_table] refuses equal ends,
    as the walk looks for the boundary only among the proper ancestors. *)
Theorem diff_same_transaction_fails `{Env} `{!EnumerationLaws} client ident w row u us i t :
  catalog_inv (db w) -> no_faults ->
  table_row_of (db w) ident = Some row -> TableRow.table_uuid row = as_bytes u ->
  chain (db w) (as_bytes u) = as_bytes <$> us -> us !! i = Some t ->
  (N.of_nat (S i) <= limits.MAX_TRANSACTIONS_PER_SCAN)%N ->
  exists w', diff_table client ident t t w = Some (Err not_an_ancestor, w').
Proof.
  intros Hinv Hnf Hrow Hu Hus Hi Hl. pose proof Hrow as (Hrt & _)%table_row_of_some.
  pose proof (segment_length us 0 i t Hi).
  assert (t ∉ take i us) as Hnin.
  { intros (j & Hj)%list_elem_of_lookup. apply lookup_take_Some in Hj as [Hj Hji].
    assert (i = j); [|lia]. eapply NoDup_lookup; [by eapply us_nodup | done | done]. }
  assert (wp (list_transaction_events ident (TxnRangeCursor.mk (Some t) t))
    (fun r _ => r = Err not_an_ancestor) w) as Hw.
  { eapply (wp_list_events (db w) Hinv); [done.. | by apply starts_after_foreign | | |].
    - intros w' _ _ [?|?]; [done | lia].
    - intros w' Hlt. lia.
    - done. }
  apply wp_run in Hw as (r & w' & E & ->). exists w'. unfold diff_table, mbind, M_bind. by rewrite E.
Qed.

(** ** Witnesses *)

#[local] Existing Instances ref_env ref_ipc_laws ref_json_laws ref_enumeration_laws.

Lemma diff_is_view_difference_witness :
  exists delta w1, diff_table client events txn2 txn3 world3 = Some (Ok delta, w1) /\
    TableDelta.new_properties delta = None /\
    NoDup (File.file_uuid <$> TableDelta.added_files delta).
Proof.
  destruct (diff_is_view_difference client events world3 row3 events_uuid txns3 properties2 1 2 txn2 txn3
    world3_inv world3_sorted ref_no_faults) as (delta & va & vb & w1 & w2 & w3 & E & _ & _ & _ & _ & _ &
      HA & _ & Hn & _ & _ & Hp).
  - vm_compute. reflexivity.
  - vm_compute. reflexivity.
  - vm_compute. discriminate.
  - vm_compute. reflexivity.
  - exact txns3_chain.
  - reflexivity.
  - reflexivity.
  - lia.
  - vm_compute. discriminate.
  - apply world3_scan. left. reflexivity.
  - intros t [->| ->]; vm_compute; discriminate.
  - exists delta, w1. split; [exact E|]. split; [exact Hp | exact Hn].
Defined.

(** The properties a read of the current transaction shows. *)
Definition shown_properties (w : World) : option TableProperties.t :=
  match outcome (read_table client events None) w with
  | Some (Ok v) => Some (TableView.properties v)
  | _ => None
  end.

(** The second commit set a property; the delta over it does not say so. *)
Lemma diff_never_reports_properties_witness :
  exists delta w', diff_table client events txn2 txn3 world3 = Some (Ok delta, w') /\
    TableDelta.new_properties delta = None /\
    shown_properties world2 = Some TableProperties.new /\ shown_properties world3 = Some properties2.
Proof.
  destruct (diff_table client events txn2 txn3 world3) as [[[delta|e] w']|] eqn:E;
    [|vm_compute in E; discriminate E|vm_compute in E; discriminate E].
  exists delta, w'. split; [reflexivity|].
  split; [exact (diff_never_reports_properties client events txn2 txn3 world3 delta w' (inv_db _ world3_inv) E)|].
  split; vm_compute; reflexivity.
Defined.

Lemma diff_same_transaction_fails_witness :
  exists w', diff_table client events txn3 txn3 world3 = Some (Err not_an_ancestor, w').
Proof.
  apply (diff_same_transaction_fails client events world3 row3 events_uuid txns3 2 txn3 world3_inv ref_no_faults).
  - vm_compute. reflexivity.
  - vm_compute. reflexivity.
  - exact txns3_chain.
  - reflexivity.
  - vm_compute. discriminate.
Defined.
