(* ===== verification/EventStatements.v ===== *)
(** * The event log and the deltas as sequences of statements

    [list_transaction_events] and [diff_table], statement by statement, as
    [read_table] is in Statements.v; run on one state they are those of
    Catalog.v. *)

From S2P Require Import Prelude Uuid Error Limits Json DataType Format Schema Models Db DbFacts World Helpers Catalog ReadFacts Statements.

Section reads.
Context `{Env} (client_protocol : ProtocolVersions.t).

Fixpoint ask_chain (fuel : nat) (table_uuid : Uuid) (from_exclusive : option TxnId)
    (cursor_txn : TxnId) (visited : gset Uuid) (txn_ids_desc : list TxnId) (reached : bool) :
    R (list TxnId * bool) :=
  match fuel with
  | O => Stuck
  | S fuel =>
      if bool_decide (cursor_txn ∈ visited) then
        pure (Err (InvalidArgument "transaction parent chain contains a cycle"))
      else
        row ← ask_optional (select_transaction (as_bytes table_uuid) (as_bytes cursor_txn));
        row ← pure (ok_or row
          (InvalidArgument "requested transaction does not exist for table"));
        let txn_ids_desc := txn_ids_desc ++ [cursor_txn] in
        _ ← pure (fail_if (limits.MAX_TRANSACTIONS_PER_SCAN <? N.of_nat (length txn_ids_desc))%N
              (LimitExceeded ("transaction scan exceeds limit of "
                 +:+ pretty limits.MAX_TRANSACTIONS_PER_SCAN)));
        parent_transaction_id ←
          pure (uuid_from_row_optional (TransactionRow.parent_transaction_id row));
        match parent_transaction_id with
        | Some parent_id =>
            if bool_decide (Some parent_id = from_exclusive) then mret (txn_ids_desc, true)
            else ask_chain fuel table_uuid from_exclusive parent_id
                   ({[cursor_txn]} ∪ visited) txn_ids_desc reached
        | None => mret (txn_ids_desc, reached)
        end
  end.

Definition ask_schema_change (count : N) (table_uuid transaction_id : Uuid) :
    R (N * option TxnSchemaChange.t) :=
  schema_rows ← ask_limit 2
    (select_schemas_from (as_bytes table_uuid) (as_bytes transaction_id));
  match schema_rows with
  | [] => mret (count, None)
  | [schema_row] =>
      let count := (count + 1)%N in
      _ ← pure (fail_if (limits.MAX_SCHEMA_CHANGES_PER_SCAN <? count)%N
            (LimitExceeded ("schema change events exceed limit of "
               +:+ pretty limits.MAX_SCHEMA_CHANGES_PER_SCAN)));
      schema_uuid ← pure (uuid_from_row (SchemaRow.schema_uuid schema_row));
      valid_from ← pure (uuid_from_row (SchemaRow.valid_from_transaction_id schema_row));
      columns ← ask_columns "schema change column count" schema_uuid;
      schema ← pure (schema_of_row schema_row schema_uuid columns);
      mret (count, Some (TxnSchemaChange.mk valid_from schema))
  | _ => pure (Err (InvalidArgument "multiple schemas found for the same transaction"))
  end.

Definition ask_event (table_uuid : Uuid) (counts : ScanCounts.t) (transaction_id : TxnId) :
    R (TxnEvent.t * ScanCounts.t) :=
  added_rows ← ask_limit (limits.MAX_FILES_PER_QUERY + 1)
    (select_files_added (as_bytes table_uuid) (as_bytes transaction_id));
  '(added, added_changes) ← pure (push_added (ScanCounts.added_file_events counts) added_rows);
  removed_rows ← ask_limit (limits.MAX_FILES_PER_QUERY + 1)
    (select_files_removed (as_bytes table_uuid) (as_bytes transaction_id));
  '(removed, removed_changes) ←
    pure (push_removed (ScanCounts.removed_file_events counts) removed_rows);
  '(schemas, schema_change) ←
    ask_schema_change (ScanCounts.schema_change_events counts) table_uuid transaction_id;
  mret (TxnEvent.mk transaction_id (added_changes ++ removed_changes) schema_change,
        ScanCounts.mk added removed schemas).

Fixpoint ask_events (table_uuid : Uuid) (counts : ScanCounts.t) (txns : list TxnId) :
    R (list TxnEvent.t) :=
  match txns with
  | [] => mret []
  | transaction_id :: txns =>
      '(event, counts) ← ask_event table_uuid counts transaction_id;
      events ← ask_events table_uuid counts txns;
      mret (event :: events)
  end.

Definition ask_to_inclusive (table_uuid current_transaction_id to_inclusive : Uuid) : R unit :=
  if bool_decide (current_transaction_id = to_inclusive) then mret tt
  else
    row ← ask_optional (select_transaction (as_bytes table_uuid) (as_bytes to_inclusive));
    match row with
    | Some _ => mret tt
    | None => pure (Err (InvalidArgument "requested transaction does not exist for table"))
    end.

(** What follows the SELECT on tables. *)
Definition ask_scan (fuel : nat) (cursor : TxnRangeCursor.t) (table_row : TableRow.t) :
    R (list TxnEvent.t) :=
  table_uuid ← pure (uuid_from_row (TableRow.table_uuid table_row));
  current ← pure (uuid_from_row_optional (TableRow.current_transaction_id table_row));
  current ← pure (ok_or current no_current_transaction);
  _ ← ask_to_inclusive table_uuid current (TxnRangeCursor.to_inclusive cursor);
  '(txn_ids_desc, reached_from_boundary) ←
    ask_chain fuel table_uuid (TxnRangeCursor.from_exclusive cursor)
      (TxnRangeCursor.to_inclusive cursor) ∅ []
      (match TxnRangeCursor.from_exclusive cursor with None => true | Some _ => false end);
  _ ← pure (fail_if (negb reached_from_boundary)
        (InvalidArgument "from transaction is not an ancestor of to transaction"));
  ask_events table_uuid (ScanCounts.mk 0 0 0) (reverse txn_ids_desc).

Definition ask_list_transaction_events (fuel : nat) (ident : TableIdent.t) (cursor : TxnRangeCursor.t) :
    R (list TxnEvent.t) :=
  table_row ← ask_table ident;
  ask_scan fuel cursor table_row.

Definition ask_diff_table (fuel : nat) (ident : TableIdent.t) (from_transaction_id to_transaction_id : TxnId) :
    R TableDelta.t :=
  events ← ask_list_transaction_events fuel ident
    (TxnRangeCursor.mk (Some from_transaction_id) to_transaction_id);
  from_view ← ask_read_table client_protocol fuel ident (Some from_transaction_id);
  to_view ← ask_read_table client_protocol fuel ident (Some to_transaction_id);
  let new_schema :=
    if bool_decide (Schema.schema_uuid (TableView.schema from_view)
                    <> Schema.schema_uuid (TableView.schema to_view))
    then Some (TableView.schema to_view) else None in
  let new_properties :=
    if bool_decide (TableView.properties from_view <> TableView.properties to_view)
    then Some (TableView.properties to_view) else None in
  mret (project_delta_range from_transaction_id to_transaction_id events new_schema
          new_properties).

End reads.

(** ** Run on one state *)

Section denote.
Context `{Env} `{!EnumerationLaws} (d : Db).
Notation same_on := (same_on d).

Lemma same_chain fuel fuel' u from cur visited acc b :
  visited_rows d visited -> S (length (transactions d)) < fuel + size visited ->
  S (length (transactions d)) < fuel' + size visited ->
  same_on (denote (ask_chain fuel u from cur visited acc b)) (collect_chain fuel' u from cur visited acc b).
Proof.
  revert fuel' cur visited acc; induction fuel as [|fuel IH]; intros [|fuel'] cur visited acc Hv Hf Hf';
    try (pose proof (visited_size d visited Hv); lia).
  cbn [ask_chain collect_chain]. case_bool_decide as Hin; [done|].
  apply same_optional_then. intros o Ho. apply same_pure_then. intros r Hr%ok_or_ok.
  rewrite Hr in Ho. symmetry in Ho. apply same_pure_then. intros _ _.
  apply same_pure_then. intros [p|] _; [|done]. case_bool_decide; [done|].
  destruct (visit d _ _ _ _ Hv Hin Ho) as [Hv' Hs]. apply IH; [done | lia..].
Qed.

Lemma same_schema_change n u t : same_on (denote (ask_schema_change n u t)) (schema_change_of n u t).
Proof.
  apply same_denote; [apply _ | apply same_ask | intros [|r [|]]; [done | | done]]. cbn zeta.
  do 3 (apply same_pure_then; intros ? _).
  apply same_denote; [apply _ | apply same_columns | intros ?]. by apply same_pure_then.
Qed.

Lemma same_event u counts t : same_on (denote (ask_event u counts t)) (event_of_txn u counts t).
Proof.
  apply same_denote; [apply _ | apply same_ask | intros rows]. apply same_pure_then. intros [a ca] _.
  apply same_denote; [apply _ | apply same_ask | intros rows']. apply same_pure_then. intros [b cb] _.
  apply same_denote; [apply _ | apply same_schema_change | by intros []].
Qed.

Lemma same_events u counts ts : same_on (denote (ask_events u counts ts)) (events_of_txns u counts ts).
Proof.
  revert counts; induction ts as [|t ts IH]; intros counts; [done|]. cbn [ask_events events_of_txns].
  apply same_denote; [apply _ | apply same_event | intros [e c]].
  apply same_denote; [apply _ | apply IH | done].
Qed.

Lemma same_to_inclusive u c t : same_on (denote (ask_to_inclusive u c t)) (check_to_inclusive u c t).
Proof.
  unfold ask_to_inclusive, check_to_inclusive. case_bool_decide; [done|].
  apply same_optional_then. by intros [r|] _.
Qed.

Lemma same_chain_fuel_then {A} (m : M A) (k : nat -> M A) :
  same_on m (k (S (S (length (transactions d))))) -> same_on m (fuel ← chain_fuel; k fuel).
Proof. done. Qed.

Lemma enough fuel :
  S (S (length (transactions d))) <= fuel -> S (length (transactions d)) < fuel + size (∅ : gset Uuid).
Proof. rewrite size_empty. lia. Qed.

Context (fuel : nat) (Hfuel : S (S (length (transactions d))) <= fuel).

Lemma same_list_events ident cursor :
  same_on (denote (ask_list_transaction_events fuel ident cursor)) (list_transaction_events ident cursor).
Proof.
  apply same_denote; [apply _ | apply same_fetch_table | intros row]. unfold ask_scan.
  do 3 (apply same_pure_then; intros ? _).
  apply same_denote; [apply _ | apply same_to_inclusive | intros _].
  apply same_chain_fuel_then. apply same_denote; [exact (collect_chain_reads d _ _ _ _ ∅ [] _ (visited_empty d) (enough _ (le_n _))) | |].
  - exact (same_chain fuel _ _ _ _ ∅ [] _ (visited_empty d) (enough _ Hfuel) (enough _ (le_n _))).
  - intros [ts b]. apply same_pure_then. intros _ _. apply same_events.
Qed.

Lemma same_diff_table client ident a b :
  same_on (denote (ask_diff_table client fuel ident a b)) (diff_table client ident a b).
Proof.
  apply same_denote; [apply _ | apply same_list_events | intros es].
  apply same_denote; [apply _ | by apply same_read_table | intros v].
  apply same_denote; [apply _ | by apply same_read_table | done].
Qed.

End denote.

(** Run without interruption, these are the methods. *)
Lemma denote_list_events `{Env} `{!EnumerationLaws} fuel ident cursor w :
  walk_fuel w <= fuel ->
  denote (ask_list_transaction_events fuel ident cursor) w = list_transaction_events ident cursor w.
Proof. destruct w as [d n]. intros Hf. by apply same_list_events. Qed.

Lemma denote_diff_table `{Env} `{!EnumerationLaws} client fuel ident a b w :
  walk_fuel w <= fuel ->
  denote (ask_diff_table client fuel ident a b) w = diff_table client ident a b w.
Proof. destruct w as [d n]. intros Hf. by apply same_diff_table. Qed.
