(* ===== verification/Readable.v ===== *)
(** * Every table stays readable

    What clients must respect for their tables to remain readable, and that it
    is enough: JSON values that serde_json prints and parses back, column types
    that Arrow IPC reads back, and lists whose length fits the [u32] they are
    cast to.  Then the text of every JSON column parses, every column type
    decodes, every schema respects the column limit, and [read_table] succeeds at
    every transaction of every table.  The first two conditions are needed:
    nothing checks how deep a value or a type is nested, and one that exceeds
    the limit of its parser makes its table unreadable from then on. *)

From S2P Require Import Prelude Uuid Error Limits Json DataType Format Schema Models Db DbFacts World Helpers Catalog Api Effects ReadFacts Invariant RefEnv Scenario Safety Commit Order Views Create Evolution.
From stdpp Require Import relations.

(** ** Requests *)

Definition u32_length {A} (l : list A) : Prop := (N.of_nat (length l) < 2 ^ 32)%N.

Definition sane_spec `{Env} (s : SchemaSpec.t) : Prop :=
  u32_length (SchemaSpec.columns s) /\ types_safe s = true.

Definition sane_file (f : FileSpec.t) : Prop :=
  (forall v, FileSpec.partition_values f = Some v -> json_safe v = true) /\
  (forall v, FileSpec.format_options f = Some v -> json_safe v = true).

Definition sane_op `{Env} (op : MutationOp) : Prop :=
  match op with
  | AppendFiles files => Forall sane_file files
  | UpdateSchema spec => sane_spec spec
  | SetProperties p => json_safe (TableProperties.to_json p) = true
  | DeleteFiles _ | RemoveProperties _ => True
  end.

Definition sane_call `{Env} (c : Call) : Prop :=
  match c with
  | CallCreate _ _ spec p =>
      sane_spec spec /\ json_safe (TableProperties.to_json (default TableProperties.new p)) = true
  | CallCommit _ _ m => Forall sane_op (Mutation.operations m)
  | _ => True
  end.

(** A step of clients that send such requests only. *)
Inductive sane_step `{Env} (kind : DbKind) (w w' : World) : Prop :=
  | sane_call_step client c r :
      sane_call c -> run (H := backend kind client) c w = Some (r, w') -> sane_step kind w w'
  | sane_idle : db w' = db w -> tick w <= tick w' -> sane_step kind w w'.

Lemma sane_is_step `{Env} kind w w' : sane_step kind w w' -> step kind w w'.
Proof. intros [client c r _ Hrun|Ed Ht]; [by eapply step_call | by apply step_idle]. Qed.

(** ** What is stored *)

Section stored.
Context `{Env}.

Definition stored_properties (text : option string) : Prop :=
  exists p, parse_table_properties text = Ok p /\ json_safe (TableProperties.to_json p) = true.

Definition stored_json (text : option string) : Prop := exists v, parse_json_optional text = Ok v.

(** Every JSON column parses, every column type decodes, and every schema
    respects the column limit. *)
Record stored_ok (d : Db) : Prop := {
  stored_tables : Forall (fun r => stored_properties (TableRow.properties r)) (tables d);
  stored_files : Forall (fun r => stored_json (FileRow.partition_values r) /\
    stored_json (FileRow.format_options r)) (files d);
  stored_types : Forall column_decodes (columns d);
  stored_columns s : length (select_columns s d) <= 1000
}.


Lemma json_safe_remove k m : json_safe (Object m) = true -> json_safe (Object (map_remove k m)) = true.
Proof.
  unfold json_safe, map_remove. rewrite !andb_true_iff, !Nat.ltb_lt. intros [Hx Hd].
  cbn [json_exact json_depth] in *. apply andb_true_iff in Hx as [Hs%bool_decide_eq_true_1 Hx].
  assert (filter (fun p : string * Value => k <> p.1) m `sublist_of` m) as Hsub.
  { clear. induction m as [|p m IH]; [done|]. rewrite filter_cons.
    destruct (decide (k <> p.1)); by constructor. }
  split; [apply andb_true_iff; split|].
  - apply bool_decide_eq_true_2. eapply strongly_sorted_sublist; [by apply fmap_sublist | exact Hs].
  - apply forallb_forall. intros p Hp%list_elem_of_In. rewrite forallb_forall in Hx. apply Hx.
    apply list_elem_of_In. exact (sublist_subseteq _ _ Hsub p Hp).
  - eapply Nat.le_lt_trans; [|exact Hd]. apply le_n_S. clear -Hsub. induction Hsub; cbn; lia.
Qed.

Lemma json_safe_removes p keys q :
  remove_properties p keys = Ok q -> json_safe (TableProperties.to_json p) = true ->
  json_safe (TableProperties.to_json q) = true.
Proof.
  unfold remove_properties. destruct keys as [|k keys]; [by intros [= ->]|].
  intros (_ & _ & [= <-])%bind_ok Hp.
  enough (forall keys p, json_safe (TableProperties.to_json p) = true ->
    json_safe (TableProperties.to_json (fold_left (fun p key =>
      TableProperties.remove p (PropertyKey.as_str key)) keys p)) = true) as Hall by exact (Hall (k :: keys) p Hp).
  clear. induction keys as [|k keys IH]; intros p Hp; [done|]. cbn. by apply IH, json_safe_remove.
Qed.

Context `{!SerdeJsonLaws} `{!ArrowIpcLaws}.

Lemma stored_new p text :
  json_safe (TableProperties.to_json p) = true ->
  serialize_json (TableProperties.to_json p) = Ok text -> stored_properties (Some text).
Proof. intros Hs Ht. exists p. split; [by apply properties_text | done]. Qed.

Lemma stored_json_new o text :
  (forall v, o = Some v -> json_safe v = true) ->
  serialize_json_optional o = Ok text -> stored_json text.
Proof.
  intros Hs Ht. destruct o as [v|]; cbn in Ht; [|injection Ht as <-; by exists None].
  destruct (serialize_json v) as [t|e] eqn:Et; [|done]. injection Ht as <-. exists (Some v).
  pose proof (serialize_json_parse _ _ (Hs v eq_refl) Et) as Hp.
  unfold parse_json_optional, parse_json in *. destruct (check_json_size t); [|done]. cbn in *. by rewrite Hp.
Qed.

Lemma stored_file u t f r :
  sane_file f -> is_file u t f r ->
  stored_json (FileRow.partition_values r) /\ stored_json (FileRow.format_options r).
Proof.
  intros [Hpv Hfo] (_ & fu & pt & ft & _ & Hp & Hf & ->). cbn.
  split; [by eapply stored_json_new; [exact Hpv|] | by eapply stored_json_new; [exact Hfo|]].
Qed.

(** The operations of a commit. *)
Lemma ops_effect_stored u t ts cur ops s s' :
  ops_effect u t ts cur ops s s' -> Forall sane_op ops ->
  json_safe (TableProperties.to_json (MutState.properties_value s.1)) = true ->
  Forall (fun r => stored_json (FileRow.partition_values r) /\
    stored_json (FileRow.format_options r)) (files s.2) ->
  json_safe (TableProperties.to_json (MutState.properties_value s'.1)) = true /\
  Forall (fun r => stored_json (FileRow.partition_values r) /\
    stored_json (FileRow.format_options r)) (files s'.2).
Proof.
  induction 1 as [|op ops [st1 d1] [st2 d2] s3 He _ IH]; intros Hs Hp Hf; [done|].
  apply Forall_cons in Hs as [Hop Hs]. apply IH; [done | |]; cbn in *.
  - inversion He; subst; try done. by eapply json_safe_removes.
  - rewrite Forall_forall in *. intros r' Hr'.
    destruct (op_effect_files _ _ _ _ _ _ _ _ _ _ He Hr') as [Hr|[(r & us & Hr & _ & ->)|(fs & f & -> & Hin & Hr)]].
    + exact (Hf r' Hr).
    + exact (Hf r Hr).
    + cbn in Hop. rewrite Forall_forall in Hop. eapply stored_file; [by apply Hop | exact Hr].
Qed.

(** The columns of a schema: those it had, or those of a request. *)
Lemma columns_next_stored d s spec rows v :
  db_ok d -> as_bytes s ∉ schema_keys d -> sane_spec spec -> SchemaSpec.validate spec = Ok tt ->
  are_columns s (SchemaSpec.columns spec) rows ->
  (forall v, length (select_columns v d) <= 1000) ->
  length (List.filter (fun r => beq (ColumnRow.schema_uuid r) v) (columns d ++ rows)) <= 1000.
Proof.
  intros Hok Hs Hsane Hv Hrows Hle. rewrite List.filter_app, length_app.
  destruct (decide (as_bytes s = v)) as [<-|Hne].
  - rewrite (filter_all_false _ (columns d)).
    + rewrite filter_length_le, (are_columns_length _ _ _ Hrows). cbn.
      unfold SchemaSpec.validate in Hv. destruct (SchemaSpec.columns spec) as [|c cs] eqn:Ec; [cbn; lia|].
      destruct (N.ltb_spec limits.MAX_COLUMNS_PER_SCHEMA (as_u32 (length (c :: cs)))) as [|Hl]; [done|].
      destruct Hsane as [Hsane _]. unfold u32_length in Hsane. rewrite Ec in Hsane. rewrite as_u32_small in Hl by done.
      unfold limits.MAX_COLUMNS_PER_SCHEMA in Hl. lia.
    + intros r Hr. apply beq_false. intros E. apply Hs. rewrite <- E.
      pose proof (ok_column_fk _ Hok) as Hfk. rewrite Forall_forall in Hfk. by apply Hfk.
  - rewrite (filter_all_false _ rows), Nat.add_0_r; [apply Hle|].
    intros r Hr. apply beq_false. by rewrite (are_columns_schema _ _ _ _ Hrows Hr).
Qed.

Lemma create_stored client ident location spec properties d d' :
  db_ok d -> stored_ok d -> sane_call (CallCreate ident location spec properties) ->
  create_facts client ident location spec properties d d' -> stored_ok d'.
Proof.
  intros Hok [Ht Hf Hy Hc] [Hs Hp] [u t s ts text rows _ Hv Htext _ _ Hsn Hrows ->].
  constructor; cbn; [|done| |].
  - apply Forall_app. split; [done|]. apply Forall_singleton. cbn. by eapply stored_new.
  - apply Forall_app. split; [done|]. by eapply are_columns_decode, Hs.
  - intros v. by eapply columns_next_stored.
Qed.

Lemma sane_update mutation spec :
  Forall sane_op (Mutation.operations mutation) ->
  List.filter is_update_schema (Mutation.operations mutation) = [UpdateSchema spec] -> sane_spec spec.
Proof.
  intros Hsane Hops. rewrite Forall_forall in Hsane. apply (Hsane (UpdateSchema spec)).
  assert (UpdateSchema spec ∈ List.filter is_update_schema (Mutation.operations mutation)) as Hin
    by (rewrite Hops; left). by apply elem_of_filter' in Hin as [? _].
Qed.

Lemma commit_stored ident base t mutation d d' :
  db_ok d -> stored_ok d -> sane_call (CallCommit ident base mutation) ->
  commit_facts ident base t mutation d d' -> stored_ok d'.
Proof.
  intros Hok [Ht Hf Hy Hc] Hsane [row u ts cur props st text d1 d2 Hrow _ _ Hu _ _ Hp _ Hd1 Hops Hout Htext Hd'].
  assert (json_safe (TableProperties.to_json props) = true) as Hps.
  { rewrite Forall_forall in Ht. destruct (Ht row Hrow) as (p & Hp' & Hs). congruence. }
  destruct (ops_effect_stored _ _ _ _ _ _ _ Hops Hsane Hps) as [Hst Hf2]; [by subst d1|]. cbn in Hst, Hf2.
  constructor.
  - rewrite Hd'. cbn [tables]. apply Forall_fmap. eapply Forall_impl; [exact Ht|]. intros r Hr.
    unfold compose, commit_head, set_head. cbn beta. case_bool_decide; [|done]. cbn. by eapply stored_new.
  - by rewrite Hd'.
  - destruct Hout as [_ _ E _|spec old old_row cols s rows Hops' _ _ _ _ _ _ _ _ Hrows E _]; rewrite E; [done|].
    apply Forall_app. split; [done|]. eapply are_columns_decode; [exact Hrows | by apply (sane_update mutation)].
  - intros v. destruct Hout as [_ _ E _|spec old old_row cols s rows Hops' _ Hv _ _ _ _ Hs _ Hrows E _];
      unfold select_columns; rewrite E; [apply Hc|].
    eapply columns_next_stored; try done. by apply (sane_update mutation).
Qed.

End stored.

Section sane.
Context `{Env} `{!EnumerationLaws} `{!ArrowIpcLaws} `{!SerdeJsonLaws}.

Lemma sane_step_stored kind w w' :
  catalog_inv (db w) -> stored_ok (db w) -> sane_step kind w w' -> stored_ok (db w').
Proof.
  intros Hinv Hst [client c r Hs Hrun|Ed _]; [|by rewrite Ed]. pose proof (inv_db _ Hinv) as Hok.
  pose proof (run_change _ _ _ _ _ _ Hinv Hrun) as Hc.
  remember (db w) as d eqn:Ed. remember (db w') as d' eqn:Ed'.
  destruct Hc as [c d|i l s p d d' Hc _|i b t m d d' Hc _]; [done | |].
  - eapply create_stored; [done..|]. by eapply create_effect_facts.
  - eapply commit_stored; [done..|]. by eapply commit_effect_facts.
Qed.

Lemma empty_stored : stored_ok empty_db.
Proof. constructor; [constructor | constructor | constructor | intros s; cbn; lia]. Qed.

Lemma sane_run kind n w :
  rtc (sane_step kind) (mk_world empty_db n) w ->
  catalog_inv (db w) /\ stored_ok (db w) /\ rtc (step kind) (mk_world empty_db n) w.
Proof.
  intros Hr. enough (forall w0, catalog_inv (db w0) -> stored_ok (db w0) ->
    rtc (sane_step kind) w0 w -> catalog_inv (db w) /\ stored_ok (db w) /\ rtc (step kind) w0 w) as Hall.
  { apply Hall; [apply empty_inv | apply empty_stored | done]. }
  clear n Hr. intros w0 Hinv Hst Hr. induction Hr as [w|w w1 w2 Hs _ IH]; [by auto using rtc_refl|].
  pose proof (sane_is_step _ _ _ Hs) as Hs'.
  destruct IH as (? & ? & ?); [by eapply step_inv | by eapply sane_step_stored|].
  split_and!; [done | done | by eapply rtc_l].
Qed.

Lemma stored_files_decode d rows :
  catalog_inv d -> stored_ok d -> rows ⊆ files d -> exists fs, traverse file_of_row rows = Ok fs.
Proof.
  intros Hinv Hst Hsub. apply traverse_total. intros r Hr%Hsub.
  pose proof (dec_files _ (inv_rows _ Hinv)) as Hd. rewrite Forall_forall in Hd.
  destruct (Hd r Hr) as (Hd1 & Hd2 & Hd3 & Hd4). pose proof (stored_files _ Hst) as Hf.
  rewrite Forall_forall in Hf. destruct (Hf r Hr) as [(p & Hp) (o & Ho)].
  unfold file_of_row. destruct (uuid_row_decodes _ Hd1) as (? & -> & _). cbn.
  destruct (uuid_row_decodes _ Hd2) as (? & -> & _). cbn.
  destruct (uuid_row_decodes _ Hd3) as (? & -> & _). cbn.
  destruct (opt_row_decodes _ Hd4) as (? & -> & _). cbn. rewrite Hp, Ho. cbn. eauto.
Qed.

End sane.

(** ** Properties that do not parse *)

Section poisoned.
Context `{Env} `{!EnumerationLaws} (ident : TableIdent.t) (row : TableRow.t) (e : CatalogError).
Context (Hbad : parse_table_properties (TableRow.properties row) = Err e).

Lemma read_poisoned client at_ w :
  catalog_inv (db w) -> table_row_of (db w) ident = Some row ->
  exists e' w', read_table client ident at_ w = Some (Err e', w').
Proof.
  intros Hinv Hrow.
  enough (wp (read_table client ident at_) (fun r _ => exists e', r = Err e') w) as Hw.
  { apply wp_run in Hw as (r & w' & E & e' & ->). eauto. }
  apply wp_reads; [apply _|]. intros [v|e'] n E; [exfalso | eauto].
  refine (okp_elim (read_table client ident at_) (fun _ _ => False) w v (mk_world (db w) n) _ E).
  unfold read_table. apply okp_bind. eapply okp_mono; [apply okp_fetch_table|]. intros row' w1 [Hrow' _].
  assert (row' = row) as -> by (eapply table_row_of_in in Hrow'; [congruence | by apply inv_db]).
  apply okp_bind, okp_lift. intros u _. apply okp_bind, okp_lift. intros s _.
  apply okp_bind, okp_lift. intros c _. apply okp_bind, okp_lift. by rewrite Hbad.
Qed.

Lemma commit_poisoned kind client base mutation w :
  catalog_inv (db w) -> table_row_of (db w) ident = Some row ->
  exists e' w', commit kind client ident base mutation w = Some (Err e', w').
Proof.
  intros Hinv Hrow.
  enough (wp (commit kind client ident base mutation) (fun r _ => exists e', r = Err e') w) as Hw.
  { apply wp_run in Hw as (r & w' & E & e' & ->). eauto. }
  apply wp_commit; [by apply inv_db | eauto |]. intros res w' _ Hc _. exfalso.
  apply commit_effect_facts in Hc as [row' u ts cur props st text d1 d2 Hr Hns Hnm _ _ _ Hp].
  assert (table_row_of (db w) ident = Some row') as Hrow'
    by (apply table_row_of_in; [by apply inv_db | by apply select_table_in]).
  congruence.
Qed.

(** No call repairs the row. *)
Lemma poisoned_step R `{!Moves R} w w' :
  catalog_inv (db w) -> table_row_of (db w) ident = Some row -> R w w' ->
  table_row_of (db w') ident = Some row.
Proof.
  intros Hinv Hrow Hs. pose proof (move_inv _ _ Hinv Hs) as Hinv'.
  destruct (moves_change _ _ Hinv Hs) as (client & c & Hc).
  apply table_row_of_some in Hrow as (Hin & Hns & Hnm & _).
  apply table_row_of_in; [by apply inv_db|]. apply select_table_in. split; [|done].
  remember (db w) as d eqn:Ed. remember (db w') as d' eqn:Ed'.
  destruct Hc as [c d|i l s p d d' Hc _|i b t m d d' Hc _]; [done | |].
  - apply create_effect_facts in Hc as [u t s' ts text rows _ _ _ _ _ _ _ ->]. cbn.
    apply elem_of_app. by left.
  - apply commit_effect_facts in Hc as [row' u ts cur props st text d1 d2 Hr _ _ Hu _ _ Hp _ _ _ _ _ ->].
    cbn. apply list_elem_of_fmap. exists row. split; [|done]. symmetry. apply commit_head_other.
    intros E. rewrite <- Hu in E.
    assert (row = row') as <- by exact (same_table d Hinv row row' Hin Hr E). congruence.
Qed.

Lemma poisoned_steps R `{!Moves R} w w' :
  catalog_inv (db w) -> table_row_of (db w) ident = Some row -> rtc R w w' ->
  catalog_inv (db w') /\ table_row_of (db w') ident = Some row.
Proof.
  intros Hinv Hrow Hr. induction Hr as [w|w w1 w2 Hs _ IH]; [done|].
  apply IH; [by eapply move_inv | by eapply poisoned_step].
Qed.

End poisoned.

(** ** Column types that do not decode *)

Section undecodable.
Context `{Env} `{!EnumerationLaws} (ident : TableIdent.t) (s : Uuid) (r : ColumnRow.t) (e : CatalogError).
Context (Hbad : decode_data_type (ColumnRow.column_type r) = Err e).

(** The current schema of the table has the column [r]. *)
Definition has_column (d : Db) : Prop := exists row, table_row_of d ident = Some row /\
  TableRow.current_schema_uuid row = Some (as_bytes s) /\ r ∈ select_columns (as_bytes s) d.

Lemma columns_of_undecodable d cols : r ∈ select_columns (as_bytes s) d -> columns_of d s <> Ok cols.
Proof.
  intros (i & Hi)%list_elem_of_lookup HF%traverse_ok. destruct (Forall2_lookup_l _ _ _ _ _ HF Hi) as (p & _ & Hp).
  apply current_column_ok in Hp as (_ & _ & Hp). congruence.
Qed.

(** No call replaces the schema. *)
Lemma has_column_step R `{!Moves R} w w' :
  catalog_inv (db w) -> has_column (db w) -> R w w' -> has_column (db w').
Proof.
  intros Hinv (row & Hrow & Hcur & Hr) Hs. pose proof (move_inv _ _ Hinv Hs) as Hinv'.
  destruct (moves_change _ _ Hinv Hs) as (client & c & Hc).
  apply table_row_of_some in Hrow as (Hin & Hns & Hnm & Hsel).
  assert (forall row', row' ∈ tables (db w') -> TableRow.namespace row' = TableRow.namespace row ->
    TableRow.table_name row' = TableRow.table_name row -> TableRow.current_schema_uuid row' = Some (as_bytes s) ->
    r ∈ select_columns (as_bytes s) (db w') -> has_column (db w')) as Hgoal.
  { intros row' Hin' En Em Ec Hr'. exists row'. split; [|done]. apply table_row_of_in; [by apply inv_db|].
    apply select_table_in. split_and!; [done | congruence | congruence]. }
  remember (db w) as d eqn:Ed. remember (db w') as d' eqn:Ed'.
  destruct Hc as [c d|i l sp p d d' Hc _|i b t m d d' Hc _].
  - by apply (Hgoal row).
  - apply create_effect_facts in Hc as [u t s' ts text rows _ _ _ _ _ _ _ ->].
    apply (Hgoal row); cbn; [apply elem_of_app; by left | done..|].
    unfold select_columns in *. cbn. rewrite List.filter_app. apply elem_of_app. by left.
  - apply commit_effect_facts in Hc as [row' u ts cur props st text d1 d2 Hr' _ _ Hu _ Hcs _ _ _ _ Hout _ Hd'].
    assert (select_columns (as_bytes s) d ⊆ select_columns (as_bytes s) d') as Hsub.
    { destruct Hout as [_ _ E _|? ? ? ? ? rows _ _ _ _ _ _ _ _ _ _ E _]; unfold select_columns; rewrite E; [done|].
      rewrite List.filter_app. intros x Hx. apply elem_of_app. by left. }
    assert (tables d' = commit_head t cur st text (as_bytes u) <$> tables d) as Et by by rewrite Hd'.
    pose proof (set_head_name (as_bytes u) (as_bytes <$> match MutState.new_schema_uuid st with Some s => Some s | None => cur end)
      (Some (as_bytes t)) (Some text) row) as [= En Em].
    apply (Hgoal (commit_head t cur st text (as_bytes u) row)); [| done | done | | by apply Hsub].
    { rewrite Et. by apply list_elem_of_fmap_2. }
    destruct (decide (TableRow.table_uuid row = as_bytes u)) as [Eu|Eu]; [|by rewrite commit_head_other].
    assert (row = row') as <- by (apply (same_table d Hinv row row' Hin Hr'); congruence).
    rewrite Hcur in Hcs. destruct cur as [old|]; [|done]. injection Hcs as <-%(inj as_bytes).
    unfold commit_head, set_head. rewrite Eu, beq_refl. cbn.
    destruct Hout as [_ _ _ ->|spec old old_row cols s' rows _ [= <-] _ _ _ Hcols]; [done|].
    by apply columns_of_undecodable in Hcols.
Qed.

Lemma has_column_steps R `{!Moves R} w w' :
  catalog_inv (db w) -> has_column (db w) -> rtc R w w' -> catalog_inv (db w') /\ has_column (db w').
Proof.
  intros Hinv Hc Hr. induction Hr as [w|w w1 w2 Hs _ IH]; [done|].
  apply IH; [by eapply move_inv | by eapply has_column_step].
Qed.

(** So none is an update of it. *)
Lemma commit_undecodable kind client base mutation spec w :
  catalog_inv (db w) -> has_column (db w) -> UpdateSchema spec ∈ Mutation.operations mutation ->
  exists e' w', commit kind client ident base mutation w = Some (Err e', w').
Proof.
  intros Hinv (row & Hrow & Hcur & Hr) Hop.
  enough (wp (commit kind client ident base mutation) (fun r _ => exists e', r = Err e') w) as Hw.
  { apply wp_run in Hw as (res & w' & E & e' & ->). eauto. }
  apply wp_commit; [by apply inv_db | eauto |]. intros res w' _ Hc _. exfalso.
  apply commit_effect_facts in Hc as [row' u ts cur props st text d1 d2 Hr' Hns Hnm _ _ Hcs _ _ _ _ Hout].
  assert (table_row_of (db w) ident = Some row') as Hrow'
    by (apply table_row_of_in; [by apply inv_db | by apply select_table_in]).
  rewrite Hrow in Hrow'. injection Hrow' as <-. rewrite Hcur in Hcs.
  destruct cur as [old|]; [|done]. injection Hcs as <-%(inj as_bytes).
  destruct Hout as [Hnone|spec' old old_row cols s' rows _ [= <-] _ _ _ Hcols]; [|by apply columns_of_undecodable in Hcols].
  assert (UpdateSchema spec ∈ List.filter is_update_schema (Mutation.operations mutation)) as Hx by by apply elem_of_filter'.
  rewrite Hnone in Hx. by apply not_elem_of_nil in Hx.
Qed.

(** At the current transaction the current schema is the valid one. *)
Lemma current_schema_valid d row u cur :
  catalog_inv d -> sorted_ids d -> row ∈ tables d -> TableRow.table_uuid row = as_bytes u ->
  TableRow.current_schema_uuid row = Some (as_bytes s) -> TableRow.current_transaction_id row = Some (as_bytes cur) ->
  exists srow, select_schemas_at (as_bytes u) (as_bytes cur) d = [srow] /\ SchemaRow.schema_uuid srow = as_bytes s.
Proof.
  intros Hinv Hs Hin Hu Hcs Hct.
  destruct (chain_head d Hinv row u Hin Hu) as (c & Hc & Hlast). rewrite Hct in Hc. injection Hc as <-%(inj as_bytes).
  assert (as_bytes cur ∈ chain d (as_bytes u)) as Hcin
    by (rewrite last_lookup in Hlast; by eapply list_elem_of_lookup_2).
  destruct (schema_at_unique d row (as_bytes cur) Hinv Hs Hin) as (srow & pre & post & Hlog & Hsel & _ & Hpost);
    [by rewrite Hu|]. rewrite Hu in *.
  pose proof (proj1 (Forall_forall _ _) (inv_schemas _ Hinv) row Hin) as (_ & _ & Hl & _ & Hsub). rewrite Hu, Hlog in *.
  exists srow. split; [done|]. destruct post as [|x post].
  - rewrite fmap_snoc, last_snoc in Hl. congruence.
  - exfalso. apply Forall_cons in Hpost as [Hx _].
    assert (SchemaRow.valid_from_transaction_id x ∈ chain d (as_bytes u)) as Hxin.
    { eapply sublist_subseteq; [exact Hsub|]. apply list_elem_of_fmap_2, elem_of_app. right. right. left. }
    pose proof (proj2 (sorted_precedes _ _ _ (Hs _) Hxin Hcin) (precedes_last _ _ _ Hlast Hxin)) as Hle.
    by rewrite blob_le_not_lt, Hx in Hle.
Qed.

Lemma okp_fetch_columns what w :
  r ∈ select_columns (as_bytes s) (db w) -> okp (fetch_columns what s) (fun _ _ => False) w.
Proof.
  intros Hr. unfold fetch_columns. apply okp_bind, okp_fetch, okp_bind, okp_lift. intros [] Hlim.
  apply okp_lift. intros cols HF%traverse_ok. set (rows := take _ _) in *.
  assert (r ∈ rows) as (i & Hi)%list_elem_of_lookup.
  { apply fail_if_ok, N.ltb_ge in Hlim. unfold rows, limits.MAX_COLUMNS_PER_SCHEMA in *. rewrite length_take in Hlim.
    rewrite take_ge by lia. by rewrite merge_sort_Permutation, row_order_perm. }
  destruct (Forall2_lookup_l _ _ _ _ _ HF Hi) as (c & _ & Hc). unfold column_of_row in Hc. by rewrite Hbad in Hc.
Qed.

Lemma read_undecodable client w :
  catalog_inv (db w) -> sorted_ids (db w) -> has_column (db w) ->
  exists e' w', read_table client ident None w = Some (Err e', w').
Proof.
  intros Hinv Hs (row & Hrow & Hcs & Hr). pose proof Hrow as (Hin & _)%table_row_of_some.
  enough (wp (read_table client ident None) (fun r _ => exists e', r = Err e') w) as Hw.
  { apply wp_run in Hw as (res & w' & E & e' & ->). eauto. }
  apply wp_reads; [apply _|]. intros [v|e'] n E; [exfalso | eauto].
  refine (okp_elim (read_table client ident None) (fun _ _ => False) w v (mk_world (db w) n) _ E).
  unfold read_table. apply okp_bind. eapply okp_mono; [apply okp_fetch_table|]. intros row' w1 [Hrow' E1].
  assert (row' = row) as -> by (eapply table_row_of_in in Hrow'; [congruence | by apply inv_db]).
  apply okp_bind, okp_lift. intros u Hu%uuid_from_row_ok. apply okp_bind, okp_lift. intros cs _.
  apply okp_bind, okp_lift. intros ct Hct%uuid_from_row_optional_ok. apply okp_bind, okp_lift. intros props _.
  apply okp_bind, okp_lift. intros _ _. apply okp_bind, okp_lift. intros cur ->%ok_or_ok. cbn in Hct.
  destruct (current_schema_valid (db w) row u cur Hinv Hs Hin Hu Hcs Hct) as (srow & Hsel & Hsid).
  apply okp_bind. eapply okp_mono; [by apply (okp_reads (db w)); [apply _|]|]. cbn. intros _ w2 E2.
  apply okp_bind. unfold read_schema. apply okp_bind, okp_fetch. cbn beta. rewrite E2, Hsel.
  rewrite (row_order_singleton _ srow) by (rewrite (row_order_singleton _ srow) by done; done).
  apply okp_bind, okp_lift. cbn. intros ? [= <-]. apply okp_bind, okp_lift. rewrite Hsid.
  intros su Hsu%uuid_from_row_ok. apply (inj as_bytes) in Hsu as <-. apply okp_bind.
  eapply okp_mono; [apply okp_fetch_columns; cbn; by rewrite E2 | done].
Qed.

End undecodable.

(** ** Theorems *)

(** C19: tables stay readable: in every state that clients reach whose JSON values
    serde_json prints and parses back, and whose column types Arrow IPC keeps,
    with generators whose transaction identifiers grow, [read_table] succeeds on every table, at its current
    transaction and at every earlier one, for every client whose protocol
    version is high enough, unless the engine fails or more files are visible
    than a query may return. *)
Theorem reachable_tables_readable `{Env} `{!EnumerationLaws} `{!ArrowIpcLaws} `{!SerdeJsonLaws}
    limit `{!MonotoneV7 limit} kind n w client ident row at_ :
  rtc (sane_step kind) (mk_world empty_db n) w -> tick w <= limit -> no_faults ->
  table_row_of (db w) ident = Some row ->
  (TableRow.min_reader_version row <= ProtocolVersions.reader client)%Z ->
  (forall eff, at_ = Some eff -> as_bytes eff ∈ chain (db w) (TableRow.table_uuid row)) ->
  (forall t, t ∈ chain (db w) (TableRow.table_uuid row) ->
     (N.of_nat (length (select_files_at (TableRow.table_uuid row) t (db w)))
        <= limits.MAX_FILES_PER_QUERY)%N) ->
  exists view w', read_table client ident at_ w = Some (Ok view, w') /\ db w' = db w /\
    match at_ with
    | Some eff => TableView.transaction_id view = eff
    | None => TableRow.current_transaction_id row = Some (as_bytes (TableView.transaction_id view))
    end.
Proof.
  intros Hr Hlim Hnf Hrow Hproto Hat Hfiles. destruct (sane_run _ _ _ Hr) as (Hinv & Hst & Hrs).
  pose proof (sorted_when_reachable limit kind n w Hrs Hlim) as Hs.
  pose proof Hrow as (Hrt & _)%table_row_of_some.
  pose proof (dec_tables _ (inv_rows _ Hinv)) as Hd. rewrite Forall_forall in Hd.
  destruct (Hd row Hrt) as [(u & _ & Hu)%uuid_decodes _]. rewrite Hu in *.
  destruct (chain_head (db w) Hinv row u Hrt Hu) as (cur & Hcur & Hlast).
  set (eff := default cur at_).
  assert (as_bytes eff ∈ chain (db w) (as_bytes u)) as Hin.
  { unfold eff. destruct at_ as [t|]; [by apply Hat|]. rewrite last_lookup in Hlast.
    by eapply list_elem_of_lookup_2. }
  pose proof (stored_tables _ Hst) as Hst'. rewrite Forall_forall in Hst'.
  destruct (Hst' row Hrt) as (props & Hprops & _).
  destruct (schema_at_unique (db w) row (as_bytes eff) Hinv Hs Hrt) as (s & _ & _ & _ & Hsel & _);
    [by rewrite Hu|]. rewrite Hu in Hsel.
  destruct (stored_files_decode (db w) (select_files_at (as_bytes u) (as_bytes eff) (db w)) Hinv Hst)
    as (fs & Hfs); [intros r Hr'; by apply elem_of_filter' in Hr' as [? _]|].
  destruct (read_table_ok client ident w row u eff at_ props fs s) as (view & w' & E & Ed & _ & _ & Ht & _);
    [done.. | | done | by apply types_decode_in, Hst | by apply Hst | by apply Hfiles | done |].
  { destruct at_ as [t|]; [by left | by right]. }
  exists view, w'. split_and!; [done | done |]. rewrite Ht. by destruct at_.
Qed.

(** C20: a table whose stored properties do not parse is lost: whatever calls any
    clients make from then on, every read of it and every commit to it fails,
    for every client and on every transaction. *)
Theorem unparsable_properties_are_forever `{Env} `{!EnumerationLaws}
    kind w w1 ident row e :
  catalog_inv (db w) -> table_row_of (db w) ident = Some row ->
  parse_table_properties (TableRow.properties row) = Err e -> rtc (step kind) w w1 ->
  (forall client at_, exists e' w', read_table client ident at_ w1 = Some (Err e', w')) /\
  (forall client base mutation, exists e' w',
     commit kind client ident base mutation w1 = Some (Err e', w')).
Proof.
  intros Hinv Hrow Hbad Hr. destruct (poisoned_steps ident row e Hbad (step kind) w w1 Hinv Hrow Hr) as [Hinv1 Hrow1].
  split; intros; [by eapply read_poisoned | by eapply commit_poisoned].
Qed.

(** C40: a column type that Arrow IPC does not read back is lasting: nothing refuses
    it when it is stored, and from then on, whatever calls any clients make,
    the table's schema cannot be updated any more, and as long as transaction
    identifiers grow no client can read the table at its current transaction. *)
Theorem undecodable_types_are_lasting `{Env} `{!EnumerationLaws} kind w w1 ident row s r e :
  catalog_inv (db w) -> table_row_of (db w) ident = Some row ->
  TableRow.current_schema_uuid row = Some (as_bytes s) -> r ∈ select_columns (as_bytes s) (db w) ->
  decode_data_type (ColumnRow.column_type r) = Err e -> rtc (step kind) w w1 ->
  (forall client base mutation spec, UpdateSchema spec ∈ Mutation.operations mutation ->
     exists e' w', commit kind client ident base mutation w1 = Some (Err e', w')) /\
  (sorted_ids (db w1) -> forall client, exists e' w', read_table client ident None w1 = Some (Err e', w')).
Proof.
  intros Hinv Hrow Hcur Hr Hbad Hsteps.
  destruct (has_column_steps ident s r e Hbad (step kind) w w1 Hinv) as [Hinv1 Hc]; [by exists row | done|].
  split; intros; [by eapply commit_undecodable | by eapply read_undecodable].
Qed.

(** ** Witnesses *)

#[local] Existing Instances ref_env ref_ipc_laws ref_json_laws ref_enumeration_laws.

Lemma scenario_sane : rtc (sane_step Limits.Sqlite) start world3.
Proof.
  eapply rtc_l; [apply (sane_call_step _ _ world1 client
    (CallCreate events "s3://bucket/events" spec1 None) (Ok tt)); [split; [split|]|]; vm_compute; reflexivity|].
  eapply rtc_l; [apply (sane_call_step _ _ world2 client (CallCommit events txn1 mutation1) (Ok tt))|].
  - repeat constructor; intros v Hv; discriminate Hv.
  - vm_compute. reflexivity.
  - apply rtc_once, (sane_call_step _ _ world3 client (CallCommit events txn2 mutation2) (Ok tt)).
    + repeat constructor; intros v Hv; discriminate Hv.
    + vm_compute. reflexivity.
Qed.

Lemma few_files3 u t : (N.of_nat (length (select_files_at u t (db world3))) <= limits.MAX_FILES_PER_QUERY)%N.
Proof.
  assert (length (select_files_at u t (db world3)) <= length (files (db world3))) as Hl by apply filter_length_le.
  assert (length (files (db world3)) = 3) as Hf by (vm_compute; reflexivity).
  unfold limits.MAX_FILES_PER_QUERY. lia.
Qed.

Lemma txn1_in_chain : as_bytes txn1 ∈ chain (db world3) (TableRow.table_uuid row3).
Proof.
  change (TableRow.table_uuid row3) with (as_bytes events_uuid). rewrite world3_chain. left.
Qed.

Lemma reachable_tables_readable_witness :
  exists view w', read_table client events (Some txn1) world3 = Some (Ok view, w') /\
    TableView.transaction_id view = txn1.
Proof.
  destruct (@reachable_tables_readable ref_env ref_enumeration_laws ref_ipc_laws ref_json_laws 100
    ref_monotone Limits.Sqlite 1 world3 client events row3 (Some txn1) scenario_sane) as (view & w' & E & _ & Ht).
  - apply Nat.leb_le. vm_compute. reflexivity.
  - exact ref_no_faults.
  - vm_compute. reflexivity.
  - vm_compute. discriminate.
  - intros eff Heff. injection Heff as <-. exact txn1_in_chain.
  - intros t _. apply few_files3.
  - exists view, w'. split; [exact E | exact Ht].
Defined.

(** An array nested as deep as the parser's limit. *)
Fixpoint nest (n : nat) : Value :=
  match n with O => Array [] | S n => Array [nest n] end.

Definition deep_properties : TableProperties.t := TableProperties.insert TableProperties.new "deep" (nest 126).

Definition deep_mutation : Mutation.t := Mutation.mk [SetProperties deep_properties].

Definition poisoned : World := after (Sqlite.commit client events txn1 deep_mutation) world1.

Definition poisoned_row : TableRow.t :=
  default (TableRow.mk [] "" "" "" None None 0 None 0 0) (head (tables (db poisoned))).

Lemma deep_commit_runs :
  Sqlite.commit client events txn1 deep_mutation world1 = Some (Ok (CommitResult.mk (v7 17) None), poisoned).
Proof. vm_compute. reflexivity. Qed.

Lemma poisoned_inv : catalog_inv (db poisoned).
Proof.
  apply (step_inv Limits.Sqlite world1); [apply world1_inv|].
  apply (step_call _ _ _ client (CallCommit events txn1 deep_mutation) (Ok tt)). vm_compute. reflexivity.
Qed.

(** The commit of the nested value succeeds; then nothing does any more. *)
Lemma unparsable_properties_are_forever_witness :
  (exists res, Sqlite.commit client events txn1 deep_mutation world1 = Some (Ok res, poisoned)) /\
  (forall client at_, exists e' w', read_table client events at_ poisoned = Some (Err e', w')) /\
  (forall client base mutation, exists e' w',
     commit Limits.Sqlite client events base mutation poisoned = Some (Err e', w')).
Proof.
  split; [eexists; exact deep_commit_runs|].
  assert (exists e, parse_table_properties (TableRow.properties poisoned_row) = Err e) as (e & He)
    by (eexists; vm_compute; reflexivity).
  assert (table_row_of (db poisoned) events = Some poisoned_row) as Hrow by (vm_compute; reflexivity).
  exact (unparsable_properties_are_forever Limits.Sqlite poisoned poisoned events poisoned_row e
    poisoned_inv Hrow He (rtc_refl _ _)).
Defined.

(** A list type nested deeper than the codec reads. *)
Fixpoint nested_list (n : nat) : DataType :=
  match n with O => Int64 | S n => List (field_new "item" (nested_list n) true) end.

Definition deep_spec : SchemaSpec.t := SchemaSpec.mk [ColumnSpec.new "deep" (nested_list 62)].

Definition deep_world : World := after (Sqlite.create_table client events "s3://bucket/events" deep_spec None) start.

Lemma deep_step : step Limits.Sqlite start deep_world.
Proof.
  apply (step_call _ _ deep_world client (CallCreate events "s3://bucket/events" deep_spec None) (Ok tt)).
  vm_compute. reflexivity.
Qed.

Lemma deep_sorted : sorted_ids (db deep_world).
Proof.
  apply (@sorted_when_reachable ref_env 100 ref_monotone Limits.Sqlite 1 deep_world).
  - eapply rtc_l; [exact deep_step | apply rtc_refl].
  - apply Nat.leb_le. vm_compute. reflexivity.
Qed.

(** The table is created, and cannot be read. *)
Lemma undecodable_types_are_lasting_witness :
  rtc (step Limits.Sqlite) start deep_world /\
  exists e w', read_table client events None deep_world = Some (Err e, w').
Proof.
  split; [eapply rtc_l; [exact deep_step | apply rtc_refl]|].
  destruct (table_row_of (db deep_world) events) as [row|] eqn:Er; [|vm_compute in Er; discriminate Er].
  destruct (columns (db deep_world)) as [|r l] eqn:Ec; [vm_compute in Ec; discriminate Ec|].
  destruct (decode_data_type (ColumnRow.column_type r)) as [t|e] eqn:Ed;
    [vm_compute in Ec; injection Ec as <- <-; vm_compute in Ed; discriminate Ed|].
  destruct (undecodable_types_are_lasting Limits.Sqlite deep_world deep_world events row (v4 8) r e) as [_ Hread].
  - exact (step_inv Limits.Sqlite start deep_world empty_inv deep_step).
  - exact Er.
  - vm_compute in Er. injection Er as <-. vm_compute. reflexivity.
  - vm_compute in Ec. injection Ec as <- <-. apply list_elem_of_In. vm_compute. left. reflexivity.
  - exact Ed.
  - apply rtc_refl.
  - exact (Hread deep_sorted client).
Defined.
