(* ===== verification/EventInterleave.v ===== *)
(** * The event log and the deltas, interleaved with other calls

    [list_transaction_events] and [diff_table] run as sequences of statements
    between which other calls complete.  What a transaction added and removed
    and the schema it made active never change, so the events of a range and
    the files and schema of a delta are those of the state the call started
    from.  The properties a delta reports are not: they are read twice, from
    the table's current row. *)

From S2P Require Import Prelude Uuid Error Limits Json DataType Format Schema Models Db DbFacts World Helpers Catalog Api Effects ReadFacts Invariant RefEnv Scenario Safety Commit Order Views Later Statements Interleave Events Diff EventStatements Readable.
From stdpp Require Import relations.

(** ** The same events, the same delta

    Up to the marks of later commits and the order of the rows. *)

Definition unmarked (c : TxnFileChange.t) : TxnFileChange.t :=
  TxnFileChange.mk (TxnFileChange.transaction_id c) (TxnFileChange.kind c) (unremoved (TxnFileChange.file c)).

Definition unclosed_change (c : TxnSchemaChange.t) : TxnSchemaChange.t :=
  TxnSchemaChange.mk (TxnSchemaChange.transaction_id c) (unclosed (TxnSchemaChange.schema c)).

(** The additions come first, in some order, then the removals, each file at
    most once among either. *)
Inductive same_changes : list TxnFileChange.t -> list TxnFileChange.t -> Prop :=
  | same_changes_intro added added' removed :
      unmarked <$> added' ≡ₚ unmarked <$> added -> NoDup (file_id <$> added) ->
      same_changes (added ++ removed) (added' ++ removed).

Record same_event (e e' : TxnEvent.t) : Prop := {
  event_transaction : TxnEvent.transaction_id e' = TxnEvent.transaction_id e;
  event_changes_same : same_changes (TxnEvent.file_changes e) (TxnEvent.file_changes e');
  event_schema : unclosed_change <$> TxnEvent.schema_change e' = unclosed_change <$> TxnEvent.schema_change e
}.

(** Everything but the properties. *)
Record same_delta (x x' : TableDelta.t) : Prop := {
  delta_from : TableDelta.from_transaction_id x' = TableDelta.from_transaction_id x;
  delta_to : TableDelta.to_transaction_id x' = TableDelta.to_transaction_id x;
  delta_added : unremoved <$> TableDelta.added_files x' ≡ₚ unremoved <$> TableDelta.added_files x;
  delta_removed : unremoved <$> TableDelta.removed_files x' ≡ₚ unremoved <$> TableDelta.removed_files x;
  delta_schema : unclosed <$> TableDelta.new_schema x' = unclosed <$> TableDelta.new_schema x
}.

(** ** Projection *)

Lemma filter_one_perm {A} (p : A -> bool) l l' :
  l' ≡ₚ l -> length (List.filter p l) <= 1 -> List.filter p l' = List.filter p l.
Proof.
  intros Hp%(filter_permutation p) Hl. destruct (List.filter p l) as [|x [|]]; cbn in Hl; [| |lia].
  - by apply Permutation_nil_r.
  - by apply Permutation_singleton_r in Hp.
Qed.

Lemma changes_of_unmarked q cs : unmarked <$> changes_of q cs = changes_of q (unmarked <$> cs).
Proof. symmetry. by apply filter_fmap_comm. Qed.

Lemma changes_of_one q cs : NoDup (file_id <$> cs) -> length (changes_of q cs) <= 1.
Proof.
  unfold changes_of. induction cs as [|c cs IH]; cbn; [lia|]. intros [Hc Hn]%NoDup_cons.
  case_bool_decide as E; [|by apply IH]. cbn. rewrite filter_all_false; [done|].
  intros x Hx. apply bool_decide_eq_false. intros <-. rewrite E in Hc. apply Hc. by apply list_elem_of_fmap_2.
Qed.

Lemma same_changes_of q cs cs' :
  same_changes cs cs' -> unmarked <$> changes_of q cs' = unmarked <$> changes_of q cs.
Proof.
  intros [added added' removed Hp Hn]. rewrite !changes_of_app, !fmap_app. f_equal.
  rewrite !changes_of_unmarked. apply filter_one_perm; [done|].
  change (length (changes_of q (unmarked <$> added)) <= 1). rewrite <- changes_of_unmarked, length_fmap.
  by apply changes_of_one.
Qed.

(** The maps of the projection, without the marks. *)
Definition unremoved_entry (e : option File.t * option File.t) : option File.t * option File.t :=
  (unremoved <$> e.1, unremoved <$> e.2).

Lemma fold_unmarked cs e :
  unremoved_entry (fold_left apply_entry cs e) = fold_left apply_entry (unmarked <$> cs) (unremoved_entry e).
Proof.
  revert e; induction cs as [|c cs IH]; intros e; cbn; [done|]. rewrite IH. f_equal.
  destruct e as [[f|] r]; unfold apply_entry, unremoved_entry; cbn; by destruct (TxnFileChange.kind c).
Qed.

Section project.
Context `{Env} `{!EnumerationLaws}.

Lemma values_same (m m' : gmap Uuid File.t) :
  (forall q, unremoved <$> m' !! q = unremoved <$> m !! q) ->
  unremoved <$> into_values m' ≡ₚ unremoved <$> into_values m.
Proof.
  intros Hm. assert (unremoved <$> m' = unremoved <$> m) as E by (apply map_eq; intros q; by rewrite !lookup_fmap).
  assert (forall x : gmap Uuid File.t, unremoved <$> into_values x ≡ₚ (map_to_list (unremoved <$> x)).*2) as Hx.
  { intros x. unfold into_values. rewrite hash_order_perm, map_to_list_fmap, <- !list_fmap_compose.
    by apply Permutation_refl'. }
  by rewrite !Hx, E.
Qed.

Lemma project_same from to es es' ns ns' np np' :
  Forall2 same_event es es' -> unclosed <$> ns' = unclosed <$> ns ->
  same_delta (project_delta_range from to es ns np) (project_delta_range from to es' ns' np').
Proof.
  intros Hes Hns. unfold project_delta_range. rewrite !fold_events.
  assert (forall q, unremoved_entry (entry q (fold_left apply_change (es' ≫= TxnEvent.file_changes) (∅, ∅)))
    = unremoved_entry (entry q (fold_left apply_change (es ≫= TxnEvent.file_changes) (∅, ∅)))) as Hq.
  { intros q. rewrite !fold_entry, !fold_unmarked. f_equal. rewrite !changes_of_bind.
    induction Hes as [|e e' es es' He _ IH]; cbn; [done|]. rewrite !fmap_app, IH. f_equal.
    apply same_changes_of, He. }
  destruct (fold_left apply_change (es ≫= _) _) as [A R], (fold_left apply_change (es' ≫= _) _) as [A' R'].
  unfold unremoved_entry, entry in Hq. cbn in Hq.
  split; cbn; try done; apply values_same; intros q; specialize (Hq q); congruence.
Qed.

End project.

(** ** The loops over the changed files *)

Section pushes.
Context `{Env}.

Definition added_change (row : FileRow.t) : result CatalogError TxnFileChange.t :=
  added ← uuid_from_row (FileRow.added_in_transaction_id row);
  file ← file_of_row row;
  Ok (TxnFileChange.mk added Added file).

Notation max := limits.MAX_FILES_PER_QUERY.

Lemma push_added_cons count r rows :
  push_added count (r :: rows) =
    (if max <? count + 1 then Err (LimitExceeded ("added file events exceed limit of " +:+ pretty max))
     else match added_change r with
          | Ok c => match push_added (count + 1) rows with
                    | Ok (n, cs) => Ok (n, c :: cs)
                    | Err e => Err e
                    end
          | Err e => Err e
          end)%N.
Proof.
  cbn [push_added]. unfold added_change. destruct (max <? count + 1)%N; [done|]. cbn.
  destruct (uuid_from_row (FileRow.added_in_transaction_id r)); cbn; [|done].
  destruct (file_of_row r); cbn; [|done]. by destruct (push_added (count + 1) rows) as [[]|].
Qed.

(** Within the limit the loop is a traversal; beyond it, it fails. *)
Lemma push_added_within count rows :
  (count + N.of_nat (length rows) <= max)%N ->
  push_added count rows = match traverse added_change rows with
                          | Ok cs => Ok ((count + N.of_nat (length rows))%N, cs)
                          | Err e => Err e
                          end.
Proof.
  revert count; induction rows as [|r rows IH]; intros count Hc; [cbn; by rewrite N.add_0_r|].
  cbn [traverse length] in *. rewrite push_added_cons, (proj2 (N.ltb_ge max (count + 1))) by lia.
  destruct (added_change r) as [c|e]; cbn; [|done]. rewrite IH by lia.
  destruct (traverse added_change rows) as [cs|e]; cbn; [|done]. do 2 f_equal. lia.
Qed.

Lemma push_added_over count rows :
  rows <> [] -> (max < count + N.of_nat (length rows))%N -> exists e, push_added count rows = Err e.
Proof.
  revert count; induction rows as [|r rows IH]; intros count Hne Hc; [done|]. rewrite push_added_cons.
  destruct (max <? count + 1)%N eqn:Em; [eauto|]. apply N.ltb_ge in Em.
  destruct (added_change r) as [c|e]; [|eauto]. cbn [length] in Hc.
  destruct (IH (count + 1)%N) as (e & ->); [|lia|eauto]. intros ->. cbn in Hc. lia.
Qed.

Lemma added_change_unremoved r :
  opt_uuid (FileRow.removed_in_transaction_id r) ->
  fmap (M := result CatalogError) unmarked (added_change r) = added_change (unremoved_row r).
Proof.
  intros Hr%unremoved_of_row. unfold added_change. rewrite <- Hr. cbn.
  destruct (uuid_from_row (FileRow.added_in_transaction_id r)) as [a|e]; cbn; [|done].
  by destruct (file_of_row r).
Qed.

Lemma added_change_ids rows cs :
  traverse added_change rows = Ok cs -> as_bytes <$> (file_id <$> cs) = FileRow.file_uuid <$> rows.
Proof.
  revert cs; induction rows as [|r rows IH]; intros cs; cbn; [by intros [= <-]|].
  intros (c & Hc & (cs' & Hcs & [= <-])%bind_ok)%bind_ok. cbn. rewrite (IH _ Hcs). f_equal.
  apply bind_ok in Hc as (a & _ & (f & Hf & [= <-])%bind_ok). by destruct (file_of_row_ids _ _ Hf) as [-> _].
Qed.

(** The same additions. *)
Definition same_added (x x' : N * list TxnFileChange.t) : Prop :=
  x'.1 = x.1 /\ unmarked <$> x'.2 ≡ₚ unmarked <$> x.2 /\ NoDup (file_id <$> x.2).

Lemma same_push_added count rows rows' :
  same_rows (N.to_nat max) rows rows' -> both same_added (push_added count rows) (push_added count rows').
Proof.
  intros [Hl Hd Hd' Hn Hp].
  destruct (decide (rows = [])) as [->|Hne].
  { apply nil_length_inv in Hl as ->. split; [done|]. split; [done | constructor]. }
  destruct (decide (count + N.of_nat (length rows) <= max)%N) as [Hc|Hc].
  - pose proof (same_traverse added_change unremoved_row unmarked _ rows rows' added_change_unremoved Hd Hd'
      (Hp ltac:(lia))) as Hb.
    rewrite !push_added_within by (rewrite ?Hl; done). rewrite Hl.
    destruct (traverse added_change rows) as [cs|] eqn:Ec, (traverse added_change rows'); try done.
    split; [done|]. split; [done|]. apply (NoDup_fmap_1 as_bytes). cbn [snd].
    by rewrite (added_change_ids _ _ Ec).
  - destruct (push_added_over count rows) as (e & ->); [done | lia |].
    destruct (push_added_over count rows') as (e' & ->); [|rewrite Hl; lia | done].
    intros ->. by apply eq_sym, nil_length_inv in Hl.
Qed.

End pushes.

(** ** The statements of the event log *)

Section statements.
Context `{Env} `{!EnumerationLaws} (d0 : Db) (Hinv0 : catalog_inv d0).
Context (Hsorted : sorted_ids d0).
Context (row : TableRow.t) (u : Uuid) (Hrow : row ∈ tables d0) (Hu : TableRow.table_uuid row = as_bytes u).

Notation ids := (chain d0 (as_bytes u)).
Notation seen := (seen d0).
Notation sim := (sim d0 seen).

(** The walk of the range, started at position [i] of the chain. *)
Lemma sim_chain fuel i from cur visited acc b :
  i < fuel -> ids !! i = Some (as_bytes cur) ->
  (forall v, v ∈ visited -> exists k, i < k /\ ids !! k = Some (as_bytes v)) ->
  Forall (fun t => as_bytes t ∈ ids) acc ->
  sim (fun x x' => x' = x /\ Forall (fun t => as_bytes t ∈ ids) x.1 /\
      (x.2 = true -> b = true \/ exists f, from = Some f /\ as_bytes f ∈ ids))
    (ask_chain fuel u from cur visited acc b) (ask_chain fuel u from cur visited acc b).
Proof.
  revert i cur visited acc; induction fuel as [|fuel IH]; intros i cur visited acc Hf Hi Hv Hacc; [lia|].
  cbn [ask_chain]. rewrite bool_decide_false by (by eapply (not_visited d0 Hinv0 u i)).
  pose proof (list_elem_of_lookup_2 _ _ _ Hi) as Hin.
  assert (Forall (fun t => as_bytes t ∈ ids) (acc ++ [cur])) as Hacc' by (apply Forall_app; split; [done | by constructor]).
  destruct (settled_transaction d0 Hinv0 row u Hrow Hu i cur Hi) as (r & Hr & p & Hp & Hlink).
  eapply (sim_bind _ _ (fun o o' => o = Some r /\ o' = Some r)).
  { by eapply sim_settled; [by apply seen_start | exact Hr | exact Hr |]; intros ? ? -> ->. }
  intros o o' [-> ->]. apply sim_pure_then. intros ? [= <-]. cbn zeta.
  apply sim_pure_then. intros _ _. rewrite Hp. apply sim_pure_then. intros ? [= <-].
  destruct i as [|i], p as [p|]; try done.
  - apply sim_ret. split_and!; [done | done | by left].
  - case_bool_decide as Efrom.
    + apply sim_ret. split_and!; [done | done | right]. exists p. split; [done|]. by eapply list_elem_of_lookup_2.
    + apply (IH i p); [lia | done | | done]. by apply (visited_next d0 u).
Qed.

(** The end of the range is found, whatever the current transaction. *)
Lemma settled_to_inclusive cur to_ :
  as_bytes to_ ∈ ids -> settles seen (ask_to_inclusive u cur to_) (fun r => r = Ok tt).
Proof.
  intros (i & Hi)%list_elem_of_lookup. unfold ask_to_inclusive. case_bool_decide; [done|].
  destruct (settled_transaction d0 Hinv0 row u Hrow Hu i to_ Hi) as (r & Hr & _).
  by eapply settles_ok; [exact Hr|].
Qed.

Lemma sim_to_inclusive cur cur' to_ :
  as_bytes to_ ∈ ids -> sim (fun _ _ => True) (ask_to_inclusive u cur to_) (ask_to_inclusive u cur' to_).
Proof.
  intros Hto. eapply sim_settled; [by apply seen_start | by apply settled_to_inclusive.. |]. by intros ? ? -> ->.
Qed.

(** The row of the schema a transaction made active, if any. *)
Definition same_schema_rows (rows rows' : list SchemaRow.t) : Prop :=
  match rows, rows' with
  | [], [] => True
  | [r], [r'] => r ∈ schemas d0 /\ unclosed_row r' = unclosed_row r /\
      opt_uuid (SchemaRow.valid_to_transaction_id r) /\ opt_uuid (SchemaRow.valid_to_transaction_id r')
  | _, _ => False
  end.

Lemma short_rows {T} n (l : list T) : length l <= 1 -> 1 <= n -> take n (row_order l) = l.
Proof.
  destruct l as [|x [|]]; cbn; [| |lia]; intros _ Hn.
  - assert (row_order (A := T) [] = []) as -> by (apply Permutation_nil_r, row_order_perm). by destruct n.
  - rewrite (row_order_singleton [x] x) by done. by destruct n as [|[]]; [lia|..].
Qed.

Lemma sim_schema_rows t :
  as_bytes t ∈ ids ->
  sim same_schema_rows (ask_limit 2 (select_schemas_from (as_bytes u) (as_bytes t)))
    (ask_limit 2 (select_schemas_from (as_bytes u) (as_bytes t))).
Proof.
  intros Ht. apply sim_ask. intros d [Hd Hl].
  pose proof (later_from _ _ Hl (as_bytes u) _ Ht) as E.
  pose proof (schemas_from_unique d0 Hinv0 row u Hrow Hu (as_bytes t)) as Hone.
  assert (forall x r, catalog_inv x -> r ∈ select_schemas_from (as_bytes u) (as_bytes t) x ->
    r ∈ schemas x /\ opt_uuid (SchemaRow.valid_to_transaction_id r)) as Hdec.
  { intros x r Hx [Hr _]%elem_of_filter'. split; [done|].
    by apply (proj1 (Forall_forall _ _) (dec_schemas _ (inv_rows _ Hx))). }
  pose proof (f_equal length E) as El. rewrite !length_fmap in El.
  rewrite !short_rows by lia.
  pose proof (fun r => Hdec d0 r Hinv0) as Hd0. pose proof (fun r => Hdec d r Hd) as Hd1.
  destruct (select_schemas_from _ _ d0) as [|r [|]], (select_schemas_from _ _ d) as [|r' [|]]; cbn in El, Hone; try lia; [done|].
  destruct (Hd0 r) as [? ?]; [left|]. destruct (Hd1 r') as [_ ?]; [left|].
  rewrite !list_fmap_singleton in E. cbn. split_and!; [done | congruence | done | done].
Qed.

Lemma sim_schema_change n t :
  as_bytes t ∈ ids ->
  sim (fun x x' => x'.1 = x.1 /\ unclosed_change <$> x'.2 = unclosed_change <$> x.2)
    (ask_schema_change n u t) (ask_schema_change n u t).
Proof.
  intros Ht. eapply sim_bind; [by apply sim_schema_rows|].
  intros [|r [|]] [|r' [|]] Hr; try done; [by apply sim_ret|]. destruct Hr as (Hin & Er & Hr & Hr').
  apply sim_pure_then. intros _ _. assert (SchemaRow.schema_uuid r' = SchemaRow.schema_uuid r /\
    SchemaRow.valid_from_transaction_id r' = SchemaRow.valid_from_transaction_id r) as [-> ->]
    by (by injection Er).
  apply sim_pure_then. intros su Hsu%uuid_from_row_ok. apply sim_pure_then. intros vf _.
  assert (as_bytes su ∈ schema_keys d0) as Hk by (rewrite <- Hsu; by apply list_elem_of_fmap_2).
  eapply sim_bind; [by apply sim_columns|]. intros cols ? <-.
  eapply sim_bind; [apply sim_pure, same_schema_of_row; done|]. intros v v' Ev. apply sim_ret. cbn.
  split; [done|]. unfold unclosed_change. cbn. by rewrite Ev.
Qed.

(** One event. *)
Lemma sim_event counts t :
  as_bytes t ∈ ids ->
  sim (fun x x' => same_event x.1 x'.1 /\ x'.2 = x.2) (ask_event u counts t) (ask_event u counts t).
Proof.
  intros Ht.
  eapply (sim_bind _ _ (same_rows (N.to_nat limits.MAX_FILES_PER_QUERY))).
  { eapply sim_file_rows; [done.. | by eexists |]. intros d Hl. by apply (later_added _ _ Hl). }
  intros rows rows' Hrows. eapply sim_bind; [by apply sim_pure, same_push_added|].
  intros [na added] [na' added'] (En & Ha & Hn). cbn in En, Ha, Hn. subst na'.
  eapply (sim_bind _ _ eq); [apply sim_ask; intros d [_ Hl]; by rewrite (later_removed _ _ Hl)|].
  intros gone ? <-. apply sim_pure_then. intros [nr removed] _.
  eapply sim_bind; [by apply sim_schema_change|]. intros [ns c] [ns' c'] [Es Ec]. cbn in Es, Ec. subst ns'.
  apply sim_ret. cbn. split; [|done]. split; cbn; [done | by constructor | done].
Qed.

Lemma sim_events counts ts :
  Forall (fun t => as_bytes t ∈ ids) ts ->
  sim (Forall2 same_event) (ask_events u counts ts) (ask_events u counts ts).
Proof.
  intros Hts. revert counts. induction Hts as [|t ts Ht _ IH]; intros counts; [by apply sim_ret|].
  cbn [ask_events]. eapply sim_bind; [by apply sim_event|]. intros [e c] [e' c'] [He Ec]. cbn in He, Ec. subst c'.
  eapply sim_bind; [apply IH|]. intros es es' Hes. apply sim_ret. by constructor.
Qed.

(** ** The whole scan *)

(** The table's row, as each state has it. *)
Definition one_table (r : TableRow.t) : Prop :=
  TableRow.table_uuid r = as_bytes u /\ TableRow.min_reader_version r = TableRow.min_reader_version row /\
  exists cur, TableRow.current_transaction_id r = Some (as_bytes cur).

Lemma seen_table ident d :
  table_row_of d0 ident = Some row -> seen d ->
  exists r, table_row_of d ident = Some r /\ r ∈ tables d /\ one_table r.
Proof.
  intros Hid [Hd Hl]. destruct (later_tables _ _ Hl ident row Hid) as (r & Hr & Eu & _ & _ & Em).
  pose proof Hr as (Hin & _)%table_row_of_some.
  destruct (chain_head d Hd r u Hin) as (cur & Hcur & _); [congruence|]. exists r. unfold one_table.
  split_and!; [done | done | congruence | done | eauto].
Qed.

Lemma ask_one_table ident d r :
  catalog_inv d -> table_row_of d ident = Some r ->
  head (row_order (select_table (TableIdent.namespace ident) (TableIdent.name ident) d)) = Some r.
Proof.
  intros Hd Hr. rewrite (row_order_singleton _ r); [done|]. apply table_row_of_select; [apply Hd | done].
Qed.

Lemma sim_table ident :
  table_row_of d0 ident = Some row -> sim (fun r r' => r = row /\ one_table r') (ask_table ident) (ask_table ident).
Proof.
  intros Hid. unfold ask_table.
  eapply (sim_bind _ _ (fun o o' => o = Some row /\ exists r', o' = Some r' /\ one_table r')).
  - apply sim_ask. intros d Hd. destruct (seen_table ident d Hid Hd) as (r & Hr & _ & Hone).
    rewrite (ask_one_table ident d0 row), (ask_one_table ident d r); [eauto | apply Hd | done | done | done].
  - intros o o' [-> (r' & -> & Hr')]. by apply sim_pure.
Qed.

Lemma sim_scan fuel cursor r' :
  length (transactions d0) < fuel -> one_table r' -> as_bytes (TxnRangeCursor.to_inclusive cursor) ∈ ids ->
  sim (fun es es' => Forall2 same_event es es' /\
      forall f, TxnRangeCursor.from_exclusive cursor = Some f -> as_bytes f ∈ ids)
    (ask_scan fuel cursor row) (ask_scan fuel cursor r').
Proof.
  intros Hf (Hu' & _ & cur' & Hcur') Hto. destruct (chain_head d0 Hinv0 row u Hrow Hu) as (cur & Hcur & _).
  unfold ask_scan. rewrite Hu, Hu', Hcur, Hcur', (proj2 (uuid_from_row_ok _ u) eq_refl).
  apply sim_pure_then. intros ? [= <-].
  rewrite (proj2 (uuid_from_row_optional_ok _ (Some cur)) eq_refl), (proj2 (uuid_from_row_optional_ok _ (Some cur')) eq_refl).
  eapply (sim_bind _ _ (fun o o' => o = Some cur /\ o' = Some cur')); [by apply sim_pure|]. intros ? ? [-> ->].
  eapply (sim_bind _ _ (fun c c' => c = cur /\ c' = cur')); [by apply sim_pure|]. intros ? ? [-> ->].
  eapply sim_bind; [by apply sim_to_inclusive|]. intros ? ? _.
  pose proof Hto as (i & Hi)%list_elem_of_lookup.
  assert (i < fuel) as Hif.
  { apply lookup_lt_Some in Hi. pose proof (chain_short d0 u). lia. }
  eapply sim_bind; [apply (sim_chain fuel i); [done | done | set_solver | constructor]|].
  intros [ts reached] ? (-> & Hts & Hb). cbn in Hts, Hb. apply sim_pure_then. intros [] Hreach.
  eapply sim_mono; [by apply sim_events, Forall_reverse|]. intros es es' Hes. split; [done|].
  intros f Hfrom. rewrite Hfrom in Hb. destruct Hb as [?|(f' & [= <-] & ?)]; [by destruct reached | done | done].
Qed.

Lemma sim_list_events fuel ident cursor :
  table_row_of d0 ident = Some row -> length (transactions d0) < fuel ->
  as_bytes (TxnRangeCursor.to_inclusive cursor) ∈ ids ->
  sim (fun es es' => Forall2 same_event es es' /\
      forall f, TxnRangeCursor.from_exclusive cursor = Some f -> as_bytes f ∈ ids)
    (ask_list_transaction_events fuel ident cursor) (ask_list_transaction_events fuel ident cursor).
Proof.
  intros Hid Hf Hto. eapply sim_bind; [by apply sim_table|]. intros r r' [-> Hr']. by apply sim_scan.
Qed.

(** ** A pinned read of a later state *)

Lemma later_chain d t : later d0 d -> t ∈ ids -> t ∈ chain d (as_bytes u).
Proof.
  intros (more & E)%later_txns Ht. unfold chain, history in *. rewrite E, List.filter_app, fmap_app.
  apply elem_of_app. by left.
Qed.

Lemma sim_weaken (J J' : Db -> Prop) {A B} (E : A -> B -> Prop) m n :
  (forall d, J' d -> J d) -> Interleave.sim d0 J E m n -> Interleave.sim d0 J' E m n.
Proof. apply settles_weaken. Qed.

Lemma sim_pures (J : Db -> Prop) {A B A' B'} (F : A' -> B' -> Prop) (r : result CatalogError A)
    (r' : result CatalogError B) a b f g :
  r = Ok a -> r' = Ok b -> Interleave.sim d0 J F (f a) (g b) ->
  Interleave.sim d0 J F (pure r ≫= f) (pure r' ≫= g).
Proof. by intros -> ->. Qed.

Lemma sim_pinned client fuel ident a d r :
  table_row_of d0 ident = Some row -> seen d -> sorted_ids d -> table_row_of d ident = Some r ->
  is_ok (parse_table_properties (TableRow.properties row)) = true ->
  is_ok (parse_table_properties (TableRow.properties r)) = true ->
  length (transactions d0) < fuel -> length (transactions d) < fuel -> as_bytes a ∈ ids ->
  Interleave.sim d0 (eq d) (fun v v' => unclosed (TableView.schema v') = unclosed (TableView.schema v))
    (ask_read_table client fuel ident (Some a)) (ask_read_table client fuel ident (Some a)).
Proof.
  intros Hid Hseen Hs Hr Hp Hp' Hf Hf' Ha. pose proof Hseen as [Hd Hl].
  destruct (seen_table ident d Hid Hseen) as (r' & E & Hin & Hu' & Hm & cur' & Hcur').
  rewrite Hr in E. injection E as <-.
  destruct (chain_head d0 Hinv0 row u Hrow Hu) as (cur & Hcur & Hlast).
  destruct (chain_head d Hd r u Hin Hu') as (c & Hc & Hlast'). rewrite Hcur' in Hc. injection Hc as <-%(inj as_bytes).
  assert (Hdec : forall x y, catalog_inv x -> y ∈ tables x -> opt_uuid (TableRow.current_schema_uuid y)).
  { intros x y Hx Hy. by apply (proj1 (Forall_forall _ _) (dec_tables _ (inv_rows _ Hx))). }
  unfold ask_read_table, ask_table.
  eapply (sim_bind _ _ (fun o o' => o = row /\ o' = r)).
  { eapply (sim_bind _ _ (fun o o' => o = Some row /\ o' = Some r)).
    - apply sim_ask. intros x <-. by rewrite (ask_one_table ident d0 row), (ask_one_table ident d r).
    - intros ? ? [-> ->]. by apply sim_pure. }
  intros ? ? [-> ->]. unfold ask_rest.
  eapply sim_pures; [by apply (uuid_from_row_ok _ u).. |].
  destruct (opt_row_decodes _ (Hdec d0 row Hinv0 Hrow)) as (? & Es & _).
  destruct (opt_row_decodes _ (Hdec d r Hd Hin)) as (? & Es' & _). eapply sim_pures; [exact Es | exact Es'|].
  eapply sim_pures; [by apply (uuid_from_row_optional_ok _ (Some cur)) | by apply (uuid_from_row_optional_ok _ (Some cur')) |].
  destruct (parse_table_properties (TableRow.properties row)) as [p|] eqn:Ep; [|done].
  destruct (parse_table_properties (TableRow.properties r)) as [p'|] eqn:Ep'; [|done].
  eapply sim_pures; [done..|]. rewrite Hm. apply sim_pure_then. intros [] _.
  eapply sim_pures; [done..|]. cbn [default].
  eapply (sim_bind _ _ (fun _ _ => True)).
  { pose proof (settled_history d0 Hinv0 Hsorted row u Hrow Hu fuel a cur Hf Hlast) as Hh.
    pose proof (settled_history d Hd Hs r u Hin Hu' fuel a cur' Hf' Hlast') as Hh'.
    unfold history_result in *. rewrite bool_decide_eq_true_2 in Hh by done.
    rewrite bool_decide_eq_true_2 in Hh' by by apply later_chain.
    apply settles_answer with (d := d0) in Hh as (y & Hy & ->); [|by apply seen_start].
    eapply settles_mono; [eapply settles_weaken; [|exact Hh']; intros ? <-; by apply seen_start|].
    intros y' ->. by exists (Ok tt). }
  intros _ _ _.
  eapply sim_bind; [eapply sim_weaken; [|by apply (sim_schema d0 Hinv0 Hsorted row u Hrow Hu ident a)]; by intros ? <-|].
  intros v v' Hv.
  eapply (sim_bind _ _ (fun _ _ => True)); [eapply sim_weaken; [|eapply sim_mono; [by apply (sim_files d0 Hinv0 u a)|]]|];
    [by intros ? <- | done|].
  intros fs fs' _.
  eapply (sim_bind _ _ (fun _ _ => True)); [eapply sim_weaken; [|eapply sim_mono; [by apply (sim_stats d0 Hinv0 u a)|]]|];
    [by intros ? <- | done|].
  intros st st' _. by apply sim_ret.
Qed.

End statements.

(** ** Runs *)

Section theorems.
Context `{Env} `{!EnumerationLaws}.

(** What an interrupted event log returns. *)
Lemma irun_list_events others `{!Moves others} fuel ident cursor row w r w' :
  catalog_inv (db w) -> sorted_ids (db w') -> walk_fuel w <= fuel ->
  table_row_of (db w) ident = Some row ->
  as_bytes (TxnRangeCursor.to_inclusive cursor) ∈ chain (db w) (TableRow.table_uuid row) ->
  irun others (ask_list_transaction_events fuel ident cursor) w r w' ->
  follows (db w) (fun es es' => Forall2 same_event es es' /\
      forall f, TxnRangeCursor.from_exclusive cursor = Some f ->
        as_bytes f ∈ chain (db w) (TableRow.table_uuid row))
    (ask_list_transaction_events fuel ident cursor) r.
Proof.
  intros Hinv Hs Hf Hid Hto Hrun. pose proof (irun_steps others _ _ _ _ Hrun) as Hsteps.
  pose proof Hid as (Hrow & _)%table_row_of_some.
  destruct (table_uuid_decodes _ _ Hinv Hrow) as [u Hu].
  rewrite Hu in *. assert (length (transactions (db w)) < fuel) as Hlen by (unfold walk_fuel in *; lia).
  pose proof (sim_list_events (db w) Hinv (later_sorted _ _ (steps_later others w w' Hinv Hs Hsteps) Hs) row u Hrow Hu fuel ident cursor Hid Hlen Hto) as Hsim.
  eapply (irun_settles others (seen (db w))); [exact Hrun | | exact Hsim].
  intros wd Hd1 Hd2. by apply (steps_seen others w w').
Qed.

(** The properties at the end parse, so those in between did. *)
Lemma parses_before others `{!Moves others} ident w w' r r' :
  catalog_inv (db w) -> rtc others w w' -> table_row_of (db w) ident = Some r ->
  table_row_of (db w') ident = Some r' -> is_ok (parse_table_properties (TableRow.properties r')) = true ->
  is_ok (parse_table_properties (TableRow.properties r)) = true.
Proof.
  intros Hinv Hr Hid Hid' Hok. destruct (parse_table_properties (TableRow.properties r)) as [p|e] eqn:Ep; [done|].
  destruct (poisoned_steps ident r e Ep others w w' Hinv Hid Hr) as [_ E]. rewrite E in Hid'. injection Hid' as <-.
  by rewrite Ep in Hok.
Qed.

(** What a pinned read returns that starts in a later state [w1] and is
    interrupted, against the same read of the first state. *)
Lemma irun_pinned others `{!Moves others} client fuel ident a row row' w w1 r w2 w' :
  catalog_inv (db w) -> sorted_ids (db w') -> walk_fuel w' <= fuel ->
  rtc others w w1 -> rtc others w2 w' ->
  table_row_of (db w) ident = Some row -> table_row_of (db w') ident = Some row' ->
  is_ok (parse_table_properties (TableRow.properties row')) = true ->
  as_bytes a ∈ chain (db w) (TableRow.table_uuid row) ->
  irun others (ask_read_table client fuel ident (Some a)) w1 r w2 ->
  follows (db w) (fun v v' => unclosed (TableView.schema v') = unclosed (TableView.schema v))
    (ask_read_table client fuel ident (Some a)) r.
Proof.
  intros Hinv Hs Hf Hr1 Hr2 Hid Hid' Hp Ha Hrun. pose proof (irun_steps others _ _ _ _ Hrun) as Hr12.
  pose proof (steps_inv _ _ _ Hinv Hr1) as Hinv1. pose proof (steps_inv _ _ _ Hinv1 Hr12) as Hinv2.
  pose proof (later_sorted _ _ (steps_later others w2 w' Hinv2 Hs Hr2) Hs) as Hs2.
  pose proof (later_sorted _ _ (steps_later others w1 w2 Hinv1 Hs2 Hr12) Hs2) as Hs1.
  pose proof (later_sorted _ _ (steps_later others w w1 Hinv Hs1 Hr1) Hs1) as Hs0.
  pose proof (steps_seen others w w1 w1 Hinv Hs1 Hr1 (rtc_refl _ _)) as Hseen.
  assert (rtc others w1 w') as Hr1' by by etrans.
  assert (walk_fuel w <= fuel /\ walk_fuel w1 <= fuel) as [Hfw Hfw1].
  { unfold walk_fuel in *. pose proof (later_length _ _ (steps_later others w1 w' Hinv1 Hs Hr1')).
    pose proof (later_length _ _ (steps_later others w w1 Hinv Hs1 Hr1)). lia. }
  pose proof Hid as (Hrow & _)%table_row_of_some.
  destruct (table_uuid_decodes _ _ Hinv Hrow) as [u Hu].
  rewrite Hu in *. destruct (seen_table (db w) row u Hu ident (db w1) Hid Hseen) as (row1 & Hid1 & _).
  destruct (irun_read others client fuel ident (Some a) w1 r w2 Hinv1 Hs2 Hfw1 Hrun) as (r1 & -> & Hr).
  exists r1. split; [done|]. destruct Hr as [?|(r2 & Hans & Hb)]; [by left | right].
  assert (rtc others w w') as Hr0' by by etrans.
  pose proof (parses_before others ident w w' row row' Hinv Hr0' Hid Hid' Hp) as Hp0.
  pose proof (parses_before others ident w1 w' row1 row' Hinv1 Hr1' Hid1 Hid' Hp) as Hp1.
  assert (length (transactions (db w)) < fuel) as Hl0 by (unfold walk_fuel in *; lia).
  assert (length (transactions (db w1)) < fuel) as Hl1 by (unfold walk_fuel in *; lia).
  pose proof (sim_pinned (db w) Hinv Hs0 row u Hrow Hu client fuel ident a (db w1) row1 Hid Hseen Hs1 Hid1 Hp0 Hp1
    Hl0 Hl1 Ha) as Hsim.
  eapply settles_answer in Hsim as (r3 & Hr3 & r0 & Hr0 & Hb'); [|done]. rewrite Hans in Hr3. injection Hr3 as <-.
  exists r0. split; [done|]. destruct r0, r2, r1; try done. cbn in *. by rewrite (snap_schema _ _ Hb).
Qed.

Definition views_delta (a b : TxnId) (es : list TxnEvent.t) (v v' : TableView.t) : TableDelta.t :=
  project_delta_range a b es
    (if bool_decide (Schema.schema_uuid (TableView.schema v) <> Schema.schema_uuid (TableView.schema v'))
     then Some (TableView.schema v') else None)
    (if bool_decide (TableView.properties v <> TableView.properties v') then Some (TableView.properties v') else None).

Lemma same_views_delta a b es es' v v' w w' :
  Forall2 same_event es es' -> unclosed (TableView.schema v') = unclosed (TableView.schema v) ->
  unclosed (TableView.schema w') = unclosed (TableView.schema w) ->
  same_delta (views_delta a b es v w) (views_delta a b es' v' w').
Proof.
  intros Hes Hv Hw. apply project_same; [done|].
  assert (Schema.schema_uuid (TableView.schema v') = Schema.schema_uuid (TableView.schema v)) as -> by by injection Hv.
  assert (Schema.schema_uuid (TableView.schema w') = Schema.schema_uuid (TableView.schema w)) as -> by by injection Hw.
  case_bool_decide; cbn; [by rewrite Hw | done].
Qed.

(** What an interrupted delta returns. *)
Lemma irun_diff others `{!Moves others} client fuel ident a b row row' w r w' :
  catalog_inv (db w) -> sorted_ids (db w') -> walk_fuel w' <= fuel ->
  table_row_of (db w) ident = Some row -> table_row_of (db w') ident = Some row' ->
  is_ok (parse_table_properties (TableRow.properties row')) = true ->
  as_bytes b ∈ chain (db w) (TableRow.table_uuid row) ->
  irun others (ask_diff_table client fuel ident a b) w r w' ->
  follows (db w) same_delta (ask_diff_table client fuel ident a b) r.
Proof.
  intros Hinv Hs Hf Hid Hid' Hp Hb Hrun. pose proof (irun_steps others _ _ _ _ Hrun) as Hw'.
  assert (walk_fuel w <= fuel) as Hfw.
  { unfold walk_fuel in *. pose proof (later_length _ _ (steps_later others w w' Hinv Hs Hw')). lia. }
  unfold ask_diff_table. eapply (follows_bind others); [exact Hrun | |].
  { intros r1 w1 He Hw1. pose proof (irun_steps others _ _ _ _ He) as Hw.
    eapply (irun_list_events others fuel ident _ row w r1 w1); try done.
    apply (later_sorted _ (db w')); [|done]. apply (steps_later others); [by eapply steps_inv | done | done]. }
  intros es es' w1 [Hes Hfrom] Hw1 Hrun1.
  pose proof (fun r w2 Hw2 => irun_pinned others client fuel ident a row row' w w1 r w2 w' Hinv Hs Hf Hw1 Hw2 Hid Hid' Hp
    (Hfrom a eq_refl)) as Ha.
  eapply (follows_bind others); [exact Hrun1 | intros r1 w2 Hr1 Hw2; by apply (Ha r1 w2)|].
  intros v v' w2 Hv Hw2 Hrun2.
  assert (rtc others w w2) as Hw2' by by etrans.
  pose proof (fun r w3 Hw3 => irun_pinned others client fuel ident b row row' w w2 r w3 w' Hinv Hs Hf Hw2' Hw3 Hid Hid' Hp
    Hb) as Hb'.
  eapply (follows_bind others); [exact Hrun2 | intros r1 w3 Hr1 Hw3; by apply (Hb' r1 w3)|].
  intros x x' w3 Hx _ [-> _]. exists (Ok (views_delta a b es' v' x')). split; [done|]. right.
  exists (Ok (views_delta a b es v x)). split; [done|]. by apply same_views_delta.
Qed.

End theorems.

(** C15: the event log is linearizable: interrupted between its statements by any
    calls of others (steps that keep the promises of [Moves]), [list_transaction_events] of a range that ends at a
    transaction of the table returns the events it would have returned at its
    start, but for the order of the files within an event and the marks of
    later commits. *)
Theorem interleaved_events_linearizable `{Env} `{!EnumerationLaws}
    others `{!Moves others} fuel ident cursor row w r w' r0 w0 :
  catalog_inv (db w) -> sorted_ids (db w') -> walk_fuel w <= fuel ->
  table_row_of (db w) ident = Some row ->
  as_bytes (TxnRangeCursor.to_inclusive cursor) ∈ chain (db w) (TableRow.table_uuid row) ->
  irun others (ask_list_transaction_events fuel ident cursor) w r w' ->
  list_transaction_events ident cursor w = Some (r0, w0) ->
  exists r1, r = Some r1 /\ (engine_failed r0 \/ engine_failed r1 \/ both (Forall2 same_event) r0 r1).
Proof.
  intros Hinv Hs Hf Hid Hto Hrun Hseq. eapply follows_denote; [exact (denote_list_events fuel ident cursor w Hf) | exact Hseq |].
  eapply follows_mono; [by eapply irun_list_events|]. by intros es es' [? _].
Qed.

(** C16: a delta is linearizable in its files and its schema: interrupted by any
    calls of others (steps that keep the promises of [Moves]), [diff_table] up to a transaction of the table reports the added and
    the removed files and the new schema it would have reported at its start,
    provided the table's properties still parse at the end. *)
Theorem interleaved_diff_linearizable `{Env} `{!EnumerationLaws}
    others `{!Moves others} client fuel ident a b row row' w r w' r0 w0 :
  catalog_inv (db w) -> sorted_ids (db w') -> walk_fuel w' <= fuel ->
  table_row_of (db w) ident = Some row -> table_row_of (db w') ident = Some row' ->
  is_ok (parse_table_properties (TableRow.properties row')) = true ->
  as_bytes b ∈ chain (db w) (TableRow.table_uuid row) ->
  irun others (ask_diff_table client fuel ident a b) w r w' ->
  diff_table client ident a b w = Some (r0, w0) ->
  exists r1, r = Some r1 /\ (engine_failed r0 \/ engine_failed r1 \/ both same_delta r0 r1).
Proof.
  intros Hinv Hs Hf Hid Hid' Hp Hb Hrun Hseq. pose proof (irun_steps others _ _ _ _ Hrun) as Hw'.
  pose proof (later_length _ _ (steps_later others w w' Hinv Hs Hw')).
  assert (walk_fuel w <= fuel) as Hfw by (unfold walk_fuel in *; lia).
  eapply follows_denote; [exact (denote_diff_table client fuel ident a b w Hfw) | exact Hseq |]. by eapply irun_diff.
Qed.

(** *** The properties of a delta *)

Section properties.
Context `{Env} `{!EnumerationLaws} (others : relation World) `{!Moves others}.

Lemma irun_pure_ok {A B} (r : result CatalogError A) (f : A -> R B) w b w' :
  irun others (pure r ≫= f) w (Some (Ok b)) w' -> exists a, r = Ok a /\ irun others (f a) w (Some (Ok b)) w'.
Proof. destruct r as [a|e]; [by exists a|]. by intros [[=] _]. Qed.

Lemma irun_bind_ok {A B} (m : R A) (f : A -> R B) w b w' :
  irun others (m ≫= f) w (Some (Ok b)) w' ->
  exists a w1, irun others m w (Some (Ok a)) w1 /\ irun others (f a) w1 (Some (Ok b)) w'.
Proof. intros ([[a|e]|] & w1 & Hm & Hf)%irun_bind; [by exists a, w1 | by destruct Hf as [[=] _]..]. Qed.

(** A read shows the properties of the row its first statement finds. *)
Lemma irun_read_properties client fuel ident at_ w v w' :
  catalog_inv (db w) -> irun others (ask_read_table client fuel ident at_) w (Some (Ok v)) w' ->
  exists row, table_row_of (db w) ident = Some row /\
    parse_table_properties (TableRow.properties row) = Ok (TableView.properties v).
Proof.
  intros Hinv (row & w1 & Ht & Hr)%irun_bind_ok. exists row. split.
  - apply irun_bind_ok in Ht as (o & w2 & Ho & Hrow). cbn in Ho. destruct (fault (tick w)); [by destruct Ho as [[=] _]|].
    destruct Ho as (w3 & _ & [= ->] & ->). destruct Hrow as [[= Hrow] ->].
    apply table_row_of_in; [by apply inv_db|].
    destruct (head _) as [row'|] eqn:Eh; [|done]. injection Hrow as <-.
    apply head_Some_elem_of in Eh. by rewrite row_order_perm in Eh.
  - unfold ask_rest in Hr. do 3 (apply irun_pure_ok in Hr as (? & _ & Hr)).
    apply irun_pure_ok in Hr as (props & Hp & Hr). do 2 (apply irun_pure_ok in Hr as (? & _ & Hr)). cbn zeta in Hr.
    do 4 (apply irun_bind_ok in Hr as (? & ? & _ & Hr)). destruct Hr as [[= ->] _]. exact Hp.
Qed.

End properties.

(** C17: the properties of a delta are those of the moments its two reads began,
    whatever transactions it is between.  Interrupted by any calls of others,
    [diff_table] reads the table's row twice, in a state [w1] and in a later
    state [w2]; it reports the properties of the second if they differ from
    those of the first, and no change if they are equal. *)
Theorem interleaved_diff_properties `{Env} `{!EnumerationLaws} others `{!Moves others} client fuel ident a b w x w' :
  catalog_inv (db w) ->
  irun others (ask_diff_table client fuel ident a b) w (Some (Ok x)) w' ->
  exists w1 w2 row1 row2 p1 p2,
    rtc others w w1 /\ rtc others w1 w2 /\ rtc others w2 w' /\
    table_row_of (db w1) ident = Some row1 /\ parse_table_properties (TableRow.properties row1) = Ok p1 /\
    table_row_of (db w2) ident = Some row2 /\ parse_table_properties (TableRow.properties row2) = Ok p2 /\
    TableDelta.new_properties x = if decide (p1 = p2) then None else Some p2.
Proof.
  intros Hinv (es & w1 & H1 & Hr)%irun_bind_ok.
  apply irun_bind_ok in Hr as (v1 & w2 & H2 & Hr). apply irun_bind_ok in Hr as (v2 & w3 & H3 & [[= ->] ->]).
  apply (irun_steps others) in H1 as S1. apply (irun_steps others) in H2 as S2. apply (irun_steps others) in H3 as S3.
  pose proof (steps_inv _ _ _ Hinv S1) as Hinv1. pose proof (steps_inv _ _ _ Hinv1 S2) as Hinv2.
  destruct (irun_read_properties others _ _ _ _ _ _ _ Hinv1 H2) as (row1 & Er1 & Ep1).
  destruct (irun_read_properties others _ _ _ _ _ _ _ Hinv2 H3) as (row2 & Er2 & Ep2).
  exists w1, w2, row1, row2, (TableView.properties v1), (TableView.properties v2). split_and!; try done.
  unfold project_delta_range. destruct (fold_left _ es _). cbn. case_bool_decide; by case_decide.
Qed.

(** ** Witnesses *)

#[local] Existing Instances ref_env ref_ipc_laws ref_json_laws ref_enumeration_laws.

(** The second commit completes while the events up to the first are read. *)
Definition interrupted_events : option (result CatalogError (list TxnEvent.t)) * World :=
  interrupted 2 (commit_call txn2 mutation2)
    (ask_list_transaction_events (walk_fuel world2) events (TxnRangeCursor.mk None txn2)) world2.

Lemma interrupted_events_runs :
  irun (step Limits.Sqlite) (ask_list_transaction_events (walk_fuel world2) events (TxnRangeCursor.mk None txn2)) world2
    interrupted_events.1 interrupted_events.2.
Proof. apply irun_interrupted, commit_call_step. Qed.

Lemma interrupted_events_sorted : sorted_ids (db interrupted_events.2).
Proof.
  apply (ref_sorted world2); [apply world2_reachable | | vm_compute; reflexivity].
  exact (irun_steps (step Limits.Sqlite) _ _ _ _ interrupted_events_runs).
Qed.

(** Another commit of properties, while a delta of [world3] is computed. *)
Definition properties3 : TableProperties.t :=
  TableProperties.insert TableProperties.new "owner" (Str "nobody").

Definition mutation3 : Mutation.t := Mutation.mk [SetProperties properties3].

Definition diff_fuel : nat := S (walk_fuel world3).

Definition interrupted_diff : option (result CatalogError TableDelta.t) * World :=
  interrupted 6 (commit_call txn3 mutation3) (ask_diff_table client diff_fuel events txn1 txn2) world3.

Lemma interrupted_diff_runs :
  irun (step Limits.Sqlite) (ask_diff_table client diff_fuel events txn1 txn2) world3
    interrupted_diff.1 interrupted_diff.2.
Proof. apply irun_interrupted, commit_call_step. Qed.

Lemma interrupted_diff_sorted : sorted_ids (db interrupted_diff.2).
Proof.
  apply (ref_sorted world3); [apply scenario_reachable | | vm_compute; reflexivity].
  exact (irun_steps (step Limits.Sqlite) _ _ _ _ interrupted_diff_runs).
Qed.

(** The delta of [txn1] to [txn2], alone and while a commit after [txn2] sets
    properties between the two reads of the table's row: alone it reports no
    change of properties, interrupted it reports that commit's. *)
Lemma undisturbed_properties : exists x w0, diff_table client events txn1 txn2 world3 = Some (Ok x, w0) /\
  TableDelta.new_properties x = None.
Proof.
  destruct (diff_table client events txn1 txn2 world3) as [[[x|e] w0]|] eqn:E; vm_compute in E; try discriminate E.
  exists x, w0. split; [done|]. injection E as <- <-. reflexivity.
Qed.

Lemma interleaved_diff_properties_witness :
  exists x w' w1 w2 row2, irun (step Limits.Sqlite) (ask_diff_table client diff_fuel events txn1 txn2) world3 (Some (Ok x)) w' /\
    rtc (step Limits.Sqlite) world3 w1 /\ rtc (step Limits.Sqlite) w1 w2 /\ table_row_of (db w2) events = Some row2 /\
    parse_table_properties (TableRow.properties row2) = Ok properties3 /\
    TableDelta.new_properties x = Some properties3.
Proof.
  destruct interrupted_diff.1 as [[x|e]|] eqn:E; [|vm_compute in E; discriminate E..].
  assert (TableDelta.new_properties x = Some properties3) as Hx by (vm_compute in E; injection E as <-; vm_compute; reflexivity).
  pose proof interrupted_diff_runs as Hrun. rewrite E in Hrun.
  destruct (interleaved_diff_properties (step Limits.Sqlite) client diff_fuel events txn1 txn2 world3 x
    interrupted_diff.2 world3_inv Hrun) as (w1 & w2 & row1 & row2 & p1 & p2 & S1 & S2 & _ & _ & _ & Er2 & Ep2 & Hp).
  exists x, interrupted_diff.2, w1, w2, row2. split; [exact Hrun|]. split; [exact S1|]. split; [exact S2|].
  split; [exact Er2|]. split; [|exact Hx]. rewrite Ep2. rewrite Hx in Hp.
  destruct (decide (p1 = p2)); [discriminate Hp|]. injection Hp as <-. reflexivity.
Defined.

Lemma interleaved_events_linearizable_witness :
  exists w' es, irun (step Limits.Sqlite) (ask_list_transaction_events (walk_fuel world2) events (TxnRangeCursor.mk None txn2))
      world2 (Some (Ok es)) w' /\
    length (transactions (db w')) = 3 /\ as_bytes ∘ TxnEvent.transaction_id <$> es = as_bytes <$> [txn1; txn2].
Proof.
  destruct (list_transaction_events events (TxnRangeCursor.mk None txn2) world2) as [[r0 w0]|] eqn:E;
    [|vm_compute in E; discriminate E].
  assert (exists es0, r0 = Ok es0 /\ as_bytes ∘ TxnEvent.transaction_id <$> es0 = as_bytes <$> [txn1; txn2]) as (es0 & Ev & Hes).
  { vm_compute in E. injection E as <- _. eexists. split; [reflexivity|]. vm_compute. reflexivity. }
  destruct (table_row_of (db world2) events) as [row|] eqn:Erow; [|vm_compute in Erow; discriminate Erow].
  assert (as_bytes txn2 ∈ chain (db world2) (TableRow.table_uuid row)) as Hin.
  { vm_compute in Erow. injection Erow as <-. apply list_elem_of_In. vm_compute. right. left. reflexivity. }
  destruct (interleaved_events_linearizable (step Limits.Sqlite) (walk_fuel world2) events (TxnRangeCursor.mk None txn2) row
    world2 _ _ r0 w0 world2_inv interrupted_events_sorted (le_n _) Erow Hin interrupted_events_runs E)
    as (r1 & Er & [[c Hc]|[[c Hc]|Hboth]]).
  - exfalso. rewrite Ev in Hc. discriminate Hc.
  - exfalso. rewrite Hc in Er. vm_compute in Er. discriminate Er.
  - rewrite Ev in Hboth. destruct r1 as [es|e]; [|destruct Hboth].
    exists interrupted_events.2, es. split; [rewrite <- Er; exact interrupted_events_runs|].
    split; [vm_compute; reflexivity|]. rewrite <- Hes. clear -Hboth. cbn in Hboth.
    induction Hboth as [|x y l k Hxy _ IH]; [reflexivity|]. cbn. rewrite (event_transaction _ _ Hxy). f_equal. exact IH.
Defined.

Lemma interleaved_diff_linearizable_witness :
  exists w' x, irun (step Limits.Sqlite) (ask_diff_table client diff_fuel events txn1 txn2) world3 (Some (Ok x)) w' /\
    length (transactions (db w')) = 4 /\ length (TableDelta.added_files x) = 2.
Proof.
  destruct (diff_table client events txn1 txn2 world3) as [[r0 w0]|] eqn:E; [|vm_compute in E; discriminate E].
  assert (exists x0, r0 = Ok x0 /\ length (TableDelta.added_files x0) = 2) as (x0 & Ev & Hx).
  { vm_compute in E. injection E as <- _. eexists. split; [reflexivity|]. vm_compute. reflexivity. }
  destruct (table_row_of (db world3) events) as [row|] eqn:Erow; [|vm_compute in Erow; discriminate Erow].
  destruct (table_row_of (db interrupted_diff.2) events) as [row'|] eqn:Erow'; [|vm_compute in Erow'; discriminate Erow'].
  assert (as_bytes txn2 ∈ chain (db world3) (TableRow.table_uuid row)) as Hin.
  { vm_compute in Erow. injection Erow as <-. apply list_elem_of_In. vm_compute. right. left. reflexivity. }
  assert (is_ok (parse_table_properties (TableRow.properties row')) = true) as Hp.
  { vm_compute in Erow'. injection Erow' as <-. vm_compute. reflexivity. }
  assert (walk_fuel interrupted_diff.2 <= diff_fuel) as Hf by (apply Nat.leb_le; vm_compute; reflexivity).
  destruct (interleaved_diff_linearizable (step Limits.Sqlite) client diff_fuel events txn1 txn2 row row' world3 _ _ r0 w0
    world3_inv interrupted_diff_sorted Hf Erow Erow' Hp Hin interrupted_diff_runs E)
    as (r1 & Er & [[c Hc]|[[c Hc]|Hboth]]).
  - exfalso. rewrite Ev in Hc. discriminate Hc.
  - exfalso. rewrite Hc in Er. vm_compute in Er. discriminate Er.
  - rewrite Ev in Hboth. destruct r1 as [x|e]; [|destruct Hboth].
    exists interrupted_diff.2, x. split; [rewrite <- Er; exact interrupted_diff_runs|].
    split; [vm_compute; reflexivity|]. rewrite <- Hx, <- (length_fmap unremoved (TableDelta.added_files x)),
      (delta_added _ _ Hboth). apply length_fmap.
Defined.
