(* ===== verification/Progress.v ===== *)
(** * A valid commit on the current transaction succeeds

    The other files say what a commit does when it succeeds; here is when it
    must.  If the base is the table's current transaction, the client's
    protocol version is high enough, each operation can be carried out — its
    limits, its validation, its schema evolution — and the generators give
    fresh identifiers, then no check, no constraint and no statement stands in
    the way, whatever the sizes of the batches. *)

From S2P Require Import Prelude Uuid Error Limits Json DataType Format Schema Models Db DbFacts World Helpers Catalog Api Effects ReadFacts Invariant RefEnv Scenario Safety Commit Order Views Evolution.

(** ** Runs that must succeed

    [sure m Q w]: started in [w], [m] succeeds with [Q], unless it draws
    identifiers beyond [limit]. *)

Section sure.
Context `{Env} (limit : nat) `{!MonotoneV7 limit}.

Definition sure {A} (m : M A) (Q : A -> World -> Prop) (w : World) : Prop :=
  forall r w', m w = Some (r, w') -> tick w' <= limit -> exists a, r = Ok a /\ Q a w'.

Lemma sure_mono {A} (m : M A) (P Q : A -> World -> Prop) w :
  sure m P w -> (forall a w', P a w' -> Q a w') -> sure m Q w.
Proof. intros Hm HPQ r w' E Ht. destruct (Hm r w' E Ht) as (a & -> & HP). eauto. Qed.

Lemma sure_bind {A B} (m : M A) (f : A -> M B) Q w :
  (forall a, Keeps limit (f a)) -> sure m (fun a w' => sure (f a) Q w') w -> sure (m ≫= f) Q w.
Proof.
  intros Hk Hm r w' E Ht. unfold mbind, M_bind in E.
  destruct (m w) as [[[a|e] w1]|] eqn:E1; [| |done].
  - destruct (Hk a _ _ _ E) as [Hle _]. destruct (Hm _ _ E1 ltac:(lia)) as (a' & [= <-] & Hf).
    by apply Hf.
  - injection E as <- <-. by destruct (Hm _ _ E1 Ht) as (a & ? & _).
Qed.

Lemma sure_ret {A} (a : A) (Q : A -> World -> Prop) w : Q a w -> sure (mret a) Q w.
Proof. intros HQ r w' [= <- <-] _. eauto. Qed.

Lemma sure_lift {A} (r : result CatalogError A) a (Q : A -> World -> Prop) w :
  r = Ok a -> Q a w -> sure (lift r) Q w.
Proof. intros -> HQ r' w' [= <- <-] _. eauto. Qed.

Lemma sure_v4 (Q : Uuid -> World -> Prop) w :
  (tick w < limit -> Q (gen_v4 (tick w)) (bump w)) -> sure new_v4 Q w.
Proof. intros HQ r w' [= <- <-] Ht. cbn in Ht. eauto. Qed.

Lemma sure_now (Q : DateTime -> World -> Prop) w :
  Q (clock (tick w)) (bump w) -> sure utc_now Q w.
Proof. intros HQ r w' [= <- <-] _. eauto. Qed.

Lemma sure_v7 (Q : TxnId -> World -> Prop) w :
  (tick w < limit -> Q (gen_v7 (tick w)) (bump w)) -> sure next_transaction_id Q w.
Proof. intros HQ r w' [= <- <-] Ht. cbn in Ht. eauto. Qed.

Context (Hnf : no_faults).

Lemma sure_fetch {A} (q : Db -> A) (Q : A -> World -> Prop) w :
  Q (q (db w)) (bump w) -> sure (fetch q) Q w.
Proof. intros HQ r w'. unfold fetch. rewrite Hnf. intros [= <- <-] _. eauto. Qed.

Lemma sure_execute_ (f : Db -> result SqlxError Db) d (Q : unit -> World -> Prop) w :
  f (db w) = Ok d -> Q tt (mk_world d (S (tick w))) -> sure (execute_ f) Q w.
Proof.
  intros Hf HQ r w'. unfold execute_, execute. rewrite Hnf, Hf. cbn. intros [= <- <-] _. eauto.
Qed.

Lemma sure_for_each {A} (I : list A -> World -> Prop) (l : list A) (body : A -> M unit) Q w :
  (forall x, Keeps limit (body x)) -> I l w ->
  (forall x l' w', I (x :: l') w' -> sure (body x) (fun _ => I l') w') ->
  (forall w', I [] w' -> Q tt w') -> sure (for_each l body) Q w.
Proof.
  intros Hk HI Hb HQ. revert w HI; induction l as [|x l IH]; intros w HI; cbn; [by apply sure_ret, HQ|].
  apply sure_bind; [apply _|]. eapply sure_mono; [by apply Hb|]. intros ? w' HI'. by apply IH.
Qed.

Lemma sure_okp {A} (m : M A) (P Q : A -> World -> Prop) w :
  okp m P w -> sure m Q w -> sure m (fun a w' => P a w' /\ Q a w') w.
Proof.
  intros Hp Hq r w' E Ht. destruct (Hq r w' E Ht) as (a & -> & HQ). exists a. split; [done|].
  split; [exact (okp_elim _ _ _ _ _ Hp E) | done].
Qed.

Lemma sure_with_tx {A} (body : M A) (Q : A -> World -> Prop) w :
  (forall w', tick w' <= limit -> forall a n, Q a w' -> Q a (mk_world (db w') n)) ->
  sure body Q (bump w) -> sure (with_tx body) Q w.
Proof.
  intros HQ Hb r w'. unfold with_tx. rewrite Hnf.
  destruct (body (bump w)) as [[[a|e] w1]|] eqn:E; [| |done].
  - rewrite Hnf. intros [= <- <-] Ht. cbn in Ht. destruct (Hb _ _ E ltac:(lia)) as (a' & [= <-] & Hq).
    exists a. split; [done|]. apply (HQ w1); [lia | done].
  - intros [= <- <-] Ht. cbn in Ht. by destruct (Hb _ _ E Ht) as (a' & ? & _).
Qed.

(** ** Identifiers

    [ready n ex keys]: the keys are distinct, and neither the identifiers of
    [ex], which are still to be inserted, nor any the generator draws from [n]
    on are among them. *)

Record ready (n : nat) (ex : list Uuid) (keys : list Blob) : Prop := {
  ready_keys : NoDup keys;
  ready_given : NoDup ex;
  ready_new u : u ∈ ex -> as_bytes u ∉ keys;
  ready_drawn k : n <= k -> k < limit -> as_bytes (gen_v4 k) ∉ keys /\ gen_v4 k ∉ ex
}.

Lemma ready_later n n' ex keys : ready n ex keys -> n <= n' -> ready n' ex keys.
Proof. intros [? ? ? Hd] Hn. split; [done..|]. intros k Hk. apply Hd. lia. Qed.

(** A given identifier is used. *)
Lemma ready_use n u ex keys : ready n (u :: ex) keys -> ready n ex (keys ++ [as_bytes u]).
Proof.
  intros [Hk Hg Hn Hd]. apply NoDup_cons in Hg as [Hu Hg]. split; [|done| |].
  - apply nodup_snoc. split; [done | apply Hn; left].
  - intros v Hv. rewrite elem_of_app, list_elem_of_singleton. intros [Hv'|Hv'%(inj as_bytes)]; [|congruence].
    apply (Hn v); [by right | done].
  - intros k H1 H2. destruct (Hd k H1 H2) as [Ha Hb]. rewrite elem_of_app, list_elem_of_singleton. split.
    + intros [?|Hx%(inj as_bytes)]; [done|]. apply Hb. rewrite Hx. left.
    + intros ?. apply Hb. by right.
Qed.

Context (Hdistinct : forall j k, j < limit -> k < limit -> gen_v4 j = gen_v4 k -> j = k).

(** One is drawn. *)
Lemma ready_draw n ex keys :
  n < limit -> ready n ex keys -> ready (S n) ex (keys ++ [as_bytes (gen_v4 n)]).
Proof.
  intros Hlt [Hk Hg Hn Hd]. destruct (Hd n ltac:(lia) Hlt) as [Hf Hx]. split; [| done | |].
  - by apply nodup_snoc.
  - intros v Hv. rewrite elem_of_app, list_elem_of_singleton. intros [?|?%(inj as_bytes)]; [|congruence].
    by apply (Hn v).
  - intros k H1 H2. destruct (Hd k ltac:(lia) H2) as [Ha Hb]. split; [|done].
    rewrite elem_of_app, list_elem_of_singleton. intros [?|He%(inj as_bytes)]; [done|].
    apply Hdistinct in He; lia.
Qed.

(** The rows of a batch. *)
Lemma sure_rows {X R} (row : X -> M R) (key : R -> Blob) (ids : X -> list Uuid) (P : X -> R -> Prop)
    (l : list X) ex keys w :
  (forall x, Keeps limit (row x)) ->
  (forall x ex keys w', x ∈ l -> ready (tick w') (ids x ++ ex) keys ->
     sure (row x) (fun r w'' => db w'' = db w' /\ tick w' <= tick w'' /\ P x r /\
       ready (tick w'') ex (keys ++ [key r])) w') ->
  ready (tick w) (concat (ids <$> l) ++ ex) keys ->
  sure (map_m row l) (fun rows w' => db w' = db w /\ tick w <= tick w' /\ Forall2 P l rows /\
    ready (tick w') ex (keys ++ (key <$> rows))) w.
Proof.
  intros Hk Hrow. revert keys w; induction l as [|x l IH]; intros keys w Hr; cbn in *.
  { apply sure_ret. rewrite app_nil_r. split_and!; [done | done | constructor | done]. }
  rewrite <- app_assoc in Hr. apply sure_bind; [keeps_go|].
  eapply sure_mono; [apply Hrow; [left | exact Hr]|]. intros r w1 (E1 & Ht1 & HP & Hr1). apply sure_bind; [keeps_go|].
  eapply sure_mono; [apply IH; [|exact Hr1]|].
  { intros y ex' keys' w' Hy. apply Hrow. by right. }
  intros rows w2 (E2 & Ht2 & HPs & Hr2). apply sure_ret. split_and!; [congruence | lia | by constructor |].
  cbn. by rewrite <- app_assoc in Hr2.
Qed.

End sure.

(** The first effect of a sequence. *)
Ltac sure_step := apply sure_bind; [intros ?; keeps_go|].

(** ** Batches *)

Notation file_keys d := (FileRow.file_uuid <$> files d).
Notation column_keys d := (ColumnRow.column_uuid <$> columns d).

Lemma insert_files_enabled rows d :
  NoDup (file_keys d ++ (FileRow.file_uuid <$> rows)) ->
  Forall (fun r => FileRow.table_uuid r ∈ table_keys d /\ FileRow.added_in_transaction_id r ∈ txn_keys d /\
    FileRow.removed_in_transaction_id r = None) rows ->
  insert_rows insert_file rows d = Ok (mk_db (tables d) (transactions d) (schemas d) (columns d)
    (files d ++ rows) (table_stats d)).
Proof.
  revert d; induction rows as [|r rows IH]; intros d Hn Hf; cbn.
  - rewrite app_nil_r. by destruct d.
  - apply Forall_cons in Hf as [(Ht & Ha & Hr) Hf].
    pose proof Hn as (_ & Hx & _)%NoDup_app.
    assert (insert_file r d = Ok (mk_db (tables d) (transactions d) (schemas d) (columns d) (files d ++ [r])
      (table_stats d))) as ->.
    { apply insert_file_ok. rewrite Hr. split_and!; [intros Hin; apply (Hx _ Hin); left | done..]. }
    cbn. rewrite IH; cbn; [by rewrite <- app_assoc | | done]. rewrite fmap_app. cbn. by rewrite <- app_assoc.
Qed.

Lemma insert_columns_enabled rows d :
  NoDup (column_keys d ++ (ColumnRow.column_uuid <$> rows)) ->
  NoDup (column_names d ++ ((fun r => (ColumnRow.schema_uuid r, ColumnRow.column_name r)) <$> rows)) ->
  Forall (fun r => ColumnRow.schema_uuid r ∈ schema_keys d) rows ->
  insert_rows insert_column rows d = Ok (mk_db (tables d) (transactions d) (schemas d) (columns d ++ rows)
    (files d) (table_stats d)).
Proof.
  revert d; induction rows as [|r rows IH]; intros d Hn Hm Hf; cbn.
  - rewrite app_nil_r. by destruct d.
  - apply Forall_cons in Hf as [Hs Hf].
    pose proof Hn as (_ & Hx & _)%NoDup_app. pose proof Hm as (_ & Hy & _)%NoDup_app.
    assert (insert_column r d = Ok (mk_db (tables d) (transactions d) (schemas d) (columns d ++ [r]) (files d)
      (table_stats d))) as ->.
    { apply insert_column_ok. split_and!; [intros Hin; apply (Hx _ Hin); left |
        intros Hin; apply (Hy _ Hin); left | done..]. }
    cbn. rewrite IH; cbn; [by rewrite <- app_assoc | | | done]; rewrite fmap_app; cbn; by rewrite <- app_assoc.
Qed.

Lemma concat_fmap_concat {A B} (f : A -> list B) (ls : list (list A)) :
  concat (f <$> concat ls) = concat ((fun l => concat (f <$> l)) <$> ls).
Proof. induction ls as [|l ls IH]; cbn; [done|]. by rewrite fmap_app, concat_app, IH. Qed.

Lemma snd_imap_pair {A} (l : list A) : snd <$> imap pair l = l.
Proof.
  rewrite fmap_imap. transitivity (id <$> l); [|apply list_fmap_id]. apply (imap_const id).
Qed.

(** ** Operations that can be carried out *)

Definition given (f : FileSpec.t) : list Uuid := option_list (FileSpec.file_uuid f).

Definition given_in (op : MutationOp) : list Uuid :=
  match op with AppendFiles fs => concat (given <$> fs) | _ => [] end.

Definition enabled_file `{Env} (f : FileSpec.t) : Prop :=
  FileSpec.validate f = Ok tt /\
  is_ok (serialize_json_optional (FileSpec.partition_values f)) = true /\
  is_ok (serialize_json_optional (FileSpec.format_options f)) = true.

Definition enabled_op `{Env} (d : Db) (cur : option Uuid) (op : MutationOp) : Prop :=
  match op with
  | AppendFiles fs =>
      (as_u32 (length fs) <= limits.MAX_FILES_PER_APPEND)%N /\ Forall enabled_file fs
  | DeleteFiles us => (as_u32 (length us) <= limits.MAX_FILES_PER_DELETE)%N
  | UpdateSchema spec =>
      SchemaSpec.validate spec = Ok tt /\
      Forall (fun c => is_ok (encode_data_type (ColumnSpec.column_type c)) = true) (SchemaSpec.columns spec) /\
      exists old cols, cur = Some old /\ columns_of d old = Ok cols /\
        evolves (column_map cols) (SchemaSpec.columns spec)
  | SetProperties _ => True
  | RemoveProperties keys => is_ok (remove_properties TableProperties.new keys) = true
  end.

(** The properties after an operation. *)
Definition next_properties (p : TableProperties.t) (op : MutationOp) : TableProperties.t :=
  match op with
  | SetProperties q => q
  | RemoveProperties keys =>
      fold_left (fun p key => TableProperties.remove p (PropertyKey.as_str key)) keys p
  | _ => p
  end.

Section ops.
Context `{Env} (limit : nat) `{!MonotoneV7 limit} (Hnf : no_faults).
Context (Hdistinct : forall j k, j < limit -> k < limit -> gen_v4 j = gen_v4 k -> j = k).
Notation sure := (sure limit).
Notation ready := (ready limit).

(** Only the files differ. *)
Definition same_but_files (d d' : Db) : Prop :=
  tables d' = tables d /\ transactions d' = transactions d /\ schemas d' = schemas d /\ columns d' = columns d.

Lemma sure_file_row u t f ex keys w :
  enabled_file f -> ready (tick w) (given f ++ ex) keys ->
  sure (file_row u t f) (fun r w' => db w' = db w /\ tick w <= tick w' /\
    (FileRow.table_uuid r = as_bytes u /\ FileRow.added_in_transaction_id r = as_bytes t /\
     FileRow.removed_in_transaction_id r = None) /\
    ready (tick w') ex (keys ++ [FileRow.file_uuid r])) w.
Proof.
  intros (Hv & Hp & Hf) Hr. unfold file_row. sure_step. eapply sure_lift; [exact Hv|].
  destruct (serialize_json_optional (FileSpec.partition_values f)) as [pt|] eqn:Ep; [|done].
  destruct (serialize_json_optional (FileSpec.format_options f)) as [ft|] eqn:Ef; [|done].
  sure_step. unfold given in Hr. destruct (FileSpec.file_uuid f) as [x|]; cbn in Hr.
  - apply sure_ret. do 2 (sure_step; eapply sure_lift; [done|]). apply sure_ret.
    split_and!; [done..|]. by apply ready_use.
  - apply sure_v4. intros Ht. do 2 (sure_step; eapply sure_lift; [done|]). apply sure_ret.
    split_and!; [done | cbn; lia | done..|]. by apply ready_draw.
Qed.

Lemma sure_append_files u t fs ex w :
  (as_u32 (length fs) <= limits.MAX_FILES_PER_APPEND)%N -> Forall enabled_file fs ->
  as_bytes u ∈ table_keys (db w) -> as_bytes t ∈ txn_keys (db w) ->
  ready (tick w) (concat (given <$> fs) ++ ex) (file_keys (db w)) ->
  sure (append_files u t fs) (fun _ w' => same_but_files (db w) (db w') /\ tick w <= tick w' /\
    ready (tick w') ex (file_keys (db w'))) w.
Proof.
  intros Hl Hen Hu Ht Hr. unfold append_files. sure_step.
  eapply sure_lift; [by rewrite (proj2 (N.ltb_ge _ _))|].
  apply (sure_for_each _ (fun rest w' => same_but_files (db w) (db w') /\ tick w <= tick w' /\
    Forall (Forall enabled_file) rest /\
    ready (tick w') (concat ((fun l => concat (given <$> l)) <$> rest) ++ ex) (file_keys (db w')))).
  - intros l. keeps_go.
  - pose proof (chunks_concat files_chunk fs files_chunk_pos) as Hc.
    split_and!; [done | done | |].
    + apply Forall_concat. by rewrite Hc.
    + by rewrite <- concat_fmap_concat, Hc.
  - intros c rest w' (Hs & Hw & Hen' & Hr'). apply Forall_cons in Hen' as [Hc Hen'].
    cbn in Hr'. rewrite <- app_assoc in Hr'. sure_step.
    eapply sure_mono.
    { eapply (sure_rows limit (file_row u t) FileRow.file_uuid given (fun _ r =>
        FileRow.table_uuid r = as_bytes u /\ FileRow.added_in_transaction_id r = as_bytes t /\
        FileRow.removed_in_transaction_id r = None)); [intros; keeps_go | | exact Hr'].
      intros f ex' keys w1 Hin Hr1. rewrite Forall_forall in Hc. by apply sure_file_row; [apply Hc|]. }
    intros rows w1 (E1 & Hw1 & HP & Hr1). destruct Hs as (S1 & S2 & S3 & S4).
    eapply sure_execute_; [done | apply insert_files_enabled |].
    + rewrite E1. by apply (ready_keys _ _ _ _ Hr1).
    + apply Forall_forall. intros r (i & Hi)%list_elem_of_lookup.
      destruct (Forall2_lookup_r _ _ _ _ _ HP Hi) as (f & _ & -> & -> & ->). rewrite E1, S1, S2. done.
    + cbn. rewrite E1. split_and!; [by repeat split | lia | done |]. rewrite fmap_app.
      eapply ready_later; [exact Hr1 | lia].
  - intros w' (Hs & Hw & _ & Hr'). done.
Qed.

Lemma sure_delete_files u t us w :
  (as_u32 (length us) <= limits.MAX_FILES_PER_DELETE)%N -> as_bytes t ∈ txn_keys (db w) ->
  sure (delete_files u t us) (fun _ w' => same_but_files (db w) (db w') /\ tick w <= tick w' /\
    file_keys (db w') = file_keys (db w)) w.
Proof.
  intros Hl Ht. unfold delete_files. sure_step.
  eapply sure_lift; [by rewrite (proj2 (N.ltb_ge _ _))|].
  apply (sure_for_each _ (fun _ w' => same_but_files (db w) (db w') /\ tick w <= tick w' /\
    file_keys (db w') = file_keys (db w))).
  - intros l. keeps_go.
  - done.
  - intros c _ w' ((S1 & S2 & S3 & S4) & Hw & Hk). eapply sure_execute_; [done| |].
    + apply update_files_removed_ok. split; [intros _; by rewrite S2 | reflexivity].
    + cbn. split_and!; [by repeat split | lia |]. rewrite <- Hk.
      apply fmap_keep. intros r. apply mark_removed_uuid.
  - done.
Qed.

(** The names of a schema's columns, as keys. *)
Notation named_in s cs := ((fun c => (as_bytes s, ColumnSpec.name c)) <$> cs).

#[local] Instance keeps_column_row s n ci p : Keeps limit (column_row s n ci p).
Proof. unfold column_row. destruct p. keeps_go. Qed.

Lemma sure_column_row s n ci p ex keys w :
  is_ok (encode_data_type (ColumnSpec.column_type p.2)) = true -> ready (tick w) ex keys ->
  sure (column_row s n ci p) (fun r w' => db w' = db w /\ tick w <= tick w' /\
    (ColumnRow.schema_uuid r = as_bytes s /\ ColumnRow.column_name r = ColumnSpec.name p.2) /\
    ready (tick w') ex (keys ++ [ColumnRow.column_uuid r])) w.
Proof.
  destruct p as [i c]. cbn. intros He Hr.
  destruct (encode_data_type (ColumnSpec.column_type c)) as [e|] eqn:Ee; [|done].
  sure_step. eapply sure_lift; [done|]. sure_step. apply sure_v4. intros Ht. apply sure_ret.
  split_and!; [done | cbn; lia | done | done |]. by apply ready_draw.
Qed.

Lemma sure_insert_columns kind s cs w :
  Forall (fun c => is_ok (encode_data_type (ColumnSpec.column_type c)) = true) cs ->
  as_bytes s ∈ schema_keys (db w) -> NoDup (column_names (db w) ++ named_in s cs) ->
  ready (tick w) [] (column_keys (db w)) ->
  sure (insert_columns kind s cs) (fun _ w' => (schemas (db w') = schemas (db w) /\ files (db w') = files (db w)) /\
    tick w <= tick w' /\ ready (tick w') [] (column_keys (db w'))) w.
Proof.
  intros Hen Hs Hn Hr. unfold insert_columns.
  apply (sure_for_each _ (fun rest w' =>
    (schemas (db w') = schemas (db w) /\ files (db w') = files (db w)) /\ tick w <= tick w' /\
    Forall (Forall (fun c => is_ok (encode_data_type (ColumnSpec.column_type c)) = true)) (snd <$> rest) /\
    NoDup (column_names (db w') ++ named_in s (concat (snd <$> rest))) /\
    ready (tick w') [] (column_keys (db w')))).
  - intros [ci c]. keeps_go.
  - rewrite snd_imap_pair. pose proof (chunks_concat (columns_chunk kind) cs (columns_chunk_pos kind)) as Hc.
    split_and!; [done | done | done | apply Forall_concat; by rewrite Hc | by rewrite Hc | done].
  - intros [ci c] rest w' ([Es Ef] & Hw & Hen' & Hn' & Hr'). cbn in Hen', Hn'.
    apply Forall_cons in Hen' as [Hc Hen']. sure_step. eapply sure_mono.
    { eapply (sure_rows limit (column_row s (columns_chunk kind) ci) ColumnRow.column_uuid (fun _ => [])
        (fun p r => ColumnRow.schema_uuid r = as_bytes s /\ ColumnRow.column_name r = ColumnSpec.name p.2)
        (imap pair c) [] (column_keys (db w'))); [intros []; keeps_go | |].
      - intros p ex keys w1 Hin Hr1. apply sure_column_row; [|exact Hr1]. rewrite Forall_forall in Hc.
        apply (Hc p.2). rewrite <- (snd_imap_pair c). by apply list_elem_of_fmap_2.
      - rewrite app_nil_r. by assert (concat ((fun _ => []) <$> imap pair c) = ([] : list Uuid)) as ->
          by (induction (imap pair c); cbn; done). }
    intros rows w1 (E1 & Hw1 & HP & Hr1).
    assert ((fun r => (ColumnRow.schema_uuid r, ColumnRow.column_name r)) <$> rows = named_in s c) as En.
    { rewrite <- (snd_imap_pair c), <- list_fmap_compose. clear -HP.
      induction HP as [|p r ps rows [E1 E2] _ IH]; cbn; [done|]. by rewrite E1, E2, IH. }
    rewrite fmap_app, app_assoc in Hn'. eapply sure_execute_; [done | apply insert_columns_enabled |].
    + rewrite E1. apply (ready_keys _ _ _ _ Hr1).
    + rewrite E1, En. by apply NoDup_app in Hn' as [? _].
    + apply Forall_forall. intros r (i & Hi)%list_elem_of_lookup.
      destruct (Forall2_lookup_r _ _ _ _ _ HP Hi) as (p & _ & -> & _). by rewrite E1, Es.
    + cbn. rewrite E1. split_and!; [done | done | lia | done | by rewrite fmap_app, En |]. rewrite fmap_app.
      eapply ready_later; [exact Hr1 | lia].
  - done || (intros w' (Es & Hw & _ & _ & Hr'); done).
Qed.

Context `{!EnumerationLaws}.

Lemma sure_fetch_one {T} (q : Db -> list T) (Q : T -> World -> Prop) w :
  q (db w) <> [] -> (forall x, x ∈ q (db w) -> Q x (bump w)) -> sure (fetch_one q) Q w.
Proof.
  intros Hne HQ. unfold fetch_one, fetch_optional. sure_step. apply sure_fetch; [done|].
  destruct (row_order (q (db w))) as [|x l] eqn:E.
  - apply (f_equal length) in E. rewrite row_order_perm in E. by apply nil_length_inv in E.
  - eapply sure_lift; [done|]. apply HQ. rewrite <- row_order_perm, E. left.
Qed.

Lemma validated_names spec :
  SchemaSpec.validate spec = Ok tt -> NoDup (ColumnSpec.name <$> SchemaSpec.columns spec).
Proof.
  unfold SchemaSpec.validate. destruct (SchemaSpec.columns spec) as [|c cs]; [done|].
  destruct (_ <? _)%N; [done|]. by intros (_ & ? & _)%validate_columns_spec.
Qed.

(** The state in the middle of a commit of transaction [t] to table [u]. *)
Record going (u t : Uuid) (cur : option Uuid) (d0 : Db) (ex : list Uuid) (w : World) : Prop := {
  go_ok : db_ok (db w);
  go_table : as_bytes u ∈ table_keys (db w);
  go_txn : as_bytes t ∈ txn_keys (db w);
  go_cur old : cur = Some old -> as_bytes old ∈ schema_keys (db w) /\
    select_columns (as_bytes old) (db w) = select_columns (as_bytes old) d0;
  go_files : ready (tick w) ex (file_keys (db w));
  go_columns : ready (tick w) [] (column_keys (db w));
  go_schemas : ready (tick w) [] (schema_keys (db w))
}.

Lemma sure_update_schema kind u t ts cur spec d0 ex w :
  going u t cur d0 ex w -> enabled_op d0 cur (UpdateSchema spec) ->
  sure (update_schema kind u t ts cur spec) (fun _ w' => tick w <= tick w' /\
    files (db w') = files (db w) /\ ready (tick w') [] (column_keys (db w')) /\ ready (tick w') [] (schema_keys (db w'))) w.
Proof.
  intros [Hok Hu Ht Hcur _ Hrc Hrs] (Hv & Henc & old & cols & -> & Hcols & Hev).
  destruct (Hcur old eq_refl) as [Hold Esel].
  unfold update_schema. sure_step. eapply sure_lift; [exact Hv|]. sure_step. eapply sure_lift; [done|].
  sure_step. apply sure_fetch_one.
  { apply list_elem_of_fmap in Hold as (r & -> & Hr). apply (elem_of_not_nil r), elem_of_filter'.
    split; [done | by apply bool_decide_eq_true_2]. }
  intros old_row Hor. sure_step. apply sure_fetch; [done|]. sure_step. cbn [db bump]. rewrite Esel.
  destruct (traverse_perm current_column (select_columns (as_bytes old) d0)
    (row_order (select_columns (as_bytes old) d0)) cols) as (cols' & Hcols' & Hp);
    [symmetry; apply row_order_perm | exact Hcols |].
  eapply sure_lift; [exact Hcols'|]. sure_step. eapply (sure_lift _ _ tt).
  { apply check_evolution_ok. rewrite (column_map_perm cols' cols); [done | | done].
    rewrite <- Hp, (columns_of_names d0 old) by done. rewrite <- Esel.
    apply select_columns_nodup, (ok_column_name _ Hok). }
  sure_step. apply sure_v4. intros Hlt. cbn [tick bump] in Hlt |- *. sure_step.
  pose proof (ready_draw limit Hdistinct _ _ _ Hlt (ready_later limit _ (S (S (tick w))) _ _ Hrs ltac:(lia))) as Hrs'.
  set (s := gen_v4 (S (S (tick w)))) in *.
  assert (as_bytes s ∉ schema_keys (db w)) as Hs.
  { pose proof (ready_keys _ _ _ _ Hrs') as Hn. by apply nodup_snoc in Hn as [_ ?]. }
  eapply sure_execute_; [done | by apply insert_schema_ok |].
  sure_step. eapply sure_execute_; [done | by apply update_schema_valid_to_ok |]. cbn [db tick].
  sure_step. eapply sure_mono; [apply sure_insert_columns; [done | | | ]|].
  - cbn. rewrite (fmap_keep _ _ _ (set_valid_to_uuid _ _)), fmap_app. apply elem_of_app. right. left.
  - cbn. apply NoDup_app. split_and!; [apply (ok_column_name _ Hok) | |].
    + intros [a b] (r & [= -> ->] & Hr)%list_elem_of_fmap (c & [= E _] & _)%list_elem_of_fmap.
      apply Hs. rewrite <- E. pose proof (ok_column_fk _ Hok) as Hfk. rewrite Forall_forall in Hfk.
      by apply Hfk.
    + apply validated_names in Hv. 
      change (NoDup ((pair (as_bytes s) ∘ ColumnSpec.name) <$> SchemaSpec.columns spec)).
      rewrite list_fmap_compose. apply NoDup_fmap_2; [by intros ? ? [= ->] | done].
  - cbn. eapply ready_later; [exact Hrc | lia].
  - intros _ w' ([Es Ef] & Hw' & Hr'). cbn in Hw', Ef. apply sure_ret. split_and!; [lia | done | exact Hr' |].
    rewrite Es. cbn [db schemas]. rewrite (fmap_keep _ _ _ (set_valid_to_uuid _ _)), fmap_app.
    eapply ready_later; [exact Hrs' | lia].
Qed.

(** *** The loop over the operations *)

Lemma op_effect_cur u t ts cur op st d st' d' old :
  op_effect u t ts cur op (st, d) (st', d') -> as_bytes old ∈ schema_keys d ->
  as_bytes old ∈ schema_keys d' /\ select_columns (as_bytes old) d' = select_columns (as_bytes old) d.
Proof.
  intros He Hold. destruct (is_update_schema op) eqn:Eop.
  - destruct op as [| |spec| |]; try done.
    destruct (op_effect_schema _ _ _ _ _ _ _ _ _ He) as [Hn|spec' o orow cols s rows _ _ _ _ _ _ _ Hs Es Hrows Ec];
      [done|]. split.
    + rewrite Es, fmap_app, (fmap_keep _ _ _ (set_valid_to_uuid _ _)). apply elem_of_app. by left.
    + unfold select_columns. rewrite Ec, List.filter_app, (filter_all_false _ rows), app_nil_r; [done|].
      intros r Hr. apply beq_false. rewrite (are_columns_schema _ _ _ _ Hrows Hr). by intros E; rewrite E in Hs.
  - destruct (op_effect_no_schema _ _ _ _ _ _ _ _ _ Eop He) as (Es & Ec & _).
    unfold select_columns. by rewrite Es, Ec.
Qed.

Lemma op_effect_properties u t ts cur op st d st' d' :
  op_effect u t ts cur op (st, d) (st', d') ->
  MutState.properties_value st' = next_properties (MutState.properties_value st) op.
Proof.
  intros He. inversion He as [| | | |keys p st0 d0 Hr]; subst; try done. cbn. unfold remove_properties in Hr.
  destruct keys as [|k keys]; [by injection Hr|]. by apply bind_ok in Hr as (_ & _ & [= <-]).
Qed.

Lemma sure_apply_op kind u t ts cur st op d0 ex w :
  going u t cur d0 (given_in op ++ ex) w -> enabled_op d0 cur op ->
  sure (apply_op kind u t ts cur st op) (fun st' w' => tick w <= tick w' /\ going u t cur d0 ex w' /\
    MutState.properties_value st' = next_properties (MutState.properties_value st) op) w.
Proof.
  intros Hg Hen. pose proof Hg as [Hok Hu Ht Hcur Hf Hc Hs].
  eapply sure_mono.
  { apply sure_okp; [apply okp_apply_op, (ok_column_name _ Hok)|].
    assert (sure (apply_op kind u t ts cur st op) (fun _ w' => tick w <= tick w' /\
      ready (tick w') ex (file_keys (db w')) /\ ready (tick w') [] (column_keys (db w')) /\
      ready (tick w') [] (schema_keys (db w'))) w) as Hsure; [|exact Hsure].
    destruct op as [fs|us|spec|p|keys]; cbn [apply_op given_in enabled_op app] in *.
    - destruct Hen as [Hl Hfs]. sure_step. eapply sure_mono; [by apply (sure_append_files u t fs ex)|].
      intros _ w' ((_ & _ & Es & Ec) & Hw & Hr). apply sure_ret. rewrite Es, Ec.
      split_and!; [done | done | by eapply ready_later..].
    - sure_step. eapply sure_mono; [by apply (sure_delete_files u t us)|].
      intros _ w' ((_ & _ & Es & Ec) & Hw & Ek). apply sure_ret. rewrite Es, Ec, Ek.
      split_and!; [done | by eapply ready_later..].
    - sure_step. eapply sure_mono; [by apply (sure_update_schema kind u t ts cur spec d0 ex)|].
      intros s w' (Hw & Ef & Hr & Hr'). apply sure_ret. rewrite Ef.
      split_and!; [done | by eapply ready_later | done..].
    - apply sure_ret. done.
    - destruct (remove_properties (MutState.properties_value st) keys) as [p|e] eqn:Ep.
      + sure_step. eapply sure_lift; [done|]. by apply sure_ret.
      + exfalso. unfold remove_properties in *. destruct keys as [|k keys]; [done|].
        destruct (_ <? _)%N; done. }
  intros st' w' (He & Hw & Hf' & Hc' & Hs'). split; [done|].
  destruct (op_effect_frame _ _ _ _ _ _ _ _ _ He) as (Et & Ex & _).
  split; [|by eapply op_effect_properties]. split; [by eapply op_effect_db_ok | by rewrite Et | by rewrite Ex | | done..].
  intros old Hold. destruct (Hcur old Hold) as [H1 H2].
  destruct (op_effect_cur _ _ _ _ _ _ _ _ _ old He H1) as [H3 H4]. split; [done | congruence].
Qed.

Lemma sure_ops kind u t ts cur st ops d0 ex w :
  going u t cur d0 (concat (given_in <$> ops) ++ ex) w -> Forall (enabled_op d0 cur) ops ->
  sure (fold_m (apply_op kind u t ts cur) st ops) (fun st' w' => going u t cur d0 ex w' /\
    MutState.properties_value st' = fold_left next_properties ops (MutState.properties_value st)) w.
Proof.
  revert st w; induction ops as [|op ops IH]; intros st w Hg Hen; cbn in *; [by apply sure_ret|].
  apply Forall_cons in Hen as [Hop Hen]. rewrite <- app_assoc in Hg. sure_step.
  eapply sure_mono; [by eapply sure_apply_op|]. intros st' w' (_ & Hg' & Ep).
  eapply sure_mono; [by apply IH|]. by rewrite Ep.
Qed.

(** *** The whole commit *)

Lemma sure_fetch_table ident row (Q : TableRow.t -> World -> Prop) w :
  db_ok (db w) -> table_row_of (db w) ident = Some row -> Q row (bump w) -> sure (fetch_table ident) Q w.
Proof.
  intros Hok Hrow HQ. unfold fetch_table, fetch_optional. sure_step. apply sure_fetch; [done|].
  rewrite (row_order_singleton _ row) by by apply table_row_of_select. by eapply sure_lift.
Qed.

(** The commit's own transaction row is fresh and its parent is there. *)
Lemma insert_transaction_enabled row u base k ts w :
  catalog_inv (db w) -> ordered w -> tick w <= k -> k < limit -> row ∈ tables (db w) ->
  TableRow.table_uuid row = as_bytes u -> TableRow.current_transaction_id row = Some (as_bytes base) ->
  let r := TransactionRow.mk (as_bytes (gen_v7 k)) (as_bytes u) ts (Some (as_bytes base)) in
  insert_transaction r (db w) = Ok (mk_db (tables (db w)) (transactions (db w) ++ [r]) (schemas (db w))
    (columns (db w)) (files (db w)) (table_stats (db w))).
Proof.
  intros Hinv [Hdrawn _] Hk Hlt Hin Hu Hbase r. apply insert_transaction_ok. split_and!; [| | |done]; cbn.
  - intros (j & Hj & E)%(proj1 (Forall_forall _ _) Hdrawn). 
    pose proof (v7_monotone (limit := limit) j k ltac:(lia) Hlt) as Hlt'. rewrite E in Hlt'.
    by rewrite blob_lt_irrefl in Hlt'.
  - rewrite <- Hu. by apply list_elem_of_fmap_2.
  - destruct (chain_head _ Hinv row u Hin Hu) as (cur & Hcur & Hlast). rewrite Hbase in Hcur. injection Hcur as ->%(inj as_bytes).
    apply last_Some in Hlast as (l & Hl). assert (as_bytes cur ∈ chain (db w) (as_bytes u)) as Hc by (rewrite Hl; set_solver).
    unfold chain, history in Hc. apply list_elem_of_fmap in Hc as (x & -> & [Hx _]%elem_of_filter').
    by apply list_elem_of_fmap_2.
Qed.

Lemma current_schema_key d row old :
  catalog_inv d -> row ∈ tables d -> TableRow.current_schema_uuid row = Some (as_bytes old) ->
  as_bytes old ∈ schema_keys d.
Proof.
  intros Hinv Hin Hcur. pose proof (proj1 (Forall_forall _ _) (inv_schemas _ Hinv) row Hin) as (_ & _ & Hl & _).
  rewrite Hcur in Hl. apply last_Some in Hl as (l & Hl).
  assert (as_bytes old ∈ SchemaRow.schema_uuid <$> schema_log d (TableRow.table_uuid row)) as Hs
    by (rewrite Hl; set_solver).
  apply list_elem_of_fmap in Hs as (x & -> & [Hx _]%schema_log_in). by apply list_elem_of_fmap_2.
Qed.

Lemma sure_draw_now_insert {B} (row : TxnId -> DateTime -> TransactionRow.t)
    (k : TxnId -> DateTime -> M B) d Q w :
  (forall t ts, Keeps limit (k t ts)) ->
  (tick w < limit ->
    insert_transaction (row (gen_v7 (tick w)) (clock (S (tick w)))) (db w) = Ok d /\
    sure (k (gen_v7 (tick w)) (clock (S (tick w)))) Q (mk_world d (S (S (S (tick w)))))) ->
  sure (t ← next_transaction_id; ts ← utc_now; _ ← execute_ (insert_transaction (row t ts)); k t ts) Q w.
Proof.
  intros Hk Hd r w' E Ht. unfold mbind, M_bind, next_transaction_id, utc_now, execute_, execute in E. cbn in E.
  rewrite Hnf in E. assert (tick w < limit -> exists a, r = Ok a /\ Q a w') as Hsure.
  { intros Hlt. destruct (Hd Hlt) as [Ei Hs]. rewrite Ei in E. cbn in E. by apply (Hs _ _ E). }
  apply Hsure. destruct (insert_transaction _ (db w)) as [d'|e]; cbn in E.
  - destruct (Hk _ _ _ _ _ E) as [Hle _]. cbn in Hle. lia.
  - injection E as _ <-. cbn in Ht. lia.
Qed.

(** The same for the part of a commit that comes before. *)
Ltac head_step :=
  apply sure_bind; [intros ?; repeat (apply keeps_bind; [apply _|intros ?]);
    apply (keeps_draw_now_insert limit); [done|intros; keeps_go]|].

Lemma sure_commit kind client ident base mutation w row u cur props text :
  catalog_inv (db w) -> ordered w ->
  table_row_of (db w) ident = Some row -> TableRow.table_uuid row = as_bytes u ->
  TableRow.current_transaction_id row = Some (as_bytes base) ->
  TableRow.current_schema_uuid row = as_bytes <$> cur ->
  (TableRow.min_writer_version row <= ProtocolVersions.writer client)%Z ->
  parse_table_properties (TableRow.properties row) = Ok props ->
  check_mutation mutation = Ok tt ->
  Forall (enabled_op (db w) cur) (Mutation.operations mutation) ->
  serialize_json (TableProperties.to_json (fold_left next_properties (Mutation.operations mutation) props))
    = Ok text ->
  ready (tick w) (concat (given_in <$> Mutation.operations mutation)) (file_keys (db w)) ->
  ready (tick w) [] (column_keys (db w)) -> ready (tick w) [] (schema_keys (db w)) ->
  sure (commit kind client ident base mutation) (fun _ _ => True) w.
Proof.
  intros Hinv Hord Hrow Hu Hbase Hcur Hproto Hprops Hm Hen Htext Hf Hc Hs.
  pose proof (inv_db _ Hinv) as Hok. pose proof Hrow as (Hin & _)%table_row_of_some.
  unfold commit. apply sure_bind; [intros ?; apply keeps_with_tx; unfold commit_body;
    repeat (apply keeps_bind; [apply _|intros ?]);
    apply (keeps_draw_now_insert limit); [done|intros; keeps_go]|].
  eapply sure_lift; [exact Hm|]. apply (sure_with_tx limit Hnf); [done|]. unfold commit_body.
  head_step. apply (sure_fetch_table _ row); [done..|].
  head_step. eapply (sure_lift _ _ u); [by apply uuid_from_row_ok|].
  head_step. eapply (sure_lift _ _ cur); [by apply uuid_from_row_optional_ok|].
  head_step. eapply (sure_lift _ _ (Some base)); [by apply uuid_from_row_optional_ok|].
  head_step. eapply sure_lift; [exact Hprops|].
  head_step. eapply (sure_lift _ _ tt);
    [unfold ensure_writer_protocol_compatible; by rewrite (proj2 (Z.ltb_ge _ _))|].
  head_step. eapply sure_lift; [done|]. head_step. eapply sure_lift; [by rewrite bool_decide_eq_false_2 by naive_solver|].
  eapply sure_draw_now_insert; [intros; keeps_go|]. cbn [db tick bump]. intros Hlt.
  epose proof (insert_transaction_enabled row u base (S (S (tick w))) _ w Hinv Hord ltac:(lia) Hlt Hin Hu Hbase)
    as Hins. cbv zeta in Hins.
  split; [exact Hins|]. pose proof (insert_transaction_db_ok _ _ _ Hins Hok) as Hok'.
  sure_step. eapply sure_mono.
  { apply (sure_ops _ u _ _ cur _ (Mutation.operations mutation) (db w) []); [|done]. split; cbn.
    - exact Hok'.
    - rewrite <- Hu. by apply list_elem_of_fmap_2.
    - rewrite fmap_app. apply elem_of_app. right. by left.
    - intros old ->. split; [by eapply current_schema_key | done].
    - rewrite app_nil_r. eapply ready_later; [exact Hf | lia].
    - eapply ready_later; [exact Hc | lia].
    - eapply ready_later; [exact Hs | lia]. }
  intros st w1 [_ Ep]. cbn in Ep. rewrite <- Ep in Htext. sure_step. eapply sure_lift; [exact Htext|].
  sure_step. eapply sure_execute_; [done | by apply update_table_head_ok |]. by apply sure_ret.
Qed.

End ops.

(** ** Theorem *)

(** The generator's identifiers up to [limit] are distinct, and those still to
    be drawn, as those the mutation gives to its files, are not stored. *)
Record identifiers_fresh `{Env} (limit : nat) (mutation : Mutation.t) (w : World) : Prop := {
  fresh_ordered : ordered w;
  fresh_distinct j k : j < limit -> k < limit -> gen_v4 j = gen_v4 k -> j = k;
  fresh_files : ready limit (tick w) (concat (given_in <$> Mutation.operations mutation)) (file_keys (db w));
  fresh_columns : ready limit (tick w) [] (column_keys (db w));
  fresh_schemas : ready limit (tick w) [] (schema_keys (db w))
}.

(** The mutation can be carried out on the table of [row]: it is well formed,
    each operation is, its schema evolves the current one, and the properties
    it leaves serialize. *)
Definition committable `{Env} (client : ProtocolVersions.t) (row : TableRow.t) (mutation : Mutation.t)
    (d : Db) : Prop :=
  (TableRow.min_writer_version row <= ProtocolVersions.writer client)%Z /\
  check_mutation mutation = Ok tt /\
  (exists cur, TableRow.current_schema_uuid row = as_bytes <$> cur /\
     Forall (enabled_op d cur) (Mutation.operations mutation)) /\
  exists props, parse_table_properties (TableRow.properties row) = Ok props /\
    is_ok (serialize_json (TableProperties.to_json
      (fold_left next_properties (Mutation.operations mutation) props))) = true.

(** C18: progress.  When the engine does not fail, a commit on the current
    transaction of its table, of a mutation that can be carried out and with
    fresh identifiers, succeeds: no constraint of the database and no check on
    any path refuses it, on either backend, whatever the sizes of the batches. *)
Theorem head_commit_succeeds `{Env} `{!EnumerationLaws} limit `{!MonotoneV7 limit}
    kind client ident base mutation w row :
  catalog_inv (db w) -> no_faults -> identifiers_fresh limit mutation w ->
  table_row_of (db w) ident = Some row -> TableRow.current_transaction_id row = Some (as_bytes base) ->
  committable client row mutation (db w) ->
  exists r w', commit kind client ident base mutation w = Some (r, w') /\
    (tick w' <= limit -> exists res, r = Ok res /\ head_of (db w') ident = Some (CommitResult.transaction_id res)).
Proof.
  intros Hinv Hnf [Hord Hdist Hf Hc Hs] Hrow Hbase (Hproto & Hm & (cur & Hcur & Hen) & props & Hprops & Htext).
  pose proof Hrow as (Hin & _)%table_row_of_some.
  pose proof (proj1 (Forall_forall _ _) (dec_tables _ (inv_rows _ Hinv)) row Hin) as ((u & _ & Hu)%uuid_decodes & _).
  destruct (serialize_json _) as [text|] eqn:Et; [|done].
  pose proof (wp_commit kind client ident base mutation (fun r w' => True) w (inv_db _ Hinv)) as Hwp.
  destruct (proj1 (wp_run _ _ _) (Hwp ltac:(done) ltac:(done))) as (r & w' & E & _).
  exists r, w'. split; [done|]. intros Hlim.
  destruct (sure_commit limit Hnf Hdist kind client ident base mutation w row u cur props text Hinv Hord Hrow Hu
    Hbase Hcur Hproto Hprops Hm Hen Et Hf Hc Hs r w' E Hlim) as (res & -> & _).
  exists res. split; [done|].
  destruct (commit_ok_inv _ _ _ _ _ _ _ _ (inv_db _ Hinv) E) as (_ & He & Hok').
  destruct (commit_facts_rows _ _ _ _ _ _ Hinv Hok' (commit_effect_facts _ _ _ _ _ _ _ He))
    as (row' & u' & row'' & _ & Hr & _ & _ & _ & Ht & _). by eapply head_of_row.
Qed.

(** ** Witness *)

#[local] Existing Instances ref_env ref_ipc_laws ref_enumeration_laws.

Definition row2 : TableRow.t :=
  default (TableRow.mk [] "" "" "" None None 0 None 0 0) (head (tables (db world2))).

(** [ready] can be checked for the reference generator. *)
Lemma ref_ready n ex keys :
  bool_decide (NoDup keys /\ NoDup ex /\ Forall (fun u => as_bytes u ∉ keys) ex) = true ->
  forallb (fun k => bool_decide (as_bytes (v4 k) ∉ keys /\ v4 k ∉ ex)) (seq n (100 - n)) = true ->
  ready 100 n ex keys.
Proof.
  intros (Hk & Hx & Hn)%bool_decide_eq_true Hd. split; [done | done | |].
  - intros u Hu. rewrite Forall_forall in Hn. by apply Hn.
  - intros k Hle Hlt. rewrite forallb_forall in Hd.
    apply (bool_decide_eq_true (as_bytes (v4 k) ∉ keys /\ v4 k ∉ ex)), Hd, in_seq. lia.
Qed.

Lemma ref_v4_distinct j k : j < 100 -> k < 100 -> v4 j = v4 k -> j = k.
Proof. intros Hj Hk. apply v4_inj; lia. Qed.

Lemma world2_fresh : identifiers_fresh 100 mutation2 world2.
Proof.
  split.
  - apply (@ordered_when_reachable ref_env 100 ref_monotone Limits.Sqlite 1 world2).
    { eapply rtc_l; [apply start_to_world1 | apply rtc_once, world1_to_world2]. }
    apply Nat.leb_le. vm_compute. reflexivity.
  - apply ref_v4_distinct.
  - apply ref_ready; vm_compute; reflexivity.
  - apply ref_ready; vm_compute; reflexivity.
  - apply ref_ready; vm_compute; reflexivity.
Qed.

Lemma world2_committable : committable client row2 mutation2 (db world2).
Proof.
  split; [vm_compute; discriminate|]. split; [vm_compute; reflexivity|]. split.
  - exists (Some (v4 8)). split; [vm_compute; reflexivity|]. repeat constructor.
    all: try (apply N.leb_le; vm_compute; reflexivity).
    all: try (vm_compute; reflexivity).
    destruct (columns_of (db world2) (v4 8)) as [cols|] eqn:Ec; [|vm_compute in Ec; discriminate Ec].
    exists (v4 8), cols. split; [done|]. split; [done|]. apply check_evolution_ok.
    vm_compute in Ec. injection Ec as <-. vm_compute. reflexivity.
  - destruct (parse_table_properties (TableRow.properties row2)) as [props|] eqn:Ep; [|vm_compute in Ep; discriminate Ep].
    exists props. split; [done|]. vm_compute in Ep. injection Ep as <-. vm_compute. reflexivity.
Qed.

Lemma head_commit_succeeds_witness :
  exists r w', commit Limits.Sqlite client events txn2 mutation2 world2 = Some (r, w') /\
    (tick w' <= 100 -> exists res, r = Ok res /\ head_of (db w') events = Some (CommitResult.transaction_id res)).
Proof.
  apply (@head_commit_succeeds ref_env ref_enumeration_laws 100 ref_monotone Limits.Sqlite client
    events txn2 mutation2 world2 row2 world2_inv ref_no_faults world2_fresh).
  - vm_compute. reflexivity.
  - vm_compute. reflexivity.
  - exact world2_committable.
Defined.
