(* ===== verification/Skew.v ===== *)
(** * Clocks that run backwards

    Transaction identifiers are UUIDv7 values drawn by the writer, and the
    range conditions of [read_table] compare them byte-wise, as if they grew
    along the history.  Nothing in [commit] checks it: with a generator that
    goes backwards, as those of two hosts with skewed clocks may, a commit is
    accepted after which the table cannot be read at its head. *)

From S2P Require Import Prelude Uuid Error Limits Json DataType Format Schema Models Db DbFacts World Helpers Catalog Api Effects ReadFacts Invariant RefEnv Scenario Safety Commit Order Views.

(** ** A commit below the history *)

Section skew.
Context `{Env} `{!EnumerationLaws}.


End skew.


(** ** Witness *)

(** The reference environment, with version 7 identifiers that decrease. *)
Definition skewed_v7 (n : nat) : Uuid := v7 (1000 - n).

Definition skewed_outside : Outside :=
  {| gen_v4 := v4; gen_v7 := skewed_v7; clock n := Z.of_nat n; fault _ := None |}.

Definition skewed_env : Env :=
  {| env_ipc := ref_ipc; env_format := ref_format; env_text := ref_text; env_json := ref_json;
     env_enum := ref_enumeration; env_outside := skewed_outside |}.

#[local] Existing Instance skewed_env.

#[local] Instance skewed_enumeration_laws : EnumerationLaws := ref_enumeration_laws.






