(* ===== verification/Handles.v ===== *)
(** * Handles, builders and concurrent writers

    What the catalog promises to the code that uses it through the trait:
    [CatalogLaws] states it of any family of catalogs (one per client) over a
    common database — calls are atomic, a table's head only moves to fresh
    transactions, a commit succeeds only on the head.  The theorems on
    [TableHandle] and [MutationBuilder] are proved against these laws, and
    both SQL backends satisfy them. *)

From S2P Require Import Prelude Uuid Error Limits Json DataType Format Schema Models Db DbFacts World Helpers Catalog Api Effects ReadFacts Invariant RefEnv Scenario Safety Commit Order Views.
From stdpp Require Import relations.

(** ** The interface *)

(** Heads move only to transactions that were not known before. *)
Definition heads_move (head : Db -> TableIdent.t -> option TxnId) (known : Db -> TxnId -> Prop)
    (d d' : Db) : Prop :=
  (forall t, known d t -> known d' t) /\
  (forall i, head d' i = head d i \/ exists t, head d' i = Some t /\ ~ known d t).

Class CatalogLaws {C} (open : C -> CatalogApi) (wf : Db -> Prop)
    (head : Db -> TableIdent.t -> option TxnId) (known : Db -> TxnId -> Prop) : Prop := {
  law_call : forall c call w, wf (db w) ->
    exists r w', run (H := open c) call w = Some (r, w') /\ wf (db w') /\
      (is_ok r = false -> db w' = db w) /\ heads_move head known (db w) (db w');
  law_head_known : forall d i t, wf d -> head d i = Some t -> known d t;
  law_current : forall c i w t w', wf (db w) ->
    api_current_transaction_id (CatalogApi := open c) i w = Some (Ok t, w') ->
    head (db w) i = Some t /\ db w' = db w;
  law_commit : forall c i base mutation w res w', wf (db w) ->
    api_commit (CatalogApi := open c) i base mutation w = Some (Ok res, w') ->
    head (db w) i = Some base /\ head (db w') i = Some (CommitResult.transaction_id res) /\
    ~ known (db w) (CommitResult.transaction_id res)
}.

(** Any client's calls, and time passing. *)
Inductive calls {C} (open : C -> CatalogApi) (w w' : World) : Prop :=
  | calls_call c call r : run (H := open c) call w = Some (r, w') -> calls open w w'
  | calls_idle : db w' = db w -> calls open w w'.

(** ** Clients of the interface *)

Section clients.
Context {C} (open : C -> CatalogApi) (wf : Db -> Prop).
Context (head : Db -> TableIdent.t -> option TxnId) (known : Db -> TxnId -> Prop).
Context `{!CatalogLaws open wf head known}.

Lemma calls_step w w' : wf (db w) -> calls open w w' -> wf (db w') /\ heads_move head known (db w) (db w').
Proof.
  intros Hwf [c call r E|E].
  - destruct (law_call c call w Hwf) as (r' & w1 & E' & Hwf' & _ & Hm).
    rewrite E' in E. by simplify_eq.
  - rewrite E. split; [done|]. split; [done | by left].
Qed.

Lemma calls_wf w w' : wf (db w) -> rtc (calls open) w w' -> wf (db w').
Proof. intros Hwf Hr. induction Hr as [|w w1 w2 Hs _ IH]; [done|]. apply IH. by eapply calls_step. Qed.

(** A table whose head has left a known transaction never returns to it. *)
Lemma head_never_returns w w' i t :
  wf (db w) -> rtc (calls open) w w' -> known (db w) t -> head (db w) i <> Some t ->
  known (db w') t /\ head (db w') i <> Some t.
Proof.
  intros Hwf Hr. induction Hr as [|w w1 w2 Hs _ IH]; [done|]. intros Hk Hh.
  destruct (calls_step _ _ Hwf Hs) as (Hwf1 & Hk1 & Hm). apply IH; [done | auto |].
  destruct (Hm i) as [->|(t' & -> & Hn)]; [done|]. by intros [= ->].
Qed.

Lemma commit_off_head c i base mutation w :
  wf (db w) -> head (db w) i <> Some base ->
  exists e w', api_commit (CatalogApi := open c) i base mutation w = Some (Err e, w') /\ db w' = db w.
Proof.
  intros Hwf Hne. destruct (law_call c (CallCommit i base mutation) w Hwf) as (r & w' & E & _ & Hd & _).
  cbn in E. unfold discard, mbind, M_bind in E.
  destruct (api_commit (CatalogApi := open c) i base mutation w) as [[[res|e] w1]|] eqn:Ec; [| |done].
  - destruct (law_commit c i base mutation w res w1 Hwf Ec) as [Hh _]. done.
  - injection E as <- <-. exists e, w1. split; [done | by apply Hd].
Qed.

(** Of two builders pinned to the same transaction of the same table, the one
    that commits second is refused, whatever happens in between. *)
Lemma second_builder_refused c1 c2 b1 b2 w res w1 w2 :
  wf (db w) -> MutationBuilder.ident b1 = MutationBuilder.ident b2 ->
  MutationBuilder.base_transaction_id b1 = MutationBuilder.base_transaction_id b2 ->
  MutationBuilder.commit (H := open c1) b1 w = Some (Ok res, w1) -> rtc (calls open) w1 w2 ->
  exists e w3, MutationBuilder.commit (H := open c2) b2 w2 = Some (Err e, w3) /\ db w3 = db w2.
Proof.
  intros Hwf Hi Hb E Hr. unfold MutationBuilder.commit in *.
  assert (calls open w w1) as Hs.
  { apply (calls_call _ _ _ c1 (CallCommit (MutationBuilder.ident b1)
      (MutationBuilder.base_transaction_id b1) (MutationBuilder.mutation b1)) (Ok tt)).
    cbn. unfold discard, mbind, M_bind. by rewrite E. }
  destruct (calls_step _ _ Hwf Hs) as (Hwf1 & Hk & _).
  destruct (law_commit _ _ _ _ _ _ _ Hwf E) as (Hh & Hh1 & Hnew).
  pose proof (law_head_known _ _ _ Hwf Hh) as Hbk.
  assert (head (db w1) (MutationBuilder.ident b1) <> Some (MutationBuilder.base_transaction_id b1)) as Hne.
  { rewrite Hh1. intros [= Heq]. by rewrite Heq in Hnew. }
  destruct (head_never_returns _ _ _ _ Hwf1 Hr (Hk _ Hbk) Hne) as [_ Hne2].
  apply commit_off_head; [by eapply calls_wf|]. by rewrite <- Hi, <- Hb.
Qed.

(** A builder opened by [TableHandle.write] that commits found its table at the
    same transaction at every moment in between. *)
Lemma write_is_isolated c1 c2 h w b w1 w2 ops res w3 :
  wf (db w) -> TableHandle.write (H := open c1) h None w = Some (Ok b, w1) ->
  rtc (calls open) w1 w2 ->
  MutationBuilder.commit (H := open c2) (fold_left MutationBuilder.push ops b) w2 = Some (Ok res, w3) ->
  head (db w) (TableHandle.ident h) = Some (MutationBuilder.base_transaction_id b) /\
  (forall w', rtc (calls open) w1 w' -> rtc (calls open) w' w2 ->
     head (db w') (TableHandle.ident h) = Some (MutationBuilder.base_transaction_id b)) /\
  head (db w3) (TableHandle.ident h) = Some (CommitResult.transaction_id res).
Proof.
  intros Hwf Ew Hr Ec. unfold TableHandle.write, mbind, M_bind in Ew.
  destruct (api_current_transaction_id _ w) as [[[t|e] w0]|] eqn:Et; [|done|done].
  injection Ew as <- <-. cbn. destruct (law_current _ _ _ _ _ Hwf Et) as [Hh Ed].
  assert (Hpush : forall b, MutationBuilder.ident (fold_left MutationBuilder.push ops b) = MutationBuilder.ident b /\
    MutationBuilder.base_transaction_id (fold_left MutationBuilder.push ops b)
    = MutationBuilder.base_transaction_id b).
  { clear Ec. induction ops as [|op ops IH]; intros b; [done|]. cbn. destruct (IH (MutationBuilder.push b op)) as [-> ->]. done. }
  destruct (Hpush (MutationBuilder.new (TableHandle.ident h) t)) as [Ei Eb]. cbn in Ei, Eb.
  assert (wf (db w0)) as Hwf0 by by rewrite Ed.
  unfold MutationBuilder.commit in Ec. rewrite Ei, Eb in Ec.
  destruct (law_commit _ _ _ _ _ _ _ (calls_wf _ _ Hwf0 Hr) Ec) as (Hh2 & Hh3 & _).
  split_and!; [done | | done]. intros w' Hr1 Hr2.
  destruct (decide (head (db w') (TableHandle.ident h) = Some t)) as [|Hn]; [done|]. exfalso.
  assert (Hk : known (db w') t).
  { assert (known (db w0) t) as Hk0 by (rewrite Ed; by eapply law_head_known).
    clear -Hk0 Hr1 Hwf0 CatalogLaws0. induction Hr1 as [|x y z Hs _ IH]; [done|].
    destruct (calls_step _ _ Hwf0 Hs) as (Hwf1 & Hk & _). apply IH; auto. }
  by destruct (head_never_returns _ _ _ _ (calls_wf _ _ Hwf0 Hr1) Hr2 Hk Hn).
Qed.

End clients.

(** ** The SQL catalogs satisfy it *)

Section sql.
Context `{Env} `{!EnumerationLaws}.

(** The transactions of a database. *)
Definition in_log (d : Db) (t : TxnId) : Prop := as_bytes t ∈ txn_keys d.

(** The rows of every name, before and after a commit. *)
Lemma commit_facts_select ident base t mutation d d' :
  commit_facts ident base t mutation d d' ->
  exists u cur st text, forall i, select_table (TableIdent.namespace i) (TableIdent.name i) d'
    = commit_head t cur st text u <$> select_table (TableIdent.namespace i) (TableIdent.name i) d.
Proof.
  intros [row u ts cur props st text d1 d2 _ _ _ _ _ _ _ _ _ _ _ _ Hd']. exists (as_bytes u), cur, st, text.
  intros i. unfold select_table. rewrite Hd'. cbn [tables]. apply filter_fmap_comm. intros r. unfold named.
  pose proof (set_head_name (as_bytes u)
    (as_bytes <$> match MutState.new_schema_uuid st with Some s => Some s | None => cur end)
    (Some (as_bytes t)) (Some text) r) as [= E1 E2].
  unfold commit_head. by rewrite E1, E2.
Qed.

Lemma commit_heads ident base t mutation d d' :
  commit_facts ident base t mutation d d' -> heads_move head_of in_log d d'.
Proof.
  intros Hc. split.
  - intros x Hx. unfold in_log. rewrite (commit_facts_keys _ _ _ _ _ _ Hc). apply elem_of_app. by left.
  - intros i. assert (as_bytes t ∉ txn_keys d) as Hfresh by by destruct Hc.
    destruct (commit_facts_select _ _ _ _ _ _ Hc) as (u & cur & st & text & Es).
    unfold head_of, table_row_of. rewrite Es.
    destruct (select_table _ _ d) as [|r l]; [by left|]. cbn.
    unfold commit_head, set_head. case_bool_decide; [|by left]. right. exists t. split; [|done].
    cbn. apply from_slice_as_bytes.
Qed.

Lemma create_heads client ident location spec properties d d' :
  create_facts client ident location spec properties d d' -> heads_move head_of in_log d d'.
Proof.
  intros [u t s ts text rows _ _ _ _ Hfresh _ _ Hd']. split.
  - intros x Hx. unfold in_log. rewrite Hd'. cbn. rewrite fmap_app. apply elem_of_app. by left.
  - intros i. unfold head_of, table_row_of, select_table. rewrite Hd'. cbn [tables]. rewrite List.filter_app.
    destruct (List.filter _ (tables d)) as [|r l]; [|by left]. cbn.
    destruct (named _ _ _); [|by left]. right. exists t. split; [|done]. cbn. apply from_slice_as_bytes.
Qed.

Lemma sql_call kind client call w :
  catalog_inv (db w) ->
  wp (run (H := backend kind client) call) (fun _ w' => heads_move head_of in_log (db w) (db w')) w.
Proof.
  intros Hinv. pose proof (inv_db _ Hinv) as Hok.
  assert (Hsame : heads_move head_of in_log (db w) (db w)) by (split; [done | by left]).
  assert (Hread : forall {A} (m : M A), ReadsOn (db w) m ->
    wp (discard m) (fun _ w' => heads_move head_of in_log (db w) (db w')) w).
  { intros A m Hm. by apply wp_discard, wp_reads; [exact Hm|]. }
  destruct call as [i l s p|i|ns|i|i|i cu|i a|i a b|i b m], kind; cbn in *;
    try (apply Hread; apply _);
    try (apply wp_discard, wp_create_table; [done | done |]; intros w' Hc _;
      eapply create_heads; by eapply create_effect_facts);
    try (apply wp_discard, wp_commit; [done | done |]; intros res w' _ Hc _;
      eapply commit_heads; by eapply commit_effect_facts);
    (apply wp_drop_table; [done|]; intros k d' n Hd;
     destruct (select_table (TableIdent.namespace i) (TableIdent.name i) (db w)) as [|r rs] eqn:Es;
     [apply delete_table_ok in Hd as (_ & Hl & _); by rewrite Es in Hl|];
     rewrite (delete_table_referenced _ _ _ r) in Hd; [done | done | rewrite Es; left]).
Qed.

Lemma sql_head_known d i t : catalog_inv d -> head_of d i = Some t -> in_log d t.
Proof.
  intros Hinv. unfold head_of. destruct (table_row_of d i) as [row|] eqn:Er; [|done]. cbn.
  destruct (TableRow.current_transaction_id row) as [b|] eqn:Eb; [|done]. cbn. intros ->%from_slice_some.
  apply table_row_of_some in Er as (Hin & _).
  pose proof (inv_history _ Hinv) as Hh. rewrite Forall_forall in Hh. destruct (Hh row Hin) as (_ & _ & Hl).
  rewrite Eb in Hl. apply last_Some in Hl as [l' Hl]. unfold in_log.
  eapply chain_in_keys. rewrite Hl. set_solver.
Qed.

Lemma sql_current ident w t w' :
  db_ok (db w) -> current_transaction_id ident w = Some (Ok t, w') ->
  head_of (db w) ident = Some t /\ db w' = db w.
Proof.
  intros Hok E. refine (okp_elim _ (fun t w' => _) _ _ _ _ E). unfold current_transaction_id.
  apply okp_bind. eapply okp_mono; [apply okp_fetch_table|]. intros row w1 [Hrow Ew].
  apply okp_bind, okp_lift. intros o Ho%uuid_from_row_optional_ok. apply okp_lift.
  intros t' ->%ok_or_ok. split; [|done]. eapply head_of_row; [by apply table_row_of_in | done].
Qed.

#[export] Instance sql_laws kind : CatalogLaws (backend kind) catalog_inv head_of in_log.
Proof.
  split.
  - intros client call w Hinv.
    pose proof (wp_and _ _ _ _ (wp_call_change kind client call w Hinv) (sql_call kind client call w Hinv)) as Hw.
    apply wp_run in Hw as (r & w' & E & (Hc & Hd) & Hm). exists r, w'.
    split_and!; [done | by eapply call_change_inv | auto | done].
  - apply sql_head_known.
  - intros client i w t w' Hinv E. eapply sql_current; [by apply inv_db|]. by destruct kind.
  - intros client i base mutation w res w' Hinv E.
    assert (commit kind client i base mutation w = Some (Ok res, w')) as Ec by by destruct kind.
    destruct (commit_ok_inv _ _ _ _ _ _ _ _ (inv_db _ Hinv) Ec) as (_ & Hc & Hok').
    apply commit_effect_facts in Hc.
    destruct (commit_facts_rows _ _ _ _ _ _ Hinv Hok' Hc) as (row & u & row' & Hr & Hr' & _ & _ & Hb & Ht & Hf & _).
    split_and!; [by eapply head_of_row | by eapply head_of_row | done].
Qed.

End sql.

(** ** Theorems *)

(** C4: no update is lost: of two builders pinned to the same transaction of a
    table, whatever their clients and operations, once one has committed the
    other never does, whatever calls are made in between; it fails and changes
    nothing. *)
Theorem no_lost_update `{Env} `{!EnumerationLaws} kind c1 c2 b1 b2 w res w1 w2 :
  catalog_inv (db w) ->
  MutationBuilder.ident b1 = MutationBuilder.ident b2 ->
  MutationBuilder.base_transaction_id b1 = MutationBuilder.base_transaction_id b2 ->
  MutationBuilder.commit (H := backend kind c1) b1 w = Some (Ok res, w1) ->
  rtc (calls (backend kind)) w1 w2 ->
  exists e w3, MutationBuilder.commit (H := backend kind c2) b2 w2 = Some (Err e, w3) /\ db w3 = db w2.
Proof. apply (second_builder_refused (backend kind) catalog_inv head_of in_log). Qed.

(** C5: a handle's write is serializable: when a builder that
    [TableHandle.write] pinned to the current transaction commits, after any
    operations were pushed on it and any calls were made by any client, the
    table's current transaction was the same at every moment in between, and
    it is the committed one afterwards. *)
Theorem handle_write_serializable `{Env} `{!EnumerationLaws} kind c1 c2 h w b w1 w2
    ops res w3 :
  catalog_inv (db w) ->
  TableHandle.write (H := backend kind c1) h None w = Some (Ok b, w1) ->
  rtc (calls (backend kind)) w1 w2 ->
  MutationBuilder.commit (H := backend kind c2) (fold_left MutationBuilder.push ops b) w2
    = Some (Ok res, w3) ->
  head_of (db w) (TableHandle.ident h) = Some (MutationBuilder.base_transaction_id b) /\
  (forall w', rtc (calls (backend kind)) w1 w' -> rtc (calls (backend kind)) w' w2 ->
     head_of (db w') (TableHandle.ident h) = Some (MutationBuilder.base_transaction_id b)) /\
  head_of (db w3) (TableHandle.ident h) = Some (CommitResult.transaction_id res).
Proof. apply (write_is_isolated (backend kind) catalog_inv head_of in_log). Qed.

(** ** Witnesses *)

#[local] Existing Instances ref_env ref_ipc_laws ref_json_laws ref_enumeration_laws.

Definition builder (base : TxnId) (m : Mutation.t) : MutationBuilder.t :=
  fold_left MutationBuilder.push (Mutation.operations m) (MutationBuilder.new events base).

Lemma no_lost_update_witness :
  (exists w', MutationBuilder.commit (H := backend Limits.Sqlite client) (builder txn1 mutation1) world1
     = Some (Ok (CommitResult.mk txn2 None), w')) /\
  exists e w3, MutationBuilder.commit (H := backend Limits.Sqlite client) (builder txn1 mutation2) world3
    = Some (Err e, w3) /\ db w3 = db world3.
Proof.
  assert (MutationBuilder.commit (H := backend Limits.Sqlite client) (builder txn1 mutation1) world1
    = Some (Ok (CommitResult.mk txn2 None), world2)) as E by (vm_compute; reflexivity).
  split; [exists world2; exact E|].
  apply (no_lost_update Limits.Sqlite client client (builder txn1 mutation1) (builder txn1 mutation2)
    world1 _ world2 world3 world1_inv eq_refl eq_refl E).
  apply rtc_once. apply (calls_call _ _ _ client (CallCommit events txn2 mutation2) (Ok tt)).
  vm_compute. reflexivity.
Defined.

Lemma handle_write_serializable_witness :
  exists b w1, TableHandle.write (H := backend Limits.Sqlite client) (TableHandle.mk events) None world1
    = Some (Ok b, w1) /\
  exists res w3, MutationBuilder.commit (H := backend Limits.Sqlite client)
    (fold_left MutationBuilder.push (Mutation.operations mutation1) b) w1 = Some (Ok res, w3) /\
  head_of (db w3) events = Some (CommitResult.transaction_id res).
Proof.
  destruct (TableHandle.write (H := backend Limits.Sqlite client) (TableHandle.mk events) None world1)
    as [[[b|e] w1]|] eqn:E1; [|vm_compute in E1; discriminate E1|vm_compute in E1; discriminate E1].
  exists b, w1. split; [reflexivity|].
  destruct (MutationBuilder.commit (H := backend Limits.Sqlite client)
    (fold_left MutationBuilder.push (Mutation.operations mutation1) b) w1) as [[[res|e] w3]|] eqn:E2.
  - exists res, w3. split; [reflexivity|].
    exact (proj2 (proj2 (handle_write_serializable Limits.Sqlite client client (TableHandle.mk events) world1
      b w1 w1 _ res w3 world1_inv E1 (rtc_refl _ _) E2))).
  - exfalso. vm_compute in E1. injection E1 as <- <-. vm_compute in E2. discriminate E2.
  - exfalso. vm_compute in E1. injection E1 as <- <-. vm_compute in E2. discriminate E2.
Defined.
