(* ===== verification/Programs.v ===== *)
(** * Write transactions as sequences of statements

    The transactions of [commit] and [create_table], which Catalog.v runs in one
    go, as programs: sequences of the statements they send to the engine and of
    the identifiers and times they draw, with what they compute in between.  Run
    on one state without interruption the programs are [commit_body] and
    [create_body]; Locks.v runs them interleaved with other transactions. *)

From S2P Require Import Prelude Uuid Error Limits Json DataType Format Schema Models Db World Helpers Catalog.

(** ** Statements that write *)

Inductive Stmt : Type :=
  | InsertTable (r : TableRow.t)
  | InsertTransaction (r : TransactionRow.t)
  | InsertSchema (r : SchemaRow.t)
  | CloseSchema (t s : Blob)
  | InsertColumns (rs : list ColumnRow.t)
  | InsertFiles (rs : list FileRow.t)
  | RemoveFiles (t u : Blob) (us : list Blob)
  | UpdateHead (u : Blob) (s t : option Blob) (props : option string).

Definition exec (s : Stmt) : Db -> result SqlxError Db :=
  match s with
  | InsertTable r => insert_table r
  | InsertTransaction r => insert_transaction r
  | InsertSchema r => insert_schema r
  | CloseSchema t s => update_schema_valid_to t s
  | InsertColumns rs => insert_rows insert_column rs
  | InsertFiles rs => insert_rows insert_file rs
  | RemoveFiles t u us => update_files_removed t u us
  | UpdateHead u s t props => update_table_head u s t props
  end.

(** ** Programs *)

Inductive Prog (A : Type) : Type :=
  | Done (r : result CatalogError A)
  | Query {X : Type} (q : Db -> X) (k : X -> Prog A)
  | Write (s : Stmt) (k : Prog A)
  | DrawV4 (k : Uuid -> Prog A)
  | DrawV7 (k : TxnId -> Prog A)
  | DrawTime (k : DateTime -> Prog A).
Arguments Done {A} r.
Arguments Query {A X} q k.
Arguments Write {A} s k.
Arguments DrawV4 {A} k.
Arguments DrawV7 {A} k.
Arguments DrawTime {A} k.

Fixpoint prog_bind {A B} (m : Prog A) (f : A -> Prog B) : Prog B :=
  match m with
  | Done (Ok a) => f a
  | Done (Err e) => Done (Err e)
  | Query q k => Query q (fun x => prog_bind (k x) f)
  | Write s k => Write s (prog_bind k f)
  | DrawV4 k => DrawV4 (fun x => prog_bind (k x) f)
  | DrawV7 k => DrawV7 (fun x => prog_bind (k x) f)
  | DrawTime k => DrawTime (fun x => prog_bind (k x) f)
  end.

#[export] Instance Prog_ret : MRet Prog := fun A a => Done (Ok a).
#[export] Instance Prog_bind : MBind Prog := fun A B f m => prog_bind m f.

Definition check {A} (r : result CatalogError A) : Prog A := Done r.
Definition query {X} (q : Db -> X) : Prog X := Query q (fun x => mret x).
Definition write (s : Stmt) : Prog unit := Write s (mret tt).
Definition draw_v4 : Prog Uuid := DrawV4 mret.
Definition draw_v7 : Prog TxnId := DrawV7 mret.
Definition draw_time : Prog DateTime := DrawTime mret.

Fixpoint prog_each {A} (l : list A) (body : A -> Prog unit) : Prog unit :=
  match l with
  | [] => mret tt
  | x :: l => _ ← body x; prog_each l body
  end.

Fixpoint prog_fold {A S} (body : S -> A -> Prog S) (s : S) (l : list A) : Prog S :=
  match l with
  | [] => mret s
  | x :: l => s ← body s x; prog_fold body s l
  end.

Fixpoint prog_map {A B} (body : A -> Prog B) (l : list A) : Prog (list B) :=
  match l with
  | [] => mret []
  | x :: l => y ← body x; ys ← prog_map body l; mret (y :: ys)
  end.

(** One effect of the world after the other. *)
Fixpoint perform `{Env} {A} (m : Prog A) : M A :=
  match m with
  | Done r => lift r
  | Query q k => x ← fetch q; perform (k x)
  | Write s k => _ ← execute_ (exec s); perform k
  | DrawV4 k => x ← new_v4; perform (k x)
  | DrawV7 k => x ← next_transaction_id; perform (k x)
  | DrawTime k => x ← utc_now; perform (k x)
  end.

(** ** The body of [commit] *)

Section commit.
Context `{Env} (kind : DbKind) (client_protocol : ProtocolVersions.t).

Definition query_optional {T} (q : Db -> list T) : Prog (option T) := query (fun d => head (row_order (q d))).
Definition query_one {T} (q : Db -> list T) : Prog T :=
  o ← query_optional q; check (ok_or o (Storage RowNotFound)).
Definition query_all {T} (q : Db -> list T) : Prog (list T) := query (fun d => row_order (q d)).

Definition prog_column_row (schema_uuid : Uuid) (col_chunk_size chunk_index : nat)
    (p : nat * ColumnSpec.t) : Prog ColumnRow.t :=
  let '(i, column) := p in
  let ordinal_position := wrap_i32 (Z.of_nat (chunk_index * col_chunk_size + i + 1)) in
  encoded_type ← check (encode_data_type (ColumnSpec.column_type column));
  column_uuid ← draw_v4;
  mret (ColumnRow.mk (as_bytes column_uuid) (as_bytes schema_uuid) (ColumnSpec.name column)
          encoded_type ordinal_position (ColumnSpec.is_nullable column)).

Definition prog_insert_columns (schema_uuid : Uuid) (columns : list ColumnSpec.t) : Prog unit :=
  let col_chunk_size := columns_chunk kind in
  prog_each (imap pair (chunks col_chunk_size columns)) (fun '(chunk_index, col_chunk) =>
    row_data ← prog_map (prog_column_row schema_uuid col_chunk_size chunk_index) (imap pair col_chunk);
    write (InsertColumns row_data)).

Definition prog_file_row (table_uuid transaction_id : Uuid) (f : FileSpec.t) : Prog FileRow.t :=
  _ ← check (FileSpec.validate f);
  file_uuid ← match FileSpec.file_uuid f with Some u => mret u | None => draw_v4 end;
  partition_text ← check (serialize_json_optional (FileSpec.partition_values f));
  format_text ← check (serialize_json_optional (FileSpec.format_options f));
  mret (FileRow.mk (as_bytes file_uuid) (as_bytes table_uuid)
          (as_str_format (FileSpec.file_format f)) (FileSpec.file_path f)
          (FileSpec.record_count f) (FileSpec.file_size_bytes f) (as_bytes transaction_id) None
          partition_text format_text).

Definition prog_append_files (table_uuid transaction_id : Uuid) (files : list FileSpec.t) : Prog unit :=
  _ ← check (fail_if (limits.MAX_FILES_PER_APPEND <? as_u32 (length files))%N
        (LimitExceeded ("cannot append " +:+ pretty (length files)
           +:+ " files, exceeds limit of " +:+ pretty limits.MAX_FILES_PER_APPEND)));
  prog_each (chunks files_chunk files) (fun chunk =>
    row_data ← prog_map (prog_file_row table_uuid transaction_id) chunk;
    write (InsertFiles row_data)).

Definition prog_delete_files (table_uuid transaction_id : Uuid) (file_uuids : list Uuid) : Prog unit :=
  _ ← check (fail_if (limits.MAX_FILES_PER_DELETE <? as_u32 (length file_uuids))%N
        (LimitExceeded ("cannot delete " +:+ pretty (length file_uuids)
           +:+ " files, exceeds limit of " +:+ pretty limits.MAX_FILES_PER_DELETE)));
  prog_each (chunks delete_chunk file_uuids) (fun chunk =>
    write (RemoveFiles (as_bytes transaction_id) (as_bytes table_uuid) (as_bytes <$> chunk))).

Definition prog_update_schema (table_uuid transaction_id : Uuid) (transaction_timestamp : DateTime)
    (current_schema_uuid : option Uuid) (schema_spec : SchemaSpec.t) : Prog Uuid :=
  _ ← check (SchemaSpec.validate schema_spec);
  current_schema_uuid ← check (ok_or current_schema_uuid
    (InvalidArgument "cannot update schema without a current schema"));
  current_schema ← query_one (select_schema (as_bytes current_schema_uuid));
  current_column_rows ← query_all (select_columns (as_bytes current_schema_uuid));
  current_columns ← check (traverse current_column current_column_rows);
  _ ← check (check_evolution (column_map current_columns) (SchemaSpec.columns schema_spec));
  schema_uuid ← draw_v4;
  let schema_version := wrap_i32 (SchemaRow.schema_version current_schema + 1) in
  _ ← write (InsertSchema (SchemaRow.mk (as_bytes schema_uuid) (as_bytes table_uuid)
        schema_version (as_bytes transaction_id) None transaction_timestamp));
  _ ← write (CloseSchema (as_bytes transaction_id) (as_bytes current_schema_uuid));
  _ ← prog_insert_columns schema_uuid (SchemaSpec.columns schema_spec);
  mret schema_uuid.

Definition prog_op (table_uuid transaction_id : Uuid) (transaction_timestamp : DateTime)
    (current_schema_uuid : option Uuid) (st : MutState.t) (op : MutationOp) : Prog MutState.t :=
  match op with
  | AppendFiles files => _ ← prog_append_files table_uuid transaction_id files; mret st
  | DeleteFiles file_uuids => _ ← prog_delete_files table_uuid transaction_id file_uuids; mret st
  | UpdateSchema schema_spec =>
      schema_uuid ← prog_update_schema table_uuid transaction_id transaction_timestamp
        current_schema_uuid schema_spec;
      mret (MutState.mk (Some schema_uuid) (MutState.properties_value st))
  | SetProperties properties => mret (MutState.mk (MutState.new_schema_uuid st) properties)
  | RemoveProperties keys =>
      p ← check (remove_properties (MutState.properties_value st) keys);
      mret (MutState.mk (MutState.new_schema_uuid st) p)
  end.

(** What follows the SELECT ... FOR UPDATE on tables. *)
Definition prog_commit_rest (ident : TableIdent.t) (base_transaction_id : TxnId) (mutation : Mutation.t)
    (table_row : TableRow.t) : Prog CommitResult.t :=
  table_uuid ← check (uuid_from_row (TableRow.table_uuid table_row));
  current_schema_uuid ← check (uuid_from_row_optional (TableRow.current_schema_uuid table_row));
  current ← check (uuid_from_row_optional (TableRow.current_transaction_id table_row));
  properties_value ← check (parse_table_properties (TableRow.properties table_row));
  _ ← check (ensure_writer_protocol_compatible client_protocol ident (TableRow.min_writer_version table_row));
  current ← check (ok_or current no_current_transaction);
  _ ← check (fail_if (bool_decide (current <> base_transaction_id)) (stale_base base_transaction_id current));
  transaction_id ← draw_v7;
  transaction_timestamp ← draw_time;
  _ ← write (InsertTransaction (TransactionRow.mk (as_bytes transaction_id)
        (as_bytes table_uuid) transaction_timestamp (Some (as_bytes current))));
  st ← prog_fold (prog_op table_uuid transaction_id transaction_timestamp current_schema_uuid)
         (MutState.mk current_schema_uuid properties_value) (Mutation.operations mutation);
  let schema_uuid_to_set :=
    match MutState.new_schema_uuid st with Some s => Some s | None => current_schema_uuid end in
  properties_text ← check (serialize_json (TableProperties.to_json (MutState.properties_value st)));
  _ ← write (UpdateHead (as_bytes table_uuid) (as_bytes <$> schema_uuid_to_set)
        (Some (as_bytes transaction_id)) (Some properties_text));
  mret (CommitResult.mk transaction_id None).

Definition query_table (ident : TableIdent.t) : Prog TableRow.t :=
  table_row ← query_optional (select_table (TableIdent.namespace ident) (TableIdent.name ident));
  check (ok_or table_row (no_table ident)).

Definition prog_commit_body (ident : TableIdent.t) (base_transaction_id : TxnId) (mutation : Mutation.t) :
    Prog CommitResult.t :=
  table_row ← query_table ident;
  prog_commit_rest ident base_transaction_id mutation table_row.

(** ** The body of [create_table] *)

Definition new_table_row (ident : TableIdent.t) (location : string) (table_uuid : Uuid)
    (created_at : DateTime) (properties_text : string) : TableRow.t :=
  TableRow.mk (as_bytes table_uuid) (TableIdent.name ident) (TableIdent.namespace ident) location None None
    created_at (Some properties_text) (ProtocolVersions.reader client_protocol)
    (ProtocolVersions.writer client_protocol).

(** What follows the INSERT INTO tables. *)
Definition prog_create_rest (ident : TableIdent.t) (schema : SchemaSpec.t) (table_uuid : Uuid)
    (created_at : DateTime) : Prog TableIdent.t :=
  transaction_id ← draw_v7;
  _ ← write (InsertTransaction (TransactionRow.mk (as_bytes transaction_id)
        (as_bytes table_uuid) created_at None));
  schema_uuid ← draw_v4;
  _ ← write (InsertSchema (SchemaRow.mk (as_bytes schema_uuid) (as_bytes table_uuid)
        INITIAL_SCHEMA_VERSION (as_bytes transaction_id) None created_at));
  _ ← prog_insert_columns schema_uuid (SchemaSpec.columns schema);
  _ ← write (UpdateHead (as_bytes table_uuid) (Some (as_bytes schema_uuid))
        (Some (as_bytes transaction_id)) None);
  mret ident.

Definition prog_create_insert (ident : TableIdent.t) (location : string) (schema : SchemaSpec.t)
    (table_uuid : Uuid) (created_at : DateTime) (properties_text : string) : Prog TableIdent.t :=
  _ ← write (InsertTable (new_table_row ident location table_uuid created_at properties_text));
  prog_create_rest ident schema table_uuid created_at.

Definition table_exists (ident : TableIdent.t) (row : option TableRow.t) : result CatalogError unit :=
  match row with
  | Some _ => Err (Conflict ("table already exists: " +:+ TableIdent.to_string ident))
  | None => Ok tt
  end.

Definition prog_create_body (ident : TableIdent.t) (location : string) (schema : SchemaSpec.t)
    (properties : option TableProperties.t) : Prog TableIdent.t :=
  row ← query_optional (select_table (TableIdent.namespace ident) (TableIdent.name ident));
  _ ← check (table_exists ident row);
  table_uuid ← draw_v4;
  created_at ← draw_time;
  properties_text ← check (serialize_json (TableProperties.to_json (default TableProperties.new properties)));
  prog_create_insert ident location schema table_uuid created_at properties_text.

End commit.

(** ** Run on one state, they are [commit_body] and [create_body] *)

Section perform.
Context `{Env}.

(** Computations that do the same in every world. *)
Definition same {A} (m m' : M A) : Prop := forall w, m w = m' w.

Lemma same_everywhere_bind {A B} (m m' : M A) (f f' : A -> M B) :
  same m m' -> (forall a, same (f a) (f' a)) -> same (m ≫= f) (m' ≫= f').
Proof.
  intros Hm Hf w. unfold mbind, M_bind. rewrite (Hm w). destruct (m' w) as [[[a|e] w']|]; [apply Hf | done..].
Qed.

Lemma perform_bind {A B} (m : Prog A) (f : A -> Prog B) :
  same (perform (m ≫= f)) (perform m ≫= (fun a => perform (f a))).
Proof.
  change (m ≫= f) with (prog_bind m f).
  induction m as [[a|e]|X q k IH|s k IH|k IH|k IH|k IH]; intros w; cbn; try done;
    unfold mbind, M_bind, new_v4, next_transaction_id, utc_now.
  - destruct (fetch q w) as [[[x|e] w']|]; [apply IH | done | done].
  - destruct (execute_ (exec s) w) as [[[x|e] w']|]; [apply IH | done | done].
  - apply IH.
  - apply IH.
  - apply IH.
Qed.

Lemma same_perform {A B} (m : Prog A) (m' : M A) (f : A -> Prog B) (f' : A -> M B) :
  same (perform m) m' -> (forall a, same (perform (f a)) (f' a)) -> same (perform (m ≫= f)) (m' ≫= f').
Proof. intros Hm Hf w. rewrite perform_bind. by apply same_everywhere_bind. Qed.

Lemma same_check {A B} (r : result CatalogError A) (f : A -> Prog B) (f' : A -> M B) :
  (forall a, same (perform (f a)) (f' a)) -> same (perform (check r ≫= f)) (lift r ≫= f').
Proof. intros Hf w. destruct r; [apply Hf | done]. Qed.

Lemma same_query {X} (q : Db -> X) : same (perform (query q)) (fetch q).
Proof. intros w. cbn. unfold mbind, M_bind. by destruct (fetch q w) as [[[]]|]. Qed.

Lemma same_write s : same (perform (write s)) (execute_ (exec s)).
Proof. intros w. cbn. unfold mbind, M_bind. by destruct (execute_ (exec s) w) as [[[[]|]]|]. Qed.

Lemma same_each {A} (l : list A) (body : A -> Prog unit) (body' : A -> M unit) :
  (forall x, same (perform (body x)) (body' x)) -> same (perform (prog_each l body)) (for_each l body').
Proof. intros Hb. induction l as [|x l IH]; cbn; [done | by apply same_perform]. Qed.

Lemma same_fold {A S} (body : S -> A -> Prog S) (body' : S -> A -> M S) s l :
  (forall s x, same (perform (body s x)) (body' s x)) -> same (perform (prog_fold body s l)) (fold_m body' s l).
Proof. intros Hb. revert s; induction l as [|x l IH]; intros s; cbn; [done | by apply same_perform]. Qed.

Lemma same_map {A B} (body : A -> Prog B) (body' : A -> M B) l :
  (forall x, same (perform (body x)) (body' x)) -> same (perform (prog_map body l)) (map_m body' l).
Proof.
  intros Hb. induction l as [|x l IH]; cbn; [done|]. apply same_perform; [done|]. intros y. by apply same_perform.
Qed.

Lemma same_column_row s n ci p : same (perform (prog_column_row s n ci p)) (column_row s n ci p).
Proof. destruct p. by apply same_check. Qed.

Lemma same_insert_columns kind s cs : same (perform (prog_insert_columns kind s cs)) (insert_columns kind s cs).
Proof.
  apply same_each. intros [ci c]. apply same_perform; [apply same_map, same_column_row|].
  intros rows. apply same_write.
Qed.

Lemma same_file_row u t f : same (perform (prog_file_row u t f)) (file_row u t f).
Proof.
  apply same_check; intros _. apply same_perform; [by destruct (FileSpec.file_uuid f)|]. intros x.
  apply same_check; intros ?. by apply same_check; intros ?.
Qed.

Lemma same_append u t fs : same (perform (prog_append_files u t fs)) (append_files u t fs).
Proof.
  apply same_check. intros _. apply same_each. intros c. apply same_perform; [apply same_map, same_file_row|].
  intros rows. apply same_write.
Qed.

Lemma same_delete u t us : same (perform (prog_delete_files u t us)) (delete_files u t us).
Proof. apply same_check. intros _. apply same_each. intros c. apply same_write. Qed.

Lemma same_query_one {T} (q : Db -> list T) : same (perform (query_one q)) (fetch_one q).
Proof. apply same_perform; [apply same_query | done]. Qed.

Lemma same_update_schema kind u t ts cur spec :
  same (perform (prog_update_schema kind u t ts cur spec)) (update_schema kind u t ts cur spec).
Proof.
  apply same_check; intros _. apply same_check; intros old.
  apply same_perform; [apply same_query_one|]. intros row.
  apply same_perform; [apply same_query|]. intros rows.
  apply same_check; intros cols. apply same_check; intros _.
  apply (same_perform draw_v4 new_v4); [done|]. intros s.
  apply same_perform; [apply same_write|]. intros _. apply same_perform; [apply same_write|]. intros _.
  by apply same_perform; [apply same_insert_columns|].
Qed.

Lemma same_op kind u t ts cur st op :
  same (perform (prog_op kind u t ts cur st op)) (apply_op kind u t ts cur st op).
Proof.
  destruct op; cbn [prog_op apply_op]; [| | |done|by apply same_check].
  - by apply same_perform; [apply same_append|].
  - by apply same_perform; [apply same_delete|].
  - by apply same_perform; [apply same_update_schema|].
Qed.

Lemma perform_commit_body kind client ident base mutation :
  same (perform (prog_commit_body kind client ident base mutation))
    (commit_body kind client ident base mutation).
Proof.
  apply (same_perform (query_table ident) (fetch_table ident)).
  { apply (same_perform (query_optional _) (fetch_optional _)); [apply same_query | done]. }
  intros row. unfold prog_commit_rest. do 7 (apply same_check; intros ?).
  apply (same_perform draw_v7 next_transaction_id); [done|]. intros t.
  apply (same_perform draw_time utc_now); [done|]. intros ts.
  apply same_perform; [apply same_write|]. intros _.
  apply same_perform; [apply same_fold, same_op|]. intros st.
  apply same_check; intros text. by apply same_perform; [apply same_write|].
Qed.

Lemma perform_create_body kind client ident location spec properties :
  same (perform (prog_create_body kind client ident location spec properties))
    (create_body kind client ident location spec properties).
Proof.
  apply (same_perform (query_optional _) (fetch_optional _)); [apply same_query|]. intros row.
  apply same_check; intros _.
  apply (same_perform draw_v4 new_v4); [done|]. intros u.
  apply (same_perform draw_time utc_now); [done|]. intros ts. apply same_check; intros text.
  apply same_perform; [apply same_write|]. intros _.
  apply (same_perform draw_v7 next_transaction_id); [done|]. intros t.
  apply same_perform; [apply same_write|]. intros _.
  apply (same_perform draw_v4 new_v4); [done|]. intros s.
  apply same_perform; [apply same_write|]. intros _.
  apply same_perform; [apply same_insert_columns|]. intros _.
  by apply same_perform; [apply same_write|].
Qed.

End perform.
