(* ===== verification/Locality.v ===== *)
(** * The part of the database that belongs to a table

    A write transaction reads and writes rows of one table only.  [part u d] is
    what of [d] belongs to table [u]; a statement of a transaction on [u] does
    to [part u d] what it does to [d], succeeds on every database with the same
    part unless a key it inserts is taken there, and leaves the part of every
    other table alone. *)

From S2P Require Import Prelude Uuid Error Schema Db DbFacts Invariant Programs.

(** ** Parts *)

Section part.
Context (u : Blob).

Definition own_table (r : TableRow.t) : bool := beq (TableRow.table_uuid r) u.
Definition own_txn (r : TransactionRow.t) : bool := beq (TransactionRow.table_uuid r) u.
Definition own_schema (r : SchemaRow.t) : bool := beq (SchemaRow.table_uuid r) u.
Definition own_file (r : FileRow.t) : bool := beq (FileRow.table_uuid r) u.

(** A column belongs to the table of its schema. *)
Definition own_column (ss : list SchemaRow.t) (r : ColumnRow.t) : bool :=
  existsb (fun s => own_schema s && beq (SchemaRow.schema_uuid s) (ColumnRow.schema_uuid r)) ss.

Definition part (d : Db) : Db := mk_db
  (List.filter own_table (tables d)) (List.filter own_txn (transactions d))
  (List.filter own_schema (schemas d)) (List.filter (own_column (schemas d)) (columns d))
  (List.filter own_file (files d)) [].

Lemma own_column_spec ss r :
  own_column ss r = true <-> ColumnRow.schema_uuid r ∈ SchemaRow.schema_uuid <$> List.filter own_schema ss.
Proof.
  unfold own_column. rewrite existsb_exists, list_elem_of_fmap. split.
  - intros (s & Hs%list_elem_of_In & [Ho E%bool_decide_eq_true_1]%andb_true_iff). exists s.
    split; [done | by apply elem_of_filter'].
  - intros (s & E & [Hs Ho]%elem_of_filter'). exists s. split; [by apply list_elem_of_In|].
    apply andb_true_iff. split; [done | apply beq_true; congruence].
Qed.

Lemma part_txn_keys d t : t ∈ txn_keys (part d) -> t ∈ txn_keys d.
Proof. apply filter_fmap_key. Qed.

Lemma part_schema_keys d s : s ∈ schema_keys (part d) -> s ∈ schema_keys d.
Proof. apply filter_fmap_key. Qed.

Lemma part_table_keys d : u ∈ table_keys (part d) <-> u ∈ table_keys d.
Proof.
  split; [apply filter_fmap_key|]. intros (r & E & Hr)%list_elem_of_fmap.
  apply list_elem_of_fmap. exists r. split; [done|]. apply elem_of_filter'. split; [done|].
  by apply bool_decide_eq_true_2.
Qed.

(** The schemas of the table are those with their keys. *)
Lemma own_schema_key d s r :
  db_ok d -> s ∈ schema_keys (part d) -> r ∈ schemas d -> SchemaRow.schema_uuid r = s -> own_schema r = true.
Proof.
  intros Hok (r' & -> & [Hr' Ho]%elem_of_filter')%list_elem_of_fmap Hr E.
  assert (r = r') as ->; [|done]. by eapply nodup_fmap_inj; [exact (ok_schema_pk _ Hok) | ..].
Qed.

(** Selecting by a key of the part. *)
Lemma filter_filter {A} (p q : A -> bool) l :
  (forall x, x ∈ l -> p x = true -> q x = true) -> List.filter p (List.filter q l) = List.filter p l.
Proof.
  induction l as [|x l IH]; intros Hpq; cbn; [done|]. rewrite <- IH by (intros y Hy; apply Hpq; by right).
  destruct (q x) eqn:Eq; cbn; [done|]. destruct (p x) eqn:Ep; [|done].
  rewrite (Hpq x) in Eq; [done | left | done].
Qed.

Lemma select_schema_part d s :
  db_ok d -> s ∈ schema_keys (part d) -> select_schema s d = select_schema s (part d).
Proof.
  intros Hok Hs. symmetry. apply filter_filter. intros r Hr E%bool_decide_eq_true_1. by eapply own_schema_key.
Qed.

Lemma select_columns_part d s : s ∈ schema_keys (part d) -> select_columns s d = select_columns s (part d).
Proof.
  intros Hs. symmetry. apply filter_filter. intros r Hr E%bool_decide_eq_true_1. apply own_column_spec. by rewrite E.
Qed.

End part.

(** ** What a statement does when it succeeds *)

Definition raw (s : Stmt) (d : Db) : Db :=
  match s with
  | InsertTable r =>
      mk_db (tables d ++ [r]) (transactions d) (schemas d) (columns d) (files d) (table_stats d)
  | InsertTransaction r =>
      mk_db (tables d) (transactions d ++ [r]) (schemas d) (columns d) (files d) (table_stats d)
  | InsertSchema r => mk_db (tables d) (transactions d) (schemas d ++ [r]) (columns d) (files d) (table_stats d)
  | CloseSchema t s =>
      mk_db (tables d) (transactions d) (set_valid_to t s <$> schemas d) (columns d) (files d) (table_stats d)
  | InsertColumns rs => mk_db (tables d) (transactions d) (schemas d) (columns d ++ rs) (files d) (table_stats d)
  | InsertFiles rs => mk_db (tables d) (transactions d) (schemas d) (columns d) (files d ++ rs) (table_stats d)
  | RemoveFiles t u us =>
      mk_db (tables d) (transactions d) (schemas d) (columns d) (mark_removed t u us <$> files d) (table_stats d)
  | UpdateHead u s t p =>
      mk_db (set_head u s t p <$> tables d) (transactions d) (schemas d) (columns d) (files d) (table_stats d)
  end.

Lemma exec_raw s d e : exec s d = Ok e -> e = raw s d.
Proof.
  destruct s; cbn.
  - by intros (_ & _ & ->)%insert_table_ok.
  - by intros (_ & _ & _ & ->)%insert_transaction_ok.
  - by intros (_ & _ & _ & _ & ->)%insert_schema_ok.
  - by intros (_ & ->)%update_schema_valid_to_ok.
  - apply insert_columns_ok.
  - apply insert_files_ok.
  - by intros (_ & ->)%update_files_removed_ok.
  - apply update_table_head_ok.
Qed.

Lemma exec_db_ok s d e : exec s d = Ok e -> db_ok d -> db_ok e.
Proof.
  destruct s; cbn; eauto with planar; intros He Hd; (eapply insert_rows_inv; [|exact Hd|exact He]); eauto with planar.
Qed.

(** ** Keys *)

Inductive Key : Type :=
  | TableKey (b : Blob)
  | NameKey (n : string * string)
  | TransactionKey (b : Blob)
  | SchemaKey (b : Blob)
  | ColumnKey (b : Blob)
  | FileKey (b : Blob).

#[export] Instance Key_eq_dec : EqDecision Key.
Proof. solve_decision. Defined.

(** The primary keys a statement inserts, and the names of tables, which are
    unique too. *)
Definition stmt_keys (s : Stmt) : list Key :=
  match s with
  | InsertTable r => [TableKey (TableRow.table_uuid r); NameKey (TableRow.namespace r, TableRow.table_name r)]
  | InsertTransaction r => [TransactionKey (TransactionRow.transaction_id r)]
  | InsertSchema r => [SchemaKey (SchemaRow.schema_uuid r)]
  | InsertColumns rs => (fun r => ColumnKey (ColumnRow.column_uuid r)) <$> rs
  | InsertFiles rs => (fun r => FileKey (FileRow.file_uuid r)) <$> rs
  | _ => []
  end.

Definition log_keys (l : list Stmt) : list Key := concat (stmt_keys <$> l).

(** Those of a database. *)
Definition db_keys (d : Db) : list Key :=
  (TableKey <$> table_keys d) ++ (NameKey <$> table_names d) ++
  (TransactionKey <$> txn_keys d) ++ (SchemaKey <$> schema_keys d) ++
  (ColumnKey <$> (ColumnRow.column_uuid <$> columns d)) ++ (FileKey <$> (FileRow.file_uuid <$> files d)).

Lemma raw_keys s d k : k ∈ db_keys (raw s d) <-> k ∈ db_keys d \/ k ∈ stmt_keys s.
Proof.
  assert (forall t s' (rs : list SchemaRow.t), SchemaRow.schema_uuid <$> (set_valid_to t s' <$> rs) = SchemaRow.schema_uuid <$> rs) as E1.
  { intros t s' rs. rewrite <- list_fmap_compose. apply list_fmap_ext. intros ? r _. cbn.
    unfold set_valid_to. by case_bool_decide. }
  assert (forall t v us (rs : list FileRow.t), FileRow.file_uuid <$> (mark_removed t v us <$> rs) = FileRow.file_uuid <$> rs) as E2.
  { intros t v us rs. rewrite <- list_fmap_compose. apply list_fmap_ext. intros ? r _. cbn.
    unfold mark_removed. by destruct (deletes _ _ _). }
  assert (forall u s' t p (rs : list TableRow.t),
    TableRow.table_uuid <$> (set_head u s' t p <$> rs) = TableRow.table_uuid <$> rs) as E3.
  { intros u s' t p rs. rewrite <- list_fmap_compose. apply list_fmap_ext. intros ? r _. apply set_head_uuid. }
  assert (forall u s' t p (rs : list TableRow.t),
    (fun r => (TableRow.namespace r, TableRow.table_name r)) <$> (set_head u s' t p <$> rs) =
    (fun r => (TableRow.namespace r, TableRow.table_name r)) <$> rs) as E4.
  { intros u s' t p rs. rewrite <- list_fmap_compose. apply list_fmap_ext. intros ? r _. apply set_head_name. }
  unfold db_keys. destruct s; cbn [raw stmt_keys tables transactions schemas columns files];
    rewrite ?E1, ?E2, ?E3, ?E4, ?fmap_app, ?elem_of_app; cbn [fmap list_fmap];
    rewrite ?elem_of_cons, ?elem_of_nil, <- ?list_fmap_compose; try tauto; unfold compose; tauto.
Qed.

(** Rows whose keys differ from each other and from those of [l]. *)
Definition fresh_in {R K} (f : R -> K) (rs : list R) (l : list K) : Prop :=
  NoDup (f <$> rs) /\ forall k, k ∈ f <$> rs -> k ∉ l.

Lemma fresh_in_nil {R K} (f : R -> K) l : fresh_in f [] l.
Proof. split; [constructor|]. by intros k ?%elem_of_nil. Qed.

Lemma fresh_in_cons {R K} (f : R -> K) r rs l :
  fresh_in f (r :: rs) l <-> f r ∉ l /\ fresh_in f rs (l ++ [f r]).
Proof.
  unfold fresh_in. cbn. rewrite NoDup_cons. setoid_rewrite elem_of_cons. setoid_rewrite elem_of_app.
  setoid_rewrite list_elem_of_singleton. split.
  - intros [[Hn Hd] Hk]. split; [by apply Hk; left|]. split; [done|]. intros k Hin [Hl| ->]; [|done].
    by apply (Hk k); [right|].
  - intros (Hn & Hd & Hk). split; [split; [|done]|].
    + intros Hin. apply (Hk _ Hin). by right.
    + intros k [-> |Hin]; [done|]. intros Hl. apply (Hk _ Hin). by left.
Qed.

(** Batches of rows: what a multi-row INSERT needs and does. *)
Lemma insert_columns_iff rs d e :
  insert_rows insert_column rs d = Ok e <->
  fresh_in ColumnRow.column_uuid rs (ColumnRow.column_uuid <$> columns d) /\
  fresh_in (fun r => (ColumnRow.schema_uuid r, ColumnRow.column_name r)) rs (column_names d) /\
  Forall (fun r => ColumnRow.schema_uuid r ∈ schema_keys d) rs /\ e = raw (InsertColumns rs) d.
Proof.
  revert d; induction rs as [|r rs IH]; intros d; cbn [insert_rows].
  { rewrite Forall_nil. cbn. rewrite app_nil_r. destruct d. cbn. split.
    - intros [= <-]. split_and!; try done; apply fresh_in_nil.
    - by intros (_ & _ & _ & ->). }
  rewrite bind_ok, !fresh_in_cons, Forall_cons. setoid_rewrite insert_column_ok. split.
  - intros (d1 & (A & B & C & ->) & (D & E & F & ->)%IH). cbn in *. rewrite !fmap_app in *.
    rewrite <- app_assoc. done.
  - intros ((A & A') & (B & B') & (C & C') & ->). eexists. split; [done|]. apply IH. cbn.
    by rewrite !fmap_app, <- app_assoc.
Qed.

Lemma insert_files_iff rs d e :
  insert_rows insert_file rs d = Ok e <->
  fresh_in FileRow.file_uuid rs (FileRow.file_uuid <$> files d) /\
  Forall (fun r => FileRow.table_uuid r ∈ table_keys d /\ FileRow.added_in_transaction_id r ∈ txn_keys d /\
    opt_in (FileRow.removed_in_transaction_id r) (txn_keys d)) rs /\ e = raw (InsertFiles rs) d.
Proof.
  revert d; induction rs as [|r rs IH]; intros d; cbn [insert_rows].
  { rewrite Forall_nil. cbn. rewrite app_nil_r. destruct d. cbn. split.
    - intros [= <-]. split_and!; try done; apply fresh_in_nil.
    - by intros (_ & _ & ->). }
  rewrite bind_ok, !fresh_in_cons, Forall_cons. setoid_rewrite insert_file_ok. split.
  - intros (d1 & (A & B & C & D & ->) & (E & F & ->)%IH). cbn in *. rewrite !fmap_app in *.
    rewrite <- app_assoc. done.
  - intros ((A & A') & ((B & C & D) & B') & ->). eexists. split; [done|]. apply IH. cbn.
    by rewrite !fmap_app, <- app_assoc.
Qed.

Lemma db_keys_spec d k :
  k ∈ db_keys d <-> match k with
                    | TableKey b => b ∈ table_keys d
                    | NameKey n => n ∈ table_names d
                    | TransactionKey b => b ∈ txn_keys d
                    | SchemaKey b => b ∈ schema_keys d
                    | ColumnKey b => b ∈ ColumnRow.column_uuid <$> columns d
                    | FileKey b => b ∈ FileRow.file_uuid <$> files d
                    end.
Proof.
  unfold db_keys. rewrite !elem_of_app. split.
  - by intros [(b & -> & Hb)%list_elem_of_fmap|[(b & -> & Hb)%list_elem_of_fmap|
      [(b & -> & Hb)%list_elem_of_fmap|[(b & -> & Hb)%list_elem_of_fmap|
      [(b & -> & Hb)%list_elem_of_fmap|(b & -> & Hb)%list_elem_of_fmap]]]]].
  - destruct k; intros Hb; do 5 (try first [by left; apply list_elem_of_fmap_2 | right]);
      by apply list_elem_of_fmap_2.
Qed.

(** A statement that succeeds inserts keys that were not taken. *)
Lemma exec_fresh s d e k : exec s d = Ok e -> k ∈ stmt_keys s -> k ∉ db_keys d.
Proof.
  rewrite db_keys_spec.
  destruct s; cbn [exec stmt_keys]; try (by intros _ ?%elem_of_nil).
  - intros (Hn & Hm & _)%insert_table_ok [->|[->|Hin%elem_of_nil]%elem_of_cons]%elem_of_cons; done.
  - intros (Hn & _)%insert_transaction_ok ->%list_elem_of_singleton. done.
  - intros (Hn & _)%insert_schema_ok ->%list_elem_of_singleton. done.
  - intros ((_ & Hn) & _)%insert_columns_iff (r & -> & Hr)%list_elem_of_fmap. 
    by apply Hn, list_elem_of_fmap_2.
  - intros ((_ & Hn) & _)%insert_files_iff (r & -> & Hr)%list_elem_of_fmap. 
    by apply Hn, list_elem_of_fmap_2.
Qed.

(** ** Statements of a transaction on a table *)

(** [s], run on [d], writes rows of the table [u] that refer to rows of [u]. *)
Definition local (u : Blob) (d : Db) (s : Stmt) : Prop :=
  match s with
  | InsertTable r => TableRow.table_uuid r = u
  | InsertTransaction r =>
      TransactionRow.table_uuid r = u /\ u ∈ table_keys (part u d) /\
      opt_in (TransactionRow.parent_transaction_id r) (txn_keys (part u d))
  | InsertSchema r =>
      SchemaRow.table_uuid r = u /\ u ∈ table_keys (part u d) /\ SchemaRow.valid_from_transaction_id r ∈ txn_keys (part u d) /\
      opt_in (SchemaRow.valid_to_transaction_id r) (txn_keys (part u d))
  | CloseSchema t s => s ∈ schema_keys (part u d) /\ t ∈ txn_keys (part u d)
  | InsertColumns rs => Forall (fun r => ColumnRow.schema_uuid r ∈ schema_keys (part u d)) rs
  | InsertFiles rs =>
      u ∈ table_keys (part u d) /\
      Forall (fun r => FileRow.table_uuid r = u /\ FileRow.added_in_transaction_id r ∈ txn_keys (part u d) /\
        opt_in (FileRow.removed_in_transaction_id r) (txn_keys (part u d))) rs
  | RemoveFiles t v us => v = u /\ t ∈ txn_keys (part u d)
  | UpdateHead v _ _ _ => v = u
  end.

Lemma filter_ext_in' {A} (p q : A -> bool) l : (forall x, x ∈ l -> p x = q x) -> List.filter p l = List.filter q l.
Proof. intros H. apply filter_ext_in. intros x Hx. by apply H, list_elem_of_In. Qed.

Lemma fmap_id_in {A} (g : A -> A) (l : list A) : (forall x, x ∈ l -> g x = x) -> g <$> l = l.
Proof.
  induction l as [|x l IH]; intros Hg; cbn; [done|]. rewrite (Hg x) by left. f_equal. apply IH.
  intros y Hy. apply Hg. by right.
Qed.

Lemma filter_single {A} (p : A -> bool) x : List.filter p [x] = if p x then [x] else [].
Proof. done. Qed.

Lemma own_column_key u ss ss' r :
  (ColumnRow.schema_uuid r ∈ SchemaRow.schema_uuid <$> List.filter (own_schema u) ss <->
   ColumnRow.schema_uuid r ∈ SchemaRow.schema_uuid <$> List.filter (own_schema u) ss') ->
  own_column u ss r = own_column u ss' r.
Proof.
  rewrite <- !own_column_spec. destruct (own_column u ss r), (own_column u ss' r); intros [H1 H2]; auto.
  symmetry. auto.
Qed.

(** Columns that were there before a schema was inserted do not belong to it. *)
Lemma own_column_new u d r :
  db_ok d -> SchemaRow.schema_uuid r ∉ schema_keys d ->
  List.filter (own_column u (schemas d ++ [r])) (columns d) = List.filter (own_column u (schemas d)) (columns d).
Proof.
  intros Hok Hn. apply filter_ext_in'. intros c Hc. apply own_column_key.
  pose proof (proj1 (Forall_forall _ _) (ok_column_fk _ Hok) c Hc) as Hs. cbn in Hs.
  rewrite List.filter_app, fmap_app, elem_of_app, filter_single. split; [|by left]. intros [H|H]; [done|].
  destruct (own_schema u r); [|by apply elem_of_nil in H]. apply list_elem_of_singleton in H. congruence.
Qed.

Lemma own_column_closed u t s ss :
  List.filter (own_schema u) (set_valid_to t s <$> ss) = set_valid_to t s <$> List.filter (own_schema u) ss.
Proof. apply filter_fmap_comm. intros r. unfold own_schema. by rewrite set_valid_to_table. Qed.

Lemma set_valid_to_keys t s (ss : list SchemaRow.t) :
  SchemaRow.schema_uuid <$> (set_valid_to t s <$> ss) = SchemaRow.schema_uuid <$> ss.
Proof.
  rewrite <- list_fmap_compose. apply list_fmap_ext. intros ? r _. unfold compose, set_valid_to. by case_bool_decide.
Qed.

(** What a statement of [u] does to the part of [u]. *)
Lemma part_own u d s e : db_ok d -> local u d s -> exec s d = Ok e -> part u e = raw s (part u d).
Proof.
  intros Hok Hl He. pose proof (exec_raw _ _ _ He) as ->. unfold part. destruct s; cbn in *.
  - rewrite List.filter_app, filter_single. unfold own_table at 2. by rewrite Hl, beq_refl.
  - destruct Hl as [E _]. rewrite List.filter_app, filter_single. unfold own_txn at 2. by rewrite E, beq_refl.
  - destruct Hl as [E _]. apply insert_schema_ok in He as (Hn & _).
    rewrite own_column_new, List.filter_app, filter_single by done. unfold own_schema at 2. by rewrite E, beq_refl.
  - rewrite own_column_closed. f_equal. apply filter_ext_in'. intros c _. apply own_column_key.
    by rewrite own_column_closed, set_valid_to_keys.
  - rewrite List.filter_app. f_equal. f_equal. apply filter_all_true. intros r Hr. apply own_column_spec.
    by apply (proj1 (Forall_forall _ _) Hl r).
  - rewrite List.filter_app. f_equal. f_equal. apply filter_all_true. intros r Hr. apply bool_decide_eq_true_2.
    by apply (proj1 (Forall_forall _ _) (proj2 Hl) r).
  - f_equal. apply filter_fmap_comm. intros r. unfold own_file. by rewrite mark_removed_table.
  - f_equal. apply filter_fmap_comm. intros r. unfold own_table, set_head. by destruct (beq (TableRow.table_uuid r) _).
Qed.

(** And to the part of another table: nothing. *)
Lemma part_other u v d s e : u <> v -> db_ok d -> local v d s -> exec s d = Ok e -> part u e = part u d.
Proof.
  intros Hne Hok Hl He. pose proof (exec_raw _ _ _ He) as ->. unfold part. destruct s; cbn in *.
  - rewrite List.filter_app, filter_single. unfold own_table at 2.
    rewrite bool_decide_eq_false_2 by congruence. by rewrite app_nil_r.
  - destruct Hl as [E _]. rewrite List.filter_app, filter_single. unfold own_txn at 2.
    rewrite bool_decide_eq_false_2 by congruence. by rewrite app_nil_r.
  - destruct Hl as [E _]. apply insert_schema_ok in He as (Hn & _).
    rewrite own_column_new, List.filter_app, filter_single by done. unfold own_schema at 2.
    rewrite bool_decide_eq_false_2 by congruence. by rewrite app_nil_r.
  - destruct Hl as [Hs _]. f_equal.
    + rewrite own_column_closed. apply fmap_id_in. intros r [Hr Ho%bool_decide_eq_true_1]%elem_of_filter'.
      apply set_valid_to_other. intros E. apply Hne.
      pose proof (own_schema_key v d s r Hok Hs Hr E) as Hv%bool_decide_eq_true_1. congruence.
    + apply filter_ext_in'. intros c _. apply own_column_key. by rewrite own_column_closed, set_valid_to_keys.
  - f_equal. rewrite List.filter_app. rewrite (filter_all_false _ rs); [by rewrite app_nil_r|].
    intros r Hr. apply not_true_iff_false. rewrite own_column_spec.
    intros (x & E & [Hx Ho%bool_decide_eq_true_1]%elem_of_filter')%list_elem_of_fmap. apply Hne.
    pose proof (proj1 (Forall_forall _ _) Hl r Hr) as Hs.
    pose proof (own_schema_key v d _ x Hok Hs Hx (eq_sym E)) as Hv%bool_decide_eq_true_1. congruence.
  - f_equal. rewrite List.filter_app. rewrite (filter_all_false _ rs); [by rewrite app_nil_r|].
    intros r Hr. apply bool_decide_eq_false_2.
    destruct (proj1 (Forall_forall _ _) (proj2 Hl) r Hr) as [E _]. congruence.
  - destruct Hl as [E _]. f_equal. rewrite filter_fmap_comm.
    + apply fmap_id_in. intros r [Hr Ho%bool_decide_eq_true_1]%elem_of_filter'. unfold mark_removed, deletes.
      rewrite bool_decide_eq_false_2 by congruence. done.
    + intros r. unfold own_file. by rewrite mark_removed_table.
  - f_equal. rewrite filter_fmap_comm.
    + apply fmap_id_in. intros r [Hr Ho%bool_decide_eq_true_1]%elem_of_filter'. unfold set_head.
      rewrite bool_decide_eq_false_2 by congruence. done.
    + intros r. unfold own_table, set_head. by destruct (beq (TableRow.table_uuid r) _).
Qed.

(** On a database with the same part, the statement succeeds as well, unless a
    key it inserts is taken. *)
Lemma exec_transfer u d d' s e :
  db_ok d' -> part u d' = part u d -> local u d s -> exec s d = Ok e ->
  (forall k, k ∈ stmt_keys s -> k ∉ db_keys d') -> exec s d' = Ok (raw s d').
Proof.
  intros Hok Hp Hl He Hk. assert (u ∈ table_keys (part u d) -> u ∈ table_keys d') as Hu'.
  { rewrite <- Hp. apply part_table_keys. }
  assert (forall t, t ∈ txn_keys (part u d) -> t ∈ txn_keys d') as Ht.
  { intros t. rewrite <- Hp. apply part_txn_keys. }
  assert (forall o, opt_in o (txn_keys (part u d)) -> opt_in o (txn_keys d')) as Hopt.
  { intros o. apply opt_in_mono. exact Ht. }
  destruct s; cbn [exec local stmt_keys] in *.
  - apply insert_table_ok.
    pose proof (Hk (TableKey _) (proj2 (elem_of_cons _ _ _) (or_introl eq_refl))) as Hk1.
    pose proof (Hk (NameKey _) (proj2 (elem_of_cons _ _ _) (or_intror (proj2 (list_elem_of_singleton _ _) eq_refl))))
      as Hk2.
    by rewrite db_keys_spec in Hk1, Hk2.
  - destruct Hl as (E & Hu & Hpar). apply insert_transaction_ok.
    specialize (Hk _ (proj2 (list_elem_of_singleton _ _) eq_refl)). rewrite db_keys_spec in Hk.
    split_and!; [done | rewrite E; auto | auto | done].
  - destruct Hl as (E & Hu & Hf & Hto). apply insert_schema_ok.
    specialize (Hk _ (proj2 (list_elem_of_singleton _ _) eq_refl)). rewrite db_keys_spec in Hk.
    split_and!; [done | rewrite E; auto | auto | auto | done].
  - destruct Hl as [_ Hin]. apply update_schema_valid_to_ok. auto.
  - apply insert_columns_iff in He as ([Hn _] & [Hnn Hnd] & _ & _). apply insert_columns_iff.
    assert (forall r, r ∈ rs -> ColumnRow.schema_uuid r ∈ schema_keys (part u d')) as Hs.
    { intros r Hr. rewrite Hp. by apply (proj1 (Forall_forall _ _) Hl). }
    split_and!; [split; [done|] | split; [done|] | | done].
    + intros k (r & -> & Hr)%list_elem_of_fmap.
      assert (ColumnKey (ColumnRow.column_uuid r) ∉ db_keys d') as Hf; [|by rewrite db_keys_spec in Hf].
      apply Hk, list_elem_of_fmap. by exists r.
    + intros k Hin (c & E & Hc)%list_elem_of_fmap. apply (Hnd k Hin).
      apply list_elem_of_fmap in Hin as (r & -> & Hr). injection E as Es En.
      assert (c ∈ columns (part u d')) as Hcp.
      { apply elem_of_filter'. split; [done|]. apply own_column_spec. rewrite <- Es. by apply Hs. }
      rewrite Hp in Hcp. apply elem_of_filter' in Hcp as [Hcd _]. apply list_elem_of_fmap. exists c. by rewrite Es, En.
    + apply Forall_forall. intros r Hr. by eapply part_schema_keys, Hs.
  - apply insert_files_iff in He as ([Hn _] & _ & _). apply insert_files_iff.
    split_and!; [split; [done|] | | done].
    + intros k (r & -> & Hr)%list_elem_of_fmap.
      assert (FileKey (FileRow.file_uuid r) ∉ db_keys d') as Hf; [|by rewrite db_keys_spec in Hf].
      apply Hk, list_elem_of_fmap. by exists r.
    + apply Forall_forall. intros r Hr. destruct (proj1 (Forall_forall _ _) (proj2 Hl) r Hr) as (E & Ha & Hrm).
      split_and!; [rewrite E; by apply Hu', Hl | auto | auto].
  - destruct Hl as [_ Hin]. apply update_files_removed_ok. auto.
  - by apply update_table_head_ok.
Qed.
