(* ===== verification/Confine.v ===== *)
(** * Programs confined to a table

    A program is confined to the table [u] from a database on, if every
    statement it may reach is a statement of [u], or a query that depends on
    the part of [u] only.  The program of [commit] is confined to the table
    whose row it locked, that of [create_table] to the table it inserts; so
    their runs are the same on every database with the same part, and change no
    other part. *)

From S2P Require Import Prelude Uuid Error Limits Json DataType Format Schema Models Db DbFacts World Helpers Catalog Effects Invariant Programs Locality.
From stdpp Require Import relations.

(** ** One step of a program

    On the database it sees; the log is the statements it has written. *)

Definition Config (A : Type) : Type := Prog A * list Stmt * Db.

Definition pstep {A} (c c' : Config A) : Prop :=
  let '(m, L, e) := c in
  match m with
  | Done _ => False
  | Query q k => c' = (k (q e), L, e)
  | Write s k => exists e', exec s e = Ok e' /\ c' = (k, L ++ [s], e')
  | DrawV4 k => exists x, c' = (k x, L, e)
  | DrawV7 k => exists x, c' = (k x, L, e)
  | DrawTime k => exists x, c' = (k x, L, e)
  end.

(** The statements of a log, one after the other. *)
Fixpoint replay (L : list Stmt) (d : Db) : result SqlxError Db :=
  match L with
  | [] => Ok d
  | s :: L => e ← exec s d; replay L e
  end.

Lemma replay_snoc L s d e e' : replay L d = Ok e -> exec s e = Ok e' -> replay (L ++ [s]) d = Ok e'.
Proof.
  revert d; induction L as [|s0 L IH]; intros d; cbn.
  - intros [= ->] ->. done.
  - rewrite !bind_ok. intros (d1 & -> & Hr) He. exists d1. split; [done | by apply IH].
Qed.

Lemma pstep_replay {A} (d : Db) (c c' : Config A) :
  pstep c c' -> replay c.1.2 d = Ok c.2 -> replay c'.1.2 d = Ok c'.2.
Proof.
  destruct c as [[m L] e]. destruct m as [|X q k|s k|k|k|k]; cbn; [done| | |by intros (x & ->)..].
  - by intros ->.
  - intros (e' & He & ->) Hr. by eapply replay_snoc.
Qed.

Lemma psteps_replay {A} (m : Prog A) d c : rtc pstep (m, [], d) c -> replay c.1.2 d = Ok c.2.
Proof.
  intros Hr. assert (forall c0, rtc pstep c0 c -> replay c0.1.2 d = Ok c0.2 -> replay c.1.2 d = Ok c.2) as Hg.
  { intros c0 Hc. induction Hc as [|c0 c1 c2 Hs _ IH]; [done|]. intros H0. by eapply IH, pstep_replay. }
  by eapply Hg.
Qed.

Lemma replay_db_ok L d e : replay L d = Ok e -> db_ok d -> db_ok e.
Proof.
  revert d; induction L as [|s L IH]; intros d; cbn; [by intros [= ->]|].
  rewrite bind_ok. intros (d1 & H1 & H2) Hd. eapply IH; [exact H2|]. by eapply exec_db_ok.
Qed.

Lemma exec_keys s d e k : exec s d = Ok e -> k ∈ db_keys e <-> k ∈ db_keys d \/ k ∈ stmt_keys s.
Proof. intros ->%exec_raw. apply raw_keys. Qed.

Lemma replay_keys L d e k : replay L d = Ok e -> k ∈ db_keys e <-> k ∈ db_keys d \/ k ∈ log_keys L.
Proof.
  revert d; induction L as [|s L IH]; intros d; cbn.
  - intros [= ->]. unfold log_keys. cbn. rewrite elem_of_nil. tauto.
  - rewrite bind_ok. intros (d1 & H1 & H2). rewrite (IH _ H2), (exec_keys _ _ _ _ H1).
    unfold log_keys. cbn. rewrite elem_of_app. tauto.
Qed.

Lemma replay_fresh L d e k : replay L d = Ok e -> k ∈ log_keys L -> k ∉ db_keys d.
Proof.
  revert d; induction L as [|s L IH]; intros d; cbn.
  - intros _ Hk. by apply elem_of_nil in Hk.
  - rewrite bind_ok. intros (d1 & H1 & H2) [Hk|Hk]%elem_of_app; [by eapply exec_fresh|].
    intros Hd. apply (IH _ H2 Hk). rewrite (exec_keys _ _ _ _ H1). by left.
Qed.

(** ** Confinement, as a weakest precondition *)

Section confined.
Context (u : Blob).

Fixpoint confined {A} (m : Prog A) (Q : A -> Db -> Prop) (e : Db) {struct m} : Prop :=
  match m with
  | Done (Ok a) => Q a e
  | Done (Err _) => True
  | Query q k => (forall e', db_ok e' -> part u e' = part u e -> q e' = q e) /\ confined (k (q e)) Q e
  | Write s k => local u e s /\ forall e', exec s e = Ok e' -> confined k Q e'
  | DrawV4 k => forall x, confined (k x) Q e
  | DrawV7 k => forall x, confined (k x) Q e
  | DrawTime k => forall x, confined (k x) Q e
  end.

Lemma confined_mono {A} (m : Prog A) (P Q : A -> Db -> Prop) e :
  confined m P e -> (forall a e', P a e' -> Q a e') -> confined m Q e.
Proof.
  intros Hm HPQ. revert e Hm.
  induction m as [[a|err]|X q k IH|s k IH|k IH|k IH|k IH]; intros e; cbn; auto.
  - intros [Hq Hk]. auto.
  - intros [Hl Hk]. auto.
Qed.

Lemma confined_bind {A B} (m : Prog A) (f : A -> Prog B) Q e :
  confined m (fun a e' => confined (f a) Q e') e -> confined (m ≫= f) Q e.
Proof.
  change (m ≫= f) with (prog_bind m f). revert e.
  induction m as [[a|err]|X q k IH|s k IH|k IH|k IH|k IH]; intros e; cbn; auto.
  - intros [Hq Hk]. auto.
  - intros [Hl Hk]. auto.
Qed.

Lemma confined_ret {A} (a : A) (Q : A -> Db -> Prop) e : Q a e -> confined (mret a) Q e.
Proof. done. Qed.

Lemma confined_check {A B} (r : result CatalogError A) (f : A -> Prog B) Q e :
  (forall a, r = Ok a -> confined (f a) Q e) -> confined (check r ≫= f) Q e.
Proof. intros Hf. destruct r; [by apply Hf | done]. Qed.

(** Loops, with an invariant of the database. *)
Lemma confined_each {A} (I : Db -> Prop) (l : list A) (body : A -> Prog unit) e :
  (forall x e', x ∈ l -> I e' -> confined (body x) (fun _ => I) e') -> I e ->
  confined (prog_each l body) (fun _ => I) e.
Proof.
  revert e; induction l as [|x l IH]; intros e Hb HI; cbn; [done|]. apply confined_bind.
  eapply confined_mono; [apply Hb; [left | done]|]. intros [] e' HI'. apply IH; [|done].
  intros y e2 Hy. apply Hb. by right.
Qed.

Lemma confined_fold {A S} (I : Db -> Prop) (l : list A) (body : S -> A -> Prog S) s e :
  (forall s' x e', x ∈ l -> I e' -> confined (body s' x) (fun _ => I) e') -> I e ->
  confined (prog_fold body s l) (fun _ => I) e.
Proof.
  revert s e; induction l as [|x l IH]; intros s e Hb HI; cbn; [done|]. apply confined_bind.
  eapply confined_mono; [apply Hb; [left | done]|]. intros s' e' HI'. apply IH; [|done].
  intros s2 y e2 Hy. apply Hb. by right.
Qed.

Lemma confined_map {A B} (I : Db -> Prop) (P : B -> Prop) (l : list A) (body : A -> Prog B) e :
  (forall x e', I e' -> confined (body x) (fun y e2 => P y /\ I e2) e') -> I e ->
  confined (prog_map body l) (fun ys e' => Forall P ys /\ I e') e.
Proof.
  intros Hb. revert e; induction l as [|x l IH]; intros e HI; cbn; [split; [constructor | done]|].
  apply confined_bind. eapply confined_mono; [by apply Hb|]. intros y e1 [HP HI1].
  apply confined_bind. eapply confined_mono; [by apply IH|]. intros ys e2 [HF HI2]. split; [by constructor | done].
Qed.

End confined.

(** ** The program of [commit] is confined *)

Section commit.
Context `{Env} (kind : DbKind) (client : ProtocolVersions.t) (u t : Uuid) (cur : option Uuid).

(** What its statements need: the table, the new transaction and the schema it
    started from are there. *)
Record within (e : Db) : Prop := {
  within_ok : db_ok e;
  within_table : as_bytes u ∈ table_keys (part (as_bytes u) e);
  within_txn : as_bytes t ∈ txn_keys (part (as_bytes u) e);
  within_schema s : cur = Some s -> as_bytes s ∈ schema_keys (part (as_bytes u) e)
}.

Lemma part_keys_grow v s e e' k :
  db_ok e -> local v e s -> exec s e = Ok e' ->
  k ∈ db_keys (part v e) \/ k ∈ stmt_keys s -> k ∈ db_keys (part v e').
Proof. intros Hok Hl He Hk. rewrite (part_own v e s e') by done. by apply raw_keys. Qed.

Lemma within_exec s e e' : within e -> local (as_bytes u) e s -> exec s e = Ok e' -> within e'.
Proof.
  intros [Hok Hu Ht Hs] Hl He. split.
  - by eapply exec_db_ok.
  - assert (TableKey (as_bytes u) ∈ db_keys (part (as_bytes u) e')) as Hk; [|by rewrite db_keys_spec in Hk].
    eapply part_keys_grow; [done..|]. left. by rewrite db_keys_spec.
  - assert (TransactionKey (as_bytes t) ∈ db_keys (part (as_bytes u) e')) as Hk; [|by rewrite db_keys_spec in Hk].
    eapply part_keys_grow; [done..|]. left. by rewrite db_keys_spec.
  - intros s' Es. assert (SchemaKey (as_bytes s') ∈ db_keys (part (as_bytes u) e')) as Hk; [|by rewrite db_keys_spec in Hk].
    eapply part_keys_grow; [done..|]. left. rewrite db_keys_spec. by apply Hs.
Qed.

Lemma confined_query {X B} (q : Db -> X) (f : X -> Prog B) Q e :
  (forall e', db_ok e' -> part (as_bytes u) e' = part (as_bytes u) e -> q e' = q e) ->
  confined (as_bytes u) (f (q e)) Q e -> confined (as_bytes u) (query q ≫= f) Q e.
Proof. intros Hq Hf. by split. Qed.

(** [within], with a schema of the table's own. *)
Definition within_new (s : Uuid) (e : Db) : Prop := within e /\ as_bytes s ∈ schema_keys (part (as_bytes u) e).

Lemma confined_column_row s n ci p (I : Db -> Prop) e :
  I e -> confined (as_bytes u) (prog_column_row s n ci p)
    (fun r e' => ColumnRow.schema_uuid r = as_bytes s /\ I e') e.
Proof. intros HI. destruct p as [i c]. apply confined_check. intros b _ x. by split. Qed.

Lemma confined_insert_columns s cs e :
  within_new s e -> confined (as_bytes u) (prog_insert_columns kind s cs) (fun _ => within_new s) e.
Proof.
  intros HI. apply confined_each; [|done]. clear e HI. intros [ci c] e _ HI. apply confined_bind.
  eapply confined_mono; [apply (confined_map _ (within_new s) (fun r => ColumnRow.schema_uuid r = as_bytes s));
    [intros; by apply confined_column_row | exact HI]|].
  intros rows e' [Hrows [HI' Hs]]. assert (local (as_bytes u) e' (InsertColumns rows)) as Hl.
  { cbn. eapply Forall_impl; [exact Hrows|]. by intros r ->. }
  split; [exact Hl|]. intros e2 He. split; [by eapply within_exec|].
  assert (SchemaKey (as_bytes s) ∈ db_keys (part (as_bytes u) e2)) as Hk; [|by rewrite db_keys_spec in Hk].
  eapply part_keys_grow; [apply HI' | done..|]. left. by rewrite db_keys_spec.
Qed.

(** A file the transaction adds. *)
Definition new_file (r : FileRow.t) : Prop :=
  FileRow.table_uuid r = as_bytes u /\ FileRow.added_in_transaction_id r = as_bytes t /\
  FileRow.removed_in_transaction_id r = None.

Lemma confined_file_row f e :
  within e -> confined (as_bytes u) (prog_file_row u t f) (fun r e' => new_file r /\ within e') e.
Proof.
  intros HI. apply confined_check; intros _ _. apply confined_bind.
  destruct (FileSpec.file_uuid f); cbn; intros; (apply confined_check; intros ? _);
    (apply confined_check; intros ? _); by split.
Qed.

Lemma confined_append fs e :
  within e -> confined (as_bytes u) (prog_append_files u t fs) (fun _ => within) e.
Proof.
  intros HI. apply confined_check; intros _ _. apply confined_each; [|done]. clear e HI.
  intros c e _ HI. apply confined_bind.
  eapply confined_mono; [apply (confined_map _ within new_file); [intros; by apply confined_file_row | exact HI]|].
  intros rows e' [Hrows HI']. assert (local (as_bytes u) e' (InsertFiles rows)) as Hl.
  { split; [apply HI'|]. eapply Forall_impl; [exact Hrows|]. intros r (-> & -> & ->).
    split_and!; [done | apply HI' | done]. }
  split; [exact Hl|]. intros e2 He. by eapply within_exec.
Qed.

Lemma confined_delete us e :
  within e -> confined (as_bytes u) (prog_delete_files u t us) (fun _ => within) e.
Proof.
  intros HI. apply confined_check; intros _ _. apply confined_each; [|done]. clear e HI.
  intros c e _ HI. assert (local (as_bytes u) e (RemoveFiles (as_bytes t) (as_bytes u) (as_bytes <$> c))) as Hl.
  { split; [done | apply HI]. }
  split; [exact Hl|]. intros e2 He. by eapply within_exec.
Qed.

Lemma confined_update_schema ts spec e :
  within e -> confined (as_bytes u) (prog_update_schema kind u t ts cur spec) (fun _ => within) e.
Proof.
  intros HI. apply confined_check; intros _ _. apply confined_check; intros old Hold%ok_or_ok.
  pose proof (within_schema _ HI old Hold) as Hs.
  assert (forall e', part (as_bytes u) e' = part (as_bytes u) e ->
    as_bytes old ∈ schema_keys (part (as_bytes u) e')) as Hs' by by intros e' ->.
  apply confined_bind. apply (confined_query _ (fun o => check (ok_or o (Storage RowNotFound)))).
  { intros e' Hok' Hp. rewrite (select_schema_part (as_bytes u) e'), (select_schema_part (as_bytes u) e) by (first [done | by apply Hs' | apply HI]). by rewrite Hp. }
  destruct (head _) as [row|]; [|done]. apply confined_query.
  { intros e' Hok' Hp. rewrite (select_columns_part (as_bytes u) e'), (select_columns_part (as_bytes u) e) by (first [done | by apply Hs']). by rewrite Hp. }
  apply confined_check; intros cols _. apply confined_check; intros _ _. intros s.
  assert (local (as_bytes u) e (InsertSchema (SchemaRow.mk (as_bytes s) (as_bytes u)
    (wrap_i32 (SchemaRow.schema_version row + 1)) (as_bytes t) None ts))) as Hl1.
  { split_and!; [done | apply HI | apply HI | done]. }
  split; [exact Hl1|]. intros e1 He1.
  assert (within e1) as HI1 by by eapply within_exec.
  assert (local (as_bytes u) e1 (CloseSchema (as_bytes t) (as_bytes old))) as Hl2.
  { split; [by apply HI1 | apply HI1]. }
  assert (SchemaKey (as_bytes s) ∈ db_keys (part (as_bytes u) e1)) as Hk1.
  { eapply part_keys_grow; [apply HI | done..|]. right. left. }
  split; [exact Hl2|]. intros e2 He2.
  assert (SchemaKey (as_bytes s) ∈ db_keys (part (as_bytes u) e2)) as Hk2.
  { eapply part_keys_grow; [apply HI1 | done..|]. by left. }
  apply confined_bind, confined_ret, confined_bind. eapply confined_mono; [apply confined_insert_columns|].
  - split; [by eapply within_exec | by rewrite db_keys_spec in Hk2].
  - by intros [] e3 [? _].
Qed.

Lemma confined_op ts st op e :
  within e -> confined (as_bytes u) (prog_op kind u t ts cur st op) (fun _ => within) e.
Proof.
  intros HI. destruct op; cbn [prog_op].
  - apply confined_bind. eapply confined_mono; [by apply confined_append|]. by intros [] e'.
  - apply confined_bind. eapply confined_mono; [by apply confined_delete|]. by intros [] e'.
  - apply confined_bind. eapply confined_mono; [by apply confined_update_schema|]. by intros s e'.
  - done.
  - by apply confined_check.
Qed.

End commit.

(** Once it has the row of its table. *)
Lemma confined_commit `{Env} kind client ident base mutation row d :
  catalog_inv d -> row ∈ tables d ->
  confined (TableRow.table_uuid row) (prog_commit_rest kind client ident base mutation row) (fun _ _ => True) d.
Proof.
  intros Hinv Hrow.
  pose proof (proj1 (Forall_forall _ _) (inv_history _ Hinv) row Hrow) as (_ & _ & Hlast).
  pose proof (proj1 (Forall_forall _ _) (inv_schemas _ Hinv) row Hrow) as (_ & _ & Hsch & _).
  apply confined_check; intros u Hu%uuid_from_row_ok. rewrite Hu in *.
  apply confined_check; intros cur Hcur%uuid_from_row_optional_ok.
  apply confined_check; intros head Hhead%uuid_from_row_optional_ok.
  apply confined_check; intros props _. apply confined_check; intros [] _.
  apply confined_check; intros current ->%ok_or_ok. apply confined_check; intros [] _. intros t ts.
  pose proof (inv_db _ Hinv) as Hok.
  assert (local (as_bytes u) d (InsertTransaction
    (TransactionRow.mk (as_bytes t) (as_bytes u) ts (Some (as_bytes current))))) as Hl.
  { split_and!; [done | |].
    - apply part_table_keys. rewrite <- Hu. by apply list_elem_of_fmap_2.
    - rewrite Hhead in Hlast. cbn. by apply last_Some_elem_of in Hlast. }
  split; [exact Hl|]. intros e1 He1.
  assert (within u t cur e1) as HI.
  { split.
    - by eapply exec_db_ok.
    - assert (TableKey (as_bytes u) ∈ db_keys (part (as_bytes u) e1)) as Hk; [|by rewrite db_keys_spec in Hk].
      eapply part_keys_grow; [done..|]. left. rewrite db_keys_spec. apply Hl.
    - assert (TransactionKey (as_bytes t) ∈ db_keys (part (as_bytes u) e1)) as Hk; [|by rewrite db_keys_spec in Hk].
      eapply part_keys_grow; [done..|]. right. left.
    - intros s ->. assert (SchemaKey (as_bytes s) ∈ db_keys (part (as_bytes u) e1)) as Hk;
        [|by rewrite db_keys_spec in Hk].
      eapply part_keys_grow; [done..|]. left. rewrite db_keys_spec.
      rewrite Hcur in Hsch. by apply last_Some_elem_of in Hsch. }
  apply confined_bind, confined_ret, confined_bind.
  eapply confined_mono; [apply (confined_fold _ (within u t cur)); [|exact HI]|].
  { intros st op e' _ HI'. by apply confined_op. }
  intros st e2 HI2. apply confined_check; intros text _. by split.
Qed.

(** A creation, from its INSERT INTO tables on. *)
Lemma confined_create `{Env} kind client ident location spec u ts text d :
  db_ok d ->
  confined (as_bytes u) (prog_create_insert kind client ident location spec u ts text) (fun _ _ => True) d.
Proof.
  intros Hok. set (r := new_table_row client ident location u ts text).
  assert (local (as_bytes u) d (InsertTable r)) as Hl1 by done. split; [exact Hl1|]. intros e1 He1.
  pose proof (exec_db_ok _ _ _ He1 Hok) as Hok1.
  assert (TableKey (as_bytes u) ∈ db_keys (part (as_bytes u) e1)) as Hk1.
  { eapply part_keys_grow; [exact Hok | done..|]. right. left. }
  rewrite db_keys_spec in Hk1. intros t.
  assert (local (as_bytes u) e1 (InsertTransaction (TransactionRow.mk (as_bytes t) (as_bytes u) ts None))) as Hl2
    by done.
  split; [exact Hl2|]. intros e2 He2.
  assert (within u t None e2) as HI2.
  { split; [by eapply exec_db_ok | | | done].
    - assert (TableKey (as_bytes u) ∈ db_keys (part (as_bytes u) e2)) as Hk; [|by rewrite db_keys_spec in Hk].
      eapply part_keys_grow; [exact Hok1 | done..|]. left. by rewrite db_keys_spec.
    - assert (TransactionKey (as_bytes t) ∈ db_keys (part (as_bytes u) e2)) as Hk; [|by rewrite db_keys_spec in Hk].
      eapply part_keys_grow; [exact Hok1 | done..|]. right. left. }
  intros s. set (r3 := SchemaRow.mk (as_bytes s) (as_bytes u) INITIAL_SCHEMA_VERSION (as_bytes t) None ts).
  assert (local (as_bytes u) e2 (InsertSchema r3)) as Hl3 by (split_and!; [done | apply HI2 | apply HI2 | done]).
  split; [exact Hl3|]. intros e3 He3. apply confined_bind, confined_ret, confined_bind.
  eapply confined_mono; [apply (confined_insert_columns kind u t None)|].
  - split; [by eapply within_exec|].
    assert (SchemaKey (as_bytes s) ∈ db_keys (part (as_bytes u) e3)) as Hk; [|by rewrite db_keys_spec in Hk].
    eapply part_keys_grow; [apply HI2 | done..|]. right. left.
  - intros [] e4 _. by split.
Qed.

(** ** Runs of confined programs *)

Section runs.
Context {A : Type} (u : Blob) (Q : A -> Db -> Prop).

Lemma confined_pstep (c c' : Config A) : confined u c.1.1 Q c.2 -> pstep c c' -> confined u c'.1.1 Q c'.2.
Proof.
  destruct c as [[m L] e]. destruct m as [|X q k|s k|k|k|k]; cbn; [done| | |intros Hk (x & ->); apply Hk..].
  - by intros [_ Hk] ->.
  - intros [_ Hk] (e' & He & ->). by apply Hk.
Qed.

Lemma confined_psteps (c c' : Config A) : confined u c.1.1 Q c.2 -> rtc pstep c c' -> confined u c'.1.1 Q c'.2.
Proof. intros Hc Hr. induction Hr as [|c c1 c2 Hs _ IH]; [done|]. by eapply IH, confined_pstep. Qed.

Lemma pstep_log (c c' : Config A) : pstep c c' -> exists M, c'.1.2 = c.1.2 ++ M.
Proof.
  destruct c as [[m L] e]. destruct m as [|X q k|s k|k|k|k]; cbn; [done| | |intros (x & ->)..].
  2: intros (e' & _ & ->); by exists [s].
  1: intros ->. all: exists []; by rewrite app_nil_r.
Qed.

Lemma psteps_log (c c' : Config A) : rtc pstep c c' -> exists M, c'.1.2 = c.1.2 ++ M.
Proof.
  intros Hr. induction Hr as [c|c c1 c2 (M & E)%pstep_log _ (M' & E')]; [exists []; by rewrite app_nil_r|].
  exists (M ++ M'). by rewrite E', E, app_assoc.
Qed.

(** What a transaction on another table writes is none of this one's. *)
Lemma pstep_part v (c c' : Config A) :
  v <> u -> db_ok c.2 -> confined u c.1.1 Q c.2 -> pstep c c' -> part v c'.2 = part v c.2 /\ db_ok c'.2.
Proof.
  intros Hne. destruct c as [[m L] e]. destruct m as [|X q k|s k|k|k|k]; cbn; intros Hok;
    [done | by intros _ -> | | by intros _ (x & ->)..].
  intros [Hl _] (e' & He & ->). split; [by eapply part_other | by eapply exec_db_ok].
Qed.

Lemma psteps_part v (c c' : Config A) :
  v <> u -> db_ok c.2 -> confined u c.1.1 Q c.2 -> rtc pstep c c' -> part v c'.2 = part v c.2.
Proof.
  intros Hne Hok Hc Hr. induction Hr as [|c c1 c2 Hs _ IH]; [done|].
  destruct (pstep_part v _ _ Hne Hok Hc Hs) as [E Hok1]. rewrite IH; [done | done | by eapply confined_pstep].
Qed.

(** The same run on another database with the same part.  [e] and [e'] are what
    the two runs see: of the keys the run will insert, those taken in [e'] are
    those it has inserted itself. *)
Record mirrors (L : list Stmt) (e e' : Db) : Prop := {
  mirror_ok : db_ok e;
  mirror_ok' : db_ok e';
  mirror_part : part u e' = part u e;
  mirror_keys k : k ∈ log_keys L -> k ∈ db_keys e' -> k ∈ db_keys e
}.

Lemma log_keys_app L M : log_keys (L ++ M) = log_keys L ++ log_keys M.
Proof. unfold log_keys. by rewrite fmap_app, concat_app. Qed.

Lemma mirrors_exec L s e e' e1 :
  mirrors L e e' -> local u e s -> (forall k, k ∈ stmt_keys s -> k ∈ log_keys L) -> exec s e = Ok e1 ->
  exists e1', exec s e' = Ok e1' /\ mirrors L e1 e1'.
Proof.
  intros [Hok Hok' Hp Hk] Hl Hs He. exists (raw s e').
  assert (forall k, k ∈ stmt_keys s -> k ∉ db_keys e') as Hf.
  { intros k Hin Ht. eapply exec_fresh; [exact He | exact Hin | by apply Hk; auto]. }
  assert (exec s e' = Ok (raw s e')) as He' by by eapply exec_transfer.
  assert (local u e' s) as Hl'.
  { unfold local in *. destruct s; by rewrite ?Hp. }
  split; [done|]. split.
  - by eapply exec_db_ok.
  - by eapply exec_db_ok.
  - rewrite (part_own u e s e1), (part_own u e' s) by done. by rewrite Hp.
  - intros k Hin. rewrite (exec_keys _ _ _ _ He), (exec_keys _ _ _ _ He'). intros [Ht|Ht]; [left; auto | by right].
Qed.

Lemma psteps_mirror (c c1 : Config A) e' :
  rtc pstep c c1 -> confined u c.1.1 Q c.2 -> mirrors c1.1.2 c.2 e' ->
  exists e1', rtc pstep (c.1, e') (c1.1, e1') /\ mirrors c1.1.2 c1.2 e1'.
Proof.
  intros Hr. revert e'; induction Hr as [c|c c1 c2 Hs Hr IH]; intros e' Hc Hm; [exists e'; split; [constructor | done]|].
  pose proof (confined_pstep _ _ Hc Hs) as Hc1. specialize (fun e' H => IH e' Hc1 H).
  pose proof (psteps_log _ _ Hr) as (M & EM).
  destruct c as [[m L] e]. destruct m as [|X q k|s k|k|k|k]; cbn in Hs; [done| | |destruct Hs as (x & ->)..];
    cbn [fst snd] in *.
  - subst c1. destruct Hc as [Hq _]. destruct (IH e' Hm) as (e2 & Hr2 & Hm2). exists e2. split; [|done].
    eapply rtc_l; [|exact Hr2]. cbn. by rewrite (Hq e') by apply Hm.
  - destruct Hs as (e1 & He & ->). destruct Hc as [Hl _]. cbn [fst snd] in *.
    destruct (mirrors_exec _ s e e' e1 Hm) as (e1' & He' & Hm1); [done | | done |].
    { intros k' Hk'. rewrite EM, !log_keys_app, !elem_of_app. left; right. unfold log_keys. cbn. by rewrite app_nil_r. }
    destruct (IH e1' Hm1) as (e2 & Hr2 & Hm2). exists e2. split; [|done].
    eapply rtc_l; [|exact Hr2]. cbn. by exists e1'.
  - destruct (IH e' Hm) as (e2 & Hr2 & Hm2). exists e2. split; [|done]. eapply rtc_l; [|exact Hr2]. by exists x.
  - destruct (IH e' Hm) as (e2 & Hr2 & Hm2). exists e2. split; [|done]. eapply rtc_l; [|exact Hr2]. by exists x.
  - destruct (IH e' Hm) as (e2 & Hr2 & Hm2). exists e2. split; [|done]. eapply rtc_l; [|exact Hr2]. by exists x.
Qed.

End runs.

(** ** A run is what [perform] does in some environment

    The environment answers with what the run drew, and no statement fails. *)

Definition with_outside `{Env} (o : Outside) : Env := {|
  env_ipc := env_ipc; env_format := env_format; env_text := env_text; env_json := env_json;
  env_enum := env_enum; env_outside := o
|}.

Record Answers : Type := mk_answers { ans_v4 : Uuid; ans_v7 : TxnId; ans_time : DateTime }.

(** From tick [n] on, [o] answers with [vs] and nothing fails. *)
Definition follows_answers (o : Outside) (n : nat) (vs : nat -> Answers) : Prop :=
  forall i, n <= i -> gen_v4 i = ans_v4 (vs i) /\ gen_v7 i = ans_v7 (vs i) /\ clock i = ans_time (vs i) /\
    fault i = None.

Lemma psteps_perform `{Env} {A} (c : Config A) a L e n :
  rtc pstep c (Done (Ok a), L, e) ->
  exists vs, forall o, follows_answers o n vs ->
  exists n', perform (H := with_outside o) c.1.1 (mk_world c.2 n) = Some (Ok a, mk_world e n').
Proof.
  intros Hr. remember (Done (Ok a), L, e) as c2 eqn:E2. revert n.
  induction Hr as [c|c c1 c2 Hs _ IH]; intros n; subst.
  { exists (fun _ => mk_answers (gen_v4 0) (gen_v4 0) 0%Z). intros o _. by exists n. }
  specialize (IH eq_refl). destruct (IH (S n)) as (vs & Hvs). clear IH.
  destruct c as [[m L0] e0].
  assert (forall x o, follows_answers o n (fun i => if bool_decide (i = n) then x else vs i) ->
    follows_answers o (S n) vs /\ gen_v4 n = ans_v4 x /\ gen_v7 n = ans_v7 x /\ clock n = ans_time x /\
    fault n = None) as Hfirst.
  { intros x o Ho. split.
    - intros i Hi. specialize (Ho i ltac:(lia)). cbn in Ho. by rewrite bool_decide_eq_false_2 in Ho by lia.
    - specialize (Ho n (le_n n)). cbn in Ho. by rewrite bool_decide_eq_true_2 in Ho. }
  set (x0 := mk_answers (gen_v4 0) (gen_v4 0) 0%Z).
  destruct m as [|X q k|s k|k|k|k]; cbn in Hs; [done| | |destruct Hs as (x & ->)..]; cbn [fst snd] in *.
  - subst c1. exists (fun i => if bool_decide (i = n) then x0 else vs i).
    intros o (Ho & _ & _ & _ & Hf)%Hfirst. destruct (Hvs o Ho) as (n' & E). exists n'. cbn.
    unfold mbind, M_bind, fetch. cbn. rewrite Hf. exact E.
  - destruct Hs as (e1 & He & ->). exists (fun i => if bool_decide (i = n) then x0 else vs i).
    intros o (Ho & _ & _ & _ & Hf)%Hfirst. destruct (Hvs o Ho) as (n' & E). exists n'. cbn.
    unfold mbind, M_bind, execute_, execute. cbn. rewrite Hf, He. exact E.
  - exists (fun i => if bool_decide (i = n) then mk_answers x (gen_v4 0) 0%Z else vs i).
    intros o (Ho & Hx & _)%Hfirst. destruct (Hvs o Ho) as (n' & E). exists n'. cbn.
    unfold mbind, M_bind, new_v4. cbn. rewrite Hx. exact E.
  - exists (fun i => if bool_decide (i = n) then mk_answers (gen_v4 0) x 0%Z else vs i).
    intros o (Ho & _ & Hx & _)%Hfirst. destruct (Hvs o Ho) as (n' & E). exists n'. cbn.
    unfold mbind, M_bind, next_transaction_id. cbn. rewrite Hx. exact E.
  - exists (fun i => if bool_decide (i = n) then mk_answers (gen_v4 0) (gen_v4 0) x else vs i).
    intros o (Ho & _ & _ & Hx & _)%Hfirst. destruct (Hvs o Ho) as (n' & E). exists n'. cbn.
    unfold mbind, M_bind, utc_now. cbn. rewrite Hx. exact E.
Qed.
