(* ===== verification/Locks.v ===== *)
(** * Write transactions run concurrently

    A commit and a creation are database transactions of several statements,
    and several may run at once.  What keeps them apart are the locks they take:
    BEGIN IMMEDIATE takes the one write lock of a SQLite database; on PostgreSQL
    SELECT ... FOR UPDATE takes the lock of the table's row, and an INSERT of a
    key, or of a table name, that a running transaction has inserted waits for
    that transaction.  This file runs the programs of Programs.v statement by
    statement, in any interleaving the locks allow, and shows that they still
    take effect one after the other: each COMMIT makes the abstract transition
    of its call on the database as it is at that moment. *)

From S2P Require Import Prelude Uuid Error Limits Json DataType Format Schema Models Db DbFacts World Helpers Catalog Api Effects Invariant RefEnv Scenario Safety Commit Programs Locality Confine.
From stdpp Require Import relations.

(** ** The system *)

(** The calls that write, and what they return. *)
Inductive Job : Type :=
  | JobCommit (client : ProtocolVersions.t) (ident : TableIdent.t) (base : TxnId) (mutation : Mutation.t)
  | JobCreate (client : ProtocolVersions.t) (ident : TableIdent.t) (location : string) (spec : SchemaSpec.t)
      (properties : option TableProperties.t).

Definition is_create (j : Job) : bool := match j with JobCreate _ _ _ _ _ => true | _ => false end.

Inductive Reply : Type :=
  | Committed (r : CommitResult.t)
  | Created (ident : TableIdent.t).

(** A running transaction: its call, the row of tables it has locked, what is
    left of its program and what it has written.  Others do not see that before
    it commits. *)
Module Tx.
Record t : Type := mk {
  job : Job;
  lock : option Blob;
  rest : Prog Reply;
  log : list Stmt
}.

Definition continue (T : t) (k : Prog Reply) (l : list Stmt) : t := mk (job T) (lock T) k l.
End Tx.

Record Sys : Type := mk_sys {
  committed : Db;
  ticks : nat;
  running : gmap nat Tx.t
}.

Inductive Action : Type :=
  | Begin (c : nat) (j : Job)
  | Advance (c : nat)
  | Rollback (c : nat)
  | Whole (client : ProtocolVersions.t) (call : Call).

(** The keys running transactions have inserted. *)
Definition keys_of (r : gmap nat Tx.t) : list Key := concat ((fun p => log_keys (Tx.log p.2)) <$> map_to_list r).

Section system.
Context `{Env} (kind : DbKind).

(** A transaction that locks the row of [v], or no row, has to wait. *)
Definition locked (s : Sys) (o : option Blob) : bool :=
  match kind, o with
  | Limits.Sqlite, _ => negb (bool_decide (running s = ∅))
  | Limits.Postgres, Some v => existsb (fun p => bool_decide (Tx.lock p.2 = Some v)) (map_to_list (running s))
  | Limits.Postgres, None => false
  end.

Definition set_tx (s : Sys) (c : nat) (T : Tx.t) : Sys :=
  mk_sys (committed s) (S (ticks s)) (<[c := T]> (running s)).

Definition end_tx (s : Sys) (c : nat) (d : Db) : Sys := mk_sys d (S (ticks s)) (delete c (running s)).

Definition commit_tx_prog (client : ProtocolVersions.t) (ident : TableIdent.t) (base : TxnId)
    (mutation : Mutation.t) (row : TableRow.t) : Prog Reply :=
  r ← prog_commit_rest kind client ident base mutation row; mret (Committed r).

Definition create_tx_prog (client : ProtocolVersions.t) (ident : TableIdent.t) (location : string)
    (spec : SchemaSpec.t) (u : Uuid) (ts : DateTime) (text : string) : Prog Reply :=
  i ← prog_create_insert kind client ident location spec u ts text; mret (Created i).

(** BEGIN and what precedes the first write: of a commit, the SELECT on tables,
    which takes the lock and reads the row as it is then; of a creation, the
    SELECT that finds the name free, and the new identifier.  A call that is
    refused before that starts no transaction. *)
Definition begin (s : Sys) (c : nat) (j : Job) : option Sys :=
  match running s !! c with
  | Some _ => None
  | None =>
      match j with
      | JobCommit client ident base mutation =>
          match check_mutation mutation,
            head (row_order (select_table (TableIdent.namespace ident) (TableIdent.name ident) (committed s))) with
          | Ok _, Some row =>
              if locked s (Some (TableRow.table_uuid row)) then None
              else Some (set_tx s c (Tx.mk j (Some (TableRow.table_uuid row))
                     (commit_tx_prog client ident base mutation row) []))
          | _, _ => None
          end
      | JobCreate client ident location spec properties =>
          match SchemaSpec.validate spec,
            head (row_order (select_table (TableIdent.namespace ident) (TableIdent.name ident) (committed s))),
            serialize_json (TableProperties.to_json (default TableProperties.new properties)) with
          | Ok _, None, Ok text =>
              if locked s None then None
              else Some (set_tx s c (Tx.mk j None
                     (create_tx_prog client ident location spec (gen_v4 (ticks s)) (clock (ticks s)) text) []))
          | _, _, _ => None
          end
      end
  end.

(** The next step of a transaction.  An INSERT of a key that another running
    transaction has inserted waits; an error ends the transaction, and what it
    wrote is gone; COMMIT makes it the committed state. *)
Definition advance (s : Sys) (c : nat) : option Sys :=
  T ← running s !! c;
  match replay (Tx.log T) (committed s) with
  | Err _ => None
  | Ok e =>
      match Tx.rest T with
      | Done (Ok _) => Some (end_tx s c e)
      | Done (Err _) => Some (end_tx s c (committed s))
      | Query q k => Some (set_tx s c (Tx.continue T (k (q e)) (Tx.log T)))
      | Write st k =>
          if existsb (fun key => bool_decide (key ∈ keys_of (delete c (running s)))) (stmt_keys st) then None
          else match exec st e with
               | Ok _ => Some (set_tx s c (Tx.continue T k (Tx.log T ++ [st])))
               | Err _ => Some (end_tx s c (committed s))
               end
      | DrawV4 k => Some (set_tx s c (Tx.continue T (k (gen_v4 (ticks s))) (Tx.log T)))
      | DrawV7 k => Some (set_tx s c (Tx.continue T (k (gen_v7 (ticks s))) (Tx.log T)))
      | DrawTime k => Some (set_tx s c (Tx.continue T (k (clock (ticks s))) (Tx.log T)))
      end
  end.

(** Any other call, in one step.  [drop_table] waits for the write lock of
    SQLite. *)
Definition whole (s : Sys) (client : ProtocolVersions.t) (call : Call) : option Sys :=
  match call with
  | CallCommit _ _ _ | CallCreate _ _ _ _ => None
  | _ =>
      if negb (is_read call) && bool_decide (kind = Limits.Sqlite) && negb (bool_decide (running s = ∅)) then None
      else match run (H := backend kind client) call (mk_world (committed s) (ticks s)) with
           | Some (_, w') => Some (mk_sys (db w') (tick w') (running s))
           | None => None
           end
  end.

Definition act (a : Action) (s : Sys) : option Sys :=
  match a with
  | Begin c j => begin s c j
  | Advance c => advance s c
  | Rollback c => T ← running s !! c; Some (end_tx s c (committed s))
  | Whole client call => whole s client call
  end.

Definition lstep (s s' : Sys) : Prop := exists a, act a s = Some s'.

(** The actions of a schedule, one after the other. *)
Fixpoint schedule (l : list Action) (s : Sys) : option Sys :=
  match l with
  | [] => Some s
  | a :: l => s ← act a s; schedule l s
  end.

Lemma schedule_steps l s s' : schedule l s = Some s' -> rtc lstep s s'.
Proof.
  revert s; induction l as [|a l IH]; intros s; cbn; [intros [= ->]; constructor|].
  intros (s1 & Ha & Hs)%bind_Some. eapply rtc_l; [by exists a | by apply IH].
Qed.

End system.

Definition idle (d : Db) (n : nat) : Sys := mk_sys d n ∅.

Lemma keys_of_spec r k : k ∈ keys_of r <-> exists c T, r !! c = Some T /\ k ∈ log_keys (Tx.log T).
Proof.
  unfold keys_of. rewrite list_elem_of_In, in_concat. split.
  - intros (l & Hl%list_elem_of_In & Hk%list_elem_of_In). apply list_elem_of_fmap in Hl as ([c T] & -> & HT).
    apply elem_of_map_to_list in HT. by exists c, T.
  - intros (c & T & HT & Hk). exists (log_keys (Tx.log T)). rewrite <- !list_elem_of_In. split; [|done].
    apply list_elem_of_fmap. exists (c, T). by rewrite elem_of_map_to_list.
Qed.

(** ** Transitions in another environment *)

Section outside.
Context `{Env} (o : Outside).

Lemma op_effect_outside u t ts cur op s s' :
  op_effect (H := with_outside o) u t ts cur op s s' -> op_effect u t ts cur op s s'.
Proof. intros []; by econstructor. Qed.

Lemma ops_effect_outside u t ts cur ops s s' :
  ops_effect (H := with_outside o) u t ts cur ops s s' -> ops_effect u t ts cur ops s s'.
Proof.
  induction 1 as [s|op ops s1 s2 s3 Hop _ IH]; [constructor|].
  eapply ops_cons; [by apply op_effect_outside | done].
Qed.

Lemma commit_effect_outside writer ident base t mutation d d' :
  commit_effect (H := with_outside o) writer ident base t mutation d d' ->
  commit_effect writer ident base t mutation d d'.
Proof. intros []. econstructor; try done. by apply ops_effect_outside. Qed.

Lemma create_effect_outside client ident location spec properties d d' :
  create_effect (H := with_outside o) client ident location spec properties d d' ->
  create_effect client ident location spec properties d d'.
Proof. intros []. by econstructor. Qed.

End outside.

(** ** Programs of transactions *)

Lemma perform_ret `{Env} {A B} (m : Prog A) (f : A -> B) b w w' :
  perform (r ← m; mret (f r)) w = Some (Ok b, w') -> exists a, b = f a /\ perform m w = Some (Ok a, w').
Proof.
  rewrite perform_bind. unfold mbind, M_bind. destruct (perform m w) as [[[a|err] w1]|]; cbn; [|done..].
  intros [= <- <-]. by exists a.
Qed.

Section jobs.
Context `{Env} `{!EnumerationLaws} (kind : DbKind).

(** What a call does when its transaction commits. *)
Inductive job_effect : Job -> Reply -> Db -> Db -> Prop :=
  | job_commit client ident base mutation r d d' :
      commit_effect (ProtocolVersions.writer client) ident base (CommitResult.transaction_id r) mutation d d' ->
      job_effect (JobCommit client ident base mutation) (Committed r) d d'
  | job_create client ident location spec properties d d' :
      create_effect client ident location spec properties d d' ->
      job_effect (JobCreate client ident location spec properties) (Created ident) d d'.

(** [m] is the program of the call after BEGIN, on [d]; it writes the table [u]. *)
Inductive starts (d : Db) : Job -> option Blob -> Blob -> Prog Reply -> Prop :=
  | starts_commit client ident base mutation row :
      check_mutation mutation = Ok tt -> table_row_of d ident = Some row ->
      starts d (JobCommit client ident base mutation) (Some (TableRow.table_uuid row)) (TableRow.table_uuid row)
        (commit_tx_prog kind client ident base mutation row)
  | starts_create client ident location spec properties u ts text :
      SchemaSpec.validate spec = Ok tt ->
      serialize_json (TableProperties.to_json (default TableProperties.new properties)) = Ok text ->
      starts d (JobCreate client ident location spec properties) None (as_bytes u)
        (create_tx_prog kind client ident location spec u ts text).

(** A run that starts with a write has done it, or nothing. *)
Lemma run_first_write {A} s (k : Prog A) d m L e :
  rtc pstep (Write s k, [], d) (m, L, e) ->
  m = Write s k /\ L = [] /\ e = d \/
  exists M e1, L = s :: M /\ exec s d = Ok e1 /\ rtc pstep (k, [s], e1) (m, L, e).
Proof.
  intros Hr. inversion Hr as [|c c1 c2 Hs Hr1]; subst; [by left | right].
  destruct Hs as (e1 & He & ->). destruct (psteps_log _ _ Hr1) as (M & EM). by exists M, e1.
Qed.

Lemma name_free ident d r e :
  TableRow.namespace r = TableIdent.namespace ident -> TableRow.table_name r = TableIdent.name ident ->
  insert_table r d = Ok e -> select_table (TableIdent.namespace ident) (TableIdent.name ident) d = [].
Proof.
  intros Hns Hn (_ & Hfree & _)%insert_table_ok. rewrite Hns, Hn in Hfree. apply elem_of_nil_inv.
  intros x (Hx & Ens & En)%select_table_in. apply Hfree. apply list_elem_of_fmap. exists x. by rewrite Ens, En.
Qed.

(** The environment that answers with what a run drew. *)
Definition answers (vs : nat -> Answers) : Outside := {|
  gen_v4 i := ans_v4 (vs i); gen_v7 i := ans_v7 (vs i); clock i := ans_time (vs i); fault _ := None
|}.

(** A run of the program that ends in success makes the abstract transition. *)
Lemma commit_prog_effect client ident base mutation row d reply L e :
  db_ok d -> table_row_of d ident = Some row -> check_mutation mutation = Ok tt ->
  rtc pstep (commit_tx_prog kind client ident base mutation row, [], d) (Done (Ok reply), L, e) ->
  job_effect (JobCommit client ident base mutation) reply d e /\ db_ok e.
Proof.
  intros Hok Hrow Hm Hr. destruct (psteps_perform _ _ _ _ 1 Hr) as (vs & Hvs).
  destruct (Hvs (answers vs)) as (n' & E); [done|]. cbn [fst snd] in E.
  apply (perform_ret (H := with_outside (answers vs))) in E as (r & -> & E).
  assert (commit_body (H := with_outside (answers vs)) kind client ident base mutation (mk_world d 0)
    = Some (Ok r, mk_world e n')) as Hrun.
  { rewrite <- (perform_commit_body (H := with_outside (answers vs))). unfold prog_commit_body, query_table,
      query_optional. cbn. unfold mbind at 1, M_bind at 1, fetch. cbn.
    rewrite (row_order_singleton _ row (table_row_of_select _ _ _ Hok Hrow)). exact E. }
  destruct (okp_elim _ _ _ _ _ (okp_commit_body (H := with_outside (answers vs)) kind client ident base mutation
    (mk_world d 0) Hok Hm) Hrun) as (_ & Hc & Hok').
  split; [|done]. constructor. exact (commit_effect_outside (answers vs) _ _ _ _ _ _ _ Hc).
Qed.

Lemma create_prog_effect client ident location spec properties u ts text d reply L e :
  db_ok d -> SchemaSpec.validate spec = Ok tt ->
  serialize_json (TableProperties.to_json (default TableProperties.new properties)) = Ok text ->
  rtc pstep (create_tx_prog kind client ident location spec u ts text, [], d) (Done (Ok reply), L, e) ->
  job_effect (JobCreate client ident location spec properties) reply d e /\ db_ok e.
Proof.
  intros Hok Hv Ht Hr.
  assert (rtc pstep (i ← prog_create_body kind client ident location spec properties; mret (Created i), [], d)
    (Done (Ok reply), L, e)) as Hr0.
  { apply run_first_write in Hr as Hf. destruct Hf as [(? & _)|(M & e1 & _ & Hins & _)]; [done|].
    cbn in Hins. eapply (name_free ident) in Hins; [|done..].
    eapply rtc_l; [cbn; reflexivity|]. rewrite Hins.
    replace (head (row_order ([] : list TableRow.t))) with (@None TableRow.t)
      by by rewrite (proj1 (Permutation_nil_r _) (row_order_perm _ [])).
    eapply rtc_l; [by exists u|]. eapply rtc_l; [by exists ts|]. rewrite Ht. exact Hr. }
  destruct (psteps_perform _ _ _ _ 0 Hr0) as (vs & Hvs).
  destruct (Hvs (answers vs)) as (n' & E); [done|]. cbn [fst snd] in E.
  apply (perform_ret (H := with_outside (answers vs))) in E as (i & -> & E).
  assert (create_body (H := with_outside (answers vs)) kind client ident location spec properties (mk_world d 0)
    = Some (Ok i, mk_world e n')) as Hrun.
  { rewrite <- (perform_create_body (H := with_outside (answers vs))). exact E. }
  destruct (okp_elim _ _ _ _ _ (okp_create_body (H := with_outside (answers vs)) kind client ident location spec
    properties (mk_world d 0) Hok Hv) Hrun) as (-> & Hc & Hok').
  split; [|done]. constructor. exact (create_effect_outside (answers vs) _ _ _ _ _ _ _ Hc).
Qed.

Lemma starts_effect d j o u m reply L e :
  db_ok d -> starts d j o u m -> rtc pstep (m, [], d) (Done (Ok reply), L, e) -> job_effect j reply d e /\ db_ok e.
Proof. intros Hok [] Hr; [by eapply commit_prog_effect | by eapply create_prog_effect]. Qed.

Lemma job_effect_inv j r d d' : catalog_inv d -> db_ok d' -> job_effect j r d d' -> catalog_inv d'.
Proof.
  intros Hinv Hok Hj.
  destruct Hj as [client ident base mutation r d d' Hc|client ident location spec properties d d' Hc];
    [by eapply commit_effect_inv|].
  eapply create_facts_inv; [done..|]. by eapply create_effect_facts.
Qed.

Lemma starts_confined d j o u m :
  catalog_inv d -> starts d j o u m -> confined u m (fun _ _ => True) d.
Proof.
  intros Hinv [client ident base mutation row _ Hrow|client ident location spec properties v ts text _ _];
    apply confined_bind; (eapply confined_mono; [|by intros]).
  - apply table_row_of_some in Hrow as (Hin & _). by apply confined_commit.
  - by apply confined_create, inv_db.
Qed.

(** What a transaction starts from is in the part of its table. *)
Lemma starts_part d d' j o u m : db_ok d' -> part u d' = part u d -> starts d j o u m -> starts d' j o u m.
Proof.
  intros Hok Hp Hs. destruct Hs as [client ident base mutation row Hm Hrow|]; [|by constructor].
  constructor; [done|]. pose proof Hrow as (Hin & Hns & Hname & _)%table_row_of_some.
  apply table_row_of_in; [done|]. apply select_table_in. split; [|done].
  assert (row ∈ tables (part (TableRow.table_uuid row) d)) as Hx.
  { apply elem_of_filter'. split; [done|]. by apply bool_decide_eq_true_2. }
  rewrite <- Hp in Hx. by apply elem_of_filter' in Hx as [? _].
Qed.

End jobs.

(** ** The invariant of the system *)

Section invariant.
Context `{Env} `{!EnumerationLaws} (kind : DbKind).

(** Run from the start on [d], the program of a transaction, which writes the
    table [u], gets to where the transaction is. *)
Definition tx_ok (d : Db) (T : Tx.t) (u : Blob) : Prop :=
  exists m e, starts kind d (Tx.job T) (Tx.lock T) u m /\ rtc pstep (m, [], d) (Tx.rest T, Tx.log T, e).

Record sys_ok (s : Sys) : Prop := {
  sys_inv : catalog_inv (committed s);
  sys_tx c T : running s !! c = Some T -> exists u, tx_ok (committed s) T u;
  sys_locks c c' T T' u : c <> c' -> running s !! c = Some T -> running s !! c' = Some T' ->
    Tx.lock T = Some u -> Tx.lock T' <> Some u;
  sys_keys c c' T T' k : c <> c' -> running s !! c = Some T -> running s !! c' = Some T' ->
    k ∈ log_keys (Tx.log T) -> k ∉ log_keys (Tx.log T')
}.

(** What the transaction has written so far, on the committed state. *)
Lemma tx_view d T u : tx_ok d T u -> exists e, replay (Tx.log T) d = Ok e.
Proof. intros (m & e & _ & Hr). exists e. by apply psteps_replay in Hr. Qed.

(** A transaction owns its table by the lock of its row, or because it has
    inserted it; only before that insert does it own none. *)
Definition owns (d : Db) (T : Tx.t) (u : Blob) : Prop :=
  (Tx.lock T = Some u /\ u ∈ table_keys d) \/ TableKey u ∈ log_keys (Tx.log T).

Lemma tx_owns d T u :
  tx_ok d T u -> owns d T u \/ Tx.lock T = None /\ Tx.log T = [] /\ exists s k, Tx.rest T = Write s k.
Proof.
  intros (m & e & Hs & Hr). destruct (Tx.lock T) as [v|] eqn:El.
  - left; left. inversion Hs as [client ident base mutation row _ Hrow|]; subst. split; [done|].
    apply table_row_of_some in Hrow as (Hin & _). by apply list_elem_of_fmap_2.
  - inversion Hs as [|client ident location spec properties v ts text _ _]; subst.
    destruct (run_first_write _ _ _ _ _ _ Hr) as [(Er & Eg & _)|(M & e1 & Eg & _)]; [right | left; right].
    + rewrite Er. by eauto.
    + rewrite Eg. unfold log_keys. cbn. left.
Qed.

Lemma owners_differ s c c' T T' u u' :
  sys_ok s -> c <> c' -> running s !! c = Some T -> running s !! c' = Some T' ->
  tx_ok (committed s) T u -> tx_ok (committed s) T' u' ->
  owns (committed s) T u -> owns (committed s) T' u' -> u <> u'.
Proof.
  intros Hs Hne HT HT' (e & He)%tx_view (e' & He')%tx_view Ho Ho' ->.
  assert (forall T e, replay (Tx.log T) (committed s) = Ok e -> TableKey u' ∈ log_keys (Tx.log T) ->
    u' ∉ table_keys (committed s)) as Hfresh.
  { intros T0 e0 He0 Hk. pose proof (replay_fresh _ _ _ _ He0 Hk) as Hn. by rewrite db_keys_spec in Hn. }
  destruct Ho as [[Hl Hin]|Hk], Ho' as [[Hl' Hin']|Hk'].
  - exact (sys_locks _ Hs _ _ _ _ _ Hne HT HT' Hl Hl').
  - exact (Hfresh _ _ He' Hk' Hin).
  - exact (Hfresh _ _ He Hk Hin').
  - exact (sys_keys _ Hs _ _ _ _ _ Hne HT HT' Hk Hk').
Qed.

(** A transaction does not notice a change of other tables that takes none of
    its keys; one that owns no table yet notices none. *)
Lemma tx_ok_mirror d d' T u :
  catalog_inv d -> catalog_inv d' -> tx_ok d T u -> part u d' = part u d ->
  (forall k, k ∈ log_keys (Tx.log T) -> k ∉ db_keys d') -> tx_ok d' T u.
Proof.
  intros Hinv Hinv' (m & e & Hs & Hr) Hp Hk.
  assert (starts kind d' (Tx.job T) (Tx.lock T) u m) as Hs' by (eapply starts_part; [apply Hinv' | done..]).
  destruct (psteps_mirror u _ _ _ d' Hr (starts_confined _ _ _ _ _ _ Hinv Hs)) as (e' & Hr' & _).
  { split; cbn; [apply Hinv | apply Hinv' | done |]. intros k Hkl Hkd. by destruct (Hk k Hkl). }
  by exists m, e'.
Qed.

(** A creation that has not inserted its table is at the start of its program. *)
Lemma tx_early d T u :
  Tx.lock T = None -> Tx.log T = [] -> tx_ok d T u -> starts kind d (Tx.job T) None u (Tx.rest T).
Proof.
  intros El Eg (m & e & Hs & Hr). rewrite El, Eg in *.
  inversion Hs as [|client ident location spec properties v ts text Hv Ht Ej]; subst.
  destruct (run_first_write _ _ _ _ _ _ Hr) as [(Em & _ & _)|(M & e1 & [=] & _)].
  rewrite Em, <- Ej in *. done.
Qed.

Lemma tx_ok_early d d' T u : Tx.lock T = None -> Tx.log T = [] -> tx_ok d T u -> tx_ok d' T u.
Proof.
  intros El Eg Hs%tx_early; [|done..]. exists (Tx.rest T), d'. rewrite El, Eg. split; [|constructor].
  inversion Hs as [|client ident location spec properties v ts text Hv Ht Ej]; subst. by econstructor.
Qed.

(** A transaction that starts or goes on. *)
Lemma set_tx_ok s c T u :
  sys_ok s -> tx_ok (committed s) T u ->
  (forall c' T', c <> c' -> running s !! c' = Some T' ->
     (forall v, Tx.lock T = Some v -> Tx.lock T' <> Some v) /\
     forall k, k ∈ log_keys (Tx.log T) -> k ∉ log_keys (Tx.log T')) ->
  sys_ok (set_tx s c T).
Proof.
  intros [Hinv Ht Hl Hk] HT Hnew. split; cbn; [done | | |].
  - intros c' T' [[<- <-]|[_ HT']]%lookup_insert_Some; [by exists u | by eapply Ht].
  - intros c1 c2 T1 T2 v Hne [[<- <-]|[Hn1 I1]]%lookup_insert_Some [[<- <-]|[Hn2 I2]]%lookup_insert_Some;
      [done | exact (proj1 (Hnew _ _ Hn2 I2) v) | | exact (Hl _ _ _ _ _ Hne I1 I2)].
    intros Hl1 Hl2. exact (proj1 (Hnew _ _ Hn1 I1) v Hl2 Hl1).
  - intros c1 c2 T1 T2 k Hne [[<- <-]|[Hn1 I1]]%lookup_insert_Some [[<- <-]|[Hn2 I2]]%lookup_insert_Some;
      [done | exact (proj2 (Hnew _ _ Hn2 I2) k) | | exact (Hk _ _ _ _ k Hne I1 I2)].
    intros Hin1 Hin2. exact (proj2 (Hnew _ _ Hn1 I1) k Hin2 Hin1).
Qed.

Lemma continue_ok s c T u k l :
  sys_ok s -> running s !! c = Some T -> tx_ok (committed s) (Tx.continue T k (Tx.log T ++ l)) u ->
  (forall x, x ∈ log_keys l -> x ∉ keys_of (delete c (running s))) ->
  sys_ok (set_tx s c (Tx.continue T k (Tx.log T ++ l))).
Proof.
  intros Hs HT HT' Hf. eapply set_tx_ok; [done..|]. intros c' T2 Hne HT2. split.
  { intros v. exact (sys_locks _ Hs _ _ _ _ v Hne HT HT2). }
  intros x. cbn [Tx.log Tx.continue]. rewrite log_keys_app.
  intros [Hx|Hx]%elem_of_app; [exact (sys_keys _ Hs _ _ _ _ x Hne HT HT2 Hx)|].
  intros Hx2. apply (Hf x Hx), keys_of_spec. exists c', T2. by rewrite lookup_delete_ne.
Qed.

(** Ending a transaction, with a committed state the others do not notice. *)
Lemma end_tx_ok s c d' :
  sys_ok s -> catalog_inv d' ->
  (forall c' T, c' <> c -> running s !! c' = Some T -> exists u, tx_ok d' T u) -> sys_ok (end_tx s c d').
Proof.
  intros [Hinv Ht Hl Hk] Hinv' Hot. split; cbn; [done | | |].
  - intros c' T (Hne & HT)%lookup_delete_Some. by eapply Hot.
  - intros c1 c2 T1 T2 v Hne (_ & I1)%lookup_delete_Some (_ & I2)%lookup_delete_Some.
    exact (Hl _ _ _ _ v Hne I1 I2).
  - intros c1 c2 T1 T2 k Hne (_ & I1)%lookup_delete_Some (_ & I2)%lookup_delete_Some.
    exact (Hk _ _ _ _ k Hne I1 I2).
Qed.

Lemma rollback_ok s c : sys_ok s -> sys_ok (end_tx s c (committed s)).
Proof. intros Hs. apply end_tx_ok; [done | apply Hs|]. intros c' T _ HT. by eapply sys_tx. Qed.

(** The COMMIT of a transaction, and what the others notice of it. *)
Lemma commit_others s c c' T T' u u' r e :
  sys_ok s -> c' <> c -> running s !! c = Some T -> running s !! c' = Some T' -> Tx.rest T = Done (Ok r) ->
  tx_ok (committed s) T u -> tx_ok (committed s) T' u' -> replay (Tx.log T) (committed s) = Ok e ->
  catalog_inv e -> tx_ok e T' u' /\
    (part u' e = part u' (committed s) \/ Tx.lock T' = None /\ Tx.log T' = []).
Proof.
  intros Hs Hne HT HT' Hrest Htx Htx' He Hinv'. pose proof (sys_inv _ Hs) as Hinv.
  destruct (tx_owns _ _ _ Htx) as [Ho|(_ & _ & s0 & k0 & E)]; [|by rewrite Hrest in E].
  destruct (tx_owns _ _ _ Htx') as [Ho'|(El & Eg & _)]; [|split; [by eapply tx_ok_early | by right]].
  assert (u' <> u) as Hu by by eapply (owners_differ s c' c).
  assert (part u' e = part u' (committed s)) as Hp.
  { destruct Htx as (m & e' & Hst & Hr). pose proof (psteps_replay _ _ _ Hr) as He'. cbn in He'.
    assert (e' = e) as -> by congruence.
    pose proof (starts_confined _ _ _ _ _ _ Hinv Hst) as Hc.
    apply (psteps_part u (fun _ _ => True) u' _ _) in Hr; [done | done | apply Hinv | done]. }
  split; [|by left]. apply (tx_ok_mirror (committed s)); [done..|].
  intros k Hk. rewrite (replay_keys _ _ _ _ He). destruct (tx_view _ _ _ Htx') as (e2 & He2).
  intros [Hd|Hl]; [by eapply replay_fresh|]. exact (sys_keys _ Hs c' c _ _ k Hne HT' HT Hk Hl).
Qed.

Lemma commit_tx s c T r e :
  sys_ok s -> running s !! c = Some T -> Tx.rest T = Done (Ok r) -> replay (Tx.log T) (committed s) = Ok e ->
  job_effect (Tx.job T) r (committed s) e /\ catalog_inv e /\ sys_ok (end_tx s c e).
Proof.
  intros Hs HT Hrest He. destruct (sys_tx _ Hs c T HT) as (u & Htx). pose proof (sys_inv _ Hs) as Hinv.
  pose proof Htx as (m & e' & Hst & Hr). pose proof (psteps_replay _ _ _ Hr) as He'. cbn in He'.
  assert (e' = e) as -> by congruence. rewrite Hrest in Hr.
  destruct (starts_effect kind _ _ _ _ _ _ _ _ (inv_db _ Hinv) Hst Hr) as [Heff Hok].
  pose proof (job_effect_inv _ _ _ _ Hinv Hok Heff) as Hinv'. split; [done|]. split; [done|].
  apply end_tx_ok; [done..|]. intros c' T' Hne HT'. destruct (sys_tx _ Hs c' T' HT') as (u' & Htx').
  exists u'. by eapply (commit_others s c c').
Qed.

(** What an action does to the committed state: a COMMIT makes the transition
    of its call, and nothing else is seen by others. *)
Definition transition (a : Action) (s s' : Sys) : Prop :=
  match a with
  | Advance c =>
      exists T, running s !! c = Some T /\
      match Tx.rest T with
      | Done (Ok r) => job_effect (Tx.job T) r (committed s) (committed s')
      | _ => committed s' = committed s
      end
  | _ => committed s' = committed s
  end.

Lemma locked_spec s c T u :
  locked kind s (Some u) = false -> running s !! c = Some T -> Tx.lock T <> Some u.
Proof.
  intros Hlk HT E. unfold locked in Hlk. destruct kind.
  - apply negb_false_iff, bool_decide_eq_true_1 in Hlk. rewrite Hlk in HT. by rewrite lookup_empty in HT.
  - apply not_true_iff_false in Hlk. apply Hlk, existsb_exists. exists (c, T).
    rewrite <- list_elem_of_In, elem_of_map_to_list. split; [done | by apply bool_decide_eq_true_2].
Qed.

(** What BEGIN starts; a creation draws the identifier of its table first. *)
Lemma begin_starts s c j s' :
  catalog_inv (committed s) -> begin kind s c j = Some s' ->
  exists o u m, starts kind (committed s) j o u m /\ s' = set_tx s c (Tx.mk j o m []) /\
    locked kind s o = false /\ (is_create j = true -> u = as_bytes (gen_v4 (ticks s))).
Proof.
  intros Hinv. unfold begin. destruct (running s !! c) eqn:Hc; [done|].
  destruct j as [client ident base mutation|client ident location spec properties].
  - destruct (check_mutation mutation) as [[]|] eqn:Hm; [|done].
    destruct (head _) as [row|] eqn:Hrow; [|done]. destruct (locked kind s _) eqn:Hlk; [done|]. intros [= <-].
    assert (table_row_of (committed s) ident = Some row) as Hrow'.
    { apply table_row_of_in; [apply Hinv|]. rewrite <- row_order_perm. by apply head_Some_elem_of. }
    eexists _, _, _. split; [by constructor | done].
  - destruct (SchemaSpec.validate spec) as [[]|] eqn:Hv; [|done]. destruct (head _); [done|].
    destruct (serialize_json _) as [text|] eqn:Ht; [|done]. destruct (locked kind s None) eqn:Hlk; [done|].
    intros [= <-]. eexists _, _, _. split; [by econstructor | done].
Qed.

Lemma begin_ok s c j s' : sys_ok s -> begin kind s c j = Some s' -> sys_ok s' /\ committed s' = committed s.
Proof.
  intros Hs Hb. destruct (begin_starts _ _ _ _ (sys_inv _ Hs) Hb) as (o & u & m & Hst & -> & Hlk & _). split; [|done].
  apply (set_tx_ok _ _ _ u); [done | by exists m, (committed s); split; [|constructor] |].
  intros c' T' _ HT'. split; [|by intros k ?%elem_of_nil]. cbn. intros v ->. by eapply locked_spec.
Qed.

(** One more step of the program. *)
Lemma tx_ok_step d T u k l e e' :
  tx_ok d T u -> replay (Tx.log T) d = Ok e -> pstep (Tx.rest T, Tx.log T, e) (k, Tx.log T ++ l, e') ->
  tx_ok d (Tx.continue T k (Tx.log T ++ l)) u.
Proof.
  intros (m & e0 & Hst & Hr) He Hs.
  pose proof (psteps_replay _ _ _ Hr) as He0. cbn in He0. assert (e0 = e) as -> by congruence.
  exists m, e'. split; [done|]. by eapply rtc_r.
Qed.

Lemma quiet_step s c T u k e :
  sys_ok s -> running s !! c = Some T -> tx_ok (committed s) T u -> replay (Tx.log T) (committed s) = Ok e ->
  pstep (Tx.rest T, Tx.log T, e) (k, Tx.log T, e) -> sys_ok (set_tx s c (Tx.continue T k (Tx.log T))).
Proof.
  intros Hs HT Htx He Hp. rewrite <- (app_nil_r (Tx.log T)) in Hp at 2. rewrite <- (app_nil_r (Tx.log T)).
  eapply continue_ok; [done | done | by eapply tx_ok_step | by intros x ?%elem_of_nil].
Qed.

Lemma advance_ok s c s' : sys_ok s -> advance s c = Some s' -> sys_ok s' /\ transition (Advance c) s s'.
Proof.
  intros Hs (T & HT & Ha)%bind_Some. destruct (sys_tx _ Hs c T HT) as (u & Htx).
  destruct (tx_view _ _ _ Htx) as (e & He). rewrite He in Ha. cbn [transition].
  pose proof (fun k => quiet_step s c T u k e Hs HT Htx He) as Hq.
  assert (forall P : Prop, committed s' = committed s -> P ->
    (forall r, Tx.rest T <> Done (Ok r)) -> P /\ exists T0, running s !! c = Some T0 /\
    match Tx.rest T0 with
    | Done (Ok r) => job_effect (Tx.job T0) r (committed s) (committed s')
    | _ => committed s' = committed s
    end) as Hquiet.
  { intros P Ec HP Hn. split; [done|]. exists T. split; [done|].
    destruct (Tx.rest T) as [[r|]|?|?|?|?|?]; [by destruct (Hn r) | done..]. }
  destruct (Tx.rest T) as [[r|err]|X q k|st k|k|k|k] eqn:Hrest.
  - injection Ha as <-. destruct (commit_tx s c T r e) as (Hc & _ & Hok); [done..|]. split; [done|].
    exists T. split; [done|]. by rewrite Hrest.
  - injection Ha as <-. apply Hquiet; [done | by apply rollback_ok | done..].
  - injection Ha as <-. apply Hquiet; [done | by apply Hq | done..].
  - destruct (existsb _ _) eqn:Hcl; [done|]. destruct (exec st e) as [e'|err] eqn:Hex; injection Ha as <-;
      apply Hquiet; [done | | done | done | by apply rollback_ok | done].
    eapply continue_ok; [done | done | |].
    + eapply tx_ok_step; [done | done |]. rewrite Hrest. by exists e'.
    + intros x Hx Hk. apply not_true_iff_false in Hcl. apply Hcl, existsb_exists. exists x.
      rewrite <- list_elem_of_In. unfold log_keys in Hx. cbn in Hx. rewrite app_nil_r in Hx.
      split; [done | by apply bool_decide_eq_true_2].
  - injection Ha as <-. apply Hquiet; [done | apply Hq; by eexists | done..].
  - injection Ha as <-. apply Hquiet; [done | apply Hq; by eexists | done..].
  - injection Ha as <-. apply Hquiet; [done | apply Hq; by eexists | done..].
Qed.

(** The other calls write nothing. *)
Lemma whole_ok s client call s' :
  sys_ok s -> whole kind s client call = Some s' -> sys_ok s' /\ committed s' = committed s.
Proof.
  intros Hs Hw. pose proof (sys_inv _ Hs) as Hinv.
  assert (exists r w', run (H := backend kind client) call (mk_world (committed s) (ticks s)) = Some (r, w') /\
    s' = mk_sys (db w') (tick w') (running s)) as (r & w' & Hrun & ->).
  { unfold whole in Hw. destruct call; try done; (destruct (negb _ && _ && _); [done|]);
      (destruct (run _ _) as [[r w']|]; [|done]); injection Hw as <-; by exists r, w'. }
  pose proof (run_change _ _ _ (mk_world (committed s) (ticks s)) _ _ Hinv Hrun) as Hc. cbn in Hc |- *.
  assert (db w' = committed s) as ->; [by inversion Hc; subst|]. split; [|done]. split; apply Hs.
Qed.

Lemma act_ok a s s' : sys_ok s -> act kind a s = Some s' -> sys_ok s' /\ transition a s s'.
Proof.
  intros Hs. destruct a as [c j|c|c|client call]; cbn [act].
  - by apply begin_ok.
  - by apply advance_ok.
  - intros (T & HT & [= <-])%bind_Some. split; [by apply rollback_ok | done].
  - by apply whole_ok.
Qed.

Lemma idle_ok d n : catalog_inv d -> sys_ok (idle d n).
Proof. intros Hinv. by split. Qed.

Lemma steps_ok s s' : rtc (lstep kind) s s' -> sys_ok s -> sys_ok s'.
Proof. intros Hr. induction Hr as [|s1 s2 s3 (a & Ha) _ IH]; [done|]. intros Hs. apply IH. by eapply act_ok. Qed.

Lemma reachable_ok n s : rtc (lstep kind) (idle empty_db n) s -> sys_ok s.
Proof. intros Hr. by eapply steps_ok, idle_ok, empty_inv. Qed.

(** ** A transaction left to run *)

(** The next statement of [c] inserts a key another transaction has inserted. *)
Definition waits (s : Sys) (c : nat) : Prop :=
  exists T st k key, running s !! c = Some T /\ Tx.rest T = Write st k /\ key ∈ stmt_keys st /\
    key ∈ keys_of (delete c (running s)).

Lemma advance_some s c :
  sys_ok s -> is_Some (running s !! c) -> is_Some (advance s c) \/ waits s c.
Proof.
  intros Hs [T HT]. destruct (sys_tx _ Hs c T HT) as (u & (e & He)%tx_view). unfold advance. rewrite HT. cbn.
  rewrite He. destruct (Tx.rest T) as [[r|err]|X q k|st k|k|k|k] eqn:Hrest; try (left; by eexists).
  destruct (existsb _ _) eqn:Hcl; [right | left; destruct (exec st e); by eexists].
  apply existsb_exists in Hcl as (x & Hx%list_elem_of_In & Hk%bool_decide_eq_true_1). by exists T, st, k, x.
Qed.

(** A step of a transaction ends it or leaves a smaller program. *)
Definition smaller {A} (m' m : Prog A) : Prop :=
  match m with
  | Done _ => False
  | Query q k => exists x, m' = k x
  | Write s k => m' = k
  | DrawV4 k => exists x, m' = k x
  | DrawV7 k => exists x, m' = k x
  | DrawTime k => exists x, m' = k x
  end.

Lemma smaller_wf {A} : well_founded (@smaller A).
Proof.
  intros m. induction m as [r|X q k IH|s k IH|k IH|k IH|k IH]; constructor; intros m' Hm; cbn in Hm; [done| | |..].
  2: by subst.
  all: destruct Hm as [x ->]; apply IH.
Qed.

Lemma advance_smaller s c T s' :
  running s !! c = Some T -> advance s c = Some s' ->
  running s' = delete c (running s) \/
  exists T', running s' = <[c := T']> (running s) /\ Tx.job T' = Tx.job T /\ smaller (Tx.rest T') (Tx.rest T).
Proof.
  intros HT (T' & HT' & Ha)%bind_Some. assert (T' = T) as -> by congruence.
  destruct (replay _ _) as [e|]; [|done].
  assert (forall k l, smaller k (Tx.rest T) -> exists T',
    running (set_tx s c (Tx.continue T k l)) = <[c := T']> (running s) /\ Tx.job T' = Tx.job T /\
    smaller (Tx.rest T') (Tx.rest T)) as Hgo.
  { intros k l Hk. by exists (Tx.continue T k l). }
  destruct (Tx.rest T) as [[r|err]|X q k|st k|k|k|k]; try destruct (existsb _ _); try destruct (exec st e);
    try discriminate Ha; injection Ha as <-; first [by left | right; apply Hgo; cbn; by eauto].
Qed.

(** ** Theorems *)

(** C12: Concurrent writers are serialized by their locks: however the statements
    of any number of commits and creations interleave, with each other and with
    other calls, under the write lock of SQLite or the row locks and unique keys
    of PostgreSQL, the committed state keeps the catalog invariant, and every
    step leaves it as it is, except COMMIT, which makes the one abstract
    transition of its call on the state that is committed at that moment: the
    base of a commit is the head then, and the name of a creation is free then,
    although they were checked several statements earlier. *)
Theorem concurrent_writers_serialize n s a s' :
  rtc (lstep kind) (idle empty_db n) s -> act kind a s = Some s' ->
  catalog_inv (committed s') /\ transition a s s'.
Proof. intros Hs%reachable_ok Ha. destruct (act_ok _ _ _ Hs Ha) as [Hs' Ht]. split; [apply Hs' | done]. Qed.

(** A write transaction that has its lock runs to its end: left to itself
    from any reachable state, it ends after finitely many of its own steps,
    whatever other transactions are running, unless it comes to insert a primary
    key that one of them has inserted. *)
Theorem writer_runs_to_its_end n s c :
  rtc (lstep kind) (idle empty_db n) s -> is_Some (running s !! c) ->
  exists m s', schedule kind (replicate m (Advance c)) s = Some s' /\ (running s' !! c = None \/ waits s' c).
Proof.
  intros Hs%reachable_ok [T HT]. remember (Tx.rest T) as p eqn:Ep. revert s T Hs HT Ep.
  induction (smaller_wf p) as [p _ IH]; intros s T Hs HT ->.
  destruct (advance_some s c Hs (mk_is_Some _ _ HT)) as [[s1 Hs1]|Hw]; [|exists 0, s; by eauto].
  assert (act kind (Advance c) s = Some s1) as Ha by done.
  destruct (advance_smaller s c T s1 HT Hs1) as [Hend|(T1 & HT1 & _ & Hsm)].
  - exists 1, s1. cbn [replicate schedule]. rewrite Ha, Hend, lookup_delete_eq. by eauto.
  - destruct (act_ok _ _ _ Hs Ha) as [Hok1 _].
    assert (running s1 !! c = Some T1) as HT1' by (rewrite HT1; apply lookup_insert_eq).
    destruct (IH _ Hsm s1 T1 Hok1 HT1' eq_refl) as (m & s2 & Hsch & Hdone).
    exists (S m), s2. split; [|done]. cbn [replicate schedule]. by rewrite Ha.
Qed.

End invariant.

(** ** Two writers at once

    On PostgreSQL, two tables are created at once, then written at once, each
    pair of transactions statement by statement in turn. *)

#[local] Existing Instances ref_env ref_ipc_laws ref_enumeration_laws.

Definition users : TableIdent.t := TableIdent.mk "analytics" "users".

Definition two_writers : list Action :=
  [Begin 1 (JobCreate client events "s3://bucket/events" spec1 None);
   Begin 2 (JobCreate client users "s3://bucket/users" spec1 None)] ++
  concat (replicate 10 [Advance 1; Advance 2]) ++
  [Begin 1 (JobCommit client events (v7 5) mutation1);
   Begin 2 (JobCommit client users (v7 6) (Mutation.mk [SetProperties properties2]))] ++
  concat (replicate 5 [Advance 1; Advance 2]).

(** The system after the first [n] actions. *)
Definition two_writers_after (n : nat) : Sys :=
  default (idle empty_db 1) (schedule Limits.Postgres (firstn n two_writers) (idle empty_db 1)).

Lemma two_writers_reachable n :
  match schedule Limits.Postgres (firstn n two_writers) (idle empty_db 1) with Some _ => true | None => false end = true ->
  rtc (lstep Limits.Postgres) (idle empty_db 1) (two_writers_after n).
Proof.
  unfold two_writers_after. destruct (schedule _ _ _) as [s|] eqn:E; [|done]. intros _. by eapply schedule_steps.
Qed.

(** The last step is the COMMIT of the second writer; the first is still running
    and has inserted its transaction and its files. *)
Lemma concurrent_writers_serialize_witness :
  exists s s', rtc (lstep Limits.Postgres) (idle empty_db 1) s /\ act Limits.Postgres (Advance 2) s = Some s' /\
    size (running s) = 2 /\ size (running s') = 1 /\ length (transactions (committed s')) = 3 /\
    catalog_inv (committed s') /\ transition (Advance 2) s s'.
Proof.
  exists (two_writers_after 33), (two_writers_after 34).
  assert (rtc (lstep Limits.Postgres) (idle empty_db 1) (two_writers_after 33)) as Hr.
  { apply two_writers_reachable. vm_compute. reflexivity. }
  assert (act Limits.Postgres (Advance 2) (two_writers_after 33) = Some (two_writers_after 34)) as Ha.
  { vm_compute. reflexivity. }
  split; [exact Hr|]. split; [exact Ha|]. split; [vm_compute; reflexivity|]. split; [vm_compute; reflexivity|].
  split; [vm_compute; reflexivity|].
  exact (concurrent_writers_serialize Limits.Postgres 1 _ _ _ Hr Ha).
Defined.

Lemma writer_runs_to_its_end_witness :
  exists m s', schedule Limits.Postgres (replicate m (Advance 1)) (two_writers_after 34) = Some s' /\
    (running s' !! 1 = None \/ waits s' 1).
Proof.
  apply (writer_runs_to_its_end Limits.Postgres 1).
  - apply two_writers_reachable. vm_compute. reflexivity.
  - vm_compute. eexists. reflexivity.
Defined.
