(* ===== verification/History.v ===== *)
(** * The history of a table under concurrent writers

    The commits that take effect on a table, in the system of Locks.v, in the
    order of their COMMITs: each was based on the one before, the first on the
    transaction that created the table, and together they are the table's chain.
    So no update is lost, however the statements of the transactions interleave:
    of the commits with the same base at most one takes effect. *)

From S2P Require Import Prelude Uuid Error Limits Json DataType Format Schema Models Db DbFacts World Helpers Catalog Api Effects Invariant RefEnv Scenario Safety Commit Views Create Handles Programs Locality Confine Locks.
From stdpp Require Import relations.

(** ** What takes effect along a schedule *)

(** The call whose COMMIT an action is. *)
Definition effect_of (a : Action) (s : Sys) : option (Job * Reply) :=
  match a with
  | Advance c =>
      T ← running s !! c;
      match Tx.rest T with Done (Ok r) => Some (Tx.job T, r) | _ => None end
  | _ => None
  end.

Definition option_list {A} (o : option A) : list A := match o with Some x => [x] | None => [] end.

Fixpoint effects `{Env} (kind : DbKind) (l : list Action) (s : Sys) : list (Job * Reply) :=
  match l with
  | [] => []
  | a :: l =>
      match act kind a s with
      | Some s' => option_list (effect_of a s) ++ effects kind l s'
      | None => []
      end
  end.

(** The base and the new transaction of a commit on [ident]. *)
Definition commit_on (ident : TableIdent.t) (e : Job * Reply) : option (TxnId * TxnId) :=
  match e with
  | (JobCommit _ i base _, Committed r) =>
      if bool_decide (i = ident) then Some (base, CommitResult.transaction_id r) else None
  | _ => None
  end.

Definition commits_on (ident : TableIdent.t) (es : list (Job * Reply)) : list (TxnId * TxnId) :=
  omap (commit_on ident) es.

(** Each commit is based on the transaction before it. *)
Fixpoint linked (t : TxnId) (cs : list (TxnId * TxnId)) : Prop :=
  match cs with
  | [] => True
  | (base, t') :: cs => base = t /\ linked t' cs
  end.

(** The history of [ident] is its creation and the commits [cs]; a table that
    does not exist has had none. *)
Definition history_is (d : Db) (ident : TableIdent.t) (cs : list (TxnId * TxnId)) : Prop :=
  match TableRow.table_uuid <$> table_row_of d ident with
  | Some u => exists t0, chain d u = as_bytes <$> t0 :: (snd <$> cs) /\ linked t0 cs
  | None => cs = []
  end.

Lemma linked_commit t cs c :
  linked t (cs ++ [c]) <-> linked t cs /\ last (t :: (snd <$> cs)) = Some (fst c).
Proof.
  revert t; induction cs as [|[b x] cs IH]; intros t; cbn.
  - destruct c as [b x]. cbn. naive_solver.
  - rewrite IH. cbn. tauto.
Qed.

(** The bases of linked commits are the transactions before the last. *)
Lemma linked_bases t cs : linked t cs -> fst <$> cs = take (length cs) (t :: (snd <$> cs)).
Proof.
  revert t; induction cs as [|[b x] cs IH]; intros t; cbn; [done|]. intros [-> Hl]. f_equal. by apply IH.
Qed.

Section history.
Context `{Env} `{!EnumerationLaws} (kind : DbKind).

(** ** One transition *)

Lemma row_names d i j r :
  table_row_of d i = Some r -> table_row_of d j = Some r -> i = j.
Proof.
  intros (_ & A & B & _)%table_row_of_some (_ & A' & B' & _)%table_row_of_some.
  destruct i, j; cbn in *. congruence.
Qed.

Lemma table_row_uuid d i j r r' :
  db_ok d -> table_row_of d i = Some r -> table_row_of d j = Some r' ->
  TableRow.table_uuid r = TableRow.table_uuid r' -> i = j.
Proof.
  intros Hok Hr Hr' E. assert (r = r') as ->; [|by eapply row_names].
  apply table_row_of_some in Hr as (Hin & _). apply table_row_of_some in Hr' as (Hin' & _).
  pose proof (ok_table_pk _ Hok) as Hn. unfold table_keys in Hn.
  by eapply nodup_fmap_inj.
Qed.

Lemma commit_history d d' ident base t mutation i cs :
  catalog_inv d -> db_ok d' -> commit_facts ident base t mutation d d' -> history_is d i cs ->
  history_is d' i (cs ++ if bool_decide (ident = i) then [(base, t)] else []).
Proof.
  intros Hinv Hok' Hc. destruct (commit_facts_select _ _ _ _ _ _ Hc) as (u0 & cur & st & text & Hsel).
  destruct (commit_facts_rows _ _ _ _ _ _ Hinv Hok' Hc)
    as (row & u & row' & Hrow & _ & Hu & _ & Hbase & _ & _ & Hch).
  assert (TableRow.table_uuid <$> table_row_of d' i = TableRow.table_uuid <$> table_row_of d i) as Ei.
  { unfold table_row_of. rewrite Hsel. destruct (select_table _ _ d); cbn; [done|]. by rewrite commit_head_uuid. }
  unfold history_is. rewrite Ei. case_bool_decide as E.
  - subst i. rewrite Hrow. cbn [fmap option_fmap option_map]. intros (t0 & Hcs & Hl). exists t0. rewrite Hu in *.
    split; [rewrite Hch, Hcs, beq_refl; cbn; by rewrite !fmap_app|].
    apply linked_commit. split; [done|].
    apply table_row_of_some in Hrow as (Hin & _).
    destruct (chain_head d Hinv row u Hin Hu) as (x & Hx & Hlast). rewrite Hbase in Hx. injection Hx as <-%(inj as_bytes).
    rewrite Hcs, fmap_last in Hlast. destruct (last _) as [y|]; [|done]. by injection Hlast as ->%(inj as_bytes).
  - rewrite app_nil_r. destruct (table_row_of d i) as [ri|] eqn:Hri; cbn; [|done].
    intros (t0 & Hcs & Hl). exists t0. rewrite Hch. case_bool_decide as Eu; [|by rewrite app_nil_r].
    destruct E. eapply (table_row_uuid d); [apply Hinv | done | done |]. by rewrite Hu, Eu.
Qed.

Lemma create_history d d' client ident location spec properties i cs :
  catalog_inv d -> db_ok d' -> create_facts client ident location spec properties d d' -> history_is d i cs ->
  history_is d' i cs.
Proof.
  intros Hinv Hok' Hc.
  destruct (create_facts_table _ _ _ _ _ _ _ Hinv Hok' Hc) as (row & u & t & _ & _ & _ & Hnone & Hsome & Hu &
    _ & _ & _ & _ & _ & _ & Hch & _).
  unfold history_is. destruct (decide (i = ident)) as [->|Hne].
  { rewrite Hnone, Hsome. cbn. intros ->. exists t. by rewrite Hu, Hch. }
  destruct Hc as [u1 t1 s ts text rows _ _ _ Hf _ _ _ Hd'].
  assert (table_row_of d' i = table_row_of d i) as ->.
  { unfold table_row_of, select_table. rewrite Hd'. cbn [tables]. rewrite List.filter_app. cbn [List.filter].
    unfold named at 2. cbn [TableRow.namespace TableRow.table_name].
    replace (beq _ _ && beq _ _) with false; [by rewrite app_nil_r|]. symmetry. apply not_true_iff_false.
    rewrite andb_true_iff, !beq_true. intros [E1 E2]. apply Hne. destruct i, ident; cbn in *. congruence. }
  destruct (table_row_of d i) as [ri|] eqn:Hri; cbn; [|done].
  assert (chain d' (TableRow.table_uuid ri) = chain d (TableRow.table_uuid ri)) as ->; [|done].
  rewrite Hd'. unfold chain, history. cbn. rewrite (history_snoc _ (as_bytes u1)) by done.
  rewrite (proj2 (beq_false _ _)); [by rewrite app_nil_r|]. intros E. apply Hf. rewrite E.
  apply table_row_of_some in Hri as (Hin & _). by apply list_elem_of_fmap_2.
Qed.

Lemma act_history a s s' i cs :
  sys_ok kind s -> act kind a s = Some s' -> history_is (committed s) i cs ->
  history_is (committed s') i (cs ++ commits_on i (option_list (effect_of a s))).
Proof.
  intros Hs Ha Hh. destruct (act_ok kind _ _ _ Hs Ha) as [Hs' Ht].
  pose proof (sys_inv kind _ Hs) as Hinv. pose proof (inv_db _ (sys_inv kind _ Hs')) as Hok'.
  destruct a as [c j|c|c|client call]; cbn [effect_of option_list commits_on omap list_omap] in *;
    try (cbn in Ht; rewrite Ht; by rewrite app_nil_r).
  destruct Ht as (T & HT & Ht). rewrite HT. cbn [mbind option_bind].
  destruct (Tx.rest T) as [[r|e]|X q k|st k|k|k|k]; try (rewrite Ht; by rewrite app_nil_r).
  cbn. inversion Ht as [cl ident base m r0 d d' Hc Ej|cl ident loc spec ps d d' Hc Ej]; subst; cbn.
  - apply commit_effect_facts in Hc. pose proof (commit_history _ _ _ _ _ _ _ _ Hinv Hok' Hc Hh) as Hc'.
    by case_bool_decide.
  - apply create_effect_facts in Hc. rewrite app_nil_r. by eapply create_history.
Qed.

Lemma schedule_history l s s' i cs :
  sys_ok kind s -> schedule kind l s = Some s' -> history_is (committed s) i cs ->
  history_is (committed s') i (cs ++ commits_on i (effects kind l s)).
Proof.
  revert s cs; induction l as [|a l IH]; intros s cs Hs; cbn.
  { intros [= ->] Hh. by rewrite app_nil_r. }
  intros (s1 & Ha & Hl)%bind_Some Hh. rewrite Ha. unfold commits_on. rewrite omap_app, app_assoc.
  apply IH; [by eapply act_ok | done | by apply act_history].
Qed.

(** ** Theorems *)

(** C6: no update is lost among concurrent writers: along any schedule of the
    statements of any number of transactions, on either backend, the commits
    that take effect on a table are, in the order of their COMMITs, its history
    after its creation, and each is based on the one before it; so no two have
    the same base, and the last is the table's head. *)
Theorem concurrent_commits_linked n l s ident row :
  schedule kind l (idle empty_db n) = Some s -> table_row_of (committed s) ident = Some row ->
  let cs := commits_on ident (effects kind l (idle empty_db n)) in
  exists t0, chain (committed s) (TableRow.table_uuid row) = as_bytes <$> t0 :: (snd <$> cs) /\
    linked t0 cs /\ NoDup (fst <$> cs) /\ head_of (committed s) ident = last (t0 :: (snd <$> cs)).
Proof.
  intros Hl Hrow cs. pose proof (schedule_steps kind _ _ _ Hl) as Hr.
  pose proof (sys_inv kind _ (reachable_ok kind _ _ Hr)) as Hinv.
  pose proof (schedule_history l (idle empty_db n) s ident [] (idle_ok kind _ _ empty_inv) Hl eq_refl) as Hh.
  unfold history_is in Hh. rewrite Hrow in Hh. destruct Hh as (t0 & Hch & Hlk). cbn [app] in *. fold cs in Hch, Hlk.
  exists t0. pose proof Hrow as (Hin & _)%table_row_of_some.
  pose proof (chain_nodup _ Hinv (TableRow.table_uuid row)) as Hn. split_and!; [done | done | |].
  - rewrite (linked_bases _ _ Hlk). apply (sublist_NoDup _ (t0 :: (snd <$> cs))); [|apply sublist_take].
    rewrite Hch in Hn. by apply NoDup_fmap_1 in Hn.
  - destruct (table_uuid_decodes _ _ Hinv Hin) as (u & Hu). rewrite Hu in Hch.
    destruct (chain_head _ Hinv row u Hin Hu) as (cur & Hcur & Hlast).
    rewrite (head_of_row _ _ _ _ Hrow Hcur). rewrite Hch, fmap_last in Hlast.
    destruct (last _) as [y|]; [|done]. by injection Hlast as ->%(inj as_bytes).
Qed.

End history.

(** ** Witnesses *)

#[local] Existing Instances ref_env ref_ipc_laws ref_enumeration_laws.

(** Three commits on one table; the second has the base of the first, starts
    when PostgreSQL lets it, and ends without effect. *)
Definition three_commits : list Action :=
  [Begin 1 (JobCreate client events "s3://bucket/events" spec1 None)] ++ replicate 10 (Advance 1) ++
  [Begin 1 (JobCommit client events (v7 3) mutation1)] ++ replicate 6 (Advance 1) ++
  [Begin 2 (JobCommit client events (v7 3) mutation1); Advance 2] ++
  [Begin 3 (JobCommit client events (v7 13) (Mutation.mk [SetProperties properties2]))] ++ replicate 5 (Advance 3).

Lemma concurrent_commits_linked_witness :
  exists s row t0 c1 c2, schedule Limits.Postgres three_commits (idle empty_db 1) = Some s /\
    commits_on events (effects Limits.Postgres three_commits (idle empty_db 1)) = [c1; c2] /\
    chain (committed s) (TableRow.table_uuid row) = as_bytes <$> [t0; snd c1; snd c2] /\
    linked t0 [c1; c2] /\ head_of (committed s) events = Some (snd c2).
Proof.
  destruct (schedule Limits.Postgres three_commits (idle empty_db 1)) as [s|] eqn:E;
    [|vm_compute in E; discriminate E].
  destruct (table_row_of (committed s) events) as [row|] eqn:Er;
    [|vm_compute in E; injection E as <-; vm_compute in Er; discriminate Er].
  destruct (concurrent_commits_linked Limits.Postgres 1 three_commits s events row E Er)
    as (t0 & Hc & Hl & _ & Hh).
  destruct (commits_on events (effects Limits.Postgres three_commits (idle empty_db 1))) as [|c1 [|c2 [|c3 cs]]] eqn:Ec;
    try (apply (f_equal length) in Ec; vm_compute in Ec; discriminate Ec).
  exists s, row, t0, c1, c2. split; [reflexivity|]. split; [reflexivity|]. split; [exact Hc|]. split; [exact Hl | exact Hh].
Defined.
