(* ===== verification/Keys.v ===== *)
(** * The keys a transaction may insert

    A write transaction inserts rows under keys it draws, under the name of the
    table it creates, and under the file identifiers its caller has chosen; it
    inserts no others.  [keyed] says so of a program, and is what keeps running
    transactions out of each other's way (Deadlock.v) and the identifiers of a
    table's transactions in order (Readers.v). *)

From S2P Require Import Prelude Uuid Error Limits Json DataType Format Schema Models Db World Helpers Catalog Programs Locality Locks.
From stdpp Require Import propset.

(** ** Programs *)

(** The keys with a drawn identifier: the tables, the schemas, the columns and
    the files have identifiers of version 4, the transactions of version 7. *)
Definition of_v4 (u : Uuid) : propset Key :=
  {[ k | k = TableKey (as_bytes u) \/ k = SchemaKey (as_bytes u) \/ k = ColumnKey (as_bytes u) \/
         k = FileKey (as_bytes u) ]}.

Definition of_v7 (t : TxnId) : propset Key := {[ k | k = TransactionKey (as_bytes t) ]}.

(** A program that may insert the keys [P] inserts no others but those it draws;
    where it ends with a result, [Q] holds of the keys it then may insert and
    of the result. *)
Fixpoint keyed {A} (P : propset Key) (m : Prog A) (Q : propset Key -> A -> Prop) : Prop :=
  match m with
  | Done (Ok a) => Q P a
  | Done (Err _) => True
  | Query q k => forall x, keyed P (k x) Q
  | Write s k => (forall key, key ∈ stmt_keys s -> key ∈ P) /\ keyed P k Q
  | DrawV4 k => forall u, keyed (P ∪ of_v4 u) (k u) Q
  | DrawV7 k => forall t, keyed (P ∪ of_v7 t) (k t) Q
  | DrawTime k => forall x, keyed P (k x) Q
  end.

Notation anything := (fun _ _ => True).

Lemma keyed_bind {A B} P (m : Prog A) (f : A -> Prog B) Q R :
  keyed P m Q -> (forall P' a, P ⊆ P' -> Q P' a -> keyed P' (f a) R) -> keyed P (m ≫= f) R.
Proof.
  change (m ≫= f) with (prog_bind m f).
  revert P; induction m as [[a|e]|X q k IH|s k IH|k IH|k IH|k IH]; intros P; cbn; intros Hm Hf; auto.
  - destruct Hm as [Hs Hm]. auto.
  - intros u. apply IH; [done|]. intros P' a HP. apply Hf. set_solver.
  - intros t. apply IH; [done|]. intros P' a HP. apply Hf. set_solver.
Qed.

Lemma keyed_check {A B} P (r : result CatalogError A) (f : A -> Prog B) Q :
  (forall a, keyed P (f a) Q) -> keyed P (check r ≫= f) Q.
Proof. intros Hf. by destruct r; cbn. Qed.

Lemma keyed_write {B} P s (f : unit -> Prog B) Q :
  (forall key, key ∈ stmt_keys s -> key ∈ P) -> keyed P (f tt) Q -> keyed P (write s ≫= f) Q.
Proof. by split. Qed.

Lemma keyed_each {A} P (l : list A) body :
  (forall P' x, P ⊆ P' -> x ∈ l -> keyed P' (body x) anything) -> keyed P (prog_each l body) anything.
Proof.
  revert P; induction l as [|x l IH]; intros P Hb; cbn; [done|].
  eapply keyed_bind; [apply Hb; [done | left]|]. intros P' a HP _. apply IH. intros P2 y HP2 Hy.
  apply Hb; [set_solver | by right].
Qed.

Lemma keyed_fold {A S} P (body : S -> A -> Prog S) s l :
  (forall P' s x, P ⊆ P' -> x ∈ l -> keyed P' (body s x) anything) -> keyed P (prog_fold body s l) anything.
Proof.
  revert P s; induction l as [|x l IH]; intros P s Hb; cbn; [done|].
  eapply keyed_bind; [apply Hb; [done | left]|]. intros P' a HP _. apply IH. intros P2 s2 y HP2 Hy.
  apply Hb; [set_solver | by right].
Qed.

(** The rows a loop builds, with keys the program may insert. *)
Lemma keyed_map {A B} (key : B -> Key) P (body : A -> Prog B) l :
  (forall P' x, P ⊆ P' -> x ∈ l -> keyed P' (body x) (fun P2 y => key y ∈ P2)) ->
  keyed P (prog_map body l) (fun P' ys => forall y, y ∈ ys -> key y ∈ P').
Proof.
  revert P; induction l as [|x l IH]; intros P Hb; cbn; [by intros y ?%elem_of_nil|].
  eapply keyed_bind; [apply Hb; [done | left]|]. intros P1 y HP1 Hy.
  eapply keyed_bind.
  { apply IH. intros P2 z HP2 Hz. apply Hb; [set_solver | by right]. }
  intros P2 ys HP2 Hys z [->|Hz]%elem_of_cons; [set_solver | by apply Hys].
Qed.

(** ** The programs of Programs.v *)

(** The identifiers a call chooses for files. *)
Definition chosen_by (op : MutationOp) : list Uuid :=
  match op with AppendFiles fs => omap FileSpec.file_uuid fs | _ => [] end.

Definition chosen (j : Job) : list Uuid :=
  match j with JobCommit _ _ _ mutation => concat (chosen_by <$> Mutation.operations mutation) | JobCreate _ _ _ _ _ => [] end.

(** The keys a call brings: those identifiers, or the name of the table it creates. *)
Definition own_keys (j : Job) : propset Key :=
  match j with
  | JobCommit _ _ _ _ => {[ k | exists f, f ∈ chosen j /\ k = FileKey (as_bytes f) ]}
  | JobCreate _ ident _ _ _ => {[ NameKey (TableIdent.namespace ident, TableIdent.name ident) ]}
  end.

(** Those its transaction may insert before it draws any; [u] is the table it writes. *)
Definition job_keys (j : Job) (u : Blob) : propset Key :=
  if is_create j then {[ TableKey u ]} ∪ own_keys j else own_keys j.

Section programs.
Context `{Env} (kind : DbKind).

Lemma keyed_insert_columns P s cs : keyed P (prog_insert_columns kind s cs) anything.
Proof.
  apply keyed_each. intros P' [ci c] _ _.
  eapply (keyed_bind _ _ _ (fun P2 rs => forall r, r ∈ rs -> ColumnKey (ColumnRow.column_uuid r) ∈ P2)).
  - apply keyed_map. intros P2 [i x] _ _. apply keyed_check. intros text x0. cbn. set_solver.
  - intros P2 rs _ Hrs. apply keyed_write; [|done]. cbn. by intros key (r & -> & Hr%Hrs)%list_elem_of_fmap.
Qed.

Lemma keyed_append P u t fs :
  (forall f, f ∈ omap FileSpec.file_uuid fs -> FileKey (as_bytes f) ∈ P) -> keyed P (prog_append_files u t fs) anything.
Proof.
  intros Hfs. apply keyed_check. intros _. apply keyed_each. intros P' c HP Hc.
  eapply (keyed_bind _ _ _ (fun P2 rs => forall r, r ∈ rs -> FileKey (FileRow.file_uuid r) ∈ P2)).
  - apply keyed_map. intros P2 f HP2 Hf. apply keyed_check. intros _.
    apply (keyed_bind _ _ _ (fun P3 x => FileKey (as_bytes x) ∈ P3)).
    + destruct (FileSpec.file_uuid f) as [x|] eqn:Ef; cbn; [|set_solver]. apply HP2, HP, Hfs.
      apply list_elem_of_omap. exists f. split; [|done]. by eapply chunks_elem; [apply files_chunk_pos | ..].
    + intros P3 x _ Hx. apply keyed_check. intros p. by apply keyed_check.
  - intros P2 rs _ Hrs. apply keyed_write; [|done]. cbn. by intros key (r & -> & Hr%Hrs)%list_elem_of_fmap.
Qed.

Lemma keyed_op P u t ts cur st op :
  (forall f, f ∈ chosen_by op -> FileKey (as_bytes f) ∈ P) ->
  keyed P (prog_op kind u t ts cur st op) anything.
Proof.
  intros Hc. destruct op as [fs|us|spec|p|ks]; cbn [prog_op]; [| | |done | by apply keyed_check];
    (eapply (keyed_bind _ _ _ anything); [|done]).
  - by apply keyed_append.
  - apply keyed_check. intros _. apply keyed_each. intros P' c _ _. apply keyed_write; [|done]. by intros key ?%elem_of_nil.
  - apply keyed_check. intros _. apply keyed_check. intros old. apply (keyed_bind _ _ _ anything).
    { apply (keyed_bind P (query_optional _) _ anything); [done|]. intros P' o _ _. by destruct o. }
    intros P1 row _ _. apply (keyed_bind _ _ _ anything); [done|]. intros P2 rows _ _.
    apply keyed_check. intros cols. apply keyed_check. intros _ s.
    apply keyed_write; [cbn; set_solver|]. apply keyed_write; [cbn; set_solver|].
    apply (keyed_bind _ _ _ anything); [apply keyed_insert_columns | done].
Qed.

(** The programs of transactions insert the keys of their calls and those they draw. *)
Lemma starts_keyed d j o u m : starts kind d j o u m -> keyed (job_keys j u) m anything.
Proof.
  intros [client ident base mutation row _ _|client ident location spec properties v ts text _ _];
    (apply (keyed_bind _ _ _ anything); [|done]); cbn [job_keys is_create own_keys].
  - unfold prog_commit_rest. do 7 (apply keyed_check; intros ?). intros t ts.
    apply keyed_write; [cbn; set_solver|].
    apply (keyed_bind _ _ _ anything).
    + apply keyed_fold. intros P' st op HP Hop. apply keyed_op. intros f Hf. apply HP, elem_of_union_l.
      apply elem_of_PropSet. exists f. split; [|done]. cbn. apply list_elem_of_In, in_concat. exists (chosen_by op).
      rewrite <- !list_elem_of_In. split; [by apply list_elem_of_fmap_2 | done].
    + intros P' st _ _. apply keyed_check. intros text. apply keyed_write; [cbn; set_solver | done].
  - apply keyed_write; [cbn; set_solver|]. intros t. apply keyed_write; [cbn; set_solver|]. intros s.
    apply keyed_write; [cbn; set_solver|].
    apply (keyed_bind _ _ _ anything); [apply keyed_insert_columns|]. intros P' [] _ _.
    apply keyed_write; [cbn; set_solver | done].
Qed.

End programs.
