(* ===== verification/Readers.v ===== *)
(** * Readers among running writers

    The reads of Statements.v, with the transactions of Locks.v running while
    they go on.  A reader sees what is committed; what writers do to that keeps
    the promises of [Moves], so the theorems of Interleave.v and
    EventInterleave.v apply to readers among concurrent transactions; and
    because a transaction draws its identifier under the lock of its table, the
    identifiers of every table grow along its chain, whatever the order in which
    transactions on different tables commit. *)

From S2P Require Import Prelude Uuid Error Limits Json DataType Format Schema Models Db DbFacts World Helpers Catalog Api Effects ReadFacts Invariant RefEnv Scenario Safety Commit Order Views Later Statements Interleave Programs Locality Confine Locks Keys.
From stdpp Require Import relations propset.

(** ** The order of identifiers *)

(** The transaction identifiers a program inserts satisfy [P], or it draws them. *)
Fixpoint ids_in {A} (P : Blob -> Prop) (m : Prog A) : Prop :=
  match m with
  | Done _ => True
  | Query q k => forall x, ids_in P (k x)
  | Write s k => (forall b, TransactionKey b ∈ stmt_keys s -> P b) /\ ids_in P k
  | DrawV4 k => forall x, ids_in P (k x)
  | DrawV7 k => forall x, ids_in (fun b => P b \/ b = as_bytes x) (k x)
  | DrawTime k => forall x, ids_in P (k x)
  end.

Lemma keyed_ids {A} (R : propset Key) (P : Blob -> Prop) (m : Prog A) Q :
  keyed R m Q -> (forall b, TransactionKey b ∈ R -> P b) -> ids_in P m.
Proof.
  revert R P; induction m as [r|X q k IH|s k IH|k IH|k IH|k IH]; intros R P; cbn; intros Hm HP;
    [done | by eauto | | | | by eauto].
  - destruct Hm as [Hs Hk]. split; [auto | by eapply IH].
  - intros u. eapply IH; [apply Hm|]. intros b [Hb|Hb]%elem_of_union; [auto|].
    by destruct Hb as [[=]|[[=]|[[=]|[=]]]].
  - intros t. eapply IH; [apply Hm|]. intros b [Hb|Hb]%elem_of_union; [auto|].
    injection Hb as ->. auto.
Qed.

(** The programs of transactions insert the one identifier they draw. *)
Lemma starts_ids `{Env} kind d j o u m : starts kind d j o u m -> ids_in (fun _ => False) m.
Proof.
  intros Hs. eapply keyed_ids; [by eapply starts_keyed|]. intros b. destruct j; cbn; [|unfold job_keys; cbn; set_solver].
  by intros (f & _ & [=])%elem_of_PropSet.
Qed.

(** ** The invariant *)

Section order.
Context `{Env} `{!EnumerationLaws} (limit : nat) `{!MonotoneV7 limit} (kind : DbKind).

Definition drawn (n : nat) (b : Blob) : Prop := exists k, k < n /\ b = as_bytes (gen_v7 k).

Lemma drawn_mono n m b : drawn n b -> n <= m -> drawn m b.
Proof. intros (k & Hk & ->) Hn. exists k. split; [lia | done]. Qed.

(** What a transaction on [u] has inserted or may still insert without drawing
    it was drawn, and follows the chain of [u]. *)
Definition tx_ordered (d : Db) (n : nat) (T : Tx.t) (u : Blob) : Prop :=
  exists P, ids_in P (Tx.rest T) /\
  forall b, P b \/ TransactionKey b ∈ log_keys (Tx.log T) ->
    drawn n b /\ forall x, x ∈ chain d u -> blob_lt x b = true.

Record sys_ordered (s : Sys) : Prop := {
  ordered_drawn : Forall (drawn (ticks s)) (txn_keys (committed s));
  ordered_chains : sorted_ids (committed s);
  ordered_tx c T : running s !! c = Some T ->
    exists u, tx_ok kind (committed s) T u /\ tx_ordered (committed s) (ticks s) T u
}.

Lemma tx_ordered_mono d d' n n' T u :
  tx_ordered d n T u -> n <= n' -> chain d' u = chain d u -> tx_ordered d' n' T u.
Proof.
  intros (P & Hp & Hb) Hn Hc. exists P. split; [done|]. intros b Hin. destruct (Hb b Hin) as [Hd Hx].
  rewrite Hc. split; [by eapply drawn_mono | done].
Qed.

(** Nothing committed changes. *)
Lemma ordered_quiet s s' :
  sys_ordered s -> committed s' = committed s -> ticks s <= ticks s' ->
  (forall c T, running s' !! c = Some T -> running s !! c = Some T \/
     exists u, tx_ok kind (committed s) T u /\ tx_ordered (committed s) (ticks s') T u) -> sys_ordered s'.
Proof.
  intros [Hd Hc Ht] Ec Hn Hr. split; rewrite Ec.
  - eapply Forall_impl; [exact Hd|]. intros b Hb. by eapply drawn_mono.
  - done.
  - intros c T [HT|HT]%Hr; [|done]. destruct (Ht c T HT) as (u & Hok & Ho). exists u.
    split; [done | by eapply tx_ordered_mono].
Qed.

Lemma ordered_set s c T u :
  sys_ordered s -> tx_ok kind (committed s) T u -> tx_ordered (committed s) (S (ticks s)) T u ->
  sys_ordered (set_tx s c T).
Proof.
  intros Hs Hok Ho. apply (ordered_quiet s); [done | done | cbn; lia |].
  cbn. intros c' T' [[<- <-]|[_ HT']]%lookup_insert_Some; [right; by exists u | by left].
Qed.

Lemma ordered_rollback s c : sys_ordered s -> sys_ordered (end_tx s c (committed s)).
Proof.
  intros Hs. apply (ordered_quiet s); [done | done | cbn; lia |].
  cbn. intros c' T [_ HT]%lookup_delete_Some. by left.
Qed.

(** A transaction that has not written has the identifiers of its program. *)
Lemma fresh_ordered d n j o u m : starts kind d j o u m -> tx_ordered d n (Tx.mk j o m []) u.
Proof.
  intros Hs. exists (fun _ => False). split; [by eapply starts_ids|]. intros b [[]|Hb]. by apply elem_of_nil in Hb.
Qed.

Lemma ordered_begin s c j s' : sys_ok kind s -> sys_ordered s -> begin kind s c j = Some s' -> sys_ordered s'.
Proof.
  intros Hs Ho Hb. destruct (begin_starts kind _ _ _ _ (sys_inv kind _ Hs) Hb) as (o & u & m & Hst & -> & _ & _).
  apply (ordered_set _ _ _ u); [done | | by eapply fresh_ordered].
  exists m, (committed s). split; [done | constructor].
Qed.

(** The chains after a COMMIT: that of [u] has one more transaction. *)
Lemma starts_chain d j o u m reply L e :
  catalog_inv d -> starts kind d j o u m -> rtc pstep (m, [], d) (Done (Ok reply), L, e) ->
  exists v t, (forall x, chain e x = chain d x ++ (if beq v x then [as_bytes t] else [])) /\
    as_bytes t ∉ txn_keys d /\ as_bytes t ∈ txn_keys e /\ (v = u \/ chain d v = []).
Proof.
  intros Hinv Hst Hr. destruct (starts_effect kind _ _ _ _ _ _ _ _ (inv_db _ Hinv) Hst Hr) as [Heff _].
  destruct Hst as [client ident base mutation row Hm Hrow|client ident location spec properties x ts text Hv Ht];
    inversion Heff as [? ? ? ? r ? ? Hc|? ? ? ? ? ? ? Hc]; subst.
  - apply commit_effect_facts in Hc. pose proof (commit_facts_keys _ _ _ _ _ _ Hc) as Hk.
    destruct Hc as [row' u ts cur props st text d1 d2 Hin Hns Hn Hu _ _ _ Hf E1 _ _ _ E].
    assert (row' = row) as ->.
    { assert (table_row_of d ident = Some row'); [|congruence].
      apply table_row_of_in; [apply Hinv | by apply select_table_in]. }
    exists (TableRow.table_uuid row), (CommitResult.transaction_id r). split_and!; [| done | | by left].
    + intros x. eapply (commit_chain base (CommitResult.transaction_id r)); [rewrite E, E1; reflexivity | done].
    + rewrite Hk. apply elem_of_app. right. left.
  - apply create_effect_facts in Hc as [u t s ts' text' rows _ _ _ Hu Hf _ _ ->].
    exists (as_bytes u), t. split_and!; [|done | |].
    + intros y. unfold chain, history. cbn. rewrite (history_snoc _ (as_bytes u)) by done. rewrite fmap_app.
      by destruct (beq _ y).
    + cbn. rewrite fmap_app. apply elem_of_app. right. left.
    + right. unfold chain. by rewrite (no_history d Hinv).
Qed.

Lemma part_chain u d : chain (part u d) u = chain d u.
Proof. unfold chain, history. cbn. by rewrite (filter_filter (own_txn u) (own_txn u)). Qed.

Lemma ordered_commit s c T r e :
  sys_ok kind s -> sys_ordered s -> running s !! c = Some T -> Tx.rest T = Done (Ok r) ->
  replay (Tx.log T) (committed s) = Ok e -> sys_ordered (end_tx s c e).
Proof.
  intros Hs [Hd Hc Htx] HT Hrest He. destruct (commit_tx kind s c T r e Hs HT Hrest He) as (_ & Hinv' & _).
  destruct (Htx c T HT) as (u & Hok & P & _ & Hb). pose proof (sys_inv kind _ Hs) as Hinv.
  assert (forall b, b ∈ txn_keys e -> b ∈ txn_keys (committed s) \/ TransactionKey b ∈ log_keys (Tx.log T)) as Hin.
  { intros b Hx. pose proof (replay_keys _ _ _ (TransactionKey b) He) as Hk. rewrite !db_keys_spec in Hk.
    by apply Hk. }
  pose proof Hok as (m & e' & Hst & Hr). pose proof (psteps_replay _ _ _ Hr) as He'. cbn in He'.
  assert (e' = e) as -> by congruence. rewrite Hrest in Hr.
  destruct (starts_chain _ _ _ _ _ _ _ _ Hinv Hst Hr) as (v & t & Hch & Hf & Ht & Hv).
  destruct (Hin _ Ht) as [?|Hlog]; [done|]. split; cbn.
  - apply Forall_forall. intros b [Hx|Hx]%Hin.
    + rewrite Forall_forall in Hd. eapply drawn_mono; [by apply Hd | lia].
    + eapply drawn_mono; [apply Hb; by right | lia].
  - intros x. rewrite Hch. case_bool_decide as E; [subst x | rewrite app_nil_r; apply Hc].
    apply strongly_sorted_snoc; [apply Hc|]. apply Forall_forall. intros y Hy.
    destruct Hv as [->|Hv]; [|rewrite Hv in Hy; by apply elem_of_nil in Hy]. apply Hb; [by right | done].
  - intros c' T' [Hne HT']%lookup_delete_Some. destruct (Htx c' T' HT') as (u' & Hok' & Ho').
    exists u'. destruct (commit_others kind s c c' T T' u u' r e) as [Hok2 Hp]; [done..|]. split; [done|].
    destruct Hp as [Hp|[El Eg]].
    + eapply tx_ordered_mono; [done | lia |]. by rewrite <- part_chain, Hp, part_chain.
    + apply tx_early in Hok'; [|done..]. exists (fun _ => False). split; [by eapply starts_ids|].
      rewrite Eg. intros b [[]|Hx]. by apply elem_of_nil in Hx.
Qed.

(** A step of the program draws at most one identifier, at this tick. *)
Lemma ordered_next s c T u k l P :
  sys_ordered s -> tx_ok kind (committed s) (Tx.continue T k (Tx.log T ++ l)) u -> ids_in P k ->
  (forall b, P b \/ TransactionKey b ∈ log_keys (Tx.log T ++ l) ->
     drawn (S (ticks s)) b /\ forall x, x ∈ chain (committed s) u -> blob_lt x b = true) ->
  sys_ordered (set_tx s c (Tx.continue T k (Tx.log T ++ l))).
Proof. intros Hs Hok Hp Hb. apply (ordered_set _ _ _ u); [done | done|]. by exists P. Qed.

Lemma drawn_now s u b x :
  sys_ordered s -> ticks s < limit -> b = as_bytes (gen_v7 (ticks s)) -> x ∈ chain (committed s) u ->
  blob_lt x b = true.
Proof.
  intros Hs Hl -> Hx%chain_in_keys. pose proof (ordered_drawn _ Hs) as Hd. rewrite Forall_forall in Hd.
  destruct (Hd x Hx) as (k & Hk & ->). by apply v7_monotone.
Qed.

Lemma ordered_advance s c s' :
  sys_ok kind s -> sys_ordered s -> ticks s < limit -> advance s c = Some s' -> sys_ordered s'.
Proof.
  intros Hs Ho Hl (T & HT & Ha)%bind_Some. destruct (ordered_tx _ Ho c T HT) as (u & Hok & P & Hp & Hb).
  destruct (tx_view _ _ _ _ Hok) as (e & He). rewrite He in Ha.
  assert (forall Q k l e', ids_in Q k -> pstep (Tx.rest T, Tx.log T, e) (k, Tx.log T ++ l, e') ->
    (forall b, Q b \/ TransactionKey b ∈ log_keys l -> P b \/ b = as_bytes (gen_v7 (ticks s))) ->
    sys_ordered (set_tx s c (Tx.continue T k (Tx.log T ++ l)))) as Hgo.
  { intros Q k l e' Hq Hstep HQ. eapply (ordered_next _ _ _ u _ _ Q); [done | by eapply tx_ok_step | done |].
    intros b Hin. assert (P b \/ TransactionKey b ∈ log_keys (Tx.log T) \/ b = as_bytes (gen_v7 (ticks s))) as Hin'.
    { destruct Hin as [Hin|Hin]; [destruct (HQ b (or_introl Hin)); auto|].
      rewrite log_keys_app in Hin. apply elem_of_app in Hin as [Hin|Hin]; [auto|].
      destruct (HQ b (or_intror Hin)); auto. }
    destruct Hin' as [Hin'|[Hin'|E]].
    - destruct (Hb b (or_introl Hin')) as [Hd Hx]. split; [eapply drawn_mono; [done | lia] | done].
    - destruct (Hb b (or_intror Hin')) as [Hd Hx]. split; [eapply drawn_mono; [done | lia] | done].
    - split; [exists (ticks s); split; [lia | done]|]. intros x. by apply drawn_now. }
  assert (forall b l, l = [] -> TransactionKey b ∈ log_keys l -> False) as Hnil by (intros b l -> ?%elem_of_nil; done).
  pose proof (fun Q k => Hgo Q k [] e) as Hquiet. setoid_rewrite app_nil_r in Hquiet.
  destruct (Tx.rest T) as [[r|err]|X q k|st k|k|k|k] eqn:Hrest; cbn in Hp.
  - injection Ha as <-. by eapply ordered_commit.
  - injection Ha as <-. by apply ordered_rollback.
  - injection Ha as <-. apply (Hquiet P); [apply Hp | done |]. intros b [?|?%elem_of_nil]; auto. done.
  - destruct Hp as [Hst Hk]. destruct (existsb _ _); [done|].
    destruct (exec st e) as [e'|] eqn:Hex; injection Ha as <-; [|by apply ordered_rollback].
    apply (Hgo P k [st] e'); [done | by exists e' |]. intros b [?|Hx]; [auto|]. left. apply Hst.
    unfold log_keys in Hx. cbn in Hx. by rewrite app_nil_r in Hx.
  - injection Ha as <-. apply (Hquiet P); [apply Hp | by eexists |]. intros b [?|?%elem_of_nil]; auto. done.
  - injection Ha as <-. eapply Hquiet; [apply Hp | by eexists |]. intros b [Hx|?%elem_of_nil]; [done | done].
  - injection Ha as <-. apply (Hquiet P); [apply Hp | by eexists |]. intros b [?|?%elem_of_nil]; auto. done.
Qed.

Lemma act_ticks a s s' : act kind a s = Some s' -> ticks s <= ticks s'.
Proof.
  destruct a as [c j|c|c|client call]; cbn [act].
  - unfold begin. intros Hb. destruct (running s !! c); [done|].
    destruct j; repeat (match goal with H : match ?x with _ => _ end = Some _ |- _ => destruct x end; try done);
      injection Hb as <-; cbn; lia.
  - intros (T & _ & Ha)%bind_Some. destruct (replay _ _) as [e|]; [|done].
    destruct (Tx.rest T) as [[r|err]|X q k|st k|k|k|k]; try destruct (existsb _ _); try destruct (exec st e);
      try discriminate Ha; injection Ha as <-; cbn; lia.
  - intros (T & _ & [= <-])%bind_Some. cbn. lia.
  - intros Hw. unfold whole in Hw.
    assert (exists r w', run (H := backend kind client) call (mk_world (committed s) (ticks s)) = Some (r, w') /\
      s' = mk_sys (db w') (tick w') (running s)) as (r & w' & Hrun & ->).
    { destruct call; try done; (destruct (negb _ && _ && _); [done|]);
        (destruct (run _ _) as [[r w']|]; [|done]); injection Hw as <-; by exists r, w'. }
    by destruct (keeps_run limit kind client call _ _ _ Hrun).
Qed.

Lemma ordered_act a s s' :
  sys_ok kind s -> sys_ordered s -> act kind a s = Some s' -> ticks s' <= limit -> sys_ordered s'.
Proof.
  intros Hs Ho Ha Hl. pose proof (act_ticks _ _ _ Ha) as Hle.
  destruct a as [c j|c|c|client call]; cbn [act] in Ha.
  - by eapply ordered_begin.
  - eapply ordered_advance; [done | done | | exact Ha].
    apply bind_Some in Ha as (T & _ & Ha). destruct (replay _ _) as [e|]; [|done].
    destruct (Tx.rest T) as [[r|err]|X q k|st k|k|k|k]; try destruct (existsb _ _); try destruct (exec st e);
      try discriminate Ha; injection Ha as <-; cbn in Hl; lia.
  - apply bind_Some in Ha as (T & _ & [= <-]). by apply ordered_rollback.
  - destruct (whole_ok kind _ _ _ _ Hs Ha) as [_ Ec]. apply (ordered_quiet s); [done | done | done |].
    intros c T HT. left. unfold whole in Ha.
    destruct call; try done; (destruct (negb _ && _ && _); [done|]);
      (destruct (run _ _) as [[r w']|]; [|done]); injection Ha as <-; done.
Qed.

Lemma steps_ordered s s' :
  rtc (lstep kind) s s' -> sys_ok kind s -> sys_ordered s -> ticks s' <= limit -> sys_ordered s'.
Proof.
  intros Hr. assert (forall s s', rtc (lstep kind) s s' -> ticks s <= ticks s') as Hle.
  { induction 1 as [|s1 s2 s3 (a & Ha) _ IH]; [done|]. pose proof (act_ticks _ _ _ Ha). lia. }
  induction Hr as [|s1 s2 s3 (a & Ha) Hr IH]; [done|]. intros Hs Ho Hl. pose proof (Hle _ _ Hr).
  apply IH; [by eapply act_ok | eapply ordered_act; [done | done | exact Ha | lia] | done].
Qed.

Lemma idle_ordered n : sys_ordered (idle empty_db n).
Proof. split; cbn; [constructor | intros u; constructor | done]. Qed.

End order.

(** ** Runs of a read among running transactions *)

Definition view (s : Sys) : World := mk_world (committed s) (ticks s).

Definition tick_sys (s : Sys) : Sys := mk_sys (committed s) (S (ticks s)) (running s).

(** A statement reads what is committed; then any actions may follow. *)
Fixpoint lrun `{Env} (kind : DbKind) {A} (m : R A) (s : Sys) (r : option (result CatalogError A)) (s' : Sys) : Prop :=
  match m with
  | Return r0 => r = Some r0 /\ s' = s
  | Ask q k =>
      match fault (ticks s) with
      | Some code => r = Some (Err (Storage (EngineFailure code))) /\ s' = tick_sys s
      | None => exists s1, rtc (lstep kind) (tick_sys s) s1 /\ lrun kind (k (q (committed s))) s1 r s'
      end
  | Stuck => r = None /\ s' = s
  end.

Section runs.
Context `{Env} `{!EnumerationLaws} (kind : DbKind).

(** What the actions do to what a reader sees. *)
Inductive lmoves (w w' : World) : Prop :=
  | lmoves_act s s' : sys_ok kind s -> lstep kind s s' -> w = view s -> w' = view s' -> lmoves w w'
  | lmoves_idle : db w' = db w -> tick w <= tick w' -> lmoves w w'.

#[export] Instance lmoves_moves : Moves lmoves.
Proof.
  split; [|by constructor 2]. intros w w' _ [s s' Hs (a & Ha) -> ->|E _]; cbn.
  - destruct (act_ok kind _ _ _ Hs Ha) as [Hs' Ht]. pose proof (inv_db _ (sys_inv kind _ Hs')) as Hok.
    assert (committed s' = committed s -> exists client c, call_change client c (committed s) (committed s')) as Hsame.
    { intros ->. exists ProtocolVersions.default, (CallList None). constructor. }
    destruct a as [c j|c|c|client call]; try by apply Hsame. destruct Ht as (T & _ & Ht).
    destruct (Tx.rest T) as [[r|]|?|?|?|?|?]; try by apply Hsame.
    destruct Ht as [client ident base mutation r d d' Hc|client ident location spec properties d d' Hc];
      eexists _, _; [by eapply change_commit | by eapply change_create].
  - exists ProtocolVersions.default, (CallList None). rewrite E. constructor.
Qed.

Lemma tick_sys_ok s : sys_ok kind s -> sys_ok kind (tick_sys s).
Proof. intros [Hi Ht Hl Hk]. by split. Qed.

Lemma steps_lmoves s s' : sys_ok kind s -> rtc (lstep kind) s s' -> rtc lmoves (view s) (view s') /\ sys_ok kind s'.
Proof.
  intros Hs Hr. induction Hr as [|s1 s2 s3 Hst _ IH]; [done|]. pose proof Hst as (a & Ha).
  destruct (IH (proj1 (act_ok kind _ _ _ Hs Ha))) as [Hr' Hs']. split; [|done].
  eapply rtc_l; [exact (lmoves_act _ _ _ _ Hs Hst eq_refl eq_refl) | done].
Qed.

Lemma lrun_irun {A} (m : R A) s r s' :
  sys_ok kind s -> lrun kind m s r s' -> irun lmoves m (view s) r (view s').
Proof.
  revert s; induction m as [r0|X q k IH|]; intros s Hs; cbn; [by intros [-> ->] | | by intros [-> ->]].
  destruct (fault (ticks s)) as [code|]; [by intros [-> ->]|]. intros (s1 & Hr & Hk).
  destruct (steps_lmoves _ _ (tick_sys_ok _ Hs) Hr) as [Hr' Hs1]. exists (view s1). split; [done | by apply IH].
Qed.

(** The states on the way are ordered as well. *)
Lemma steps_ticks limit `{!MonotoneV7 limit} s s' : rtc (lstep kind) s s' -> ticks s <= ticks s'.
Proof.
  induction 1 as [|s1 s2 s3 (a & Ha) _ IH]; [done|]. pose proof (act_ticks limit kind _ _ _ Ha). lia.
Qed.

Lemma lrun_ticks limit `{!MonotoneV7 limit} {A} (m : R A) s r s' : lrun kind m s r s' -> ticks s <= ticks s'.
Proof.
  revert s; induction m as [r0|X q k IH|]; intros s; cbn; [by intros [_ ->] | | by intros [_ ->]].
  destruct (fault (ticks s)) as [code|]; [intros [_ ->]; cbn; lia|]. intros (s1 & Hr & Hk).
  pose proof (steps_ticks limit _ _ Hr) as Hle. specialize (IH _ _ Hk). cbn in Hle. lia.
Qed.

Lemma tick_sys_ordered s : sys_ordered kind s -> sys_ordered kind (tick_sys s).
Proof. intros Ho. apply (ordered_quiet kind s); [done | done | cbn; lia | by left]. Qed.

Lemma lrun_ordered limit `{!MonotoneV7 limit} {A} (m : R A) s r s' :
  lrun kind m s r s' -> sys_ok kind s -> sys_ordered kind s -> ticks s' <= limit -> sys_ordered kind s'.
Proof.
  revert s; induction m as [r0|X q k IH|]; intros s; cbn; [by intros [_ ->] | | by intros [_ ->]].
  destruct (fault (ticks s)) as [code|]; [intros [_ ->] _ Ho _; by apply tick_sys_ordered|].
  intros (s1 & Hr & Hk) Hs Ho Hl. pose proof (lrun_ticks limit _ _ _ _ Hk).
  eapply IH; [exact Hk | | | done].
  - eapply steps_ok; [exact Hr | by apply tick_sys_ok].
  - eapply (steps_ordered limit); [exact Hr | by apply tick_sys_ok | by apply tick_sys_ordered | lia].
Qed.

(** Reads of a reachable state, with the hypotheses of the theorems on
    interleaved reads. *)
Lemma lrun_reachable limit `{!MonotoneV7 limit} {A} n (m : R A) s r s' :
  rtc (lstep kind) (idle empty_db n) s -> lrun kind m s r s' -> ticks s' <= limit ->
  irun lmoves m (view s) r (view s') /\ catalog_inv (committed s) /\ sorted_ids (committed s').
Proof.
  intros Hr Hrun Hl. pose proof (reachable_ok kind _ _ Hr) as Hs. pose proof (lrun_ticks limit _ _ _ _ Hrun).
  pose proof (steps_ordered limit kind _ _ Hr (idle_ok kind _ _ empty_inv) (idle_ordered kind n) ltac:(lia)) as Ho.
  split_and!; [by apply lrun_irun | apply Hs | by eapply lrun_ordered].
Qed.

(** ** Theorems *)

(** C13: readers get snapshots while writers run: whatever transactions are
    running when [read_table] starts, and whatever statements of theirs, COMMITs
    and new transactions come between its own, on either backend, it returns
    after finitely many statements, and unless the engine fails what it would
    have returned on the committed state its first statement saw, as long as
    the generator's identifiers grow with time.  Transactions on different
    tables may commit in another order than they drew their identifiers. *)
Theorem reads_among_writers limit `{!MonotoneV7 limit} n client fuel ident at_ s r s' r0 w0 :
  rtc (lstep kind) (idle empty_db n) s ->
  lrun kind (ask_read_table client fuel ident at_) s r s' -> ticks s' <= limit ->
  walk_fuel (view s) <= fuel -> read_table client ident at_ (view s) = Some (r0, w0) ->
  exists r1, r = Some r1 /\ (engine_failed r0 \/ engine_failed r1 \/ both same_snapshot r0 r1).
Proof.
  intros Hr Hrun Hl Hf Hseq. destruct (lrun_reachable limit n _ _ _ _ Hr Hrun Hl) as (Hi & Hinv & Hs).
  eapply follows_denote; [exact (denote_read_table client fuel ident at_ (view s) Hf) | exact Hseq |].
  exact (irun_read lmoves client fuel ident at_ (view s) r (view s') Hinv Hs Hf Hi).
Qed.

End runs.

(** ** A reader among two writers

    A read of the second table starts while both writers of Locks.v run; both
    get to their COMMITs between its first two statements, and the second one
    commits. *)

#[local] Existing Instances ref_env ref_ipc_laws ref_enumeration_laws.

(** A read with given actions after each of its statements. *)
Fixpoint read_with {A} (kind : DbKind) (m : R A) (plan : list (list Action)) (s : Sys) {struct m} :
    option (option (result CatalogError A) * Sys) :=
  match m with
  | Return r => Some (Some r, s)
  | Ask q k =>
      match fault (ticks s) with
      | Some code => Some (Some (Err (Storage (EngineFailure code))), tick_sys s)
      | None => s1 ← schedule kind (default [] (head plan)) (tick_sys s); read_with kind (k (q (committed s))) (tail plan) s1
      end
  | Stuck => Some (None, s)
  end.

Lemma read_with_runs {A} kind (m : R A) plan s r s' :
  read_with kind m plan s = Some (r, s') -> lrun kind m s r s'.
Proof.
  revert plan s; induction m as [r0|X q k IH|]; intros plan s; cbn [read_with lrun]; [by intros [= <- <-] | | by intros [= <- <-]].
  destruct (fault (ticks s)) as [code|]; [by intros [= <- <-]|].
  intros (s1 & Hs1 & Hk)%bind_Some. exists s1. split; [by eapply schedule_steps | by eapply IH].
Qed.

Definition read_users : option (option (result CatalogError TableView.t) * Sys) :=
  read_with Limits.Postgres (ask_read_table client 9 users None) [skipn 24 two_writers] (two_writers_after 24).

Lemma reads_among_writers_witness :
  exists s r s' v, rtc (lstep Limits.Postgres) (idle empty_db 1) s /\ size (running s) = 2 /\
    lrun Limits.Postgres (ask_read_table client 9 users None) s r s' /\
    length (transactions (committed s')) = 3 /\ r = Some (Ok v) /\
    as_bytes (TableView.transaction_id v) = as_bytes (v7 6) /\ length (Schema.columns (TableView.schema v)) = 2.
Proof.
  destruct read_users as [[r s']|] eqn:E; [|vm_compute in E; discriminate E].
  assert (size (running s') = 1 /\ length (transactions (committed s')) = 3 /\ Nat.leb (ticks s') 100 = true)
    as (_ & Ht & Hl%Nat.leb_le).
  { vm_compute in E. injection E as _ <-. repeat split. }
  assert (is_ok (default (Err (NotFound "")) r) = true) as Hok by (vm_compute in E; injection E as <- _; reflexivity).
  apply read_with_runs in E.
  assert (rtc (lstep Limits.Postgres) (idle empty_db 1) (two_writers_after 24)) as Hr.
  { apply two_writers_reachable. vm_compute. reflexivity. }
  destruct (read_table client users None (view (two_writers_after 24))) as [[r0 w0]|] eqn:E0;
    [|vm_compute in E0; discriminate E0].
  assert (exists v0, r0 = Ok v0 /\ as_bytes (TableView.transaction_id v0) = as_bytes (v7 6) /\
    length (Schema.columns (TableView.schema v0)) = 2) as (v0 & -> & Ev & Ec).
  { vm_compute in E0. injection E0 as <- _. eexists. split; [reflexivity|]. split; vm_compute; reflexivity. }
  destruct (@reads_among_writers ref_env ref_enumeration_laws Limits.Postgres 100 ref_monotone 1 client 9
    users None (two_writers_after 24) r s' (Ok v0) w0 Hr E Hl) as (r1 & -> & Hb).
  - apply Nat.leb_le. vm_compute. reflexivity.
  - exact E0.
  - destruct Hb as [[c Hc]|[[c ->]|Hb]]; [discriminate Hc | discriminate Hok|].
    destruct r1 as [v|e]; [|destruct Hb]. exists (two_writers_after 24), (Some (Ok v)), s', v.
    split; [exact Hr|]. split; [vm_compute; reflexivity|]. split; [exact E|]. split; [exact Ht|].
    split; [reflexivity|]. split; [rewrite (snap_transaction _ _ Hb); exact Ev|].
    pose proof (f_equal Schema.columns (snap_schema _ _ Hb)) as Hcols. cbn in Hcols. rewrite Hcols. exact Ec.
Defined.
