(* ===== verification/Deadlock.v ===== *)
(** * Running transactions do not block each other for ever

    A transaction of Locks.v waits where it would insert a key that another
    running transaction has inserted.  The keys of Keys.v are drawn, or are the
    name of the table a creation makes, or were chosen by the caller for its
    files.  So unless callers choose the same identifiers, only creations of
    the same table wait for each other, and only before they have inserted
    anything: whatever is running, something can go on, and all that is running
    ends.  Callers that choose the same identifiers can block each other
    ([chosen_ids_deadlock]). *)

From S2P Require Import Prelude Uuid Error Limits Json DataType Format Schema Models Db DbFacts World Helpers Catalog Api Effects ReadFacts Invariant RefEnv Scenario Safety Commit Order Programs Locality Confine Locks Keys Readers.
From stdpp Require Import relations propset.

(** ** The keys of running transactions *)

(** What the generators give before [limit] differs from tick to tick. *)
Class DistinctV4 `{Outside} (limit : nat) : Prop :=
  v4_distinct m n : m < limit -> n < limit -> gen_v4 m = gen_v4 n -> m = n.

Definition drawn_at `{Outside} (i : nat) : propset Key := of_v4 (gen_v4 i) ∪ of_v7 (gen_v7 i).

Section keys.
Context `{Env} `{!EnumerationLaws} (kind : DbKind).

(** A key of the transaction of [c]: its call brings it, or [c] has drawn it;
    [owner] says who drew at each tick. *)
Definition mine (owner : nat -> nat) (n c : nat) (T : Tx.t) (k : Key) : Prop :=
  k ∈ own_keys (Tx.job T) \/ exists i, i < n /\ owner i = c /\ k ∈ drawn_at i.

Definition tx_keyed (owner : nat -> nat) (n c : nat) (T : Tx.t) : Prop :=
  exists P, keyed P (Tx.rest T) anything /\
  forall k, k ∈ P \/ k ∈ log_keys (Tx.log T) -> mine owner n c T k.

Definition sys_keyed (s : Sys) : Prop :=
  exists owner, forall c T, running s !! c = Some T -> tx_keyed owner (ticks s) c T.

(** What [c] drew stays its own when it draws again, and when time passes. *)
Definition draws (owner : nat -> nat) (n c : nat) : nat -> nat := fun i => if decide (i = n) then c else owner i.

Lemma mine_later owner owner' n n' c T k :
  mine owner n c T k -> n <= n' -> (forall i, i < n -> owner' i = owner i) -> mine owner' n' c T k.
Proof.
  intros [Hk|(i & Hi & Ho & Hk)] Hn Hown; [by left | right]. exists i. rewrite Hown by done. split_and!; [lia | done..].
Qed.

Lemma tx_keyed_later owner owner' n n' c T :
  tx_keyed owner n c T -> n <= n' -> (forall i, i < n -> owner' i = owner i) -> tx_keyed owner' n' c T.
Proof. intros (P & Hp & Hm) Hn Hown. exists P. split; [done|]. intros k Hk. eapply mine_later; eauto. Qed.

(** Nothing is drawn for a transaction. *)
Lemma keyed_quiet s s' :
  sys_keyed s -> ticks s <= ticks s' -> (forall c T, running s' !! c = Some T -> running s !! c = Some T) ->
  sys_keyed s'.
Proof. intros (owner & Ho) Hn Hr. exists owner. intros c T HT%Hr. eapply tx_keyed_later; eauto. Qed.

(** A transaction starts or goes on, and may have drawn at this tick. *)
Lemma keyed_set s c T :
  sys_keyed s ->
  (forall owner, (forall T0, running s !! c = Some T0 -> tx_keyed owner (ticks s) c T0) ->
     tx_keyed (draws owner (ticks s) c) (S (ticks s)) c T) ->
  sys_keyed (set_tx s c T).
Proof.
  intros (owner & Ho) HT. exists (draws owner (ticks s) c). cbn.
  intros c' T' [[<- <-]|[Hne HT']]%lookup_insert_Some; [apply HT; auto|].
  eapply tx_keyed_later; [by apply Ho | lia |]. intros i Hi. unfold draws. rewrite decide_False by lia. done.
Qed.

Lemma mine_now owner n c T k : k ∈ drawn_at n -> mine (draws owner n c) (S n) c T k.
Proof. intros Hk. right. exists n. unfold draws. rewrite decide_True by done. split_and!; [lia | done..]. Qed.

Lemma mine_draws owner n c c' T k : mine owner n c' T k -> mine (draws owner n c) (S n) c' T k.
Proof.
  intros Hm. eapply mine_later; [done | lia |]. intros i Hi. unfold draws. rewrite decide_False by lia. done.
Qed.

Lemma keyed_begin s c j s' : sys_ok kind s -> sys_keyed s -> begin kind s c j = Some s' -> sys_keyed s'.
Proof.
  intros Hs Hk Hb. destruct (begin_starts kind _ _ _ _ (sys_inv kind _ Hs) Hb) as (o & u & m & Hst & -> & _ & Hu).
  apply keyed_set; [done|]. intros owner _. exists (job_keys j u). split; [by eapply starts_keyed|].
  intros k [Hin|Hin]; [|by apply elem_of_nil in Hin].
  unfold job_keys in Hin. destruct (is_create j); [|by left].
  apply elem_of_union in Hin as [Hin|Hin]; [|by left]. apply elem_of_singleton in Hin as ->.
  apply mine_now. rewrite (Hu eq_refl). unfold drawn_at. apply elem_of_union_l. by left.
Qed.

(** One step of a program. *)
Lemma keyed_next s c T P k l :
  sys_keyed s -> running s !! c = Some T ->
  (forall R, keyed R (Tx.rest T) anything -> exists R', keyed R' k anything /\
     forall x, x ∈ R' \/ x ∈ log_keys l -> x ∈ R \/ x ∈ P) ->
  P ⊆ drawn_at (ticks s) -> sys_keyed (set_tx s c (Tx.continue T k (Tx.log T ++ l))).
Proof.
  intros Hk HT Hstep HP. apply keyed_set; [done|]. intros owner Hown.
  destruct (Hown T HT) as (R & Hr & Hm). destruct (Hstep R Hr) as (R' & Hr' & Hin). exists R'. split; [done|].
  intros x Hx. assert (x ∈ R \/ x ∈ log_keys (Tx.log T) \/ x ∈ P) as Hx'.
  { cbn [Tx.log Tx.continue] in Hx. rewrite log_keys_app, elem_of_app in Hx. specialize (Hin x). tauto. }
  destruct Hx' as [Hx'|[Hx'|Hx']].
  - apply mine_draws, Hm. by left.
  - apply mine_draws, Hm. by right.
  - by apply mine_now, HP.
Qed.

Lemma keyed_advance s c s' : sys_keyed s -> advance s c = Some s' -> sys_keyed s'.
Proof.
  intros Hk (T & HT & Ha)%bind_Some. destruct (replay _ _) as [e|]; [|done].
  assert (forall d, sys_keyed (end_tx s c d)) as Hend.
  { intros d. apply (keyed_quiet s); [done | cbn; lia |]. cbn. by intros c' T' [_ HT']%lookup_delete_Some. }
  pose proof (fun P k => keyed_next s c T P k [] Hk HT) as Hgo. setoid_rewrite app_nil_r in Hgo.
  assert (forall x : Key, x ∈ log_keys [] -> False) as Hnil by by intros x ?%elem_of_nil.
  destruct (Tx.rest T) as [[r|err]|X q k|st k|k|k|k] eqn:Hrest.
  - injection Ha as <-. apply Hend.
  - injection Ha as <-. apply Hend.
  - injection Ha as <-. apply (Hgo ∅); [|set_solver]. intros R Hr. exists R. split; [apply Hr|]. naive_solver.
  - destruct (existsb _ _); [done|]. destruct (exec st e); injection Ha as <-; [|apply Hend].
    apply (keyed_next s c T ∅ k [st] Hk HT); [|set_solver]. rewrite Hrest. intros R [Hst Hr]. exists R. split; [done|].
    unfold log_keys. cbn. rewrite app_nil_r. intros x [?|?]; [by left | left; by apply Hst].
  - injection Ha as <-. apply (Hgo (of_v4 (gen_v4 (ticks s)))); [|unfold drawn_at; set_solver].
    intros R Hr. eexists. split; [apply Hr|]. intros x [Hx|?%Hnil]; [|done]. by apply elem_of_union in Hx.
  - injection Ha as <-. apply (Hgo (of_v7 (gen_v7 (ticks s)))); [|unfold drawn_at; set_solver].
    intros R Hr. eexists. split; [apply Hr|]. intros x [Hx|?%Hnil]; [|done]. by apply elem_of_union in Hx.
  - injection Ha as <-. apply (Hgo ∅); [|set_solver]. intros R Hr. exists R. split; [apply Hr|]. naive_solver.
Qed.

Lemma keyed_act limit `{!MonotoneV7 limit} a s s' :
  sys_ok kind s -> sys_keyed s -> act kind a s = Some s' -> sys_keyed s'.
Proof.
  intros Hs Hk Ha. pose proof (act_ticks limit kind _ _ _ Ha) as Hn.
  destruct a as [c j|c|c|client call]; cbn [act] in Ha.
  - by eapply keyed_begin.
  - by eapply keyed_advance.
  - apply bind_Some in Ha as (T & _ & [= <-]). apply (keyed_quiet s); [done | done|].
    cbn. by intros c' T' [_ HT']%lookup_delete_Some.
  - apply (keyed_quiet s); [done | done|]. intros c T HT. unfold whole in Ha.
    destruct call; try done; (destruct (negb _ && _ && _); [done|]);
      (destruct (run _ _) as [[r w']|]; [|done]); injection Ha as <-; done.
Qed.

Lemma reachable_keyed limit `{!MonotoneV7 limit} n s : rtc (lstep kind) (idle empty_db n) s -> sys_keyed s.
Proof.
  intros Hr. assert (forall s s', rtc (lstep kind) s s' -> sys_ok kind s -> sys_keyed s -> sys_keyed s') as Hall.
  { induction 1 as [|s1 s2 s3 (a & Ha) _ IH]; [done|]. intros Hs Hk.
    apply IH; [by eapply act_ok | by eapply (keyed_act limit)]. }
  eapply Hall; [done | apply idle_ok, empty_inv | by exists (fun _ => 0)].
Qed.

End keys.

(** ** Waiting *)

(** The call creates the table [ident]. *)
Definition creates (j : Job) (ident : TableIdent.t) : Prop :=
  match j with JobCreate _ i _ _ _ => i = ident | JobCommit _ _ _ _ => False end.

Section progress.
Context `{Env} `{!EnumerationLaws} (limit : nat) `{!MonotoneV7 limit} `{!DistinctV4 limit}
  (kind : DbKind).

(** The identifiers running calls have chosen for files differ from each other's
    and from those the generator gives. *)
Definition separate_choices (s : Sys) : Prop :=
  forall c T f, running s !! c = Some T -> f ∈ chosen (Tx.job T) ->
    (forall i, i < limit -> gen_v4 i <> f) /\
    forall c' T', running s !! c' = Some T' -> f ∈ chosen (Tx.job T') -> c' = c.

Lemma v7_distinct i j : i < limit -> j < limit -> gen_v7 i = gen_v7 j -> i = j.
Proof.
  intros Hi Hj E. destruct (Nat.lt_trichotomy i j) as [Hl|[Hl|Hl]]; [|done|];
    (eapply (v7_monotone (limit := limit)) in Hl; [|done]); rewrite E, blob_lt_irrefl in Hl; done.
Qed.

Lemma of_v4_inj u u' k : k ∈ of_v4 u -> k ∈ of_v4 u' -> u = u'.
Proof. intros [->|[->|[->| ->]]] [E|[E|[E|E]]]; try discriminate E; injection E; apply (inj as_bytes). Qed.

Lemma of_v4_v7 u t k : k ∈ of_v4 u -> k ∈ of_v7 t -> False.
Proof. intros Hk ->. by destruct Hk as [?|[?|[?|?]]]. Qed.

Lemma drawn_at_inj i j k : i < limit -> j < limit -> k ∈ drawn_at i -> k ∈ drawn_at j -> i = j.
Proof.
  unfold drawn_at. intros Hi Hj [Hk|Hk]%elem_of_union [Hk'|Hk']%elem_of_union.
  - apply v4_distinct; [done..|]. by eapply of_v4_inj.
  - by destruct (of_v4_v7 _ _ _ Hk Hk').
  - by destruct (of_v4_v7 _ _ _ Hk' Hk).
  - apply v7_distinct; [done..|]. rewrite Hk in Hk'. injection Hk' as E. by apply (inj as_bytes).
Qed.

(** What calls bring, and what the generator gives. *)
Lemma own_drawn j k i : k ∈ own_keys j -> k ∈ drawn_at i -> gen_v4 i ∈ chosen j.
Proof.
  unfold drawn_at, of_v4, of_v7. intros Hk Hd. destruct j as [client ident base mutation|]; cbn [own_keys] in Hk.
  - apply elem_of_PropSet in Hk as (f & Hf & ->). replace (gen_v4 i) with f; [done|]. apply (inj as_bytes).
    by apply elem_of_union in Hd as [[[=]|[[=]|[[=]|[=]]]]|[=]].
  - apply elem_of_singleton in Hk as ->. by apply elem_of_union in Hd as [[[=]|[[=]|[[=]|[=]]]]|[=]].
Qed.

Lemma own_both j j' k :
  k ∈ own_keys j -> k ∈ own_keys j' ->
  (exists f, f ∈ chosen j /\ f ∈ chosen j') \/ exists ident, creates j ident /\ creates j' ident.
Proof.
  destruct j as [? ? ? ?|client ident ? ? ?], j' as [? ? ? ?|client' ident' ? ? ?]; cbn [own_keys];
    rewrite ?elem_of_PropSet, ?elem_of_singleton.
  - intros (f & Hf & ->) (f' & Hf' & [= ->%(inj as_bytes)]). left. by exists f'.
  - by intros (f & _ & ->) [=].
  - by intros -> (f & _ & [=]).
  - intros -> [= E1 E2]. right. exists ident. split; [done|]. cbn. destruct ident, ident'; cbn in *. congruence.
Qed.

(** Two transactions have in common only the name of a table both create. *)
Lemma mine_both s owner c c' T T' k :
  separate_choices s -> ticks s <= limit -> c <> c' -> running s !! c = Some T -> running s !! c' = Some T' ->
  mine owner (ticks s) c T k -> mine owner (ticks s) c' T' k ->
  exists ident, creates (Tx.job T) ident /\ creates (Tx.job T') ident.
Proof.
  intros Hsep Hn Hne HT HT' [Hk|(i & Hi & Ho & Hk)] [Hk'|(i' & Hi' & Ho' & Hk')].
  - destruct (own_both _ _ _ Hk Hk') as [(f & Hf & Hf')|Hc]; [|done].
    destruct (Hsep _ _ _ HT Hf) as [_ Hs]. destruct Hne. symmetry. by eapply Hs.
  - pose proof (own_drawn _ _ _ Hk Hk') as Hf. destruct (Hsep _ _ _ HT Hf) as [Hg _]. destruct (Hg i'); [lia | done].
  - pose proof (own_drawn _ _ _ Hk' Hk) as Hf. destruct (Hsep _ _ _ HT' Hf) as [Hg _]. destruct (Hg i); [lia | done].
  - destruct Hne. assert (i = i') by (eapply drawn_at_inj; [| |exact Hk|exact Hk']; lia). congruence.
Qed.

(** A creation that has written has inserted the name of its table. *)
Lemma created_name d T u ident :
  tx_ok kind d T u -> creates (Tx.job T) ident -> Tx.log T <> [] ->
  NameKey (TableIdent.namespace ident, TableIdent.name ident) ∈ log_keys (Tx.log T).
Proof.
  intros (m & e & Hs & Hr) Hc Hl.
  destruct (Tx.job T) as [|client i location spec properties]; cbn in Hc; [done|]. subst i.
  inversion Hs as [|? ? ? ? ? v ts text _ _]; subst.
  destruct (run_first_write _ _ _ _ _ _ Hr) as [(_ & Eg & _)|(M & e1 & Eg & _)]; [done|].
  rewrite Eg. unfold log_keys. cbn. right. left.
Qed.

(** What a transaction waits for. *)
Lemma waits_create n s c :
  rtc (lstep kind) (idle empty_db n) s -> ticks s <= limit -> separate_choices s -> waits s c ->
  exists T c' T' ident, running s !! c = Some T /\ creates (Tx.job T) ident /\ Tx.log T = [] /\ c' <> c /\
    running s !! c' = Some T' /\ creates (Tx.job T') ident /\ Tx.log T' <> [].
Proof.
  intros Hr Hn Hsep (T & st & k & key & HT & Hrest & Hst & (c' & T' & [Hne HT']%lookup_delete_Some & Hlog)%keys_of_spec).
  pose proof (reachable_ok kind _ _ Hr) as Hs. destruct (reachable_keyed kind limit _ _ Hr) as (owner & Hk).
  destruct (Hk _ _ HT) as (P & Hp & Hm). rewrite Hrest in Hp. destruct Hp as [Hp _].
  destruct (Hk _ _ HT') as (P' & _ & Hm').
  destruct (mine_both s owner c c' T T' key Hsep Hn Hne HT HT') as (ident & Hc & Hc').
  { apply Hm. left. by apply Hp. }
  { apply Hm'. by right. }
  assert (Tx.log T' <> []) as Hl' by (intros E; rewrite E in Hlog; by apply elem_of_nil in Hlog).
  exists T, c', T', ident. split_and!; try done.
  destruct (decide (Tx.log T = [])) as [|Hl]; [done|]. exfalso.
  destruct (sys_tx _ _ Hs _ _ HT) as (u & Hu). destruct (sys_tx _ _ Hs _ _ HT') as (u' & Hu').
  eapply (sys_keys _ _ Hs c c'); [done..| |]; by eapply created_name.
Qed.

Lemma creation_not_waiting n s c T :
  rtc (lstep kind) (idle empty_db n) s -> ticks s <= limit -> separate_choices s ->
  running s !! c = Some T -> Tx.log T <> [] -> is_Some (advance s c).
Proof.
  intros Hr Hn Hsep HT Hl. destruct (advance_some kind s c) as [|Hw]; [by eapply reachable_ok | done | done |].
  apply (waits_create n) in Hw as (T0 & c' & T' & ident & HT0 & _ & Hl0 & _); [|done..]. congruence.
Qed.

Lemma can_go_on n s c T :
  rtc (lstep kind) (idle empty_db n) s -> ticks s <= limit -> separate_choices s -> running s !! c = Some T ->
  is_Some (advance s c) \/
  Tx.log T = [] /\ exists c' T' ident, c' <> c /\ running s !! c' = Some T' /\
    creates (Tx.job T) ident /\ creates (Tx.job T') ident /\ is_Some (advance s c').
Proof.
  intros Hr Hn Hsep HT. destruct (advance_some kind s c) as [|Hw]; [by eapply reachable_ok | done | by left |].
  right. apply (waits_create n) in Hw as (T0 & c' & T' & ident & HT0 & Hc & Hl & Hne & HT' & Hc' & Hl'); [|done..].
  assert (T0 = T) as -> by congruence. split; [done|]. exists c', T', ident. split_and!; try done.
  by eapply creation_not_waiting.
Qed.

(** ** Steps of running transactions *)

Definition advances (s s' : Sys) : Prop := exists c, advance s c = Some s'.

(** What a step leaves running. *)
Definition shrinks (r' r : gmap nat Tx.t) : Prop :=
  exists c T, r !! c = Some T /\
    (r' = delete c r \/ exists T', r' = <[c := T']> r /\ smaller (Tx.rest T') (Tx.rest T)).

Lemma advances_shrinks s s' : advances s s' -> shrinks (running s') (running s).
Proof.
  intros [c Ha]. pose proof Ha as (T & HT & _)%bind_Some. exists c, T. split; [done|].
  destruct (advance_smaller s c T s' HT Ha) as [?|(T' & E & _ & Hs)]; [by left | right; by exists T'].
Qed.

Lemma shrinks_insert c T r : r !! c = None -> Acc shrinks r -> Acc shrinks (<[c := T]> r).
Proof.
  intros Hc Hr. revert T Hc. induction Hr as [r Hacc IHr]; intros T Hc. remember (Tx.rest T) as m eqn:Em.
  revert T Em. induction (smaller_wf m) as [m _ IHm]; intros T ->.
  constructor. intros r' (c' & T' & [[<- <-]|[Hne HT']]%lookup_insert_Some & [->|(T2 & -> & Hs)]).
  - rewrite delete_insert_eq, delete_id by done. by constructor.
  - rewrite insert_insert_eq. by eapply IHm.
  - rewrite delete_insert_ne by done. apply IHr; [exists c', T'; by auto | by rewrite lookup_delete_ne].
  - rewrite insert_insert_ne by done. apply IHr; [exists c', T'; by eauto | by rewrite lookup_insert_ne].
Qed.

Lemma shrinks_wf : well_founded shrinks.
Proof.
  intros r. induction r as [|c T r Hc IH] using map_ind; [|by apply shrinks_insert].
  constructor. intros r' (c & T & HT & _). by rewrite lookup_empty in HT.
Qed.

Lemma advances_wf : well_founded (flip advances).
Proof.
  intros s. remember (running s) as r eqn:Er. revert s Er. induction (shrinks_wf r) as [r _ IH]. intros s ->.
  constructor. intros s' Ha. by eapply IH; [apply advances_shrinks|].
Qed.

(** The jobs stay the same, so the choices of files stay apart. *)
Lemma advances_separate s s' : rtc advances s s' -> separate_choices s -> separate_choices s'.
Proof.
  intros Hr Hs.
  assert (forall c T', running s' !! c = Some T' -> exists T, running s !! c = Some T /\ Tx.job T' = Tx.job T) as Hj.
  { clear Hs. induction Hr as [s|s1 s2 s3 [c Ha] _ IH]; [by eauto|]. intros c' T3 (T2 & HT2 & Ej)%IH.
    pose proof Ha as (T & HT & _)%bind_Some.
    destruct (advance_smaller s1 c T s2 HT Ha) as [E|(T' & E & Ej' & _)]; rewrite E in HT2.
    - apply lookup_delete_Some in HT2 as [_ HT2]. by eauto.
    - apply lookup_insert_Some in HT2 as [[<- <-]|[_ HT2]]; [|by eauto]. exists T. split; [done | congruence]. }
  intros c T f HT Hf. destruct (Hj _ _ HT) as (T0 & HT0 & E0). rewrite E0 in Hf.
  destruct (Hs _ _ _ HT0 Hf) as [Hg Hu]. split; [done|]. intros c' T' HT' Hf'.
  destruct (Hj _ _ HT') as (T1 & HT1 & E1). rewrite E1 in Hf'. by eapply Hu.
Qed.

Lemma advances_steps s s' : rtc advances s s' -> rtc (lstep kind) s s'.
Proof. apply rtc_subrel. intros s1 s2 [c Ha]. by exists (Advance c). Qed.

Lemma advance_schedule cs s s' : schedule kind (Advance <$> cs) s = Some s' -> rtc advances s s'.
Proof.
  revert s; induction cs as [|c cs IH]; intros s; cbn; [by intros [= ->]|].
  intros (s1 & Ha & Hs)%bind_Some. eapply rtc_l; [by exists c | by apply IH].
Qed.

(** ** Theorems *)

(** C14: if the identifiers drawn are distinct, and running transactions have not
    been given the same identifiers for their files by their callers, writers do
    not deadlock and all end: whatever transactions run, on either backend, in
    any interleaving that the locks allow, each can take its next step at once,
    except that a creation may wait for another creation of the same table,
    before it has written anything; and that one can take its next step.  Every
    sequence of steps of the running transactions is finite.  Without the
    condition on the callers two commits can wait for each other for ever
    ([chosen_ids_deadlock]). *)
Theorem writers_never_deadlock n s :
  rtc (lstep kind) (idle empty_db n) s -> ticks s <= limit -> separate_choices s ->
  (forall c T, running s !! c = Some T ->
     is_Some (advance s c) \/
     Tx.log T = [] /\ exists c' T' ident, c' <> c /\ running s !! c' = Some T' /\
       creates (Tx.job T) ident /\ creates (Tx.job T') ident /\ is_Some (advance s c')) /\
  Acc (flip advances) s.
Proof. intros Hr Hn Hsep. split; [intros c T; by apply (can_go_on n) | apply advances_wf]. Qed.

(** So after any steps of the running transactions that leave none of them a
    step, none is running. *)
Theorem writers_all_end n s s' :
  rtc (lstep kind) (idle empty_db n) s -> separate_choices s ->
  rtc advances s s' -> ticks s' <= limit -> (forall c, advance s' c = None) -> running s' = ∅.
Proof.
  intros Hr Hsep Hs' Hn Hstuck. apply map_empty. intros c.
  destruct (running s' !! c) as [T|] eqn:HT; [|done]. exfalso.
  destruct (can_go_on n s' c T) as [[x Hx]|(_ & c' & T' & i & _ & _ & _ & _ & [x Hx])];
    [by etransitivity; [|apply advances_steps] | done | by eapply advances_separate | done | by rewrite Hstuck in Hx..].
Qed.

End progress.

(** ** Witnesses *)

(** [separate_choices], decided. *)
Definition distinct_choices `{Env} (limit : nat) (s : Sys) : bool :=
  let jobs := map_to_list (running s) in
  let same f g := beq (as_bytes f) (as_bytes g) in
  forallb (fun p => forallb (fun f =>
    forallb (fun i => negb (same f (gen_v4 i))) (seq 0 limit) &&
    forallb (fun q => bool_decide (q.1 = p.1) || negb (existsb (same f) (chosen (Tx.job q.2)))) jobs)
    (chosen (Tx.job p.2))) jobs.

Lemma distinct_choices_separate `{Env} limit s : distinct_choices limit s = true -> separate_choices limit s.
Proof.
  unfold distinct_choices. intros Hd c T f HT Hf. rewrite forallb_forall in Hd.
  apply elem_of_map_to_list, list_elem_of_In, Hd in HT. rewrite forallb_forall in HT.
  apply list_elem_of_In, HT, andb_true_iff in Hf as [Hg Hu]. rewrite forallb_forall in Hg, Hu. split.
  - intros i Hi E. specialize (Hg i ltac:(apply in_seq; lia)). by rewrite E, beq_refl in Hg.
  - intros c' T' HT' Hf'. apply elem_of_map_to_list, list_elem_of_In, Hu, orb_true_iff in HT' as [E|E].
    + by apply bool_decide_eq_true_1 in E.
    + apply negb_true_iff, not_true_iff_false in E. destruct E. apply existsb_exists. exists f.
      rewrite <- list_elem_of_In. split; [done | apply beq_refl].
Qed.

#[local] Existing Instances ref_env ref_ipc_laws ref_enumeration_laws ref_monotone.

Lemma ref_distinct : DistinctV4 100.
Proof. intros m n Hm Hn. apply v4_inj; lia. Qed.

(** On PostgreSQL, a commit with files of its own identifiers, and two
    creations of one table, of which the first has inserted it. *)
Definition crowd : list Action :=
  [Begin 1 (JobCreate client events "s3://bucket/events" spec1 None)] ++ replicate 10 (Advance 1) ++
  [Begin 1 (JobCommit client events (v7 3) mutation1); Begin 2 (JobCreate client users "s3://bucket/a" spec1 None);
   Begin 3 (JobCreate client users "s3://bucket/b" spec1 None); Advance 2; Advance 1].

Definition state_after (l : list Action) : Sys :=
  default (idle empty_db 1) (schedule Limits.Postgres l (idle empty_db 1)).

Lemma state_after_reachable l :
  match schedule Limits.Postgres l (idle empty_db 1) with Some _ => true | None => false end = true ->
  rtc (lstep Limits.Postgres) (idle empty_db 1) (state_after l).
Proof.
  unfold state_after. destruct (schedule _ _ _) as [s|] eqn:E; [|done]. intros _. by eapply schedule_steps.
Qed.

Lemma crowd_reachable : rtc (lstep Limits.Postgres) (idle empty_db 1) (state_after crowd).
Proof. apply state_after_reachable. vm_compute. reflexivity. Qed.

Lemma crowd_separate : separate_choices 100 (state_after crowd).
Proof. apply distinct_choices_separate. vm_compute. reflexivity. Qed.

(** The second creation waits, for the first. *)
Lemma writers_never_deadlock_witness :
  size (running (state_after crowd)) = 3 /\ advance (state_after crowd) 3 = None /\
  Acc (flip advances) (state_after crowd) /\
  exists c' T', c' <> 3 /\ running (state_after crowd) !! c' = Some T' /\ creates (Tx.job T') users /\
    is_Some (advance (state_after crowd) c').
Proof.
  assert (ticks (state_after crowd) <= 100) as Hn by (apply Nat.leb_le; vm_compute; reflexivity).
  destruct (running (state_after crowd) !! 3) as [T|] eqn:HT; [|vm_compute in HT; discriminate HT].
  assert (advance (state_after crowd) 3 = None) as Hw by (vm_compute; reflexivity).
  destruct (@writers_never_deadlock ref_env ref_enumeration_laws 100 ref_monotone ref_distinct
    Limits.Postgres 1 _ crowd_reachable Hn crowd_separate) as [Hgo Hacc].
  split; [vm_compute; reflexivity|]. split; [exact Hw|]. split; [exact Hacc|].
  destruct (Hgo 3 T HT) as [[x Hx]|(_ & c' & T' & ident & Hne & HT' & Hc & Hc' & Ha)]; [rewrite Hw in Hx; discriminate Hx|].
  exists c', T'. split; [exact Hne|]. split; [exact HT'|]. split; [|exact Ha].
  replace users with ident; [exact Hc'|]. vm_compute in HT. injection HT as <-. symmetry. exact Hc.
Defined.

(** The steps that are left: the second creation of the table fails. *)
Definition crowd_rest : list nat := replicate 5 1 ++ replicate 9 2 ++ [3].

Lemma writers_all_end_witness :
  exists s', rtc advances (state_after crowd) s' /\ length (tables (committed s')) = 2 /\ running s' = ∅.
Proof.
  destruct (schedule Limits.Postgres (Advance <$> crowd_rest) (state_after crowd)) as [s'|] eqn:E;
    [|vm_compute in E; discriminate E].
  pose proof (advance_schedule Limits.Postgres _ _ _ E) as Hr. exists s'. split; [exact Hr|].
  vm_compute in E. injection E as <-. split; [reflexivity|].
  apply (@writers_all_end ref_env ref_enumeration_laws 100 ref_monotone ref_distinct
    Limits.Postgres 1 _ _ crowd_reachable crowd_separate Hr); [apply Nat.leb_le; vm_compute; reflexivity | reflexivity].
Defined.

(** Two commits to different tables that choose the same two identifiers for
    their files, in opposite orders, wait for each other for ever. *)
Definition crossed : list Action :=
  firstn 22 two_writers ++
  [Begin 1 (JobCommit client events (v7 5) (Mutation.mk [AppendFiles [file f1 "a"]; AppendFiles [file f2 "b"]]));
   Begin 2 (JobCommit client users (v7 6) (Mutation.mk [AppendFiles [file f2 "c"]; AppendFiles [file f1 "d"]]))] ++
  concat (replicate 4 [Advance 1; Advance 2]).

Example chosen_ids_deadlock :
  size (running (state_after crossed)) = 2 /\
  advance (state_after crossed) 1 = None /\ advance (state_after crossed) 2 = None.
Proof. repeat split; vm_compute; reflexivity. Qed.
