(* ===== verification/Storage.v ===== *)
(** * Readers and writers of data files
      (src/storage/mod.rs, file_format/parquet.rs, lance.rs, vortex.rs)

    The format crates and the file system are the fields of the class
    [StorageApi]: each operation the code calls, with its own error.  A stream
    of batches is the list of its items.  A crate operation that consumes a
    stream is a [Consumer]: it pulls items until it returns.  A Parquet writer
    calls back into [TokioAsyncWriter], the file writer of the source, so its
    operations are sequences of such calls.  Lance's [write_stream] runs three
    parties — the pump task, a channel of capacity 2, the blocking writer — and
    is the transition system [lance_io.step]. *)

From S2P Require Import Prelude Error Json Format.
From stdpp Require Import relations.

(** ** Third-party code *)

(** [arrow::error::ArrowError], as far as the code builds it. *)
Inductive ArrowError : Type :=
  | ExternalError (e : StorageError)
  | OtherArrowError (msg : string).

(** Code that pulls items from a source: after the items it has received so
    far it either returns or asks for one more, and at the end of the source it
    returns. *)
Record Consumer (Item R : Type) : Type := mk_consumer {
  returns_after : list Item -> option R;
  returns_at_end : list Item -> R
}.
Arguments mk_consumer {Item R} _ _.
Arguments returns_after {Item R} _ _.
Arguments returns_at_end {Item R} _ _.

(** A consumer on its own, having received [got]: it gets the items of a list,
    then the end. *)
Fixpoint consume {Item R} (c : Consumer Item R) (got items : list Item) : R :=
  match returns_after c got with
  | Some r => r
  | None =>
      match items with
      | [] => returns_at_end c got
      | x :: items => consume c (got ++ [x]) items
      end
  end.

(** What the Parquet crate does with the file writer it was given, the trait
    [AsyncFileWriter]: it has bytes written, or everything completed, and goes
    on with the answer. *)
Inductive FileCalls (Bytes R : Type) : Type :=
  | Finish (r : R)
  | CallWrite (bs : Bytes) (k : result string unit -> FileCalls Bytes R)
  | CallComplete (k : result string unit -> FileCalls Bytes R).
Arguments Finish {Bytes R} r.
Arguments CallWrite {Bytes R} bs k.
Arguments CallComplete {Bytes R} k.

Class StorageApi : Type := {
  storage_formats :: FormatApi;
  Disk : Type;
  FileHandle : Type;
  Path : Type;
  Byte : Type;
  path_to_str : Path -> option string;
  file_open : Path -> Disk -> result string FileHandle * Disk;
  file_create : Path -> Disk -> result string FileHandle * Disk;
  write_all : FileHandle -> list Byte -> Disk -> result string unit * Disk;
  flush : FileHandle -> Disk -> result string unit * Disk;
  (* arrow *)
  RecordBatch : Type;
  SchemaRef : Type;
  SchemaRef_eq_dec :: EqDecision SchemaRef;
  batch_schema : RecordBatch -> SchemaRef;
  debug_schema : SchemaRef -> string;
  new_empty : SchemaRef -> RecordBatch;
  concat_batches : SchemaRef -> list RecordBatch -> result string RecordBatch;
  (* parquet *)
  ArrowReaderOptions : Type;
  arrow_options_default : ArrowReaderOptions;
  ParquetStreamBuilder : Type;
  builder_new : FileHandle -> ArrowReaderOptions -> Disk -> result string ParquetStreamBuilder * Disk;
  with_batch_size : N -> ParquetStreamBuilder -> ParquetStreamBuilder;
  builder_schema : ParquetStreamBuilder -> SchemaRef;
  builder_build : ParquetStreamBuilder -> result string (list (result string RecordBatch));
  AsyncArrowWriter : Type;
  writer_try_new : SchemaRef -> WriterProperties -> result string AsyncArrowWriter;
  writer_write : RecordBatch -> AsyncArrowWriter -> FileCalls (list Byte) (result string AsyncArrowWriter);
  writer_close : AsyncArrowWriter -> FileCalls (list Byte) (result string unit);
  parquet_error_from_io : string -> string;
  (* lance *)
  Dataset : Type;
  Scanner : Type;
  dataset_open : string -> Disk -> result string Dataset * Disk;
  dataset_scan : Dataset -> Scanner;
  scanner_batch_size : N -> Scanner -> Scanner;
  scanner_project : list string -> Scanner -> result string Scanner;
  scanner_filter : string -> Scanner -> result string Scanner;
  scanner_limit : option Z -> option Z -> Scanner -> result string Scanner;
  scanner_in_order : bool -> Scanner -> Scanner;
  scanner_io_buffer_size : N -> Scanner -> Scanner;
  try_into_batch : Scanner -> Disk -> result string RecordBatch * Disk;
  try_into_stream : Scanner -> Disk -> result string (list (result string RecordBatch)) * Disk;
  dataset_write : SchemaRef -> string -> WriteParams -> Disk ->
    Consumer (result ArrowError RecordBatch) (result string unit * Disk);
  (* vortex *)
  ArrayRef : Type;
  DType : Type;
  DType_eq_dec :: EqDecision DType;
  array_dtype : ArrayRef -> DType;
  debug_dtype : DType -> string;
  array_from_arrow : RecordBatch -> ArrayRef;
  batch_try_from : ArrayRef -> result StorageError RecordBatch;
  vortex_error_from_io : string -> string;
  VortexOpenOptions : Type;
  open_options_default : VortexOpenOptions;
  with_initial_read_size : N -> VortexOpenOptions -> VortexOpenOptions;
  without_segment_cache : VortexOpenOptions -> VortexOpenOptions;
  with_dtype : DType -> VortexOpenOptions -> VortexOpenOptions;
  vortex_open : string -> VortexOpenOptions -> Disk -> result string (list (result string ArrayRef)) * Disk;
  read_all : list (result string ArrayRef) -> result string ArrayRef;
  vortex_write : VortexWriteOptions -> FileHandle -> DType -> Disk ->
    Consumer (result string ArrayRef) (result string unit * Disk)
}.

(** ** Effects *)

(** A storage method: it may fail, and it may touch the disk either way. *)
Definition SIO `{StorageApi} (A : Type) : Type := Disk -> result StorageError A * Disk.

#[export] Instance SIO_ret `{StorageApi} : MRet SIO := fun A a d => (Ok a, d).

#[export] Instance SIO_bind `{StorageApi} : MBind SIO := fun A B f m d =>
  match m d with
  | (Ok a, d) => f a d
  | (Err e, d) => (Err e, d)
  end.

Section effects.
Context `{StorageApi}.

Definition pure {A} (r : result StorageError A) : SIO A := fun d => (r, d).

(** A crate operation under [?], which converts its error with [From]. *)
Definition call {A} (from : string -> StorageError) (op : Disk -> result string A * Disk) : SIO A :=
  fun d => let '(r, d) := op d in (map_err from r, d).

Definition try_ {A} (from : string -> StorageError) (r : result string A) : SIO A :=
  pure (map_err from r).

Definition path_to_utf8 (path : Path) : result StorageError string :=
  ok_or (path_to_str path) (SIo "Path contains invalid UTF-8").

(** [Box<dyn Stream<Item = Result<RecordBatch>>>]. *)
Definition RecordBatchStream : Type := list (result StorageError RecordBatch).

(** [try_collect]. *)
Definition try_collect {E} (stream : list (result E RecordBatch)) : result E (list RecordBatch) :=
  traverse id stream.

Definition empty_stream : StorageError := SInvalidInput "write_stream requires at least one RecordBatch".

End effects.

(** ** Parquet *)

Module ParquetReadOptions.
Record t `{StorageApi} : Type := mk {
  arrow_options : ArrowReaderOptions;
  batch_size : option N
}.
Definition default `{StorageApi} : t := mk _ arrow_options_default None.
End ParquetReadOptions.

(** The file behind the [AsyncFileWriter] the crate writes to. *)
Module TokioAsyncWriter.
Section writer.
Context `{StorageApi}.

Record t : Type := mk { inner : FileHandle }.

Definition new (inner : FileHandle) : t := mk inner.

Definition write (self : t) (bs : list Byte) (d : Disk) : result string unit * Disk :=
  let '(r, d) := write_all (inner self) bs d in (map_err parquet_error_from_io r, d).

Definition complete (self : t) (d : Disk) : result string unit * Disk :=
  let '(r, d) := flush (inner self) d in (map_err parquet_error_from_io r, d).

(** An operation of the crate with this writer. *)
Fixpoint drive {R} (self : t) (m : FileCalls (list Byte) R) (d : Disk) : R * Disk :=
  match m with
  | Finish r => (r, d)
  | CallWrite bs k => let '(r, d) := write self bs d in drive self (k r) d
  | CallComplete k => let '(r, d) := complete self d in drive self (k r) d
  end.

End writer.
End TokioAsyncWriter.

Module parquet_io.
Import TokioAsyncWriter (drive).
Section parquet.
Context `{StorageApi}.

Definition apply_read_options (builder : ParquetStreamBuilder) (options : ParquetReadOptions.t) :
    ParquetStreamBuilder :=
  match ParquetReadOptions.batch_size options with
  | Some batch_size => with_batch_size batch_size builder
  | None => builder
  end.

Definition open_builder (path : Path) (options : ParquetReadOptions.t) : SIO ParquetStreamBuilder :=
  file ← call SIo (file_open path);
  builder ← call SParquet (builder_new file (ParquetReadOptions.arrow_options options));
  mret (apply_read_options builder options).

Definition read_with_options (path : Path) (options : ParquetReadOptions.t) : SIO RecordBatch :=
  builder ← open_builder path options;
  let schema := builder_schema builder in
  stream ← try_ SParquet (builder_build builder);
  batches ← try_ SParquet (try_collect stream);
  match batches with
  | [] => mret (new_empty schema)
  | [batch] => mret batch
  | first :: _ => try_ SArrow (concat_batches (batch_schema first) batches)
  end.

Definition read_stream (path : Path) (options : ParquetReadOptions.t) : SIO RecordBatchStream :=
  builder ← open_builder path options;
  stream ← try_ SParquet (builder_build builder);
  mret (map_err SParquet <$> stream).

Definition read (path : Path) : SIO RecordBatch := read_with_options path ParquetReadOptions.default.

Definition write_with_options (batch : RecordBatch) (path : Path) (options : WriterProperties) : SIO unit :=
  file ← call SIo (file_create path);
  let sink := TokioAsyncWriter.new file in
  writer ← try_ SParquet (writer_try_new (batch_schema batch) options);
  writer ← call SParquet (drive sink (writer_write batch writer));
  call SParquet (drive sink (writer_close writer)).

Definition schema_mismatch (expected got : SchemaRef) : string :=
  "Schema mismatch in stream: expected " +:+ debug_schema expected +:+ ", got " +:+ debug_schema got.

(** The loop of [write_stream] over the batches after the first. *)
Fixpoint write_rest (sink : TokioAsyncWriter.t) (expected_schema : SchemaRef) (writer : AsyncArrowWriter)
    (stream : RecordBatchStream) : SIO AsyncArrowWriter :=
  match stream with
  | [] => mret writer
  | item :: stream =>
      batch ← pure item;
      _ ← pure (fail_if (bool_decide (batch_schema batch <> expected_schema))
            (SUnsupported (schema_mismatch expected_schema (batch_schema batch))));
      writer ← call SParquet (drive sink (writer_write batch writer));
      write_rest sink expected_schema writer stream
  end.

Definition write_stream (stream : RecordBatchStream) (path : Path) (options : WriterProperties) : SIO unit :=
  file ← call SIo (file_create path);
  match stream with
  | [] => pure (Err empty_stream)
  | item :: stream =>
      first ← pure item;
      let expected_schema := batch_schema first in
      let sink := TokioAsyncWriter.new file in
      writer ← try_ SParquet (writer_try_new expected_schema options);
      writer ← call SParquet (drive sink (writer_write first writer));
      writer ← write_rest sink expected_schema writer stream;
      call SParquet (drive sink (writer_close writer))
  end.

Definition write (batch : RecordBatch) (path : Path) : SIO unit :=
  write_with_options batch path (build builder_default).

End parquet.
End parquet_io.

(** ** Lance *)

Module LanceReadOptions.
Record t : Type := mk {
  batch_size : option N;
  columns : option (list string);
  filter : option string;
  limit : option Z;
  offset : option Z;
  scan_in_order : option bool;
  io_buffer_size : option N
}.
Definition default : t := mk None None None None None None None.
End LanceReadOptions.

Module lance_io.
Section lance.
Context `{StorageApi}.

(** [if let Some(x) = option { scanner.set(x) }]. *)
Definition when_some {A B} (o : option A) (set : A -> B -> result StorageError B) (b : B) :
    result StorageError B :=
  match o with Some a => set a b | None => Ok b end.

Definition apply_read_options (scanner : Scanner) (options : LanceReadOptions.t) :
    result StorageError Scanner :=
  s ← when_some (LanceReadOptions.batch_size options) (fun n s => Ok (scanner_batch_size n s)) scanner;
  s ← when_some (LanceReadOptions.columns options) (fun c s => map_err SLance (scanner_project c s)) s;
  s ← when_some (LanceReadOptions.filter options) (fun f s => map_err SLance (scanner_filter f s)) s;
  s ← (match LanceReadOptions.limit options, LanceReadOptions.offset options with
       | None, None => Ok s
       | limit, offset => map_err SLance (scanner_limit limit offset s)
       end);
  s ← when_some (LanceReadOptions.scan_in_order options) (fun b s => Ok (scanner_in_order b s)) s;
  when_some (LanceReadOptions.io_buffer_size options) (fun n s => Ok (scanner_io_buffer_size n s)) s.

Definition open_scanner (path : Path) (options : LanceReadOptions.t) : SIO Scanner :=
  uri ← pure (path_to_utf8 path);
  dataset ← call SLance (dataset_open uri);
  pure (apply_read_options (dataset_scan dataset) options).

Definition read_with_options (path : Path) (options : LanceReadOptions.t) : SIO RecordBatch :=
  scanner ← open_scanner path options;
  call SLance (try_into_batch scanner).

Definition read_stream (path : Path) (options : LanceReadOptions.t) : SIO RecordBatchStream :=
  scanner ← open_scanner path options;
  stream ← call SLance (try_into_stream scanner);
  mret (map_err SLance <$> stream).

Definition read (path : Path) : SIO RecordBatch := read_with_options path LanceReadOptions.default.

Definition write_with_options (batch : RecordBatch) (path : Path) (options : WriteParams) : SIO unit :=
  uri ← pure (path_to_utf8 path);
  call SLance (fun d => consume (dataset_write (batch_schema batch) uri options d) [] [Ok batch]).

Definition write (batch : RecordBatch) (path : Path) : SIO unit :=
  write_with_options batch path write_params_default.

(** *** The pump, the channel and the writer of [write_stream] *)

Notation Item := (result ArrowError RecordBatch).

(** The pump task: about to take the next item of the stream; about to send
    one, with the rest of the stream if it goes on afterwards; ended. *)
Inductive Pump : Type :=
  | Pumping (stream : RecordBatchStream)
  | Sending (item : Item) (next : option RecordBatchStream)
  | Stopped
  | PumpPanicked (msg : string).

(** The blocking task: inside [Dataset::write], which has received some items,
    or joined. *)
Inductive WriterTask : Type :=
  | Writing (got : list Item)
  | Joined (r : result string (result string unit)) (d : Disk).

(** [first] and [queue] are what [StreamRecordBatchReader] still holds. *)
Record Pipe : Type := mk_pipe {
  pump : Pump;
  queue : list Item;
  first : option RecordBatch;
  writer : WriterTask
}.

Definition channel_capacity : nat := 2.

Definition schema_mismatch (expected got : SchemaRef) : ArrowError :=
  ExternalError (SInvalidInput ("Schema mismatch in stream: expected " +:+ debug_schema expected
    +:+ ", got " +:+ debug_schema got)).

(** What the pump sends for an item of the stream, and whether it goes on. *)
Definition pump_item (expected_schema : SchemaRef) (item : result StorageError RecordBatch) : Item * bool :=
  match item with
  | Ok batch =>
      if bool_decide (batch_schema batch <> expected_schema)
      then (Err (schema_mismatch expected_schema (batch_schema batch)), false)
      else (Ok batch, true)
  | Err err => (Err (ExternalError err), false)
  end.

Definition resume (next : option RecordBatchStream) : Pump :=
  match next with Some stream => Pumping stream | None => Stopped end.

Definition pump_ended (p : Pump) : bool :=
  match p with Stopped | PumpPanicked _ => true | _ => false end.

Section pipe.
Context (c : Consumer Item (result string unit * Disk)) (expected_schema : SchemaRef).

(** The channel is closed for the pump once the receiver is gone: when the
    writer has joined, or, already before, when it will receive no more and may
    have dropped the reader.  (A writer that panics drops it on the way out; its
    joining is one step with that.) *)
Inductive step : Pipe -> Pipe -> Prop :=
  | pump_end q f w : step (mk_pipe (Pumping []) q f w) (mk_pipe Stopped q f w)
  | pump_next item stream q f w :
      step (mk_pipe (Pumping (item :: stream)) q f w)
        (mk_pipe (Sending (pump_item expected_schema item).1
                    (if (pump_item expected_schema item).2 then Some stream else None)) q f w)
  | pump_send x next q f got :
      length q < channel_capacity ->
      step (mk_pipe (Sending x next) q f (Writing got)) (mk_pipe (resume next) (q ++ [x]) f (Writing got))
  | pump_closed x next q f r d :
      step (mk_pipe (Sending x next) q f (Joined r d)) (mk_pipe Stopped q f (Joined r d))
  | pump_dropped x next q f got out :
      returns_after c got = Some out ->
      step (mk_pipe (Sending x next) q f (Writing got)) (mk_pipe Stopped q f (Writing got))
  | pump_panic stream msg q f w : step (mk_pipe (Pumping stream) q f w) (mk_pipe (PumpPanicked msg) q f w)
  | reader_first p q batch got :
      returns_after c got = None ->
      step (mk_pipe p q (Some batch) (Writing got)) (mk_pipe p q None (Writing (got ++ [Ok batch])))
  | reader_recv p x q got :
      returns_after c got = None ->
      step (mk_pipe p (x :: q) None (Writing got)) (mk_pipe p q None (Writing (got ++ [x])))
  | reader_end p got r d :
      returns_after c got = None -> pump_ended p = true -> returns_at_end c got = (r, d) ->
      step (mk_pipe p [] None (Writing got)) (mk_pipe p [] None (Joined (Ok r) d))
  | writer_return p q f got r d :
      returns_after c got = Some (r, d) ->
      step (mk_pipe p q f (Writing got)) (mk_pipe p [] None (Joined (Ok r) d))
  | writer_panic p q f got msg d :
      step (mk_pipe p q f (Writing got)) (mk_pipe p [] None (Joined (Err msg) d)).
End pipe.

(** What [write_stream] returns, once it can: it awaits the writer, whose
    failure to join returns at once, then the pump. *)
Definition outcome (s : Pipe) : option (result StorageError unit * Disk) :=
  match writer s with
  | Writing _ => None
  | Joined (Err msg) d => Some (Err (SUnsupported ("write_stream join error: " +:+ msg)), d)
  | Joined (Ok r) d =>
      match pump s with
      | Stopped => Some (map_err SLance r, d)
      | PumpPanicked msg => Some (Err (SUnsupported ("write_stream pump error: " +:+ msg)), d)
      | _ => None
      end
  end.

Definition start (batch : RecordBatch) (stream : RecordBatchStream) : Pipe :=
  mk_pipe (Pumping stream) [] (Some batch) (Writing []).

(** [write_stream] as the relation to its possible results. *)
Definition write_stream (stream : RecordBatchStream) (path : Path) (options : WriteParams) (d : Disk)
    (out : result StorageError unit * Disk) : Prop :=
  match path_to_utf8 path, stream with
  | Err e, _ => out = (Err e, d)
  | Ok _, [] => out = (Err empty_stream, d)
  | Ok _, Err e :: _ => out = (Err e, d)
  | Ok uri, Ok batch :: stream =>
      exists s, rtc (step (dataset_write (batch_schema batch) uri options d) (batch_schema batch))
                  (start batch stream) s /\ outcome s = Some out
  end.

End lance.
End lance_io.

(** ** Vortex *)

Module VortexReadOptions.
Record t `{StorageApi} : Type := mk {
  initial_read_size : option N;
  segment_cache : option bool;
  dtype : option DType
}.
Definition default `{StorageApi} : t := mk _ None None None.
End VortexReadOptions.

(** The stream of arrays that [write_stream] gives to the crate, with its data type. *)
Module RecordBatchArrayStream.
Section stream.
Context `{StorageApi}.

Record t : Type := mk { dtype : DType; inner : list (result string ArrayRef) }.

Definition new (dtype : DType) (inner : list (result string ArrayRef)) : t := mk dtype inner.

Definition poll_next (self : t) : option (result string ArrayRef) * t :=
  match inner self with
  | [] => (None, self)
  | item :: inner => (Some item, mk (dtype self) inner)
  end.

(** A crate operation that pulls the stream to its end, unless it returns before;
    the fuel is one more than the number of items. *)
Fixpoint pull {R} (fuel : nat) (c : Consumer (result string ArrayRef) R) (got : list (result string ArrayRef))
    (self : t) : R :=
  match fuel, returns_after c got with
  | _, Some r => r
  | 0, None => returns_at_end c got
  | S fuel, None =>
      match poll_next self with
      | (Some item, self) => pull fuel c (got ++ [item]) self
      | (None, _) => returns_at_end c got
      end
  end.

Definition pull_all {R} (c : Consumer (result string ArrayRef) R) (self : t) : R :=
  pull (S (length (inner self))) c [] self.

End stream.
End RecordBatchArrayStream.

Module vortex_io.
Section vortex.
Context `{StorageApi}.

Definition apply_read_options (options : VortexReadOptions.t) : VortexOpenOptions :=
  let o := open_options_default in
  let o := match VortexReadOptions.initial_read_size options with
           | Some size => with_initial_read_size size o | None => o end in
  let o := match VortexReadOptions.segment_cache options with
           | Some segment_cache => if negb segment_cache then without_segment_cache o else o
           | None => o end in
  match VortexReadOptions.dtype options with Some dtype => with_dtype dtype o | None => o end.

Definition open_stream (path : Path) (options : VortexReadOptions.t) : SIO (list (result string ArrayRef)) :=
  path_str ← pure (path_to_utf8 path);
  call SVortex (vortex_open path_str (apply_read_options options)).

Definition read_with_options (path : Path) (options : VortexReadOptions.t) : SIO RecordBatch :=
  stream ← open_stream path options;
  array ← try_ SVortex (read_all stream);
  pure (batch_try_from array).

Definition read_stream (path : Path) (options : VortexReadOptions.t) : SIO RecordBatchStream :=
  stream ← open_stream path options;
  mret ((fun item => array ← map_err SVortex item; batch_try_from array) <$> stream).

Definition read (path : Path) : SIO RecordBatch := read_with_options path VortexReadOptions.default.

Definition write_with_options (batch : RecordBatch) (path : Path) (options : VortexWriteOptions) : SIO unit :=
  let vortex_array := array_from_arrow batch in
  file ← call SIo (file_create path);
  call SVortex (fun d => consume (vortex_write options file (array_dtype vortex_array) d) [] [Ok vortex_array]).

Definition write (batch : RecordBatch) (path : Path) : SIO unit := write_with_options batch path vortex_default.

Definition dtype_mismatch (expected got : DType) : string :=
  "dtype mismatch in stream: expected " +:+ debug_dtype expected +:+ ", got " +:+ debug_dtype got.

(** The map over the batches after the first. *)
Definition convert (expected_dtype : DType) (batch : result StorageError RecordBatch) :
    result string ArrayRef :=
  match batch with
  | Ok batch =>
      let array := array_from_arrow batch in
      if bool_decide (array_dtype array <> expected_dtype)
      then Err (vortex_error_from_io (dtype_mismatch expected_dtype (array_dtype array)))
      else Ok array
  | Err err => Err (vortex_error_from_io (storage_error_to_string err))
  end.

Definition write_stream (stream : RecordBatchStream) (path : Path) (options : VortexWriteOptions) : SIO unit :=
  match stream with
  | [] => pure (Err empty_stream)
  | item :: stream =>
      first ← pure item;
      let first_array := array_from_arrow first in
      let dtype := array_dtype first_array in
      let array_stream := RecordBatchArrayStream.new dtype (Ok first_array :: (convert dtype <$> stream)) in
      file ← call SIo (file_create path);
      call SVortex (fun d => RecordBatchArrayStream.pull_all
        (vortex_write options file (RecordBatchArrayStream.dtype array_stream) d) array_stream)
  end.

End vortex.
End vortex_io.

(** ** Dispatch over the formats *)

Inductive FormatReadOptions `{StorageApi} : Type :=
  | ParquetRead (options : ParquetReadOptions.t)
  | LanceRead (options : LanceReadOptions.t)
  | VortexRead (options : VortexReadOptions.t).

Inductive FormatWriteOptions `{StorageApi} : Type :=
  | ParquetWrite (options : WriterProperties)
  | LanceWrite (options : WriteParams)
  | VortexWrite (options : VortexWriteOptions).

Module ReaderEnum.
(** The readers of the three formats have no state. *)
Inductive t : Type := Parquet | Lance | Vortex.

Definition new (format : Format) : t :=
  match format with Format.Parquet => Parquet | Format.Lance => Lance | Format.Vortex => Vortex end.

Definition from_str (format_str : string) : result StorageError t :=
  format ← format_from_str format_str;
  Ok (new format).

Section reader.
Context `{StorageApi}.

Definition mismatch : StorageError := SUnsupported "read options do not match reader format".

Definition read_with_options (self : t) (path : Path) (options : FormatReadOptions) : SIO RecordBatch :=
  match self, options with
  | Parquet, ParquetRead options => parquet_io.read_with_options path options
  | Lance, LanceRead options => lance_io.read_with_options path options
  | Vortex, VortexRead options => vortex_io.read_with_options path options
  | _, _ => pure (Err mismatch)
  end.

Definition read_stream (self : t) (path : Path) (options : FormatReadOptions) : SIO RecordBatchStream :=
  match self, options with
  | Parquet, ParquetRead options => parquet_io.read_stream path options
  | Lance, LanceRead options => lance_io.read_stream path options
  | Vortex, VortexRead options => vortex_io.read_stream path options
  | _, _ => pure (Err mismatch)
  end.

Definition read (self : t) (path : Path) : SIO RecordBatch :=
  match self with
  | Parquet => parquet_io.read path
  | Lance => lance_io.read path
  | Vortex => vortex_io.read path
  end.
End reader.
End ReaderEnum.

Module WriterEnum.
Inductive t : Type := Parquet | Lance | Vortex.

Definition new (format : Format) : t :=
  match format with Format.Parquet => Parquet | Format.Lance => Lance | Format.Vortex => Vortex end.

Definition from_str (format_str : string) : result StorageError t :=
  format ← format_from_str format_str;
  Ok (new format).

Section writer.
Context `{StorageApi}.

Definition mismatch : StorageError := SUnsupported "write options do not match writer format".

Definition write_with_options (self : t) (batch : RecordBatch) (path : Path)
    (options : FormatWriteOptions) : SIO unit :=
  match self, options with
  | Parquet, ParquetWrite options => parquet_io.write_with_options batch path options
  | Lance, LanceWrite options => lance_io.write_with_options batch path options
  | Vortex, VortexWrite options => vortex_io.write_with_options batch path options
  | _, _ => pure (Err mismatch)
  end.

(** The possible results of [write_stream]. *)
Definition write_stream (self : t) (stream : RecordBatchStream) (path : Path)
    (options : FormatWriteOptions) (d : Disk) (out : result StorageError unit * Disk) : Prop :=
  match self, options with
  | Parquet, ParquetWrite options => out = parquet_io.write_stream stream path options d
  | Lance, LanceWrite options => lance_io.write_stream stream path options d out
  | Vortex, VortexWrite options => out = vortex_io.write_stream stream path options d
  | _, _ => out = (Err mismatch, d)
  end.

Definition write (self : t) (batch : RecordBatch) (path : Path) : SIO unit :=
  match self with
  | Parquet => parquet_io.write batch path
  | Lance => lance_io.write batch path
  | Vortex => vortex_io.write batch path
  end.
End writer.
End WriterEnum.
