(* ===== verification/Streams.v ===== *)
(** * Writing streams of batches

    Lance's pipeline of pump, channel and writer always comes to an end, never
    deadlocks, and unless a task panics its result is the one of feeding the
    writer sequentially; the Parquet writer's loop is characterized; and no
    format reports success on an empty stream, a failing one, or one whose
    batches do not all have the schema of the first. *)

From S2P Require Import Prelude Error Json Format Storage.
From stdpp Require Import relations.

(** ** The Lance pipeline *)

Module Lance.
Import lance_io.
Section lance.
Context `{StorageApi}.

Notation Item := (result ArrowError RecordBatch).

Section pipe.
Context (c : Consumer Item (result string unit * Disk)) (expected : SchemaRef).

(** What the pump sends over a whole stream. *)
Fixpoint feed (stream : RecordBatchStream) : list Item :=
  match stream with
  | [] => []
  | item :: stream =>
      (pump_item expected item).1 :: (if (pump_item expected item).2 then feed stream else [])
  end.

Definition feed_next (next : option RecordBatchStream) : list Item :=
  match next with Some stream => feed stream | None => [] end.

Definition feed_pump (p : Pump) : list Item :=
  match p with
  | Pumping stream => feed stream
  | Sending x next => x :: feed_next next
  | _ => []
  end.

Definition held (f : option RecordBatch) : list Item :=
  match f with Some batch => [Ok batch] | None => [] end.

(** What the writer has yet to receive. *)
Definition pending (s : Pipe) : list Item := held (first s) ++ queue s ++ feed_pump (pump s).

Definition panicked (s : Pipe) : Prop :=
  match pump s with PumpPanicked _ => True | _ => False end \/
  match writer s with Joined (Err _) _ => True | _ => False end.

(** The writer is on its way to the result [r]. *)
Definition heading (r : result string unit * Disk) (s : Pipe) : Prop :=
  panicked s \/
  match writer s with
  | Writing got => consume c got (pending s) = r
  | Joined (Ok r') d => (r', d) = r
  | Joined (Err _) _ => True
  end.

Lemma consume_return got items r : returns_after c got = Some r -> consume c got items = r.
Proof. intros Hr. destruct items; cbn; by rewrite Hr. Qed.

Lemma step_heading r s s' : step c expected s s' -> heading r s -> heading r s'.
Proof.
  intros Hs [Hp|Hh].
  - left. unfold panicked in *. inversion Hs; subst; cbn in *; naive_solver.
  - unfold heading, panicked. inversion Hs as
      [q f w|item stream q f w|x next q f got Hq|x next q f r' d|x next q f got out Hr|stream msg q f w|p q batch got Hr
      |p x q got Hr|p got r' d Hr Hp He|p q f got r' d Hr|p q f got msg d]; subst; cbn in *.
    + right. done.
    + right. destruct w; [|exact Hh]. unfold pending in *. cbn in *.
      destruct (pump_item expected item) as [x []]; exact Hh.
    + right. rewrite <- Hh. unfold pending. cbn. rewrite <- !app_assoc. do 3 f_equal.
      by destruct next.
    + right. done.
    + right. by rewrite <- Hh, !(consume_return _ _ _ Hr).
    + by left; left.
    + right. rewrite <- Hh. by rewrite Hr.
    + right. rewrite <- Hh. by rewrite Hr.
    + destruct p; try done; [|by left; left]. right. rewrite <- Hh. unfold pending. cbn. by rewrite Hr.
    + right. by rewrite <- Hh, (consume_return _ _ _ Hr).
    + by left; right.
Qed.

(** ** Termination *)

Definition next_weight (next : option RecordBatchStream) : nat :=
  match next with Some stream => 3 * length stream + 1 | None => 0 end.

Definition pump_weight (p : Pump) : nat :=
  match p with
  | Pumping stream => 3 * length stream + 1
  | Sending _ next => 2 + next_weight next
  | _ => 0
  end.

Definition weight (s : Pipe) : nat :=
  pump_weight (pump s) + length (queue s) + length (held (first s)) +
  match writer s with Writing _ => 1 | Joined _ _ => 0 end.

Lemma step_weight s s' : step c expected s s' -> weight s' < weight s.
Proof.
  intros Hs. inversion Hs; subst; unfold weight; cbn; rewrite ?length_app; cbn;
    try (destruct (pump_item expected _) as [? []]; cbn); try (destruct next; cbn);
    try (destruct f; cbn); try lia.
Qed.

Lemma runs_end s : Acc (flip (step c expected)) s.
Proof.
  remember (weight s) as n eqn:En. revert s En. induction (lt_wf n) as [n _ IH]. intros s ->.
  constructor. intros s' Hs. by eapply IH; [apply step_weight|].
Qed.

(** ** Progress *)

(** Unless it has an outcome, a state can move on without a new panic. *)
Lemma progress s :
  (exists out, outcome s = Some out) \/
  exists s', step c expected s s' /\ (panicked s' -> panicked s).
Proof.
  destruct s as [p q f w]. unfold panicked. destruct w as [got|[r|msg] d]; cbn.
  - right. destruct (returns_after c got) as [[r d]|] eqn:Er.
    { eexists. split; [by eapply writer_return | cbn; tauto]. }
    destruct f as [batch|]; [eexists; split; [by eapply reader_first | cbn; tauto]|].
    destruct q as [|x q]; [|eexists; split; [by eapply reader_recv | cbn; tauto]].
    destruct (returns_at_end c got) as [r d] eqn:Ee.
    destruct p as [[|item stream]|x next| |msg];
      [| | |eexists; split; [by eapply reader_end | cbn; tauto]..].
    + eexists. split; [apply pump_end | cbn; tauto].
    + eexists. split; [apply pump_next | cbn; tauto].
    + eexists. split; [apply pump_send; cbn; unfold channel_capacity; lia | destruct next; cbn; tauto].
  - destruct p as [[|item stream]|x next| |msg]; [right|right|right|left; by eexists..].
    + eexists. split; [apply pump_end | cbn; tauto].
    + eexists. split; [apply pump_next | cbn; tauto].
    + eexists. split; [apply pump_closed | cbn; tauto].
  - left. by eexists.
Qed.

(** Some run has an outcome, and without a panic. *)
Lemma quiet_run s : ~ panicked s ->
  exists s' out, rtc (step c expected) s s' /\ outcome s' = Some out /\ ~ panicked s'.
Proof.
  induction (runs_end s) as [s _ IH]. intros Hq.
  destruct (progress s) as [[out Ho]|(s' & Hs & Hq')]; [exists s, out; split; [apply rtc_refl | done]|].
  destruct (IH s' Hs) as (s2 & out & Hr & Ho & Hq2); [tauto|].
  exists s2, out. split; [by eapply rtc_l | done].
Qed.

Lemma runs_heading r s s' : rtc (step c expected) s s' -> heading r s -> heading r s'.
Proof. induction 1 as [|s s1 s2 Hs _ IH]; [done|]. intros Hh. by eapply IH, step_heading. Qed.

End pipe.

(** Feeding the writer with the whole stream, item after item. *)
Definition sequential (uri : string) (options : WriteParams) (d : Disk) (batch : RecordBatch)
    (stream : RecordBatchStream) : result StorageError unit * Disk :=
  let '(r, d') := consume (dataset_write (batch_schema batch) uri options d) []
                    (Ok batch :: feed (batch_schema batch) stream) in
  (map_err SLance r, d').

(** The error of a task that panicked. *)
Definition task_error (r : result StorageError unit) : Prop :=
  exists msg, r = Err (SUnsupported ("write_stream join error: " +:+ msg)) \/
    r = Err (SUnsupported ("write_stream pump error: " +:+ msg)).

Lemma outcome_heading c uri options d batch stream s out :
  c = dataset_write (batch_schema batch) uri options d ->
  rtc (step c (batch_schema batch)) (start batch stream) s -> outcome s = Some out ->
  (~ panicked s -> out = sequential uri options d batch stream) /\ (panicked s -> task_error out.1).
Proof.
  intros Hc Hr Ho.
  assert (heading c (batch_schema batch) (consume c [] (Ok batch :: feed (batch_schema batch) stream)) s) as Hh.
  { eapply runs_heading; [exact Hr|]. right. done. }
  unfold outcome in Ho. unfold panicked. destruct (writer s) as [got|[r|msg] d'] eqn:Ew; [done| |].
  - split.
    + intros Hn. destruct Hh as [Hp|Hh]; [unfold panicked in Hp; rewrite Ew in Hp; tauto|].
      rewrite Ew in Hh. destruct (pump s); try done; [|tauto]. injection Ho as <-.
      unfold sequential. by rewrite <- Hc, <- Hh.
    + intros [Hp|[]]. destruct (pump s); try done. injection Ho as <-. eexists. by right.
  - injection Ho as <-. split; [tauto|]. intros _. eexists. by left.
Qed.

(** [write_stream] without the tasks. *)
Definition run (stream : RecordBatchStream) (path : Path) (options : WriteParams) : SIO unit :=
  uri ← pure (path_to_utf8 path);
  match stream with
  | [] => pure (Err empty_stream)
  | Err e :: _ => pure (Err e)
  | Ok batch :: stream => fun d => sequential uri options d batch stream
  end.

(** Some schedule gives its result. *)
Lemma run_possible stream path options d : write_stream stream path options d (run stream path options d).
Proof.
  unfold write_stream, run, mbind, SIO_bind, pure. destruct (path_to_utf8 path) as [uri|e]; [|done].
  destruct stream as [|[batch|e] rest]; [done| |done].
  destruct (quiet_run (dataset_write (batch_schema batch) uri options d) (batch_schema batch) (start batch rest))
    as (s & out & Hr & Ho & Hq); [unfold panicked; cbn; tauto|].
  exists s. split; [done|]. by destruct (outcome_heading _ _ _ _ _ _ _ _ eq_refl Hr Ho) as [<- _].
Qed.

(** Every schedule does, unless a task panics. *)
Lemma run_only stream path options d out :
  write_stream stream path options d out -> out = run stream path options d \/ task_error out.1.
Proof.
  unfold write_stream, run, mbind, SIO_bind, pure. destruct (path_to_utf8 path) as [uri|e]; [|by left].
  destruct stream as [|[batch|e] rest]; [by left| |by left].
  intros (s & Hr & Ho). destruct (outcome_heading _ _ _ _ _ _ _ _ eq_refl Hr Ho) as [H1 H2].
  assert (panicked s \/ ~ panicked s) as [Hp|Hp]; [|by right; apply H2 | by left; apply H1].
  unfold panicked. destruct (pump s), (writer s) as [|[]]; tauto.
Qed.

End lance.
End Lance.

(** ** What the crates' writers are relied on for *)

(** [Dataset::write] and [VortexWriteOptions::write] read their source to its
    end, and fail when an item is an error. *)
Class StorageLaws `{StorageApi} : Prop := {
  dataset_write_reads : forall schema uri options d items d',
    consume (dataset_write schema uri options d) [] items = (Ok tt, d') ->
    Forall (fun x => is_ok x = true) items;
  vortex_write_reads : forall options file dtype d items d',
    consume (vortex_write options file dtype d) [] items = (Ok tt, d') ->
    Forall (fun x => is_ok x = true) items
}.

Section accepted.
Context `{StorageApi}.

(** Every item is a batch that satisfies [same]. *)
Definition all_same (same : RecordBatch -> Prop) (stream : RecordBatchStream) : Prop :=
  Forall (fun item => exists b, item = Ok b /\ same b) stream.

Lemma feed_all_ok expected stream :
  Forall (fun x => is_ok x = true) (Lance.feed expected stream) ->
  all_same (fun b => batch_schema b = expected) stream.
Proof.
  induction stream as [|[b|e] stream IH]; cbn; intros Hf; [constructor| |].
  - case_bool_decide as E; cbn in Hf; apply Forall_cons in Hf as [Hx Hf]; [done|].
    constructor; [exists b; split; [done | by destruct (decide (batch_schema b = expected))] | by apply IH].
  - by apply Forall_cons in Hf as [Hx _].
Qed.

Lemma convert_all_ok dtype stream :
  Forall (fun x => is_ok x = true) (vortex_io.convert dtype <$> stream) ->
  all_same (fun b => array_dtype (array_from_arrow b) = dtype) stream.
Proof.
  intros Hf%Forall_fmap. eapply Forall_impl; [exact Hf|]. intros [b|e]; unfold compose; cbn; [|done].
  case_bool_decide as E; [done|]. intros _. exists b. split; [done|].
  by destruct (decide (array_dtype (array_from_arrow b) = dtype)).
Qed.

Lemma bind_sio {A B} (m : SIO A) (k : A -> SIO B) d b d' :
  (m ≫= k) d = (Ok b, d') -> exists a d1, m d = (Ok a, d1) /\ k a d1 = (Ok b, d').
Proof. unfold mbind, SIO_bind. destruct (m d) as [[a|e] d1]; [by eauto | done]. Qed.

Lemma all_same_batches same stream :
  all_same same stream <-> exists batches, stream = Ok <$> batches /\ Forall same batches.
Proof.
  split.
  - induction 1 as [|item stream (b & -> & Hb) _ (bs & -> & Hbs)]; [by exists []|].
    exists (b :: bs). split; [done | by constructor].
  - intros (bs & -> & Hbs). apply Forall_fmap. eapply Forall_impl; [exact Hbs|]. intros b Hb. by exists b.
Qed.

(** A stream of batches of one schema is sent as it is. *)
Lemma feed_batches expected batches :
  Forall (fun b => batch_schema b = expected) batches -> Lance.feed expected (Ok <$> batches) = Ok <$> batches.
Proof.
  induction 1 as [|b bs Hb _ IH]; cbn; [done|]. case_bool_decide as E; [done|]. cbn. by rewrite IH.
Qed.

Lemma convert_batches dtype batches :
  Forall (fun b => array_dtype (array_from_arrow b) = dtype) batches ->
  vortex_io.convert dtype <$> (Ok <$> batches) = Ok <$> (array_from_arrow <$> batches).
Proof.
  induction 1 as [|b bs Hb _ IH]; cbn; [done|]. case_bool_decide as E; [done|]. f_equal. exact IH.
Qed.

(** What a successful [write_stream] of each format has done. *)
Lemma lance_write_ok stream path options d d' :
  lance_io.write_stream stream path options d (Ok tt, d') ->
  exists uri b rest, path_to_str path = Some uri /\ stream = Ok b :: rest /\
    consume (dataset_write (batch_schema b) uri options d) [] (Ok b :: Lance.feed (batch_schema b) rest) = (Ok tt, d').
Proof.
  intros [Hw|(msg & [E|E])]%Lance.run_only; [|done..]. symmetry in Hw. unfold Lance.run in Hw.
  apply bind_sio in Hw as (uri & d1 & Hp & Hw). injection Hp as Hp%ok_or_ok <-.
  destruct stream as [|[b|e] rest]; [done| |done]. exists uri, b, rest. split; [done|]. split; [done|].
  unfold Lance.sequential in Hw. destruct (consume _ [] _) as [[[]|e] d2]; [by injection Hw as <- | done].
Qed.

(** Polling the stream of arrays to its end is consuming its items. *)
Lemma pull_all_consume {R} (c : Consumer (result string ArrayRef) R) s :
  RecordBatchArrayStream.pull_all c s = consume c [] (RecordBatchArrayStream.inner s).
Proof.
  unfold RecordBatchArrayStream.pull_all. generalize (@nil (result string ArrayRef)) as got.
  destruct s as [dtype items]. cbn [RecordBatchArrayStream.inner].
  induction items as [|item items IH]; intros got; cbn; destruct (returns_after c got); try done. apply IH.
Qed.

Lemma vortex_write_ok stream path options d d' :
  vortex_io.write_stream stream path options d = (Ok tt, d') ->
  exists b rest file d1, stream = Ok b :: rest /\ file_create path d = (Ok file, d1) /\
    consume (vortex_write options file (array_dtype (array_from_arrow b)) d1) []
      (Ok (array_from_arrow b) :: (vortex_io.convert (array_dtype (array_from_arrow b)) <$> rest)) = (Ok tt, d').
Proof.
  unfold vortex_io.write_stream. destruct stream as [|item stream]; [done|].
  intros (b & d2 & Hb & E)%bind_sio. injection Hb as -> <-.
  apply bind_sio in E as (file & d3 & Hf & E). exists b, stream, file, d3. split; [done|].
  unfold call in E, Hf. rewrite pull_all_consume in E. cbn [RecordBatchArrayStream.inner] in E.
  destruct (file_create path d) as [[f|e] d4]; [|done]. injection Hf as -> ->.
  split; [done|]. destruct (consume _ [] _) as [[[]|e] d5]; [by injection E as <- | done].
Qed.

Lemma write_rest_ok sink expected writer stream d writer' d' :
  parquet_io.write_rest sink expected writer stream d = (Ok writer', d') ->
  all_same (fun b => batch_schema b = expected) stream.
Proof.
  revert writer d. induction stream as [|item stream IH]; intros writer d; cbn; [constructor|].
  intros (b & d1 & Hb & Hk)%bind_sio. injection Hb as -> <-.
  apply bind_sio in Hk as ([] & d2 & Hc & Hk). injection Hc as Hc%fail_if_ok <-.
  apply bind_sio in Hk as (w2 & d3 & _ & Hk). constructor; [|by eapply IH].
  exists b. split; [done|]. apply bool_decide_eq_false_1 in Hc.
  by destruct (decide (batch_schema b = expected)).
Qed.

Lemma parquet_accepts stream path options d d' :
  parquet_io.write_stream stream path options d = (Ok tt, d') ->
  exists b rest, stream = Ok b :: rest /\ all_same (fun x => batch_schema x = batch_schema b) rest /\
    parquet_io.write_stream (Ok b :: rest) path options d = (Ok tt, d').
Proof.
  intros Hw. pose proof Hw as E. unfold parquet_io.write_stream in E. apply bind_sio in E as (file & d1 & _ & E).
  destruct stream as [|item stream]; [done|]. apply bind_sio in E as (b & d2 & Hb & E). injection Hb as -> <-.
  apply bind_sio in E as (w & d3 & _ & E). apply bind_sio in E as (w2 & d4 & _ & E).
  apply bind_sio in E as (w3 & d5 & Hr & _). exists b, stream. split; [done|].
  split; [by eapply write_rest_ok | done].
Qed.

Lemma try_collect_map (from : string -> StorageError) (stream : list (result string RecordBatch)) :
  try_collect (map_err from <$> stream) = map_err from (try_collect stream).
Proof.
  unfold try_collect. induction stream as [|[b|e] stream IH]; cbn; [done| |done].
  rewrite IH. by destruct (traverse id stream).
Qed.

End accepted.

(** ** Theorems *)

(** C21: Lance's concurrent [write_stream] refines sequential writing: the pump
    task, the channel of capacity 2 and the blocking writer never deadlock,
    every schedule comes to an end, some schedule gives the result of feeding
    the writer the checked stream item after item, and every schedule gives
    that result or, when a task panics, the error that says so. *)
Theorem lance_write_stream_refines `{StorageApi} stream path options d uri batch rest :
  path_to_str path = Some uri -> stream = Ok batch :: rest ->
  let step := lance_io.step (dataset_write (batch_schema batch) uri options d) (batch_schema batch) in
  lance_io.write_stream stream path options d (Lance.sequential uri options d batch rest) /\
  (forall out, lance_io.write_stream stream path options d out ->
     out = Lance.sequential uri options d batch rest \/ Lance.task_error out.1) /\
  (forall s, rtc step (lance_io.start batch rest) s ->
     Acc (flip step) s /\
     ((exists out, lance_io.outcome s = Some out) \/
      exists s', step s s' /\ (Lance.panicked s' -> Lance.panicked s))).
Proof.
  intros Hpath -> step.
  assert (Lance.run (Ok batch :: rest) path options d = Lance.sequential uri options d batch rest) as <-.
  { unfold Lance.run, mbind, SIO_bind, pure, path_to_utf8. by rewrite Hpath. }
  split; [apply Lance.run_possible|]. split; [apply Lance.run_only|].
  intros s _. split; [apply Lance.runs_end | apply Lance.progress].
Qed.

(** C22: no format accepts a bad stream: when [write_stream] reports success,
    for any format and schedule, the stream had a first batch, no item of it was
    an error, and every batch had the schema of the first (for Vortex, the data
    type of its array). *)
Theorem write_stream_accepts `{StorageApi} `{!StorageLaws} w stream path options d d' :
  WriterEnum.write_stream w stream path options d (Ok tt, d') ->
  exists batch rest, stream = Ok batch :: rest /\
    all_same (fun b => match w with
      | WriterEnum.Vortex => array_dtype (array_from_arrow b) = array_dtype (array_from_arrow batch)
      | _ => batch_schema b = batch_schema batch
      end) rest.
Proof.
  destruct w, options as [options|options|options]; cbn; try done.
  - intros E. symmetry in E. apply parquet_accepts in E as (b & rest & -> & Hs & _). by exists b, rest.
  - intros (uri & b & rest & _ & -> & Hc)%lance_write_ok. exists b, rest. split; [done|].
    apply dataset_write_reads in Hc. apply Forall_cons in Hc as [_ Hc]. by apply feed_all_ok.
  - intros E. symmetry in E. apply vortex_write_ok in E as (b & rest & file & d1 & -> & _ & Hc).
    exists b, rest. split; [done|]. apply vortex_write_reads in Hc. apply Forall_cons in Hc as [_ Hc].
    by apply convert_all_ok.
Qed.

(** Reading a Parquet file at once is collecting its stream: with the same
    options, [read_with_options] fails as [read_stream] does, and otherwise
    returns the only batch of the stream, its batches joined under the schema of
    the first, an empty batch, or the stream's first error. *)
Theorem parquet_read_collects `{StorageApi} path options d :
  match parquet_io.read_stream path options d with
  | (Err e, d') => parquet_io.read_with_options path options d = (Err e, d')
  | (Ok stream, d') => exists schema, parquet_io.read_with_options path options d =
      (match try_collect stream with
       | Err e => Err e
       | Ok [] => Ok (new_empty schema)
       | Ok [batch] => Ok batch
       | Ok ((batch :: _) as batches) => map_err SArrow (concat_batches (batch_schema batch) batches)
       end, d')
  end.
Proof.
  unfold parquet_io.read_stream, parquet_io.read_with_options, mbind, SIO_bind.
  destruct (parquet_io.open_builder path options d) as [[builder|e] d1]; [|done].
  unfold try_, pure. destruct (builder_build builder) as [stream|e]; [|done]. cbn.
  exists (builder_schema builder). rewrite try_collect_map.
  destruct (try_collect stream) as [[|b [|b' bs]]|e]; done.
Qed.
