(* ===== verification/RoundTrip.v ===== *)
(** * What is written is what is read

    The rows of a file, as the format crates document them: [StoredRows] says
    what their writers store and what their readers give back, operation by
    operation.  The Parquet crate hands the bytes of a file to the writer
    [TokioAsyncWriter] of the source, and they are in the file once that has
    flushed them.  From this, a batch or a stream that a writer of any format has
    stored is read back, at once or as a stream, row for row. *)

From S2P Require Import Prelude Error Json Format Storage Streams.

(** ** What the format crates store *)

Class StoredRows `{StorageApi} : Type := {
  Row : Type;
  batch_rows : RecordBatch -> list Row;
  array_rows : ArrayRef -> list Row;
  handle_path : FileHandle -> Path;
  appends : WriteMode -> bool;
  (* the bytes of a file, and those written through a handle so far *)
  file_bytes : Path -> Disk -> list Byte;
  handle_bytes : FileHandle -> Disk -> list Byte;
  (* the rows a Parquet writer was given, and the bytes it has handed on *)
  writer_rows : AsyncArrowWriter -> list Row;
  writer_sent : AsyncArrowWriter -> list Byte;
  decoded : list Byte -> list Row;
  builder_rows : ParquetStreamBuilder -> list Row;
  scanner_rows : Scanner -> list Row;
  lance_rows : Path -> Disk -> list Row;
  vortex_rows : Path -> Disk -> list Row;
  (* the data type a Vortex file was written with *)
  vortex_dtype : Path -> Disk -> DType
}.

(** The rows at a path. *)
Definition stored `{StoredRows} (format : Format) (path : Path) (d : Disk) : list Row :=
  match format with
  | Format.Parquet => decoded (file_bytes path d)
  | Format.Lance => lance_rows path d
  | Format.Vortex => vortex_rows path d
  end.

(** What a Parquet operation hands on when all its calls succeed: its result, the
    bytes, after those [sent] before, and whether they are completed. *)
Fixpoint answered {Bytes R} (m : FileCalls (list Bytes) R) (sent : list Bytes) (saved : bool) :
    R * list Bytes * bool :=
  match m with
  | Finish r => (r, sent, saved)
  | CallWrite bs k => answered (k (Ok tt)) (sent ++ bs) false
  | CallComplete k => answered (k (Ok tt)) sent true
  end.

(** An operation that ends in an error, and one that does so when a call fails. *)
Fixpoint fails {Bytes E A} (m : FileCalls Bytes (result E A)) : Prop :=
  match m with
  | Finish r => is_ok r = false
  | CallWrite _ k | CallComplete k => forall a, fails (k a)
  end.

Fixpoint heeds {Bytes E A} (m : FileCalls Bytes (result E A)) : Prop :=
  match m with
  | Finish r => True
  | CallWrite _ k | CallComplete k => (forall e, fails (k (Err e))) /\ heeds (k (Ok tt))
  end.

(** The rows of batches, one after the other. *)
Definition all_rows `{StoredRows} (batches : list RecordBatch) : list Row := batches ≫= batch_rows.

Definition all_array_rows `{StoredRows} (arrays : list ArrayRef) : list Row := arrays ≫= array_rows.

(** Options that supply no data type for a file, or that of its arrays. *)
Definition own_dtype `{StorageApi} (options : VortexReadOptions.t) (dtype : DType) : Prop :=
  match VortexReadOptions.dtype options with Some supplied => supplied = dtype | None => True end.

Class StoredRowsLaws `{StoredRows} : Prop := {
  (* arrow *)
  concat_rows : forall schema batches b, concat_batches schema batches = Ok b -> batch_rows b = all_rows batches;
  empty_rows : forall schema, batch_rows (new_empty schema) = [];
  (* files *)
  create_handle : forall path d file d', file_create path d = (Ok file, d') ->
    handle_path file = path /\ handle_bytes file d' = [];
  write_adds : forall file bs d d', write_all file bs d = (Ok tt, d') ->
    handle_bytes file d' = handle_bytes file d ++ bs;
  flush_saves : forall file d d', flush file d = (Ok tt, d') ->
    handle_bytes file d' = handle_bytes file d /\ file_bytes (handle_path file) d' = handle_bytes file d;
  (* parquet *)
  writer_new : forall schema options w,
    writer_try_new schema options = Ok w -> writer_rows w = [] /\ writer_sent w = [];
  writer_adds : forall b w w' sent saved, answered (writer_write b w) (writer_sent w) false = (Ok w', sent, saved) ->
    writer_rows w' = writer_rows w ++ batch_rows b /\ writer_sent w' = sent;
  writer_closes : forall w sent saved, answered (writer_close w) (writer_sent w) false = (Ok tt, sent, saved) ->
    decoded sent = writer_rows w /\ saved = true;
  write_heeds : forall b w, heeds (writer_write b w);
  close_heeds : forall w, heeds (writer_close w);
  builder_opens : forall path d file d1 options b d2,
    file_open path d = (Ok file, d1) -> builder_new file options d1 = (Ok b, d2) ->
    builder_rows b = decoded (file_bytes path d);
  builder_sized : forall n b, builder_rows (with_batch_size n b) = builder_rows b;
  builder_gives : forall b items batches, builder_build b = Ok items -> try_collect items = Ok batches ->
    all_rows batches = builder_rows b;
  (* lance *)
  dataset_writes : forall path uri options schema batches d d', path_to_str path = Some uri ->
    consume (dataset_write schema uri options d) [] (Ok <$> batches) = (Ok tt, d') ->
    lance_rows path d' = (if appends (mode options) then lance_rows path d else []) ++ all_rows batches;
  dataset_scans : forall path uri d dataset d', path_to_str path = Some uri ->
    dataset_open uri d = (Ok dataset, d') -> scanner_rows (dataset_scan dataset) = lance_rows path d;
  scanner_sized : forall n s, scanner_rows (scanner_batch_size n s) = scanner_rows s;
  scanner_ordered : forall s, scanner_rows (scanner_in_order true s) = scanner_rows s;
  scanner_buffered : forall n s, scanner_rows (scanner_io_buffer_size n s) = scanner_rows s;
  scanner_batch : forall s d b d', try_into_batch s d = (Ok b, d') -> batch_rows b = scanner_rows s;
  scanner_stream : forall s d items d' batches, try_into_stream s d = (Ok items, d') ->
    try_collect items = Ok batches -> all_rows batches = scanner_rows s;
  (* vortex *)
  from_arrow_rows : forall b, array_rows (array_from_arrow b) = batch_rows b;
  batch_from_rows : forall a b, batch_try_from a = Ok b -> batch_rows b = array_rows a;
  array_writes : forall options file a arrays d d',
    consume (vortex_write options file (array_dtype a) d) [] (Ok <$> (a :: arrays)) = (Ok tt, d') ->
    vortex_rows (handle_path file) d' = all_array_rows (a :: arrays) /\
    vortex_dtype (handle_path file) d' = array_dtype a;
  array_opens : forall path path_str options d items d' arrays, path_to_str path = Some path_str ->
    own_dtype options (vortex_dtype path d) ->
    vortex_open path_str (vortex_io.apply_read_options options) d = (Ok items, d') -> traverse id items = Ok arrays ->
    all_array_rows arrays = vortex_rows path d;
  array_joins : forall items a, read_all items = Ok a ->
    exists arrays, traverse id items = Ok arrays /\ array_rows a = all_array_rows arrays
}.

Import TokioAsyncWriter (inner, write, complete, drive).

Section round_trip.
Context `{StoredRows} `{!StorageLaws} `{!StoredRowsLaws}.

(** The format a reader or writer is for. *)
Definition reader_format (r : ReaderEnum.t) : Format :=
  match r with
  | ReaderEnum.Parquet => Format.Parquet | ReaderEnum.Lance => Format.Lance | ReaderEnum.Vortex => Format.Vortex
  end.

Definition writer_format (w : WriterEnum.t) : Format :=
  match w with
  | WriterEnum.Parquet => Format.Parquet | WriterEnum.Lance => Format.Lance | WriterEnum.Vortex => Format.Vortex
  end.

(** Options that select every row, in order. *)
Definition reads_all (options : FormatReadOptions) : bool :=
  match options with
  | LanceRead (LanceReadOptions.mk _ None None None None in_order _) =>
      match in_order with Some false => false | _ => true end
  | LanceRead _ => false
  | _ => true
  end.

(** A data type supplied for reading is that of what was written. *)
Definition own_type (options : FormatReadOptions) (batches : list RecordBatch) : Prop :=
  match options with
  | VortexRead options => Forall (fun b => own_dtype options (array_dtype (array_from_arrow b))) batches
  | _ => True
  end.

(** Options that fit the file at a path, for a reader of a format. *)
Definition fits (format : Format) (options : FormatReadOptions) (path : Path) (d : Disk) : Prop :=
  match format, options with
  | Format.Vortex, VortexRead options => own_dtype options (vortex_dtype path d)
  | _, _ => True
  end.

(** The data type of a Vortex file is that of the first batch it was written with. *)
Definition typed_by (format : Format) (path : Path) (d : Disk) (batches : list RecordBatch) : Prop :=
  format = Format.Vortex ->
  exists b rest, batches = b :: rest /\ vortex_dtype path d = array_dtype (array_from_arrow b).

(** The rows that were there and stay: those of a dataset that is appended to. *)
Definition kept_rows (options : FormatWriteOptions) (path : Path) (d : Disk) : list Row :=
  match options with
  | LanceWrite options => if appends (mode options) then stored Format.Lance path d else []
  | _ => []
  end.

Lemma all_rows_app bs cs : all_rows (bs ++ cs) = all_rows bs ++ all_rows cs.
Proof. apply bind_app. Qed.

Lemma all_array_rows_from bs : all_array_rows (array_from_arrow <$> bs) = all_rows bs.
Proof.
  unfold all_array_rows, all_rows. induction bs as [|b bs IH]; cbn; [done|]. by rewrite from_arrow_rows, <- IH.
Qed.

Lemma call_ok {A} from (op : Disk -> result string A * Disk) d a d' :
  call from op d = (Ok a, d') -> op d = (Ok a, d').
Proof. unfold call. destruct (op d) as [[x|e] d1]; [by intros [= -> ->] | done]. Qed.

Lemma try_ok {A} from (r : result string A) d a d' : try_ from r d = (Ok a, d') -> r = Ok a /\ d' = d.
Proof. unfold try_, pure. destruct r as [x|e]; [by intros [= -> ->] | done]. Qed.

Lemma pure_ok {A} (r : result StorageError A) d a d' : pure r d = (Ok a, d') -> r = Ok a /\ d' = d.
Proof. unfold pure. by intros [= -> ->]. Qed.

Lemma path_ok path d uri d' : pure (path_to_utf8 path) d = (Ok uri, d') -> path_to_str path = Some uri /\ d' = d.
Proof. intros [Hp%ok_or_ok ->]%pure_ok. done. Qed.

(** ** Writers *)

(** An operation that succeeds has had all its calls answered, and what it
    handed on is behind the handle, and in the file if it was completed. *)
Lemma drive_fails {A} sink (m : FileCalls (list Byte) (result string A)) d : fails m ->
  is_ok (drive sink m d).1 = false.
Proof.
  revert d; induction m as [r|bs k IH|k IH]; intros d; cbn [fails drive]; [done|..]; intros Hf.
  - destruct (write sink bs d) as [r d1]. by apply IH.
  - destruct (complete sink d) as [r d1]. by apply IH.
Qed.

Definition behind (sink : TokioAsyncWriter.t) (d : Disk) (sent : list Byte) (saved : bool) : Prop :=
  handle_bytes (inner sink) d = sent /\ (saved = true -> file_bytes (handle_path (inner sink)) d = sent).

Lemma drive_ok {A} sink (m : FileCalls (list Byte) (result string A)) d a d' sent saved :
  heeds m -> drive sink m d = (Ok a, d') -> behind sink d sent saved ->
  exists sent' saved', answered m sent saved = (Ok a, sent', saved') /\ behind sink d' sent' saved'.
Proof.
  revert d sent saved; induction m as [r|bs k IH|k IH]; intros d sent saved; cbn [heeds drive answered].
  - intros _ [= -> ->] Hb. by exists sent, saved.
  - intros [Hf Hk] Hd [Hb _]. unfold write in Hd. destruct (write_all (inner sink) bs d) as [[[]|e] d1] eqn:Ew.
    + apply write_adds in Ew. eapply IH; [done | exact Hd|]. split; [by rewrite Ew, Hb | done].
    + pose proof (drive_fails sink (k (Err (parquet_error_from_io e))) d1 (Hf _)) as Hx. cbn in Hd. by rewrite Hd in Hx.
  - intros [Hf Hk] Hd [Hb _]. unfold complete in Hd. destruct (flush (inner sink) d) as [[[]|e] d1] eqn:Ew.
    + apply flush_saves in Ew as [E1 E2]. eapply IH; [done | exact Hd|]. split; [by rewrite E1 | by rewrite E2].
    + pose proof (drive_fails sink (k (Err (parquet_error_from_io e))) d1 (Hf _)) as Hx. cbn in Hd. by rewrite Hd in Hx.
Qed.

Lemma drive_write sink b w d w' d' :
  drive sink (writer_write b w) d = (Ok w', d') -> behind sink d (writer_sent w) false ->
  writer_rows w' = writer_rows w ++ batch_rows b /\ behind sink d' (writer_sent w') false.
Proof.
  intros Hd Hb. destruct (drive_ok _ _ _ _ _ _ _ (write_heeds b w) Hd Hb) as (sent & saved & [Er <-]%writer_adds & Hb' & _).
  by repeat split.
Qed.

Lemma drive_close sink w d d' :
  drive sink (writer_close w) d = (Ok tt, d') -> behind sink d (writer_sent w) false ->
  stored Format.Parquet (handle_path (inner sink)) d' = writer_rows w.
Proof.
  intros Hd Hb. destruct (drive_ok _ _ _ _ _ _ _ (close_heeds w) Hd Hb) as (sent & saved & [<- Es]%writer_closes & _ & Hs).
  unfold stored. by rewrite (Hs Es).
Qed.

Lemma drive_new path d file d' schema options w :
  file_create path d = (Ok file, d') -> writer_try_new schema options = Ok w ->
  handle_path file = path /\ writer_rows w = [] /\ behind (TokioAsyncWriter.new file) d' (writer_sent w) false.
Proof. intros [Hp Hh]%create_handle [Hr Hs]%writer_new. rewrite Hs. by repeat split. Qed.

Lemma parquet_rest_rows sink expected w batches d w' d' :
  parquet_io.write_rest sink expected w (Ok <$> batches) d = (Ok w', d') -> behind sink d (writer_sent w) false ->
  writer_rows w' = writer_rows w ++ all_rows batches /\ behind sink d' (writer_sent w') false.
Proof.
  revert w d; induction batches as [|b batches IH]; intros w d; cbn.
  { intros [= -> ->]. by rewrite app_nil_r. }
  intros (b1 & d1 & [[= ->] ->]%pure_ok & Hk)%bind_sio Hb.
  apply bind_sio in Hk as ([] & d2 & [_ ->]%pure_ok & Hk).
  apply bind_sio in Hk as (w1 & d3 & Hw%call_ok & Hk). apply drive_write in Hw as [Er Hb1]; [|done].
  apply IH in Hk as [Er' Hb']; [|done]. by rewrite Er', Er, <- app_assoc.
Qed.

Lemma parquet_stream_rows batches path options d d' :
  parquet_io.write_stream (Ok <$> batches) path options d = (Ok tt, d') ->
  stored Format.Parquet path d' = all_rows batches.
Proof.
  unfold parquet_io.write_stream. intros (file & d1 & Hf%call_ok & Hk)%bind_sio.
  destruct batches as [|b batches]; [done|]. cbn [fmap list_fmap] in Hk.
  apply bind_sio in Hk as (b1 & d2 & [[= ->] ->]%pure_ok & Hk).
  apply bind_sio in Hk as (w & d3 & [Hw ->]%try_ok & Hk).
  destruct (drive_new _ _ _ _ _ _ _ Hf Hw) as (<- & Er & Hb).
  apply bind_sio in Hk as (w1 & d4 & Hw1%call_ok & Hk). apply drive_write in Hw1 as [Er1 Hb1]; [|done].
  apply bind_sio in Hk as (w2 & d5 & Hw2 & Hk%call_ok). apply parquet_rest_rows in Hw2 as [Er2 Hb2]; [|done].
  apply drive_close in Hk; [|done]. rewrite Er2, Er1, Er in Hk. exact Hk.
Qed.

Lemma parquet_write_rows b path options d d' :
  parquet_io.write_with_options b path options d = (Ok tt, d') -> stored Format.Parquet path d' = batch_rows b.
Proof.
  unfold parquet_io.write_with_options. intros (file & d1 & Hf%call_ok & Hk)%bind_sio.
  apply bind_sio in Hk as (w & d3 & [Hw ->]%try_ok & Hk).
  destruct (drive_new _ _ _ _ _ _ _ Hf Hw) as (<- & Er & Hb).
  apply bind_sio in Hk as (w1 & d4 & Hw1%call_ok & Hk%call_ok). apply drive_write in Hw1 as [Er1 Hb1]; [|done].
  apply drive_close in Hk; [|done]. rewrite Er1, Er in Hk. exact Hk.
Qed.

Lemma lance_write_rows b path options d d' :
  lance_io.write_with_options b path options d = (Ok tt, d') ->
  stored Format.Lance path d' = kept_rows (LanceWrite options) path d ++ batch_rows b.
Proof.
  unfold lance_io.write_with_options. intros (uri & d1 & [Hp ->]%path_ok & Hk%call_ok)%bind_sio.
  cbn [stored]. rewrite (dataset_writes path uri options (batch_schema b) [b] d d'); [|done|exact Hk].
  unfold all_rows. cbn. by rewrite app_nil_r.
Qed.

Lemma vortex_write_rows b path options d d' :
  vortex_io.write_with_options b path options d = (Ok tt, d') ->
  stored Format.Vortex path d' = batch_rows b /\ typed_by Format.Vortex path d' [b].
Proof.
  unfold vortex_io.write_with_options. intros (file & d1 & [Hf _]%call_ok%create_handle & Hk%call_ok)%bind_sio.
  apply (array_writes _ _ _ []) in Hk as [Hk Ht]. rewrite Hf in Hk, Ht. split; [|by intros _; exists b, []].
  cbn [stored]. rewrite Hk. change [array_from_arrow b] with (array_from_arrow <$> [b]). rewrite all_array_rows_from. unfold all_rows. cbn. by rewrite app_nil_r.
Qed.

(** A successful [write_stream] of any format stores the rows of the stream. *)
Lemma write_stream_rows w stream path options d d' :
  WriterEnum.write_stream w stream path options d (Ok tt, d') ->
  exists batches, stream = Ok <$> batches /\
    stored (writer_format w) path d' = kept_rows options path d ++ all_rows batches /\
    typed_by (writer_format w) path d' batches.
Proof.
  destruct w, options as [options|options|options]; cbn; try done.
  - intros E. symmetry in E. apply parquet_accepts in E as (b & rest & -> & (bs & -> & _)%all_same_batches & E).
    exists (b :: bs). split; [done|]. split; [|done]. by apply (parquet_stream_rows (b :: bs)) in E.
  - intros (uri & b & rest & Hp & -> & Hc)%lance_write_ok. pose proof Hc as Hr%dataset_write_reads.
    apply Forall_cons in Hr as [_ (bs & -> & Hbs)%feed_all_ok%all_same_batches].
    rewrite (feed_batches _ _ Hbs) in Hc. exists (b :: bs). split; [done|]. split; [|done].
    apply (dataset_writes path uri options _ (b :: bs) d d' Hp Hc).
  - intros E. symmetry in E. apply vortex_write_ok in E as (b & rest & file & d1 & -> & [Hf _]%create_handle & Hc).
    pose proof Hc as Hr%vortex_write_reads.
    apply Forall_cons in Hr as [_ (bs & -> & Hbs)%convert_all_ok%all_same_batches].
    rewrite (convert_batches _ _ Hbs) in Hc. exists (b :: bs). split; [done|].
    rewrite <- (fmap_cons Ok) in Hc. apply array_writes in Hc as [Hc Ht]. rewrite Hf in Hc, Ht.
    split; [|by intros _; exists b, bs]. cbn [writer_format stored].
    by rewrite Hc, <- (fmap_cons array_from_arrow), all_array_rows_from.
Qed.

Lemma write_rows w b path options d d' :
  WriterEnum.write_with_options w b path options d = (Ok tt, d') ->
  stored (writer_format w) path d' = kept_rows options path d ++ batch_rows b /\ typed_by (writer_format w) path d' [b].
Proof.
  destruct w, options as [options|options|options]; cbn; try done.
  - intros Hw%parquet_write_rows. by split.
  - intros Hw%lance_write_rows. by split.
  - apply vortex_write_rows.
Qed.

(** ** Readers *)

Lemma builder_of path options d b d' :
  parquet_io.open_builder path options d = (Ok b, d') -> builder_rows b = stored Format.Parquet path d.
Proof.
  unfold parquet_io.open_builder. intros (file & d1 & Hf%call_ok & Hk)%bind_sio.
  apply bind_sio in Hk as (b0 & d2 & Hb%call_ok & Hk). injection Hk as <- <-.
  cbn [stored]. rewrite <- (builder_opens _ _ _ _ _ _ _ Hf Hb). unfold parquet_io.apply_read_options.
  destruct (ParquetReadOptions.batch_size options); [apply builder_sized | done].
Qed.

Lemma parquet_read_rows path options d b d' :
  parquet_io.read_with_options path options d = (Ok b, d') -> batch_rows b = stored Format.Parquet path d.
Proof.
  unfold parquet_io.read_with_options. intros (bld & d1 & Hb%builder_of & Hk)%bind_sio.
  apply bind_sio in Hk as (items & d2 & [Hi ->]%try_ok & Hk).
  apply bind_sio in Hk as (batches & d3 & [Hc ->]%try_ok & Hk).
  rewrite <- Hb, <- (builder_gives _ _ _ Hi Hc). destruct batches as [|x [|y batches]].
  - injection Hk as <- <-. apply empty_rows.
  - injection Hk as <- <-. unfold all_rows. cbn. by rewrite app_nil_r.
  - apply try_ok in Hk as [Hk _]. by apply concat_rows in Hk.
Qed.

Lemma parquet_stream_read path options d items d' batches :
  parquet_io.read_stream path options d = (Ok items, d') -> try_collect items = Ok batches ->
  all_rows batches = stored Format.Parquet path d.
Proof.
  unfold parquet_io.read_stream. intros (bld & d1 & Hb%builder_of & Hk)%bind_sio Hc.
  apply bind_sio in Hk as (items0 & d2 & [Hi ->]%try_ok & Hk). injection Hk as <- <-.
  rewrite try_collect_map in Hc. apply map_err_ok in Hc. by rewrite (builder_gives _ _ _ Hi Hc).
Qed.

(** The scanner of options that select every row. *)
Lemma scanner_of path options d s d' :
  reads_all (LanceRead options) = true -> lance_io.open_scanner path options d = (Ok s, d') ->
  scanner_rows s = stored Format.Lance path d.
Proof.
  destruct options as [size columns filter limit offset in_order buffer].
  destruct columns, filter, limit, offset; try done. intros Hall.
  unfold lance_io.open_scanner. intros (uri & d1 & [Hp ->]%path_ok & Hk)%bind_sio.
  apply bind_sio in Hk as (ds & d2 & Ho%call_ok & Hk). apply pure_ok in Hk as [Hk _].
  cbn [stored]. rewrite <- (dataset_scans _ _ _ _ _ Hp Ho). unfold lance_io.apply_read_options in Hk.
  destruct size, in_order as [[]|], buffer; cbn in Hk, Hall; try done; injection Hk as <-;
    by rewrite ?scanner_buffered, ?scanner_ordered, ?scanner_sized.
Qed.

Lemma lance_stream_read path options d items d' batches :
  reads_all (LanceRead options) = true -> lance_io.read_stream path options d = (Ok items, d') ->
  try_collect items = Ok batches -> all_rows batches = stored Format.Lance path d.
Proof.
  unfold lance_io.read_stream. intros Hall (s & d1 & Hs & Hk)%bind_sio Hc. apply (scanner_of _ _ _ _ _ Hall) in Hs.
  apply bind_sio in Hk as (items0 & d2 & Hi%call_ok & Hk). injection Hk as <- <-.
  rewrite try_collect_map in Hc. apply map_err_ok in Hc. by rewrite (scanner_stream _ _ _ _ _ Hi Hc).
Qed.

Lemma collect_arrays (items : list (result string ArrayRef)) batches :
  try_collect ((fun item => array ← map_err SVortex item; batch_try_from array) <$> items) = Ok batches ->
  exists arrays, traverse id items = Ok arrays /\ all_rows batches = all_array_rows arrays.
Proof.
  unfold try_collect. revert batches; induction items as [|item items IH]; intros batches; cbn.
  { intros [= <-]. by exists []. }
  destruct item as [a|e]; cbn; [|done]. destruct (batch_try_from a) as [b|e] eqn:Eb; cbn; [|done].
  destruct (traverse id (_ <$> items)) as [bs|e]; [|done]. intros [= <-].
  destruct (IH bs eq_refl) as (arrays & -> & Er). exists (a :: arrays). split; [done|].
  unfold all_rows, all_array_rows in *. cbn. by rewrite (batch_from_rows _ _ Eb), Er.
Qed.

Lemma read_rows r path options d b d' :
  reads_all options = true -> fits (reader_format r) options path d -> ReaderEnum.read_with_options r path options d = (Ok b, d') ->
  batch_rows b = stored (reader_format r) path d.
Proof.
  destruct r, options as [options|options|options]; cbn; try done; intros Hall Hfit.
  - apply parquet_read_rows.
  - unfold lance_io.read_with_options. intros (s & d1 & Hs & Hk%call_ok)%bind_sio.
    apply (scanner_of _ _ _ _ _ Hall) in Hs. by rewrite (scanner_batch _ _ _ _ Hk).
  - unfold vortex_io.read_with_options, vortex_io.open_stream. intros (items & d1 & Ho & Hk)%bind_sio.
    apply bind_sio in Ho as (p & d2 & [Hp ->]%path_ok & Ho%call_ok).
    apply bind_sio in Hk as (a & d3 & [Ha ->]%try_ok & Hk). apply pure_ok in Hk as [Hk _].
    destruct (array_joins _ _ Ha) as (arrays & Hc & Er).
    rewrite (batch_from_rows _ _ Hk), Er. exact (array_opens _ _ _ _ _ _ _ Hp Hfit Ho Hc).
Qed.

Lemma read_stream_rows r path options d items d' batches :
  reads_all options = true -> fits (reader_format r) options path d -> ReaderEnum.read_stream r path options d = (Ok items, d') ->
  try_collect items = Ok batches -> all_rows batches = stored (reader_format r) path d.
Proof.
  destruct r, options as [options|options|options]; cbn; try done; intros Hall Hfit.
  - apply parquet_stream_read.
  - by apply lance_stream_read.
  - unfold vortex_io.read_stream, vortex_io.open_stream. intros (items0 & d1 & Ho & Hk)%bind_sio Hc.
    apply bind_sio in Ho as (p & d2 & [Hp ->]%path_ok & Ho%call_ok). injection Hk as <- <-.
    apply collect_arrays in Hc as (arrays & Hc & ->). by apply (array_opens _ _ _ _ _ _ _ Hp Hfit Ho Hc).
Qed.

Lemma ok_batches (batches bs : list RecordBatch) : Ok (E := StorageError) <$> batches = Ok <$> bs -> batches = bs.
Proof.
  revert bs. induction batches as [|b batches IH]; intros [|x bs]; try done. intros [= -> E]. f_equal. by apply IH.
Qed.

Lemma own_type_fits format options path d batches :
  own_type options batches -> typed_by format path d batches -> fits format options path d.
Proof.
  intros Ho Ht. destruct format, options as [options|options|options]; try done. cbn in *.
  destruct (Ht eq_refl) as (b & rest & -> & Eb). apply Forall_cons in Ho as [Ho _]. by rewrite Eb.
Qed.

End round_trip.

(** ** Theorems *)

(** C23: what is written is what is read, in every format: after a successful
    write of a batch, or of a stream under any schedule of its tasks, a reader
    of the format whose options select every row, and supply no data type but
    that of the batches, gives back the rows that were
    written, in order, after those of the dataset if it was appended to; reading
    at once and reading as a stream agree. *)
Theorem storage_round_trip `{StoredRows} `{!StorageLaws} `{!StoredRowsLaws} w r path options roptions d d' batches :
  writer_format w = reader_format r -> reads_all roptions = true -> own_type roptions batches ->
  WriterEnum.write_stream w (Ok <$> batches) path options d (Ok tt, d') \/
    (exists b, batches = [b] /\ WriterEnum.write_with_options w b path options d = (Ok tt, d')) ->
  (forall b d2, ReaderEnum.read_with_options r path roptions d' = (Ok b, d2) ->
     batch_rows b = kept_rows options path d ++ all_rows batches) /\
  (forall items d2 bs, ReaderEnum.read_stream r path roptions d' = (Ok items, d2) -> try_collect items = Ok bs ->
     all_rows bs = kept_rows options path d ++ all_rows batches).
Proof.
  intros Hf Hall Hown Hw.
  assert (stored (reader_format r) path d' = kept_rows options path d ++ all_rows batches /\
          typed_by (reader_format r) path d' batches) as [Hs Ht].
  { rewrite <- Hf. destruct Hw as [(bs & E & Hs)%write_stream_rows|(b & -> & Hs%write_rows)].
    - by rewrite (ok_batches _ _ E).
    - unfold all_rows. cbn. by rewrite app_nil_r. }
  pose proof (own_type_fits _ _ _ _ _ Hown Ht) as Hfit. rewrite <- Hs. split.
  - intros b d2. by apply read_rows.
  - intros items d2 bs. by apply read_stream_rows.
Qed.
