(* ===== verification/RefStorage.v ===== *)
(** * A reference file system and format crates

    A concrete instance of [StorageApi], on which the storage methods can be
    run: a disk maps a path to the bytes of a file, and every format stores the
    concatenation of the batches it is given.  The code never looks into a byte,
    so here one byte is enough for the rows of a file: [Byte] is [File].  The
    Parquet writer keeps its rows and hands that byte on when it is closed. *)

From S2P Require Import Prelude Error Json DataType Format Storage Streams RoundTrip.

(** The columns of a schema: name, type, nullability; the values of a column. *)
Definition Field : Type := string * DataType * bool.

Inductive Cell : Type :=
  | Int (n : Z)
  | Str (s : string).

#[export] Instance Cell_eq_dec : EqDecision Cell.
Proof. solve_decision. Defined.

(** [RecordBatch], row by row. *)
Record Batch : Type := mk_batch { rows_schema : list Field; rows : list (list Cell) }.

(** What the tests set of [WriterProperties]. *)
Record Props : Type := mk_props { props_created_by : string; props_compression : Compression }.

(** A file: its rows, the properties it was written with, whether it holds its
    own data type. *)
Record File : Type := mk_file { content : Batch; props : Props; typed : bool }.

Definition no_props : Props := mk_props "" UNCOMPRESSED.

Notation RefDisk := (gmap string (list File)).

(** The one byte of a complete file. *)
Definition file_of (bs : list File) : option File := match bs with [f] => Some f | _ => None end.

Definition bytes_at (path : string) (d : RefDisk) : list File := default [] (d !! path).

Definition ref_write_all (path : string) (bs : list File) (d : RefDisk) : result string unit * RefDisk :=
  match d !! path with
  | Some old => (Ok tt, <[path := old ++ bs]> d)
  | None => (Err "no such file", d)
  end.

Definition arrow_error_to_string (e : ArrowError) : string :=
  match e with ExternalError e => storage_error_to_string e | OtherArrowError msg => msg end.

(** Batches joined, or the error of the first item that is one. *)
Definition join_items {E} (show : E -> string) (items : list (result E Batch)) : result string Batch :=
  match traverse id items with
  | Ok (b :: bs) => Ok (mk_batch (rows_schema b) (concat (rows <$> b :: bs)))
  | Ok [] => Ok (mk_batch [] [])
  | Err e => Err (show e)
  end.

(** A consumer that reads the whole stream and stores it after the rows [base]. *)
Definition store_all {E} (show : E -> string) (typed : bool) (base : list (list Cell)) (uri : string) (d : RefDisk) :
    Consumer (result E Batch) (result string unit * RefDisk) :=
  mk_consumer (fun _ => None) (fun got =>
    match join_items show got with
    | Ok b => (Ok tt, <[uri := [mk_file (mk_batch (rows_schema b) (base ++ rows b)) no_props typed]]> d)
    | Err e => (Err e, d)
    end).

Definition rows_at (uri : string) (d : RefDisk) : list (list Cell) :=
  match file_of (bytes_at uri d) with Some f => rows (content f) | None => [] end.

Definition file_at (uri : string) (d : RefDisk) : result string Batch * RefDisk :=
  (ok_or (content <$> file_of (bytes_at uri d)) "no such file", d).

Definition debug_fields (s : list Field) : string :=
  foldr (fun f t => f.1.1 +:+ " " +:+ t) "" s.

#[local] Instance ref_storage_formats : FormatApi := {
  WriterPropertiesBuilder := Props; WriterProperties := Props; WriterVersion := unit;
  builder_default := no_props; build b := b;
  set_compression c b := mk_props (props_created_by b) c;
  set_max_row_group_size _ b := b; set_data_page_size_limit _ b := b; set_data_page_row_count_limit _ b := b;
  set_write_batch_size _ b := b; set_writer_version _ b := b; set_bloom_filter_position _ b := b;
  set_created_by s b := mk_props s (props_compression b);
  set_offset_index_disabled _ b := b; writer_version_from_str _ := Ok tt;
  WriteMode := string; write_mode_try_from s := Some s;
  default_max_rows_per_file := 1048576; default_max_rows_per_group := 1024;
  default_max_bytes_per_file := 96636764160; default_mode := "create";
  default_enable_stable_row_ids := false; default_enable_v2_manifest_paths := false;
  VortexWriteOptions := bool; vortex_default := false; vortex_exclude_dtype _ := true
}.

Definition ref_storage : StorageApi := {|
  storage_formats := ref_storage_formats;
  Disk := RefDisk;
  FileHandle := string;
  Path := string;
  path_to_str := Some;
  file_open path d := (_ ← (file_at path d).1; Ok path, d);
  Byte := File;
  file_create path d := (Ok path, <[path := []]> d);
  write_all := ref_write_all;
  flush _ d := (Ok tt, d);
  RecordBatch := Batch;
  SchemaRef := list Field;
  SchemaRef_eq_dec := _;
  batch_schema := rows_schema;
  debug_schema := debug_fields;
  new_empty s := mk_batch s [];
  concat_batches s bs := Ok (mk_batch s (concat (rows <$> bs)));
  ArrowReaderOptions := unit;
  arrow_options_default := tt;
  ParquetStreamBuilder := Batch;
  builder_new file _ d := file_at file d;
  with_batch_size _ b := b;
  builder_schema := rows_schema;
  builder_build b := Ok ((fun r => Ok (mk_batch (rows_schema b) [r])) <$> rows b);
  AsyncArrowWriter := File;
  writer_try_new schema options := Ok (mk_file (mk_batch schema []) options true);
  writer_write b w :=
    Finish (Ok (mk_file (mk_batch (rows_schema (content w)) (rows (content w) ++ rows b)) (props w) true));
  writer_close w := CallWrite [w] (fun a =>
    match a with Ok _ => CallComplete (fun a => Finish a) | Err e => Finish (Err e) end);
  parquet_error_from_io m := m;
  Dataset := Batch;
  Scanner := Batch;
  dataset_open uri d := file_at uri d;
  dataset_scan b := b;
  scanner_batch_size _ b := b;
  scanner_project _ b := Ok b;
  scanner_filter _ b := Ok b;
  scanner_limit _ _ b := Ok b;
  scanner_in_order _ b := b;
  scanner_io_buffer_size _ b := b;
  try_into_batch b d := (Ok b, d);
  try_into_stream b d := (Ok [Ok b], d);
  dataset_write _ uri options d :=
    store_all arrow_error_to_string true (if bool_decide (mode options = "append") then rows_at uri d else []) uri d;
  ArrayRef := Batch;
  DType := list Field;
  DType_eq_dec := _;
  array_dtype := rows_schema;
  debug_dtype := debug_fields;
  array_from_arrow b := b;
  batch_try_from b := Ok b;
  vortex_error_from_io m := m;
  VortexOpenOptions := bool;
  open_options_default := false;
  with_initial_read_size _ o := o;
  without_segment_cache o := o;
  with_dtype _ _ := true;
  vortex_open path given d :=
    match file_of (bytes_at path d) with
    | Some f => if typed f || given then (Ok [Ok (content f)], d) else (Err "no data type", d)
    | None => (Err "no such file", d)
    end;
  read_all := join_items id;
  vortex_write exclude file _ d := store_all id (negb exclude) [] file d
|}.

Lemma concat_fmap {A B} (f : A -> list B) l : concat (f <$> l) = l ≫= f.
Proof. induction l as [|x l IH]; cbn; [done|]. f_equal. exact IH. Qed.

Lemma consume_store_all {E} show ty base uri d (items : list (result E Batch)) :
  consume (store_all show ty base uri d) [] items =
    match join_items show items with
    | Ok b => (Ok tt, <[uri := [mk_file (mk_batch (rows_schema b) (base ++ rows b)) no_props ty]]> d)
    | Err e => (Err e, d)
    end.
Proof.
  assert (forall got, consume (store_all show ty base uri d) got items =
    returns_at_end (store_all show ty base uri d) (got ++ items)) as Hgen; [|apply (Hgen [])].
  induction items as [|x items IH]; intros got; [by rewrite app_nil_r|].
  change (consume (store_all show ty base uri d) got (x :: items)) with (consume (store_all show ty base uri d) (got ++ [x]) items).
  by rewrite IH, <- app_assoc.
Qed.

Lemma store_all_reads {E} show ty base uri d (items : list (result E Batch)) d' :
  consume (store_all show ty base uri d) [] items = (Ok tt, d') -> Forall (fun x => is_ok x = true) items.
Proof.
  rewrite consume_store_all. unfold join_items. destruct (traverse id items) as [bs|e] eqn:E1; [|done].
  intros _. apply traverse_ok in E1.
  induction E1 as [|x b items bs Hx _ IH]; constructor; [|done]. unfold id in Hx. by rewrite Hx.
Qed.

Lemma join_items_ok {E} (show : E -> string) batches :
  join_items show (Ok <$> batches) =
    Ok (match batches with b :: bs => mk_batch (rows_schema b) (concat (rows <$> b :: bs)) | [] => mk_batch [] [] end).
Proof.
  unfold join_items. assert (traverse id (Ok (E := E) <$> batches) = Ok batches) as ->; [|by destruct batches].
  apply traverse_ok. induction batches; by constructor.
Qed.

Lemma store_all_content {E} show ty base uri d b batches d' :
  consume (store_all (E := E) show ty base uri d) [] (Ok <$> (b :: batches)) = (Ok tt, d') ->
  d' = <[uri := [mk_file (mk_batch (rows_schema b) (base ++ concat (rows <$> b :: batches))) no_props ty]]> d.
Proof. rewrite consume_store_all, join_items_ok. by intros [= <-]. Qed.

(** A successful [store_all] has stored the rows of its batches. *)
Lemma store_all_rows {E} show ty base uri d (batches : list Batch) d' :
  consume (store_all (E := E) show ty base uri d) [] (Ok <$> batches) = (Ok tt, d') ->
  rows_at uri d' = base ++ (batches ≫= rows).
Proof.
  rewrite consume_store_all, join_items_ok.
  destruct batches as [|b bs]; intros [= <-]; unfold rows_at, bytes_at; rewrite lookup_insert_eq; cbn;
    [done|]. f_equal. by rewrite concat_fmap.
Qed.

#[local] Existing Instance ref_storage.

Lemma ref_storage_laws : StorageLaws (H := ref_storage).
Proof.
  split.
  - intros schema uri options d items d'. apply store_all_reads.
  - intros options file dtype d items d'. apply store_all_reads.
Qed.

#[local] Existing Instance ref_storage_laws.

#[local] Instance ref_rows : StoredRows := {|
  Row := list Cell;
  batch_rows := rows;
  array_rows := rows;
  handle_path path := path;
  appends m := bool_decide (m = "append");
  file_bytes := bytes_at;
  handle_bytes := bytes_at;
  writer_rows w := rows (content w);
  writer_sent _ := [];
  decoded bs := match file_of bs with Some f => rows (content f) | None => [] end;
  builder_rows := rows;
  scanner_rows := rows;
  lance_rows := rows_at;
  vortex_rows := rows_at;
  vortex_dtype path d := match file_of (bytes_at path d) with Some f => rows_schema (content f) | None => [] end
|}.

Lemma file_at_rows path d b d' : file_at path d = (Ok b, d') -> rows b = rows_at path d.
Proof. unfold file_at, rows_at. destruct (file_of _); by intros [= ->]. Qed.

Lemma singletons_join (f : list Cell -> Batch) l batches :
  (forall n, rows (f n) = [n]) -> traverse id ((fun n => Ok (E := string) (f n)) <$> l) = Ok batches ->
  batches ≫= rows = l.
Proof.
  intros Hf Ht%traverse_ok. revert batches Ht; induction l as [|n l IH]; intros batches Ht; inversion Ht; subst; [done|].
  cbn. unfold id in *. match goal with Hx : Ok _ = Ok _ |- _ => injection Hx as <- end. rewrite Hf. cbn. f_equal. by apply IH.
Qed.

Lemma ref_rows_laws : StoredRowsLaws.
Proof.
  split; cbn; try done.
  - intros schema batches b [= <-]. cbn. by rewrite concat_fmap.
  - intros path d file d' [= <- <-]. split; [done|]. unfold bytes_at. by rewrite lookup_insert_eq.
  - intros path bs d d' Hw. unfold ref_write_all in Hw. destruct (d !! path) as [old|] eqn:Ed; [|done].
    injection Hw as <-. unfold bytes_at. by rewrite lookup_insert_eq, Ed.
  - by intros path d d' [= <-].
  - by intros schema options w [= <-].
  - by intros b w w' sent saved [= <- <- _].
  - by intros w sent saved [= <- <-].
  - intros path d file d1 _ b d2 Ho Hb%file_at_rows. rewrite Hb. unfold rows_at.
    destruct (file_of (bytes_at path d)) as [f|] eqn:Ef; [|done]. injection Ho as <- <-. by rewrite Ef.
  - intros b items batches [= <-]. by apply singletons_join.
  - intros path uri options _ batches d d' [= <-] Hc. apply store_all_rows in Hc. exact Hc.
  - intros path uri d ds d' [= <-]. apply file_at_rows.
  - by intros s d b d' [= <- _].
  - intros s d items d' batches [= <- _] [= <-]. cbn. by rewrite app_nil_r.
  - by intros a b [= <-].
  - intros exclude file a arrays d d' Hc. split; [exact (store_all_rows _ _ _ _ _ (a :: arrays) _ Hc)|].
    rewrite (store_all_content _ _ _ _ _ a arrays _ Hc). unfold bytes_at. by rewrite lookup_insert_eq.
  - intros path p given d items d' arrays [= <-] _ Ho. unfold rows_at. destruct (file_of (bytes_at path d)) as [f|]; [|done].
    destruct (_ || _); [|done]. injection Ho as <- <-. intros [= <-]. cbn. by rewrite app_nil_r.
  - intros items a. unfold join_items. destruct (traverse id items) as [[|b bs]|e]; [| |done]; intros [= <-];
      (eexists; split; [reflexivity|]); cbn; [done|]. by rewrite concat_fmap.
Qed.

#[local] Existing Instance ref_rows_laws.

(** ** Witnesses *)

Definition ids : list Field := [("id", Int64, false)].

Definition id_rows (l : list Z) : list (list Cell) := (fun n => [Int n]) <$> l.

Definition batch1 : Batch := mk_batch ids (id_rows [1; 2]%Z).
Definition batch2 : Batch := mk_batch ids (id_rows [3]%Z).
Definition batch3 : Batch := mk_batch [("id", Utf8, false)] [[Str "a"]].
Definition file123 : File := mk_file (mk_batch ids (id_rows [1; 2; 3]%Z)) no_props true.

(** Two batches through the pipeline; a third with another schema stops it. *)
Lemma lance_write_stream_refines_witness :
  lance_io.write_stream [Ok batch1; Ok batch2] "data.lance" write_params_default ∅
    (Ok tt, {["data.lance" := [file123]]}) /\
  exists e d', lance_io.write_stream [Ok batch1; Ok batch3] "data.lance" write_params_default ∅ (Err e, d').
Proof.
  split.
  - exact (proj1 (lance_write_stream_refines [Ok batch1; Ok batch2] "data.lance" write_params_default ∅
      "data.lance" batch1 [Ok batch2] eq_refl eq_refl)).
  - pose proof (proj1 (lance_write_stream_refines [Ok batch1; Ok batch3] "data.lance" write_params_default ∅
      "data.lance" batch1 [Ok batch3] eq_refl eq_refl)) as Hw.
    destruct (Lance.sequential (H := ref_storage) "data.lance" write_params_default ∅ batch1 [Ok batch3]) as [[u|e] d'] eqn:E.
    + vm_compute in E. discriminate E.
    + exists e, d'. exact Hw.
Defined.

Lemma write_stream_accepts_witness :
  exists d', WriterEnum.write_stream (H := ref_storage) WriterEnum.Parquet [Ok batch1; Ok batch2] "data.parquet"
    (ParquetWrite no_props) ∅ (Ok tt, d') /\
  exists batch rest, [Ok batch1; Ok batch2] = Ok batch :: rest /\
    all_same (fun b => batch_schema b = batch_schema batch) rest.
Proof.
  destruct (parquet_io.write_stream (H := ref_storage) [Ok batch1; Ok batch2] "data.parquet" no_props ∅) as [[[]|e] d'] eqn:E;
    [|vm_compute in E; discriminate E].
  assert (WriterEnum.write_stream (H := ref_storage) WriterEnum.Parquet [Ok batch1; Ok batch2] "data.parquet"
    (ParquetWrite no_props) ∅ (Ok tt, d')) as Hw by exact (eq_sym E).
  exists d'. split; [exact Hw|].
  exact (write_stream_accepts WriterEnum.Parquet _ _ _ _ _ Hw).
Defined.

(** A batch appended to a Lance dataset, and a stream of two written to Parquet. *)
Definition append_params : WriteParams :=
  Build_WriteParams _ default_max_rows_per_file default_max_rows_per_group default_max_bytes_per_file
    "append" default_enable_stable_row_ids default_enable_v2_manifest_paths.

(** The file that a stream leaves without its data type, which the reader supplies. *)
Definition untyped123 : File := mk_file (mk_batch ids (id_rows [1; 2; 3]%Z)) no_props false.

Definition supplied : VortexReadOptions.t := VortexReadOptions.mk ref_storage None None (Some ids).

Lemma supplied_own : own_type (VortexRead supplied) [batch1; batch2].
Proof. by repeat constructor. Qed.

Lemma storage_round_trip_witness :
  (exists b d2, ReaderEnum.read_with_options (H := ref_storage) ReaderEnum.Lance "data.lance" (LanceRead LanceReadOptions.default)
     {["data.lance" := [file123]]} = (Ok b, d2) /\ batch_rows b = id_rows [1; 2; 3]%Z) /\
  (exists b d2, ReaderEnum.read_with_options (H := ref_storage) ReaderEnum.Vortex "data.vortex" (VortexRead supplied)
     {["data.vortex" := [untyped123]]} = (Ok b, d2) /\ batch_rows b = id_rows [1; 2; 3]%Z) /\
  exists d' b d2, WriterEnum.write_stream (H := ref_storage) WriterEnum.Parquet [Ok batch1; Ok batch2] "data.parquet" (ParquetWrite no_props) ∅
      (Ok tt, d') /\
    ReaderEnum.read_with_options (H := ref_storage) ReaderEnum.Parquet "data.parquet" (ParquetRead ParquetReadOptions.default) d'
      = (Ok b, d2) /\ batch_rows b = id_rows [1; 2; 3]%Z.
Proof.
  split; [|split].
  - destruct (ReaderEnum.read_with_options (H := ref_storage) ReaderEnum.Lance "data.lance" (LanceRead LanceReadOptions.default)
      {["data.lance" := [file123]]}) as [[b|e] d2] eqn:Er; [|vm_compute in Er; discriminate Er].
    exists b, d2. split; [reflexivity|].
    exact (proj1 (storage_round_trip (H := ref_storage) WriterEnum.Lance ReaderEnum.Lance "data.lance" (LanceWrite append_params)
      (LanceRead LanceReadOptions.default) {["data.lance" := [mk_file batch1 no_props true]]} {["data.lance" := [file123]]} [batch2]
      eq_refl eq_refl I (or_intror (ex_intro _ batch2 (conj eq_refl eq_refl)))) b d2 Er).
  - destruct (ReaderEnum.read_with_options (H := ref_storage) ReaderEnum.Vortex "data.vortex" (VortexRead supplied)
      {["data.vortex" := [untyped123]]}) as [[b|e] d2] eqn:Er; [|vm_compute in Er; discriminate Er].
    exists b, d2. split; [reflexivity|].
    exact (proj1 (storage_round_trip (H := ref_storage) WriterEnum.Vortex ReaderEnum.Vortex "data.vortex"
      (VortexWrite (vortex_exclude_dtype vortex_default)) (VortexRead supplied) ∅ {["data.vortex" := [untyped123]]} [batch1; batch2]
      eq_refl eq_refl supplied_own (or_introl eq_refl)) b d2 Er).
  - destruct (parquet_io.write_stream (H := ref_storage) [Ok batch1; Ok batch2] "data.parquet" no_props ∅) as [[[]|e] d'] eqn:E;
      [|vm_compute in E; discriminate E].
    assert (WriterEnum.write_stream (H := ref_storage) WriterEnum.Parquet [Ok batch1; Ok batch2] "data.parquet" (ParquetWrite no_props) ∅
      (Ok tt, d')) as Hw by exact (eq_sym E).
    destruct (ReaderEnum.read_with_options (H := ref_storage) ReaderEnum.Parquet "data.parquet" (ParquetRead ParquetReadOptions.default) d')
      as [[b|e] d2] eqn:Er.
    + exists d', b, d2. split; [exact Hw|]. split; [exact Er|].
      exact (proj1 (storage_round_trip (H := ref_storage) WriterEnum.Parquet ReaderEnum.Parquet "data.parquet" (ParquetWrite no_props)
        (ParquetRead ParquetReadOptions.default) ∅ d' [batch1; batch2] eq_refl eq_refl I (or_introl Hw)) b d2 Er).
    + vm_compute in E. injection E as <-. vm_compute in Er. discriminate Er.
Defined.
