(* ===== verification/Testing.v ===== *)
(** * Running the repository's tests

    A test of the repository runs operations, unwraps their results and
    asserts; it fails by panicking.  [Test] is the monad of such runs: [None]
    is a panic.  The files that follow translate the tests of the catalog and
    its example, and the theorems there run them on the model, or, where a test
    takes thousands of turns, prove with [twp] that it passes. *)

From S2P Require Import Prelude Uuid Error World RefEnv.

(** ** Pure tests *)

(** [str::contains]. *)
Fixpoint contains (s pattern : string) : bool :=
  String.prefix pattern s || match s with String _ s => contains s pattern | EmptyString => false end.

Definition asserts (l : list bool) : bool := forallb id l.

(** [err.to_string()]; no assertion reads the text of an engine's error. *)
Definition err_to_string (e : CatalogError) : string := catalog_error_to_string (fun _ => "") e.

(** [let err = r.expect_err(..)] and the assertions on [err]. *)
Definition expect_err {A} (r : result CatalogError A) (p : CatalogError -> bool) : bool :=
  match r with Ok _ => false | Err e => p e end.

(** [r.expect(..)] and the assertions on its value. *)
Definition expect {A} (r : result CatalogError A) (p : A -> bool) : bool :=
  match r with Ok a => p a | Err _ => false end.

Definition LimitExceeded_matches (e : CatalogError) : bool :=
  match e with LimitExceeded _ => true | _ => false end.
Definition InvalidArgument_matches (e : CatalogError) : bool :=
  match e with InvalidArgument _ => true | _ => false end.

(** ** Tests that call the catalog *)

Definition Test (A : Type) : Type := World -> option (A * World).

#[export] Instance Test_ret : MRet Test := fun A a w => Some (a, w).
#[export] Instance Test_bind : MBind Test := fun A B f m w =>
  match m w with Some (a, w') => f a w' | None => None end.

(** [m.await.expect(..)]. *)
Definition ok {A} (m : M A) : Test A := fun w =>
  match m w with Some (Ok a, w') => Some (a, w') | _ => None end.

(** [m.await.expect_err(..)]. *)
Definition err {A} (m : M A) : Test CatalogError := fun w =>
  match m w with Some (Err e, w') => Some (e, w') | _ => None end.

Definition assert (b : bool) : Test unit := fun w => if b then Some (tt, w) else None.

(** [o.expect(..)]. *)
Definition some {A} (o : option A) : Test A := fun w =>
  match o with Some a => Some (a, w) | None => None end.

Definition passes (t : Test unit) (w : World) : bool :=
  match t w with Some _ => true | None => false end.

(** ** Symbolic runs

    [twp t Φ w]: the test [t], started in [w], does not panic, and its result and
    the final world satisfy [Φ]. *)

Definition twp {A} (t : Test A) (Φ : A -> World -> Prop) (w : World) : Prop :=
  match t w with Some (a, w') => Φ a w' | None => False end.
Arguments twp {A} t Φ w : simpl never.

Lemma twp_bind {A B} (t : Test A) (f : A -> Test B) Φ w :
  twp t (fun a w' => twp (f a) Φ w') w -> twp (t ≫= f) Φ w.
Proof. unfold twp, mbind, Test_bind. by destruct (t w) as [[a w']|]. Qed.

Lemma twp_ret {A} (a : A) (Φ : A -> World -> Prop) w : Φ a w -> twp (mret a) Φ w.
Proof. done. Qed.

Lemma twp_run {A} (t : Test A) a w w' (Φ : A -> World -> Prop) : t w = Some (a, w') -> Φ a w' -> twp t Φ w.
Proof. unfold twp. by intros ->. Qed.

(** A call that succeeds. *)
Lemma twp_ok {A} (m : M A) (Φ : A -> World -> Prop) w :
  wp m (fun r w' => match r with Ok a => Φ a w' | Err _ => False end) w -> twp (ok m) Φ w.
Proof. unfold twp, ok, wp. by destruct (m w) as [[[a|e] w']|]. Qed.

(** A call that fails. *)
Lemma twp_err {A} (m : M A) (Φ : CatalogError -> World -> Prop) w :
  wp m (fun r w' => match r with Ok _ => False | Err e => Φ e w' end) w -> twp (err m) Φ w.
Proof. unfold twp, err, wp. by destruct (m w) as [[[a|e] w']|]. Qed.

Lemma twp_ok_run {A} (m : M A) (Φ : A -> World -> Prop) a w w' :
  m w = Some (Ok a, w') -> Φ a w' -> twp (ok m) Φ w.
Proof. unfold twp, ok. by intros ->. Qed.

Lemma twp_err_run {A} (m : M A) (Φ : CatalogError -> World -> Prop) e w w' :
  m w = Some (Err e, w') -> Φ e w' -> twp (err m) Φ w.
Proof. unfold twp, err. by intros ->. Qed.

Lemma twp_assert b Φ w : b = true -> Φ tt w -> twp (assert b) Φ w.
Proof. unfold twp, assert. by intros ->. Qed.

Lemma twp_some {A} (o : option A) a (Φ : A -> World -> Prop) w : o = Some a -> Φ a w -> twp (some o) Φ w.
Proof. unfold twp, some. by intros ->. Qed.

Lemma twp_passes (t : Test unit) w : twp t (fun _ _ => True) w -> passes t w = true.
Proof. unfold twp, passes. by destruct (t w) as [[a w']|]. Qed.
