(* ===== verification/DataTypeTests.v ===== *)
(** * The tests of column types (the test modules of src/catalog/data_type.rs)

    All but [test_encoded_size], which bounds the size of what the Arrow codec
    writes. *)

From S2P Require Import Prelude Uuid Error DataType Testing.
From Stdlib Require Import Strings.Byte.

(** ** [mod tests] *)

Module tests.
Section tests.
Context `{ArrowIpc}.

Definition roundtrip (data_type : DataType) : bool :=
  match encode_data_type data_type with
  | Ok encoded =>
      match decode_data_type encoded with
      | Ok decoded => DataType_eqb data_type decoded
      | Err _ => false
      end
  | Err _ => false
  end.

Definition test_primitive_types : bool := asserts [
  roundtrip Boolean; roundtrip Int8; roundtrip Int16; roundtrip Int32; roundtrip Int64;
  roundtrip UInt8; roundtrip UInt16; roundtrip UInt32; roundtrip UInt64;
  roundtrip Float32; roundtrip Float64].

Definition test_string_types : bool := asserts [
  roundtrip Utf8; roundtrip LargeUtf8; roundtrip Binary; roundtrip LargeBinary;
  roundtrip (FixedSizeBinary 16)].

Definition test_temporal_types : bool := asserts [
  roundtrip Date32; roundtrip Date64; roundtrip (Time32 Second); roundtrip (Time32 Millisecond);
  roundtrip (Time64 Microsecond); roundtrip (Time64 Nanosecond); roundtrip (Duration Second);
  roundtrip (Duration Millisecond); roundtrip (Duration Microsecond); roundtrip (Duration Nanosecond)].

Definition test_timestamp_types : bool := asserts [
  roundtrip (Timestamp Second None); roundtrip (Timestamp Millisecond None);
  roundtrip (Timestamp Microsecond None); roundtrip (Timestamp Nanosecond None);
  roundtrip (Timestamp Microsecond (Some "UTC"));
  roundtrip (Timestamp Microsecond (Some "America/New_York"));
  roundtrip (Timestamp Nanosecond (Some "+00:00"))].

Definition test_decimal_types : bool := asserts [
  roundtrip (Decimal128 10 2); roundtrip (Decimal128 38 10); roundtrip (Decimal256 76 20)].

Definition test_list_types : bool := asserts [
  roundtrip (List (field_new "item" Int32 true));
  roundtrip (LargeList (field_new "item" Utf8 false));
  roundtrip (FixedSizeList (field_new "item" Float64 true) 5)].

Definition test_struct_type : bool :=
  let fields := [
    field_new "id" Int64 false;
    field_new "name" Utf8 true;
    field_new "created_at" (Timestamp Microsecond (Some "UTC")) false] in
  roundtrip (Struct fields).

Definition test_nested_types : bool :=
  let struct_type := Struct [field_new "x" Float64 false; field_new "y" Float64 false] in
  let list_type := List (field_new "item" Int32 true) in
  let fields := [field_new "id" Int64 false; field_new "values" list_type true] in
  asserts [roundtrip (List (field_new "point" struct_type true)); roundtrip (Struct fields)].

Definition test_decode_empty_bytes : bool :=
  let result := decode_data_type [] in
  expect_err result (fun e => contains (err_to_string e) "arrow error").

Definition test_decode_invalid_bytes : bool :=
  let garbage := [xff; xff; xff; xff; x00; x00] in
  let result := decode_data_type garbage in
  expect_err result (fun e => contains (err_to_string e) "arrow error").

End tests.
End tests.

(** ** [mod evolution_tests] *)

Module evolution_tests.

Definition test_same_type_allowed : bool := asserts [
  can_evolve_to Int32 Int32; can_evolve_to Utf8 Utf8;
  can_evolve_to (Timestamp Microsecond (Some "UTC")) (Timestamp Microsecond (Some "UTC"))].

Definition test_signed_integer_widening_safe : bool := asserts [
  can_evolve_to Int8 Int16; can_evolve_to Int8 Int32; can_evolve_to Int8 Int64;
  can_evolve_to Int16 Int32; can_evolve_to Int16 Int64; can_evolve_to Int32 Int64].

Definition test_signed_integer_narrowing_unsafe : bool := asserts [
  negb (can_evolve_to Int64 Int32); negb (can_evolve_to Int64 Int16); negb (can_evolve_to Int64 Int8);
  negb (can_evolve_to Int32 Int16); negb (can_evolve_to Int32 Int8); negb (can_evolve_to Int16 Int8)].

Definition test_unsigned_integer_widening_safe : bool := asserts [
  can_evolve_to UInt8 UInt16; can_evolve_to UInt8 UInt32; can_evolve_to UInt8 UInt64;
  can_evolve_to UInt16 UInt32; can_evolve_to UInt16 UInt64; can_evolve_to UInt32 UInt64].

Definition test_unsigned_integer_narrowing_unsafe : bool := asserts [
  negb (can_evolve_to UInt64 UInt32); negb (can_evolve_to UInt64 UInt16); negb (can_evolve_to UInt64 UInt8);
  negb (can_evolve_to UInt32 UInt16); negb (can_evolve_to UInt32 UInt8); negb (can_evolve_to UInt16 UInt8)].

Definition test_mixed_signedness_unsafe : bool := asserts [
  negb (can_evolve_to Int32 UInt32); negb (can_evolve_to Int64 UInt64);
  negb (can_evolve_to UInt32 Int32); negb (can_evolve_to UInt64 Int64)].

Definition test_float_widening_safe : bool := can_evolve_to Float32 Float64.

Definition test_float_narrowing_unsafe : bool := negb (can_evolve_to Float64 Float32).

Definition test_integer_to_float_unsafe : bool := asserts [
  negb (can_evolve_to Int32 Float32); negb (can_evolve_to Int64 Float64);
  negb (can_evolve_to Float32 Int32)].

Definition test_date_widening_safe : bool := can_evolve_to Date32 Date64.

Definition test_date_narrowing_unsafe : bool := negb (can_evolve_to Date64 Date32).

Definition test_timestamp_precision_increase_safe : bool :=
  let tz := Some "UTC" in
  asserts [
    can_evolve_to (Timestamp Second tz) (Timestamp Millisecond tz);
    can_evolve_to (Timestamp Second tz) (Timestamp Microsecond tz);
    can_evolve_to (Timestamp Second tz) (Timestamp Nanosecond tz);
    can_evolve_to (Timestamp Millisecond tz) (Timestamp Microsecond tz);
    can_evolve_to (Timestamp Millisecond tz) (Timestamp Nanosecond tz);
    can_evolve_to (Timestamp Microsecond tz) (Timestamp Nanosecond tz)].

Definition test_timestamp_precision_decrease_unsafe : bool :=
  let tz := Some "UTC" in
  asserts [
    negb (can_evolve_to (Timestamp Nanosecond tz) (Timestamp Microsecond tz));
    negb (can_evolve_to (Timestamp Nanosecond tz) (Timestamp Millisecond tz));
    negb (can_evolve_to (Timestamp Nanosecond tz) (Timestamp Second tz));
    negb (can_evolve_to (Timestamp Microsecond tz) (Timestamp Millisecond tz));
    negb (can_evolve_to (Timestamp Microsecond tz) (Timestamp Second tz));
    negb (can_evolve_to (Timestamp Millisecond tz) (Timestamp Second tz))].

Definition test_timestamp_timezone_change_unsafe : bool := asserts [
  negb (can_evolve_to (Timestamp Microsecond (Some "UTC")) (Timestamp Microsecond (Some "America/New_York")));
  negb (can_evolve_to (Timestamp Microsecond None) (Timestamp Microsecond (Some "UTC")));
  negb (can_evolve_to (Timestamp Microsecond (Some "UTC")) (Timestamp Microsecond None))].

Definition test_timestamp_without_timezone : bool :=
  can_evolve_to (Timestamp Second None) (Timestamp Millisecond None).

Definition test_decimal_precision_increase_safe : bool := asserts [
  can_evolve_to (Decimal128 10 2) (Decimal128 20 2);
  can_evolve_to (Decimal128 10 5) (Decimal128 38 5);
  can_evolve_to (Decimal256 40 2) (Decimal256 60 2)].

Definition test_decimal_precision_decrease_unsafe : bool :=
  negb (can_evolve_to (Decimal128 20 2) (Decimal128 10 2)).

Definition test_decimal_scale_change_unsafe : bool := asserts [
  negb (can_evolve_to (Decimal128 10 2) (Decimal128 10 3));
  negb (can_evolve_to (Decimal128 10 3) (Decimal128 10 2));
  negb (can_evolve_to (Decimal128 10 2) (Decimal128 20 3))].

Definition test_decimal128_to_decimal256_unsafe : bool := asserts [
  negb (can_evolve_to (Decimal128 10 2) (Decimal256 10 2));
  negb (can_evolve_to (Decimal256 10 2) (Decimal128 10 2))].

Definition test_string_types_no_evolution : bool := asserts [
  negb (can_evolve_to Utf8 LargeUtf8); negb (can_evolve_to LargeUtf8 Utf8);
  negb (can_evolve_to Binary LargeBinary); negb (can_evolve_to LargeBinary Binary)].

Definition test_incompatible_types : bool := asserts [
  negb (can_evolve_to Utf8 Int32); negb (can_evolve_to Utf8 Float64);
  negb (can_evolve_to Int64 Utf8);
  negb (can_evolve_to Boolean Int32); negb (can_evolve_to Int32 Boolean);
  negb (can_evolve_to Date32 (Timestamp Millisecond None));
  negb (can_evolve_to Date64 (Timestamp Millisecond None));
  negb (can_evolve_to (Timestamp Millisecond None) Date64)].

Definition test_complex_types_no_evolution : bool :=
  let list_int32 := List (field_new "item" Int32 true) in
  let list_int64 := List (field_new "item" Int64 true) in
  let struct1 := Struct [field_new "id" Int32 false] in
  let struct2 := Struct [field_new "id" Int64 false] in
  asserts [negb (can_evolve_to list_int32 list_int64); negb (can_evolve_to struct1 struct2)].

End evolution_tests.

(** ** They pass *)

Section passing.
Context `{ArrowIpc} `{!ArrowIpcLaws}.

Lemma roundtrip_passes t : ipc_safe (placeholder t) = true -> tests.roundtrip t = true.
Proof.
  intros Hs. unfold tests.roundtrip, encode_data_type, decode_data_type. rewrite ipc_round_trip by done. cbn.
  by apply DataType_eqb_spec.
Qed.

(** A codec that refuses the bytes makes the decoder fail with an Arrow error. *)
Lemma refused_bytes e b :
  fb_to_schema b = Err e ->
  expect_err (decode_data_type b) (fun e => contains (err_to_string e) "arrow error") = true.
Proof. intros E. unfold decode_data_type. by rewrite E. Qed.

End passing.

(** The tests of encoding pass with every Arrow codec that round-trips and
    refuses bytes that are not a message; the tests of evolution pass. *)
Theorem data_type_tests_pass `{ArrowIpc} `{!ArrowIpcLaws} :
  Forall (eq true) [
    tests.test_primitive_types; tests.test_string_types; tests.test_temporal_types;
    tests.test_timestamp_types; tests.test_decimal_types; tests.test_list_types;
    tests.test_struct_type; tests.test_nested_types] /\
  (is_ok (fb_to_schema []) = false -> tests.test_decode_empty_bytes = true) /\
  (is_ok (fb_to_schema [xff; xff; xff; xff; x00; x00]) = false -> tests.test_decode_invalid_bytes = true) /\
  Forall (eq true) [
    evolution_tests.test_same_type_allowed; evolution_tests.test_signed_integer_widening_safe;
    evolution_tests.test_signed_integer_narrowing_unsafe; evolution_tests.test_unsigned_integer_widening_safe;
    evolution_tests.test_unsigned_integer_narrowing_unsafe; evolution_tests.test_mixed_signedness_unsafe;
    evolution_tests.test_float_widening_safe; evolution_tests.test_float_narrowing_unsafe;
    evolution_tests.test_integer_to_float_unsafe; evolution_tests.test_date_widening_safe;
    evolution_tests.test_date_narrowing_unsafe; evolution_tests.test_timestamp_precision_increase_safe;
    evolution_tests.test_timestamp_precision_decrease_unsafe; evolution_tests.test_timestamp_timezone_change_unsafe;
    evolution_tests.test_timestamp_without_timezone; evolution_tests.test_decimal_precision_increase_safe;
    evolution_tests.test_decimal_precision_decrease_unsafe; evolution_tests.test_decimal_scale_change_unsafe;
    evolution_tests.test_decimal128_to_decimal256_unsafe; evolution_tests.test_string_types_no_evolution;
    evolution_tests.test_incompatible_types; evolution_tests.test_complex_types_no_evolution].
Proof.
  assert (forall l, Forall (eq true) l -> asserts l = true) as Hall.
  { intros l Hl. unfold asserts. induction Hl as [|x l <- _ IH]; [done | exact IH]. }
  split_and!.
  - repeat apply Forall_cons_2; try apply Forall_nil_2; symmetry;
      first [by apply roundtrip_passes | apply Hall; repeat apply Forall_cons_2; try apply Forall_nil_2;
        symmetry; by apply roundtrip_passes].
  - destruct (fb_to_schema []) eqn:E; [done|]. intros _. by eapply refused_bytes.
  - destruct (fb_to_schema _) eqn:E; [done|]. intros _. by eapply refused_bytes.
  - by repeat constructor.
Qed.
