(* ===== verification/CatalogTests.v ===== *)
(** * The tests of the catalog (the test modules of src/catalog/limits.rs and
      src/catalog/mod.rs)

    Translated test by test and run in the reference environment, from the
    empty database that [in_memory] opens.  [LimitTests] runs the tests that
    fill the database with one to fifty thousand rows to reach a limit. *)

From S2P Require Import Prelude Uuid Error Limits Json DataType Format Schema Models Db World Helpers Catalog Api RefEnv Testing.
From Stdlib Require Import Strings.Byte.

(** ** src/catalog/limits.rs *)

Module limits_tests.
Import Limits.limits.
Local Open Scope N_scope.

Definition limits_are_reasonable : bool := asserts [
  MAX_FILES_PER_APPEND <=? MAX_FILES_PER_QUERY;
  MAX_FILES_PER_DELETE <=? MAX_FILES_PER_QUERY;
  MAX_FILES_PER_APPEND <=? MAX_OPERATIONS_PER_MUTATION;
  MAX_JSON_SIZE_BYTES <=? 10485760;
  MAX_SCHEMA_CHANGES_PER_SCAN <=? MAX_TRANSACTIONS_PER_SCAN].

Definition batch_insert_columns_chunk_is_db_specific_and_clamped : bool := asserts [
  batch_insert_columns_chunk Limits.Sqlite =? 1000;
  batch_insert_columns_chunk Limits.Postgres =? 1000].

Definition column_insert_shape_is_locked_to_six_binds : bool := column_insert_bind_count 1 =? 6.

Definition file_insert_shape_is_locked_to_nine_binds : bool := file_insert_bind_count 1 =? 9.

Definition delete_files_shape_is_locked_to_two_fixed_params : bool := delete_files_bind_count 0 =? 2.

End limits_tests.

(** ** src/catalog/mod.rs: validation *)

(** [serde_json::json!({ .. })]. *)
Definition json_object (l : list (string * Value)) : Value :=
  Object (foldl (fun m p => map_insert p.1 p.2 m) [] l).

Module tests.
Section validation.
Context `{Env}.

Definition schema_spec_validate_rejects_duplicate_column_names : bool :=
  let schema := SchemaSpec.with_column
    (SchemaSpec.with_column SchemaSpec.new (ColumnSpec.new "id" Int64)) (ColumnSpec.new "id" Int64) in
  expect_err (SchemaSpec.validate schema) (fun e => contains (err_to_string e) "duplicate column name").

Definition schema_spec_validate_rejects_empty_column_name : bool :=
  let schema := SchemaSpec.with_column SchemaSpec.new (ColumnSpec.new "   " Int64) in
  expect_err (SchemaSpec.validate schema) (fun e => contains (err_to_string e) "column name cannot be empty").

Definition schema_spec_validate_accepts_valid_schema : bool :=
  let schema := SchemaSpec.with_column
    (SchemaSpec.with_column SchemaSpec.new (ColumnSpec.new "id" Int64))
    (ColumnSpec.nullable (ColumnSpec.new "value" Utf8)) in
  expect (SchemaSpec.validate schema) (fun _ => true).

Definition file_spec_validate_rejects_non_object_partition_values : bool :=
  let file := FileSpec.with_partition_values (FileSpec.new Parquet "/tmp/part-0.parquet" 1 1)
    (Array [Str "not-object"]) in
  expect_err (FileSpec.validate file) (fun e =>
    contains (err_to_string e) "partition_values must be a JSON object").

Definition file_spec_validate_rejects_non_object_format_options : bool :=
  let file := FileSpec.with_format_options (FileSpec.new Parquet "/tmp/part-0.parquet" 1 1)
    (Array [Str "not-object"]) in
  expect_err (FileSpec.validate file) (fun e =>
    contains (err_to_string e) "format_options must be a JSON object").

Definition file_spec_validate_accepts_valid_payload : bool :=
  let file := FileSpec.with_format_options
    (FileSpec.with_partition_values (FileSpec.new Parquet "/tmp/part-0.parquet" 1 1)
      (json_object [("date", Str "2026-02-12")]))
    (json_object [("compression", Str "zstd")]) in
  expect (FileSpec.validate file) (fun _ => true).

Definition property_key_rejects_empty_value : bool :=
  expect_err (PropertyKey.new "   ") (fun e => contains (err_to_string e) "property key cannot be empty").

Definition property_key_accepts_non_empty_value : bool :=
  expect (PropertyKey.new "owner") (fun key => bool_decide (PropertyKey.as_str key = "owner")).

(** The file is the one [Uuid::new_v4] gives. *)
Definition mutation_validate_rejects_duplicate_file_deletes (file_uuid : Uuid) : bool :=
  let mutation := Mutation.mk [DeleteFiles [file_uuid; file_uuid]] in
  expect_err (Mutation.validate mutation) (fun e => contains (err_to_string e) "duplicate file UUID").

Definition mutation_validate_rejects_duplicate_property_keys : bool :=
  expect (PropertyKey.new "owner") (fun key1 => expect (PropertyKey.new "owner") (fun key2 =>
    let mutation := Mutation.mk [RemoveProperties [key1; key2]] in
    expect_err (Mutation.validate mutation) (fun e =>
      contains (err_to_string e) "duplicate property key"))).

Definition mutation_validate_rejects_multiple_schema_updates : bool :=
  let s1 := SchemaSpec.with_column SchemaSpec.new (ColumnSpec.new "id" Int64) in
  let s2 := SchemaSpec.with_column SchemaSpec.new (ColumnSpec.new "id" Int64) in
  let mutation := Mutation.mk [UpdateSchema s1; UpdateSchema s2] in
  expect_err (Mutation.validate mutation) (fun e => contains (err_to_string e) "at most one UpdateSchema").

End validation.

(** ** src/catalog/mod.rs: runs *)

Section runs.
Context `{Env}.
#[local] Instance sqlite : CatalogApi := Sqlite.catalog ProtocolVersions.default.

(** The statements the tests issue themselves. *)
Definition sql_insert_transaction (transaction_id table_uuid parent : Uuid) : M unit :=
  now ← utc_now;
  execute_ (insert_transaction
    (TransactionRow.mk (as_bytes transaction_id) (as_bytes table_uuid) now (Some (as_bytes parent)))).

(** [UPDATE tables SET current_transaction_id = ?1 WHERE table_uuid = ?2]. *)
Definition sql_update_head (transaction_id table_uuid : Uuid) : M unit :=
  execute_ (fun d => Ok (mk_db
    ((fun r => if beq (TableRow.table_uuid r) (as_bytes table_uuid) then
        TableRow.mk (TableRow.table_uuid r) (TableRow.table_name r) (TableRow.namespace r)
          (TableRow.location r) (TableRow.current_schema_uuid r)
          (Some (as_bytes transaction_id)) (TableRow.created_at r) (TableRow.properties r)
          (TableRow.min_reader_version r) (TableRow.min_writer_version r)
      else r) <$> tables d)
    (transactions d) (schemas d) (columns d) (files d) (table_stats d))).

Definition create_sqlite_catalog_with_table : Test (TableIdent.t * TableView.t) :=
  let ident := TableIdent.mk "test_ns" "test_table" in
  _ ← ok (api_create_table ident "memory://test"
        (SchemaSpec.with_column SchemaSpec.new (ColumnSpec.new "id" Int64)) None);
  view ← ok (api_read_table ident None);
  mret (ident, view).

Definition list_transaction_events_uses_parent_chain_not_uuid_order : Test unit :=
  '(ident, table_view) ← create_sqlite_catalog_with_table;
  let table_uuid := TableView.table_uuid table_view in
  let base_transaction_id := TableView.transaction_id table_view in
  let tx1 := from_u128 2 in
  let tx2 := from_u128 1 in
  _ ← ok (with_tx (
    _ ← sql_insert_transaction tx1 table_uuid base_transaction_id;
    _ ← sql_insert_transaction tx2 table_uuid tx1;
    sql_update_head tx2 table_uuid));
  events ← ok (api_list_transaction_events ident (TxnRangeCursor.mk (Some base_transaction_id) tx2));
  _ ← assert (length events =? 2)%nat;
  event0 ← some (events !! 0);
  _ ← assert (bool_decide (TxnEvent.transaction_id event0 = tx1));
  event1 ← some (events !! 1);
  assert (bool_decide (TxnEvent.transaction_id event1 = tx2)).

(** [Uuid::as_u128]. *)
Definition as_u128 (u : Uuid) : N := foldl (fun n b => 256 * n + Byte.to_N b)%N 0%N (as_bytes u).

(** [u128::checked_add]. *)
Definition checked_add (a b : N) : option N := if (a + b <? 2 ^ 128)%N then Some (a + b)%N else None.

Definition read_table_uses_parent_chain_not_uuid_order : Test unit :=
  '(ident, table_view) ← create_sqlite_catalog_with_table;
  let table_uuid := TableView.table_uuid table_view in
  let base_transaction_id := TableView.transaction_id table_view in
  let base_u128 := as_u128 base_transaction_id in
  tx1 ← some (from_u128 <$> checked_add base_u128 2);
  tx2 ← some (from_u128 <$> checked_add base_u128 1);
  _ ← ok (with_tx (
    _ ← sql_insert_transaction tx1 table_uuid base_transaction_id;
    _ ← sql_insert_transaction tx2 table_uuid tx1;
    sql_update_head tx2 table_uuid));
  view ← ok (api_read_table ident (Some tx1));
  assert (bool_decide (TableView.transaction_id view = tx1)).

(** The part the two tests of an implicit drop share; it returns the error. *)
Definition implicit_column_drop `{CatalogApi} (ident : TableIdent.t) (table_view : TableView.t) :
    Test CatalogError :=
  let handle := TableHandle.mk ident in
  let base_txn := TableView.transaction_id table_view in
  create_builder ← ok (TableHandle.write handle (Some base_txn));
  _ ← ok (MutationBuilder.commit (MutationBuilder.update_schema create_builder
        (SchemaSpec.with_column (SchemaSpec.with_column SchemaSpec.new (ColumnSpec.new "id" Int64))
          (ColumnSpec.nullable (ColumnSpec.new "value" Utf8)))));
  current_txn ← ok (TableHandle.current_transaction_id handle);
  drop_builder ← ok (TableHandle.write handle (Some current_txn));
  err (MutationBuilder.commit (MutationBuilder.update_schema drop_builder
    (SchemaSpec.with_column SchemaSpec.new (ColumnSpec.new "id" Int64)))).

Definition schema_update_rejects_implicit_column_drop : Test unit :=
  '(ident, table_view) ← create_sqlite_catalog_with_table;
  error ← implicit_column_drop ident table_view;
  _ ← assert (InvalidArgument_matches error);
  _ ← assert (contains (err_to_string error) "cannot drop existing column");
  assert (contains (err_to_string error) "value").

(** *** The tests of the limits

    Their loops count with [i]; each turn inserts a transaction after the last
    one and perhaps another row. *)

(** [INSERT INTO files ..] of a file of one record and one byte, at [file_path]. *)
Definition sql_insert_file (table_uuid : Uuid) (file_path : string) (added : Uuid) (removed : option Uuid) : M unit :=
  file_uuid ← new_v4;
  execute_ (insert_file (FileRow.mk (as_bytes file_uuid) (as_bytes table_uuid) "parquet" file_path 1 1
    (as_bytes added) (as_bytes <$> removed) None None)).

(** [INSERT INTO schemas ..] of an open schema. *)
Definition sql_insert_schema (schema_uuid table_uuid : Uuid) (schema_version : Z) (valid_from : Uuid) : M unit :=
  now ← utc_now;
  execute_ (insert_schema (SchemaRow.mk (as_bytes schema_uuid) (as_bytes table_uuid) schema_version
    (as_bytes valid_from) None now)).

(** [INSERT INTO columns ..]. *)
Definition sql_insert_column (schema_uuid : Uuid) (column_name : string) (encoded_type : Blob)
    (ordinal_position : Z) : M unit :=
  column_uuid ← new_v4;
  execute_ (insert_column (ColumnRow.mk (as_bytes column_uuid) (as_bytes schema_uuid) column_name encoded_type
    ordinal_position false)).

(** [INSERT INTO tables ..] of a table without schema and history. *)
Definition sql_insert_table (table_name : string) : M unit :=
  table_uuid ← new_v4;
  now ← utc_now;
  execute_ (insert_table (TableRow.mk (as_bytes table_uuid) table_name "ns" "memory://bulk" None None now
    (Some "{}") 1 1)).

(** The loop of [count] turns that the tests start from the transaction [base];
    [extra] is what a turn does after its transaction. *)
Definition seed_transactions (count : N) (table_uuid base : Uuid) (extra : nat -> TxnId -> M unit) : M TxnId :=
  fold_m (fun last_transaction_id i =>
    transaction_id ← next_transaction_id;
    _ ← sql_insert_transaction transaction_id table_uuid last_transaction_id;
    _ ← extra i transaction_id;
    mret transaction_id) base (seq 0 (N.to_nat count)).

(** [usize as i32]. *)
Definition as_i32 (i : nat) : Z := wrap_i32 (Z.of_nat i).

(** The files, and the schemas without columns, of those turns. *)
Definition added_file (table_uuid : Uuid) (prefix : string) (i : nat) (transaction_id : TxnId) : M unit :=
  sql_insert_file table_uuid (prefix +:+ pretty i +:+ ".parquet") transaction_id None.

Definition removed_file (table_uuid base : Uuid) (prefix : string) (i : nat) (transaction_id : TxnId) : M unit :=
  sql_insert_file table_uuid (prefix +:+ pretty i +:+ ".parquet") base (Some transaction_id).

Definition started_schema (table_uuid : Uuid) (i : nat) (transaction_id : TxnId) : M unit :=
  schema_uuid ← new_v4;
  sql_insert_schema schema_uuid table_uuid (as_i32 i + 100) transaction_id.

(** The loop, the update of the head, and the scan of what was inserted; each
    statement on its own ([pool]) or all in one transaction. *)
Definition seed_events (extra : Uuid -> Uuid -> nat -> TxnId -> M unit) (count : N) (in_tx : bool) :
    Test (TableIdent.t * TxnRangeCursor.t) :=
  '(ident, table_view) ← create_sqlite_catalog_with_table;
  let table_uuid := TableView.table_uuid table_view in
  let base_transaction_id := TableView.transaction_id table_view in
  let seed :=
    last_transaction_id ← seed_transactions count table_uuid base_transaction_id
      (extra table_uuid base_transaction_id);
    _ ← sql_update_head last_transaction_id table_uuid;
    mret last_transaction_id in
  last_transaction_id ← ok (if in_tx then with_tx seed else seed);
  mret (ident, TxnRangeCursor.mk (Some base_transaction_id) last_transaction_id).

Definition list_transaction_events_rejects_added_file_overflow : Test unit :=
  '(ident, cursor) ← seed_events (fun table_uuid _ => added_file table_uuid "/tmp/overflow-added-")
    (limits.MAX_FILES_PER_QUERY + 1) false;
  error ← err (api_list_transaction_events ident cursor);
  _ ← assert (LimitExceeded_matches error);
  assert (contains (err_to_string error) "added file events exceed limit").

Definition list_transaction_events_allows_exactly_max_transaction_scan : Test unit :=
  '(ident, cursor) ← seed_events (fun _ _ _ _ => mret tt) limits.MAX_TRANSACTIONS_PER_SCAN true;
  events ← ok (api_list_transaction_events ident cursor);
  assert (length events =? N.to_nat limits.MAX_TRANSACTIONS_PER_SCAN)%nat.

(** [events.iter().map(|event| event.file_changes.iter().filter(..).count()).sum()]. *)
Definition count_changes (kind : TxnFileChangeKind) (events : list TxnEvent.t) : nat :=
  sum_list ((fun event => length (List.filter (fun change => bool_decide (TxnFileChange.kind change = kind))
    (TxnEvent.file_changes event))) <$> events).

Definition list_transaction_events_allows_exactly_max_added_file_events : Test unit :=
  '(ident, cursor) ← seed_events (fun table_uuid _ => added_file table_uuid "/tmp/at-limit-added-")
    limits.MAX_FILES_PER_QUERY true;
  events ← ok (api_list_transaction_events ident cursor);
  assert (count_changes Added events =? N.to_nat limits.MAX_FILES_PER_QUERY)%nat.

Definition list_transaction_events_rejects_removed_file_overflow : Test unit :=
  '(ident, cursor) ← seed_events (fun table_uuid base => removed_file table_uuid base "/tmp/overflow-removed-")
    (limits.MAX_FILES_PER_QUERY + 1) false;
  error ← err (api_list_transaction_events ident cursor);
  _ ← assert (LimitExceeded_matches error);
  assert (contains (err_to_string error) "removed file events exceed limit").

Definition list_transaction_events_allows_exactly_max_removed_file_events : Test unit :=
  '(ident, cursor) ← seed_events (fun table_uuid base => removed_file table_uuid base "/tmp/at-limit-removed-")
    limits.MAX_FILES_PER_QUERY true;
  events ← ok (api_list_transaction_events ident cursor);
  assert (count_changes Removed events =? N.to_nat limits.MAX_FILES_PER_QUERY)%nat.

Definition list_transaction_events_rejects_schema_change_overflow : Test unit :=
  '(ident, cursor) ← seed_events (fun table_uuid _ => started_schema table_uuid)
    (limits.MAX_SCHEMA_CHANGES_PER_SCAN + 1) false;
  error ← err (api_list_transaction_events ident cursor);
  _ ← assert (LimitExceeded_matches error);
  assert (contains (err_to_string error) "schema change events exceed limit").

Definition list_transaction_events_allows_exactly_max_schema_change_events : Test unit :=
  '(ident, cursor) ← seed_events (fun table_uuid _ => started_schema table_uuid)
    limits.MAX_SCHEMA_CHANGES_PER_SCAN true;
  events ← ok (api_list_transaction_events ident cursor);
  assert (length (List.filter (fun event => bool_decide (is_Some (TxnEvent.schema_change event))) events)
    =? N.to_nat limits.MAX_SCHEMA_CHANGES_PER_SCAN)%nat.

(** The loop over the columns of a schema. *)
Definition seed_columns (column_count : N) (schema_uuid : Uuid) (prefix : string) (encoded_type : Blob) : M unit :=
  for_each (seq 0 (N.to_nat column_count)) (fun i =>
    sql_insert_column schema_uuid (prefix +:+ pretty i) encoded_type (as_i32 (i + 1))).

Definition seed_single_schema_change_with_columns_sqlite (table_view : TableView.t) (schema_version : Z)
    (column_count : N) : M TxnId :=
  let table_uuid := TableView.table_uuid table_view in
  let base_transaction_id := TableView.transaction_id table_view in
  transaction_id ← next_transaction_id;
  schema_uuid ← new_v4;
  with_tx (
    _ ← sql_insert_transaction transaction_id table_uuid base_transaction_id;
    _ ← sql_insert_schema schema_uuid table_uuid schema_version transaction_id;
    encoded_type ← lift (encode_data_type Int64);
    _ ← seed_columns column_count schema_uuid "schema_evt_col_" encoded_type;
    _ ← execute_ (update_table_head (as_bytes table_uuid) (Some (as_bytes schema_uuid))
          (Some (as_bytes transaction_id)) None);
    mret transaction_id).

Definition list_transaction_events_allows_exactly_max_schema_change_columns : Test unit :=
  '(ident, table_view) ← create_sqlite_catalog_with_table;
  let base_transaction_id := TableView.transaction_id table_view in
  schema_change_txn ← ok (seed_single_schema_change_with_columns_sqlite table_view 2 limits.MAX_COLUMNS_PER_SCHEMA);
  events ← ok (api_list_transaction_events ident (TxnRangeCursor.mk (Some base_transaction_id) schema_change_txn));
  schema_change ← some (head (omap TxnEvent.schema_change events));
  assert (length (Schema.columns (TxnSchemaChange.schema schema_change))
    =? N.to_nat limits.MAX_COLUMNS_PER_SCHEMA)%nat.

Definition list_transaction_events_rejects_schema_change_column_overflow : Test unit :=
  '(ident, table_view) ← create_sqlite_catalog_with_table;
  let base_transaction_id := TableView.transaction_id table_view in
  schema_change_txn ← ok (seed_single_schema_change_with_columns_sqlite table_view 2
    (limits.MAX_COLUMNS_PER_SCHEMA + 1));
  error ← err (api_list_transaction_events ident (TxnRangeCursor.mk (Some base_transaction_id) schema_change_txn));
  _ ← assert (LimitExceeded_matches error);
  assert (contains (err_to_string error) "schema change column count exceeds limit").

Definition list_tables_allows_exactly_max_then_rejects_overflow : Test unit :=
  _ ← ok (for_each (seq 0 (N.to_nat limits.MAX_TABLES_PER_LIST)) (fun i =>
        sql_insert_table ("table_" +:+ pretty i)));
  at_limit ← ok (api_list_tables (Some "ns"));
  _ ← assert (length at_limit =? N.to_nat limits.MAX_TABLES_PER_LIST)%nat;
  _ ← ok (sql_insert_table "table_overflow");
  error ← err (api_list_tables (Some "ns"));
  _ ← assert (LimitExceeded_matches error);
  assert (contains (err_to_string error) "table count exceeds limit").

(** [DELETE FROM columns WHERE schema_uuid = ?1]. *)
Definition sql_delete_columns (schema_uuid : Uuid) : M unit :=
  execute_ (fun d => Ok (mk_db (tables d) (transactions d) (schemas d)
    (List.filter (fun r => negb (beq (ColumnRow.schema_uuid r) (as_bytes schema_uuid))) (columns d))
    (files d) (table_stats d))).

Definition read_table_allows_exactly_max_columns_then_rejects_overflow : Test unit :=
  '(ident, table_view) ← create_sqlite_catalog_with_table;
  let schema_uuid := Schema.schema_uuid (TableView.schema table_view) in
  _ ← ok (sql_delete_columns schema_uuid);
  encoded_type ← ok (lift (encode_data_type Int64));
  _ ← ok (seed_columns limits.MAX_COLUMNS_PER_SCHEMA schema_uuid "col_" encoded_type);
  at_limit ← ok (api_read_table ident None);
  _ ← assert (length (Schema.columns (TableView.schema at_limit)) =? N.to_nat limits.MAX_COLUMNS_PER_SCHEMA)%nat;
  _ ← ok (sql_insert_column schema_uuid "col_overflow" encoded_type
        (as_i32 (N.to_nat (limits.MAX_COLUMNS_PER_SCHEMA + 1))));
  error ← err (api_read_table ident None);
  _ ← assert (LimitExceeded_matches error);
  assert (contains (err_to_string error) "column count exceeds limit").

End runs.

(** The tests that need a PostgreSQL server, when its URL is configured;
    [simple] is the plain form of a UUID. *)
Section postgres.
Context `{Env} (PLANAR_TEST_POSTGRES_URL : option string) (simple : Uuid -> string).
#[local] Instance postgres : CatalogApi := Postgres.catalog ProtocolVersions.default.

Definition create_postgres_catalog_with_table_if_configured : Test (option (TableIdent.t * TableView.t)) :=
  match PLANAR_TEST_POSTGRES_URL with
  | None => mret None
  | Some _ =>
      suffix ← ok (u ← new_v4; mret (simple u));
      let ident := TableIdent.mk ("test_ns_" +:+ suffix) ("test_table_" +:+ suffix) in
      _ ← ok (api_create_table ident ("postgres://" +:+ suffix)
            (SchemaSpec.with_column SchemaSpec.new (ColumnSpec.new "id" Int64)) None);
      view ← ok (api_read_table ident None);
      mret (Some (ident, view))
  end.

Definition postgres_schema_update_rejects_implicit_column_drop_when_configured : Test unit :=
  created ← create_postgres_catalog_with_table_if_configured;
  match created with
  | None => mret tt
  | Some (ident, table_view) =>
      error ← implicit_column_drop ident table_view;
      _ ← assert (InvalidArgument_matches error);
      assert (contains (err_to_string error) "cannot drop existing column")
  end.

End postgres.
End tests.

(** ** They pass *)

#[local] Existing Instance ref_env.

(** A UUID printed without hyphens, here in decimal. *)
Definition ref_simple (u : Uuid) : string := pretty (tests.as_u128 u).

(** The tests of validation and of limits hold, and the tests that call the
    catalog run to their end, on SQLite and, configured or not, on PostgreSQL. *)
Theorem catalog_tests_pass :
  Forall (eq true) [
    limits_tests.limits_are_reasonable; limits_tests.batch_insert_columns_chunk_is_db_specific_and_clamped;
    limits_tests.column_insert_shape_is_locked_to_six_binds;
    limits_tests.file_insert_shape_is_locked_to_nine_binds;
    limits_tests.delete_files_shape_is_locked_to_two_fixed_params;
    tests.schema_spec_validate_rejects_duplicate_column_names;
    tests.schema_spec_validate_rejects_empty_column_name; tests.schema_spec_validate_accepts_valid_schema;
    tests.file_spec_validate_rejects_non_object_partition_values;
    tests.file_spec_validate_rejects_non_object_format_options;
    tests.file_spec_validate_accepts_valid_payload; tests.property_key_rejects_empty_value;
    tests.property_key_accepts_non_empty_value; tests.mutation_validate_rejects_duplicate_property_keys;
    tests.mutation_validate_rejects_multiple_schema_updates] /\
  (forall u, tests.mutation_validate_rejects_duplicate_file_deletes u = true) /\
  Forall (fun t => passes t start = true) [
    tests.list_transaction_events_uses_parent_chain_not_uuid_order;
    tests.read_table_uses_parent_chain_not_uuid_order; tests.schema_update_rejects_implicit_column_drop;
    tests.postgres_schema_update_rejects_implicit_column_drop_when_configured None ref_simple;
    tests.postgres_schema_update_rejects_implicit_column_drop_when_configured
      (Some "postgres://localhost/planar") ref_simple].
Proof.
  split_and!.
  - repeat apply Forall_cons_2; try apply Forall_nil_2; vm_compute; reflexivity.
  - intros u. unfold tests.mutation_validate_rejects_duplicate_file_deletes, Mutation.validate. cbn.
    rewrite bool_decide_eq_false_2 by set_solver. cbn. rewrite bool_decide_eq_true_2 by set_solver. reflexivity.
  - repeat apply Forall_cons_2; try apply Forall_nil_2; vm_compute; reflexivity.
Qed.
