(* ===== verification/Seeding.v ===== *)
(** * Rows inserted directly

    The tests of the limits insert transactions, files, schemas and columns
    with statements of their own, thousands of them.  What such a loop leaves
    behind is proved here turn by turn, in the reference environment: the
    history grows by the transactions drawn, every statement finds its
    identifier unused, and the log is in order again once the table's head is
    updated. *)

From S2P Require Import Prelude Uuid Error Limits Json DataType Format Schema Models Db DbFacts World Helpers Catalog Api Effects ReadFacts Invariant RefEnv Scenario Safety Commit Order Views Events CatalogTests.

#[local] Existing Instances ref_env ref_ipc_laws ref_enumeration_laws.
#[local] Opaque v4 v7.

(** ** Identifiers drawn so far *)

(** The [keys] are identifiers that [g] gave before the tick [n]. *)
Definition drawn (g : nat -> Uuid) (n : nat) (keys : list Blob) : Prop :=
  Forall (fun k => exists m, m < n /\ k = as_bytes (g m)) keys.

(** The ticks until which the generators do not repeat. *)
Definition early (n : nat) : Prop := (N.of_nat n < 2 ^ 60)%N.

Lemma drawn_later g m n keys : m <= n -> drawn g m keys -> drawn g n keys.
Proof.
  intros Hmn Hd. eapply Forall_impl; [exact Hd|]. intros k (i & Hi & ->). exists i. split; [lia | done].
Qed.

Lemma drawn_snoc g m n keys : m < n -> drawn g n keys -> drawn g n (keys ++ [as_bytes (g m)]).
Proof. intros Hm Hd. apply Forall_app. split; [done|]. apply Forall_singleton. eauto. Qed.

Lemma fresh_v4 n keys : early n -> drawn v4 n keys -> as_bytes (v4 n) ∉ keys.
Proof.
  unfold early. intros Hn Hd Hin. unfold drawn in Hd. rewrite Forall_forall in Hd.
  destruct (Hd _ Hin) as (m & Hm & E%(inj as_bytes)). apply v4_inj in E; lia.
Qed.

Lemma fresh_v7 n keys : early n -> drawn v7 n keys -> as_bytes (v7 n) ∉ keys.
Proof.
  unfold early. intros Hn Hd Hin. unfold drawn in Hd. rewrite Forall_forall in Hd.
  destruct (Hd _ Hin) as (m & Hm & E%(inj as_bytes)). apply v7_inj in E; lia.
Qed.

(** ** Counting turns *)

(** The number of the next turn, and the number of turns at the end. *)
Lemma seq_next n k i l : seq 0 n = seq 0 k ++ i :: l -> i = k /\ k < n.
Proof.
  intros E. pose proof (f_equal length E) as Hlen. rewrite length_app, !length_seq in Hlen. cbn in Hlen.
  pose proof (f_equal (.!! k) E) as Hi. rewrite lookup_app_r, length_seq, Nat.sub_diag in Hi by (rewrite length_seq; lia).
  apply lookup_seq in Hi as [-> _]. lia.
Qed.

Lemma seq_end n k : seq 0 n = seq 0 k ++ [] -> k = n.
Proof. rewrite app_nil_r. intros E%(f_equal length). by rewrite !length_seq in E. Qed.

(** ** Counting the rows of transactions *)

(** Over distinct [ts], each row is found at most once, by the key it has. *)
Lemma bind_filter_length {R K} `{EqDecision K} (key : R -> K) (k : Uuid -> K) `{!Inj (=) (=) k} (p : R -> bool)
    (ts : list Uuid) (rows : list R) :
  NoDup ts ->
  length (ts ≫= fun t => List.filter (fun r => p r && bool_decide (key r = k t)) rows)
  = length (List.filter (fun r => p r && bool_decide (key r ∈ k <$> ts)) rows).
Proof.
  intros Hn. induction rows as [|r rows IH]; cbn.
  { induction ts as [|t ts IHt]; cbn; [done|]. apply NoDup_cons in Hn as [_ Hn]. by apply IHt. }
  transitivity ((if p r && bool_decide (key r ∈ k <$> ts) then 1 else 0)
    + length (ts ≫= fun t => List.filter (fun r => p r && bool_decide (key r = k t)) rows)).
  2: { rewrite IH. by destruct (p r && _). }
  clear IH. induction ts as [|t ts IHt]; [by cbn; destruct (p r)|].
  apply NoDup_cons in Hn as [Ht Hn]. specialize (IHt Hn). rewrite !bind_cons, !length_app. cbn [List.filter]. rewrite IHt. clear IHt.
  destruct (p r); cbn [andb]; [|lia].
  assert (bool_decide (key r ∈ k <$> t :: ts) = bool_decide (key r = k t) || bool_decide (key r ∈ k <$> ts)) as ->.
  { rewrite <- bool_decide_or. apply bool_decide_ext. cbn. by rewrite elem_of_cons. }
  assert (bool_decide (key r = k t) = true -> bool_decide (key r ∈ k <$> ts) = false) as Hone.
  { intros E%bool_decide_eq_true_1. apply bool_decide_eq_false_2. rewrite E.
    by intros (x & ->%(inj k) & Hx)%list_elem_of_fmap. }
  destruct (bool_decide (key r = k t)), (bool_decide (key r ∈ k <$> ts)); cbn [orb length]; naive_solver lia.
Qed.

(** Every row, or none, is among them. *)
Lemma bind_filter_all {R K} `{EqDecision K} (key : R -> K) (k : Uuid -> K) `{!Inj (=) (=) k} (p : R -> bool)
    (ts : list Uuid) (rows : list R) :
  NoDup ts -> (forall r, r ∈ rows -> p r = true /\ key r ∈ k <$> ts) ->
  length (ts ≫= fun t => List.filter (fun r => p r && bool_decide (key r = k t)) rows) = length rows.
Proof.
  intros Hn Hr. rewrite (bind_filter_length key k) by done. rewrite filter_all_true; [done|].
  intros r (-> & Hk)%Hr. by rewrite bool_decide_eq_true_2.
Qed.

Lemma bind_filter_none {R K} `{EqDecision K} (key : R -> K) (k : Uuid -> K) `{!Inj (=) (=) k} (p : R -> bool)
    (ts : list Uuid) (rows : list R) :
  NoDup ts -> (forall r, r ∈ rows -> key r ∉ k <$> ts) ->
  length (ts ≫= fun t => List.filter (fun r => p r && bool_decide (key r = k t)) rows) = 0.
Proof.
  intros Hn Hr. rewrite (bind_filter_length key k) by done. rewrite filter_all_false; [done|].
  intros r Hk%Hr. rewrite bool_decide_eq_false_2 by done. by destruct (p r).
Qed.

(** ** A growing history *)

Section seeding.
Context (row : TableRow.t) (u base : Uuid) (Hu : TableRow.table_uuid row = as_bytes u).

(** The table [row] is the only one, and the transactions [new] were inserted
    after its transaction [base]; its head may lag behind. *)
Record grown (new : list Uuid) (w : World) : Prop := {
  gr_db : db_ok (db w);
  gr_rows : rows_decode (db w);
  gr_types : Forall column_decodes (columns (db w));
  gr_tables : tables (db w) = [row];
  gr_linked : linked None (history (db w) (as_bytes u));
  gr_chain : chain (db w) (as_bytes u) = as_bytes <$> base :: new;
  gr_txns : drawn v7 (tick w) (txn_keys (db w));
  gr_schemas : drawn v4 (tick w) (schema_keys (db w));
  gr_columns : drawn v4 (tick w) (ColumnRow.column_uuid <$> columns (db w));
  gr_files : drawn v4 (tick w) (FileRow.file_uuid <$> files (db w))
}.

Lemma grown_later new w n : tick w <= n -> grown new w -> grown new (mk_world (db w) n).
Proof. intros Hn []. split; cbn; try done; by eapply drawn_later. Qed.

Lemma grown_table new w : grown new w -> as_bytes u ∈ table_keys (db w).
Proof. intros Hg. unfold table_keys. rewrite (gr_tables _ _ Hg). cbn. rewrite Hu. left. Qed.

Lemma grown_txn new w t : grown new w -> t ∈ base :: new -> as_bytes t ∈ txn_keys (db w).
Proof.
  intros Hg Ht. apply (sublist_subseteq (chain (db w) (as_bytes u))); [apply chain_sublist|].
  rewrite (gr_chain _ _ Hg). by apply list_elem_of_fmap_2.
Qed.

(** A new transaction after the last one, under an identifier drawn before. *)
Lemma wp_seed_transaction new last_ w m Φ :
  grown new w -> m < tick w -> as_bytes (v7 m) ∉ txn_keys (db w) -> last (base :: new) = Some last_ ->
  (forall w', tick w' = tick w + 2 -> grown (new ++ [v7 m]) w' -> schemas (db w') = schemas (db w) ->
     columns (db w') = columns (db w) -> files (db w') = files (db w) -> Φ (Ok tt) w') ->
  wp (tests.sql_insert_transaction (v7 m) u last_) Φ w.
Proof.
  intros Hg Hm Hf Hl HΦ. unfold tests.sql_insert_transaction. apply wp_bind, wp_utc_now. cbn [tick bump].
  set (r := TransactionRow.mk _ _ _ _).
  assert (insert_transaction r (db w) = Ok (mk_db (tables (db w)) (transactions (db w) ++ [r]) (schemas (db w))
    (columns (db w)) (files (db w)) (table_stats (db w)))) as Hins.
  { apply insert_transaction_ok. cbn. split_and!; [done | by eapply grown_table | |done].
    eapply grown_txn; [done|]. by apply last_Some_elem_of. }
  eapply wp_execute__ok; [exact ref_no_faults | exact Hins |]. apply HΦ; cbn; [lia | |done..].
  pose proof (insert_transaction_db_ok _ _ _ Hins (gr_db _ _ Hg)) as Hok. pose proof Hg as [].
  split; cbn; try done; try (by eapply drawn_later; [|eassumption]; lia).
  - destruct gr_rows0. split; cbn; try done. apply Forall_app. split; [done|]. apply Forall_singleton. cbn.
    split; apply as_bytes_uuid.
  - unfold history. cbn. rewrite history_app. cbn. rewrite beq_refl. apply linked_snoc. split; [done|].
    fold (chain (db w) (as_bytes u)). by rewrite gr_chain0, fmap_last, Hl.
  - unfold chain, history. cbn. rewrite history_app. cbn. rewrite beq_refl, fmap_app. cbn.
    fold (chain (db w) (as_bytes u)). rewrite gr_chain0. by rewrite <- fmap_snoc.
  - rewrite fmap_app. apply drawn_snoc; [lia|]. by eapply drawn_later; [|eassumption]; lia.
Qed.

(** A file of the table. *)
Lemma wp_seed_file new w path added removed Φ :
  grown new w -> early (tick w) -> added ∈ base :: new ->
  match removed with Some t => t ∈ base :: new | None => True end ->
  (forall w' r, tick w' = tick w + 2 -> grown new w' -> schemas (db w') = schemas (db w) ->
     columns (db w') = columns (db w) -> files (db w') = files (db w) ++ [r] ->
     FileRow.table_uuid r = as_bytes u -> FileRow.added_in_transaction_id r = as_bytes added ->
     FileRow.removed_in_transaction_id r = as_bytes <$> removed -> (exists f, file_of_row r = Ok f) ->
     Φ (Ok tt) w') ->
  wp (tests.sql_insert_file u path added removed) Φ w.
Proof.
  intros Hg He Ha Hr HΦ. unfold tests.sql_insert_file. apply wp_bind, wp_new_v4. cbn [gen_v4 env_outside ref_env ref_outside].
  set (r := FileRow.mk _ _ _ _ _ _ _ _ _ _).
  assert (insert_file r (db w) = Ok (mk_db (tables (db w)) (transactions (db w)) (schemas (db w)) (columns (db w))
    (files (db w) ++ [r]) (table_stats (db w)))) as Hins.
  { apply insert_file_ok. cbn. split_and!; [apply fresh_v4; [done | apply Hg] | by eapply grown_table | | |done].
    - by eapply grown_txn.
    - destruct removed; [by eapply grown_txn | done]. }
  eapply wp_execute__ok; [exact ref_no_faults | exact Hins |].
  apply (HΦ _ r); cbn; [lia | |done..|].
  - pose proof (insert_file_db_ok _ _ _ Hins (gr_db _ _ Hg)) as Hok. destruct Hg.
    split; cbn; try done; try (by eapply drawn_later; [|eassumption]; lia).
    + destruct gr_rows0. split; cbn; try done. apply Forall_app. split; [done|]. apply Forall_singleton. cbn.
      split_and!; try apply as_bytes_uuid. destruct removed; [apply as_bytes_uuid | done].
    + rewrite fmap_app. apply drawn_snoc; [lia|]. by eapply drawn_later; [|eassumption]; lia.
  - unfold file_of_row. cbn. rewrite !(proj2 (uuid_from_row_ok _ _) eq_refl). cbn.
    rewrite (proj2 (uuid_from_row_optional_ok _ removed)) by done. cbn. eauto.
Qed.

(** A schema of the table, under an identifier drawn before. *)
Lemma wp_seed_schema new w m version t Φ :
  grown new w -> m < tick w -> as_bytes (v4 m) ∉ schema_keys (db w) -> t ∈ base :: new ->
  (forall w' r, tick w' = tick w + 2 -> grown new w' -> schemas (db w') = schemas (db w) ++ [r] ->
     columns (db w') = columns (db w) -> files (db w') = files (db w) ->
     SchemaRow.schema_uuid r = as_bytes (v4 m) -> SchemaRow.table_uuid r = as_bytes u ->
     SchemaRow.valid_from_transaction_id r = as_bytes t -> Φ (Ok tt) w') ->
  wp (tests.sql_insert_schema (v4 m) u version t) Φ w.
Proof.
  intros Hg Hm Hf Ht HΦ. unfold tests.sql_insert_schema. apply wp_bind, wp_utc_now.
  set (r := SchemaRow.mk _ _ _ _ _ _).
  assert (insert_schema r (db w) = Ok (mk_db (tables (db w)) (transactions (db w)) (schemas (db w) ++ [r])
    (columns (db w)) (files (db w)) (table_stats (db w)))) as Hins.
  { apply insert_schema_ok. cbn. split_and!; [done | by eapply grown_table | by eapply grown_txn | done | done]. }
  eapply wp_execute__ok; [exact ref_no_faults | exact Hins |].
  apply (HΦ _ r); cbn; [lia | |done..].
  pose proof (insert_schema_db_ok _ _ _ Hins (gr_db _ _ Hg)) as Hok. destruct Hg.
  split; cbn; try done; try (by eapply drawn_later; [|eassumption]; lia).
  - destruct gr_rows0. split; cbn; try done. apply Forall_app. split; [done|]. apply Forall_singleton. cbn.
    split_and!; try apply as_bytes_uuid. done.
  - rewrite fmap_app. apply drawn_snoc; [lia|]. by eapply drawn_later; [|eassumption]; lia.
Qed.

(** A column of a schema. *)
Lemma wp_seed_column new w (s : Uuid) name encoded ordinal Φ :
  grown new w -> early (tick w) -> as_bytes s ∈ schema_keys (db w) ->
  (as_bytes s, name) ∉ column_names (db w) -> (exists ty, encode_data_type ty = Ok encoded /\ decode_data_type encoded = Ok ty) ->
  (forall w' r, tick w' = tick w + 2 -> grown new w' ->
     db w' = mk_db (tables (db w)) (transactions (db w)) (schemas (db w)) (columns (db w) ++ [r]) (files (db w))
               (table_stats (db w)) ->
     ColumnRow.schema_uuid r = as_bytes s -> ColumnRow.column_name r = name ->
     ColumnRow.ordinal_position r = ordinal -> Φ (Ok tt) w') ->
  wp (tests.sql_insert_column s name encoded ordinal) Φ w.
Proof.
  intros Hg He Hs Hn Hty HΦ. unfold tests.sql_insert_column. apply wp_bind, wp_new_v4.
  cbn [gen_v4 env_outside ref_env ref_outside]. set (r := ColumnRow.mk _ _ _ _ _ _).
  assert (insert_column r (db w) = Ok (mk_db (tables (db w)) (transactions (db w)) (schemas (db w))
    (columns (db w) ++ [r]) (files (db w)) (table_stats (db w)))) as Hins.
  { apply insert_column_ok. cbn. split_and!; [apply fresh_v4; [done | apply Hg] | done | done | done]. }
  eapply wp_execute__ok; [exact ref_no_faults | exact Hins |].
  apply (HΦ _ r); cbn; [lia | |done..].
  pose proof (insert_column_db_ok _ _ _ Hins (gr_db _ _ Hg)) as Hok. destruct Hg.
  split; cbn; try done; try (by eapply drawn_later; [|eassumption]; lia).
  - destruct gr_rows0. split; cbn; try done. apply Forall_app. split; [done|]. apply Forall_singleton. cbn.
    destruct Hty as (ty & Hty & _). split_and!; [apply as_bytes_uuid..|]. by exists ty.
  - apply Forall_app. split; [done|]. apply Forall_singleton. destruct Hty as (ty & _ & Hty). by exists ty.
  - rewrite fmap_app. apply drawn_snoc; [lia|]. by eapply drawn_later; [|eassumption]; lia.
Qed.

(** ** The turns *)

(** The schemas and the columns before the loop. *)
Context (ss0 : list SchemaRow.t) (cs0 : list ColumnRow.t).

(** No other rows. *)
Definition nothing_else (new : list Uuid) (ss : list SchemaRow.t) (cs : list ColumnRow.t) (fs : list FileRow.t) : Prop :=
  ss = ss0 /\ cs = cs0 /\ fs = [].

(** One file per transaction, as [P] says. *)
Definition files_only (P : list Uuid -> FileRow.t -> Prop) (new : list Uuid) (ss : list SchemaRow.t)
    (cs : list ColumnRow.t) (fs : list FileRow.t) : Prop :=
  ss = ss0 /\ cs = cs0 /\ length fs = length new /\
  Forall (fun r => FileRow.table_uuid r = as_bytes u /\ (exists f, file_of_row r = Ok f) /\ P new r) fs.

Definition adds (new : list Uuid) (r : FileRow.t) : Prop :=
  FileRow.added_in_transaction_id r ∈ as_bytes <$> new /\ FileRow.removed_in_transaction_id r = None.

Definition removes (new : list Uuid) (r : FileRow.t) : Prop :=
  FileRow.added_in_transaction_id r = as_bytes base /\
  FileRow.removed_in_transaction_id r ∈ (fun t => Some (as_bytes t)) <$> new.

(** One schema without columns per transaction. *)
Definition schemas_only (new : list Uuid) (ss : list SchemaRow.t) (cs : list ColumnRow.t) (fs : list FileRow.t) : Prop :=
  cs = cs0 /\ fs = [] /\
  exists more, ss = ss0 ++ more /\
    SchemaRow.valid_from_transaction_id <$> more = as_bytes <$> new /\
    Forall (fun s => SchemaRow.table_uuid s = as_bytes u /\
      SchemaRow.schema_uuid s ∉ SchemaRow.schema_uuid <$> ss0) more.

(** What a turn does after its transaction [t]. *)
Definition turn_ok (J : list Uuid -> list SchemaRow.t -> list ColumnRow.t -> list FileRow.t -> Prop)
    (extra : nat -> TxnId -> M unit) : Prop :=
  forall i new t w, early (tick w) -> grown (new ++ [t]) w -> J new (schemas (db w)) (columns (db w)) (files (db w)) ->
    wp (extra i t) (fun r w' => r = Ok tt /\ tick w' <= tick w + 3 /\ grown (new ++ [t]) w' /\
      J (new ++ [t]) (schemas (db w')) (columns (db w')) (files (db w'))) w.

Lemma no_turn : turn_ok nothing_else (fun _ _ => mret tt).
Proof. intros i new t w _ Hg HJ. apply wp_ret. split_and!; [done | lia | done..]. Qed.

Lemma file_turn P i new t w path added removed :
  (forall r, FileRow.added_in_transaction_id r = as_bytes added ->
     FileRow.removed_in_transaction_id r = as_bytes <$> removed -> P (new ++ [t]) r) ->
  (forall r, P new r -> P (new ++ [t]) r) ->
  added ∈ base :: new ++ [t] -> match removed with Some x => x ∈ base :: new ++ [t] | None => True end ->
  early (tick w) -> grown (new ++ [t]) w -> files_only P new (schemas (db w)) (columns (db w)) (files (db w)) ->
  wp (tests.sql_insert_file u (path +:+ pretty (i : nat) +:+ ".parquet") added removed) (fun r w' =>
    r = Ok tt /\ tick w' <= tick w + 3 /\ grown (new ++ [t]) w' /\
    files_only P (new ++ [t]) (schemas (db w')) (columns (db w')) (files (db w'))) w.
Proof.
  intros HP Hmono Ha Hr He Hg (Es & Ec & Hlen & Hf). eapply wp_seed_file; [done..|].
  intros w' r Ht Hg' -> -> -> Hru Hadd Hrem Hdec. unfold files_only. split_and!; [done | lia | exact Hg' | exact Es | exact Ec | |].
  - by rewrite !length_app, Hlen.
  - apply Forall_app. split; [|apply Forall_singleton; split_and!; auto].
    eapply Forall_impl; [exact Hf|]. naive_solver.
Qed.

Lemma added_turn path : turn_ok (files_only adds) (tests.added_file u path).
Proof.
  intros i new t w. apply file_turn; [| |set_solver | done].
  - intros r Ha Hr. split; [|done]. rewrite Ha. apply list_elem_of_fmap_2. set_solver.
  - intros r [Ha Hr]. split; [|done]. rewrite fmap_app. set_solver.
Qed.

Lemma removed_turn path : turn_ok (files_only removes) (tests.removed_file u base path).
Proof.
  intros i new t w. apply file_turn; [| |set_solver | set_solver].
  - intros r Ha Hr. split; [done|]. rewrite Hr, fmap_app. apply elem_of_app. right. left.
  - intros r [Ha Hr]. split; [done|]. rewrite fmap_app. set_solver.
Qed.

Lemma started_turn : turn_ok schemas_only (tests.started_schema u).
Proof.
  intros i new t w He Hg (Ec & Ef & more & Es & Hfrom & Hmore). unfold tests.started_schema.
  apply wp_bind, wp_new_v4. pose proof (fresh_v4 _ _ He (gr_schemas _ _ Hg)) as Hfresh.
  eapply (wp_seed_schema (new ++ [t]) (bump w) (tick w));
    [apply grown_later; [lia | done] | cbn; lia | exact Hfresh | set_solver |]. cbn [db tick bump].
  intros w' r Ht Hg' -> -> -> Hr Hru Hvf. unfold schemas_only. split_and!; [done | lia | exact Hg' | exact Ec | exact Ef |].
  exists (more ++ [r]). split_and!.
  - by rewrite Es, app_assoc.
  - rewrite !fmap_app, Hfrom. cbn. by rewrite Hvf.
  - apply Forall_app. split; [done|]. apply Forall_singleton. split; [done|]. rewrite Hr. intros Hin.
    apply Hfresh. rewrite Es, fmap_app. set_solver.
Qed.

(** ** The loop over transactions *)

(** Each turn takes at most six ticks and makes [J] of the other rows hold for
    one transaction more. *)
Lemma wp_seed_transactions J count extra w Φ :
  turn_ok J extra ->
  grown [] w -> J [] (schemas (db w)) (columns (db w)) (files (db w)) ->
  (N.of_nat (tick w) + 6 * count < 2 ^ 60)%N ->
  (forall new last_ w', length new = N.to_nat count -> last (base :: new) = Some last_ -> grown new w' ->
     J new (schemas (db w')) (columns (db w')) (files (db w')) -> Φ (Ok last_) w') ->
  wp (tests.seed_transactions count u base extra) Φ w.
Proof.
  intros Hextra Hg HJ Hlim HΦ. unfold tests.seed_transactions.
  apply (wp_fold_m _ _ (fun last_ l w' => exists new, last (base :: new) = Some last_ /\
    length new + length l = N.to_nat count /\ grown new w' /\
    J new (schemas (db w')) (columns (db w')) (files (db w')) /\ tick w' <= tick w + 6 * length new)).
  - exists []. rewrite length_seq. split_and!; [done | done | done | done | lia].
  - intros last_ i l w1 (new & Hl & Hlen & Hg1 & HJ1 & Ht1). cbn in Hlen. unfold early in *.
    apply wp_bind, wp_next_transaction_id. apply wp_bind. cbn [gen_v7 env_outside ref_env ref_outside].
    apply (wp_seed_transaction new _ (bump w1) (tick w1)); [apply grown_later; [lia | done] | cbn; lia | | done |].
    { apply fresh_v7; [unfold early; lia | apply Hg1]. }
    cbn [db tick bump]. intros w2 Ht2 Hg2 Es Ec Ef. apply wp_bind. eapply wp_mono.
    { apply Hextra; [unfold early; lia | exact Hg2 | by rewrite Es, Ec, Ef]. }
    intros r w3 (-> & Ht3 & Hg3 & HJ3). apply wp_ret. exists (new ++ [v7 (tick w1)]).
    rewrite length_app. cbn. split_and!; [by rewrite last_cons, last_snoc | lia | done | done | lia].
  - intros last_ w1 (new & Hl & Hlen & Hg1 & HJ1 & _). cbn in Hlen. apply (HΦ new); [lia | done..].
Qed.

(** ** The loop over columns *)

Lemma wp_seed_columns new count (s : Uuid) prefix encoded w Φ :
  grown new w -> (N.of_nat (tick w) + 2 * count < 2 ^ 60)%N -> as_bytes s ∈ schema_keys (db w) ->
  select_columns (as_bytes s) (db w) = [] -> (exists ty, encode_data_type ty = Ok encoded /\ decode_data_type encoded = Ok ty) ->
  (forall w' rows, grown new w' -> tick w' <= tick w + 2 * N.to_nat count ->
     db w' = mk_db (tables (db w)) (transactions (db w)) (schemas (db w)) (columns (db w) ++ rows) (files (db w))
               (table_stats (db w)) ->
     Forall (fun r => ColumnRow.schema_uuid r = as_bytes s) rows ->
     ColumnRow.column_name <$> rows = (fun i => prefix +:+ pretty i) <$> seq 0 (N.to_nat count) ->
     ColumnRow.ordinal_position <$> rows = (fun i => tests.as_i32 (i + 1)) <$> seq 0 (N.to_nat count) ->
     Φ (Ok tt) w') ->
  wp (tests.seed_columns count s prefix encoded) Φ w.
Proof.
  intros Hg Hlim Hs Hnone Hty HΦ. unfold tests.seed_columns.
  apply (wp_for_each _ _ (fun l w' => exists rows, grown new w' /\ tick w' <= tick w + 2 * length rows /\
    db w' = mk_db (tables (db w)) (transactions (db w)) (schemas (db w)) (columns (db w) ++ rows) (files (db w))
              (table_stats (db w)) /\
    Forall (fun r => ColumnRow.schema_uuid r = as_bytes s) rows /\
    seq 0 (N.to_nat count) = seq 0 (length rows) ++ l /\
    ColumnRow.column_name <$> rows = (fun i => prefix +:+ pretty i) <$> seq 0 (length rows) /\
    ColumnRow.ordinal_position <$> rows = (fun i => tests.as_i32 (i + 1)) <$> seq 0 (length rows))).
  - exists []. rewrite app_nil_r. split_and!; try done; [lia | by destruct (db w)].
  - intros i l w1 (rows & Hg1 & Ht1 & Ed & Hrows & Hseq & Hnames & Hords).
    destruct (seq_next _ _ _ _ Hseq) as [-> Hlen].
    apply (wp_seed_column new); [done | unfold early; lia | by rewrite Ed | | done |].
    + rewrite Ed. unfold column_names. cbn. rewrite fmap_app. intros [Hin|Hin]%elem_of_app.
      * apply list_elem_of_fmap in Hin as (r & [= Er _] & Hr).
        assert (r ∈ select_columns (as_bytes s) (db w)) as Hsel
          by (apply elem_of_filter'; split; [done | by apply bool_decide_eq_true_2]).
        rewrite Hnone in Hsel. by apply not_elem_of_nil in Hsel.
      * assert (prefix +:+ pretty (length rows) ∈ ColumnRow.column_name <$> rows) as Hn.
        { apply list_elem_of_fmap in Hin as (r & [= _ Er] & Hr). rewrite Er. by apply list_elem_of_fmap_2. }
        rewrite Hnames in Hn. apply list_elem_of_fmap in Hn as (j & E & Hj%elem_of_seq).
        apply (inj (String.append prefix)), (inj pretty) in E. lia.
    + intros w2 r Ht2 Hg2 Ed2 Er1 Er2 Er3. exists (rows ++ [r]). rewrite length_app. cbn [length].
      replace (seq 0 (length rows + 1)) with (seq 0 (length rows) ++ [length rows]) by by rewrite seq_app.
      split_and!; [done | lia | | | | |].
      * rewrite Ed2, Ed. cbn. by rewrite <- app_assoc.
      * apply Forall_app. split; [done | by apply Forall_singleton].
      * by rewrite <- app_assoc.
      * rewrite !fmap_app, Hnames. cbn. by rewrite Er2.
      * rewrite !fmap_app, Hords. cbn. by rewrite Er3.
  - intros w1 (rows & Hg1 & Ht1 & Ed & Hrows & Hlen%seq_end & Hnames & Hords). rewrite Hlen in *.
    by apply (HΦ w1 rows).
Qed.

(** ** The head of the table *)

Context (ident : TableIdent.t).
Context (Hname : TableRow.namespace row = TableIdent.namespace ident /\ TableRow.table_name row = TableIdent.name ident).

(** The log in order again, the table's row updated. *)
Record seeded (new : list Uuid) (d : Db) : Prop := {
  sd_log : log_ok d;
  sd_types : Forall column_decodes (columns d);
  sd_row : exists r, table_row_of d ident = Some r /\ tables d = [r] /\ TableRow.table_uuid r = as_bytes u;
  sd_chain : chain d (as_bytes u) = as_bytes <$> base :: new
}.

(** Any update of the row that sets the head and keeps the rest. *)
Lemma grown_seeded new w last_ row' :
  grown new w -> last (base :: new) = Some last_ ->
  TableRow.table_uuid row' = TableRow.table_uuid row -> TableRow.namespace row' = TableRow.namespace row ->
  TableRow.table_name row' = TableRow.table_name row -> TableRow.current_transaction_id row' = Some (as_bytes last_) ->
  opt_uuid (TableRow.current_schema_uuid row') ->
  seeded new (mk_db [row'] (transactions (db w)) (schemas (db w)) (columns (db w)) (files (db w)) (table_stats (db w))).
Proof.
  intros Hg Hl Eu En Em Eh Es. set (d := mk_db _ _ _ _ _ _). destruct Hname as [Hns Hnm]. destruct Hg.
  assert (db_ok d) as Hok.
  { destruct gr_db0. subst d.
    assert (TableRow.table_uuid <$> [row'] = table_keys (db w)) as Hk by (rewrite gr_tables0; cbn; by rewrite Eu).
    constructor; cbn [tables transactions schemas columns files table_stats]; rewrite ?Hk; try done.
    apply NoDup_singleton. }
  assert (chain d (as_bytes u) = as_bytes <$> base :: new) as Hc by (by rewrite <- gr_chain0; apply chain_eq).
  split; [split|..].
  - done.
  - destruct gr_rows0. split; cbn; try done. apply Forall_singleton. rewrite Eu, Eh. split_and!; [|done|].
    + rewrite Hu. apply as_bytes_uuid.
    + apply as_bytes_uuid.
  - apply Forall_singleton. unfold history_ok. rewrite Eu, Hu, Hc, Eh. split_and!; [exact gr_linked0 | |].
    + intros Hnil. unfold chain in Hc. by rewrite Hnil in Hc.
    + by rewrite fmap_last, Hl.
  - done.
  - exists row'. split_and!; [|done | congruence]. apply table_row_of_in; [done|].
    apply select_table_in. cbn. rewrite En, Em. split_and!; [left | done..].
  - done.
Qed.

(** [sql_update_head] does that. *)
Lemma wp_seed_head new w last_ Φ :
  grown new w -> last (base :: new) = Some last_ ->
  (forall w', tick w' = tick w + 1 -> seeded new (db w') -> schemas (db w') = schemas (db w) ->
     columns (db w') = columns (db w) -> files (db w') = files (db w) -> Φ (Ok tt) w') ->
  wp (tests.sql_update_head last_ u) Φ w.
Proof.
  intros Hg Hl HΦ. unfold tests.sql_update_head. eapply wp_execute__ok; [exact ref_no_faults | done |].
  rewrite (gr_tables _ _ Hg). cbn. rewrite Hu, beq_refl. apply HΦ; cbn; [lia | |done..].
  eapply grown_seeded; [done | done | by rewrite Hu | done | done | done |].
  cbn. destruct Hg. destruct gr_rows0. rewrite gr_tables0 in dec_tables. by apply Forall_singleton in dec_tables as (_ & ? & _).
Qed.

(** ** The scan of what was inserted *)

Lemma wp_seed_events new w last_ Φ :
  seeded new (db w) -> new <> [] -> last (base :: new) = Some last_ ->
  (N.of_nat (length new) <= limits.MAX_TRANSACTIONS_PER_SCAN)%N ->
  files_decode (db w) u -> schemas_scan (db w) u ->
  (forall r w', scan_outcome (db w) u (ScanCounts.mk 0 0 0) new r -> Φ r w') ->
  wp (list_transaction_events ident (TxnRangeCursor.mk (Some base) last_)) Φ w.
Proof.
  intros [Hlog _ (r & Hr & Ht & Hru) Hc] Hne Hl Hlim Hfiles Hscan HΦ.
  assert (r ∈ tables (db w)) as Hin by (rewrite Ht; left).
  assert ((base :: new) !! length new = Some last_) as Hi.
  { rewrite last_lookup in Hl. exact Hl. }
  assert (0 < length new) as Hpos by (destruct new; [done | cbn; lia]).
  assert (segment (base :: new) 1 (length new) = new) as Hseg.
  { unfold segment. rewrite take_ge by (cbn; lia). done. }
  eapply (wp_list_events (db w) Hlog ref_no_faults r u Hin Hru (base :: new) Hc ident w eq_refl Hr _ (length new) 1);
    rewrite ?Hseg; [done | | | |].
  - apply starts_after_some; [exact (uuids_nodup (db w) Hlog u _ Hc) | done | done].
  - intros w' Hd' _ _. eapply wp_mono; [apply (wp_events_of_txns (db w) Hlog ref_no_faults u Hscan Hfiles);
      [done | by split_and!]|]. intros r' w2 [_ Ho]. by apply HΦ.
  - intros w' _ Hlt. lia.
  - done.
Qed.

Lemma seeded_nodup new d : seeded new d -> NoDup (base :: new).
Proof. intros Hs. exact (uuids_nodup d (sd_log _ _ Hs) u _ (sd_chain _ _ Hs)). Qed.

End seeding.

(** ** What the events of a scan amount to *)

Section counting.
Context (d : Db) (u : Uuid).

Lemma count_changes_added ts es :
  Forall2 (event_ok d u) ts es -> N.of_nat (tests.count_changes Added es) = added_by d u ts.
Proof.
  unfold added_by. intros HF. f_equal. induction HF as [|t e ts es He _ IH]; [done|]. rewrite bind_cons, length_app, <- IH.
  unfold tests.count_changes. cbn [fmap list_fmap sum_list]. f_equal.
  destruct He as (_ & (added & removed & fa & fr & Ha & Hr & Ea & Er & ->) & _).
  rewrite List.filter_app, (filter_all_true _ (TxnFileChange.mk t Added <$> fa)),
    (filter_all_false _ (TxnFileChange.mk t Removed <$> fr)), app_nil_r, length_fmap.
  - apply traverse_length in Ea. by rewrite Ea, Ha.
  - by intros x (f & -> & _)%list_elem_of_fmap.
  - by intros x (f & -> & _)%list_elem_of_fmap.
Qed.

Lemma count_changes_removed ts es :
  Forall2 (event_ok d u) ts es -> N.of_nat (tests.count_changes Removed es) = removed_by d u ts.
Proof.
  unfold removed_by. intros HF. f_equal. induction HF as [|t e ts es He _ IH]; [done|]. rewrite bind_cons, length_app, <- IH.
  unfold tests.count_changes. cbn [fmap list_fmap sum_list]. f_equal.
  destruct He as (_ & (added & removed & fa & fr & Ha & Hr & Ea & Er & ->) & _).
  rewrite List.filter_app, (filter_all_true _ (TxnFileChange.mk t Removed <$> fr)),
    (filter_all_false _ (TxnFileChange.mk t Added <$> fa)), app_nil_l, length_fmap.
  - apply traverse_length in Er. by rewrite Er, Hr.
  - by intros x (f & -> & _)%list_elem_of_fmap.
  - by intros x (f & -> & _)%list_elem_of_fmap.
Qed.

Lemma count_schema_changes ts es :
  Forall2 (event_ok d u) ts es ->
  N.of_nat (length (List.filter (fun e => bool_decide (is_Some (TxnEvent.schema_change e))) es)) = schemas_of d u ts.
Proof.
  unfold schemas_of. intros HF. f_equal. induction HF as [|t e ts es He _ IH]; [done|]. rewrite bind_cons, length_app, <- IH.
  destruct He as (_ & _ & Hs). cbn [List.filter].
  destruct (select_schemas_from (as_bytes u) (as_bytes t) d) as [|s [|]], (TxnEvent.schema_change e); done.
Qed.

End counting.

(** ** What was inserted, counted *)

Section outcomes.
Context (d : Db) (u base : Uuid) (new : list Uuid) (Hnew : NoDup (base :: new)).
Context (ss0 : list SchemaRow.t) (cs0 : list ColumnRow.t).
Context (Hfrom0 : SchemaRow.valid_from_transaction_id <$> ss0 = [as_bytes base]).
Context (Hcols0 : Forall (fun c => ColumnRow.schema_uuid c ∈ SchemaRow.schema_uuid <$> ss0) cs0).
Context (Hnum0 : Forall (fun s =>
  numbered (List.filter (fun c => beq (ColumnRow.schema_uuid c) (SchemaRow.schema_uuid s)) cs0)) ss0).
Context (Htypes : Forall column_decodes (columns d)).

Lemma new_nodup : NoDup new.
Proof. by apply NoDup_cons in Hnew as [_ ?]. Qed.

Lemma base_not_new : base ∉ new.
Proof. by apply NoDup_cons in Hnew as [? _]. Qed.

#[local] Instance some_bytes_inj : Inj (=) (=) (fun t : Uuid => Some (as_bytes t)).
Proof. by intros x y [= ?%(inj as_bytes)]. Qed.

(** A schema from before starts at none of the new transactions. *)
Lemma old_from s : s ∈ ss0 -> SchemaRow.valid_from_transaction_id s ∉ as_bytes <$> new.
Proof.
  intros Hs. assert (SchemaRow.valid_from_transaction_id s ∈ SchemaRow.valid_from_transaction_id <$> ss0) as Hin
    by by apply list_elem_of_fmap_2.
  rewrite Hfrom0 in Hin. apply list_elem_of_singleton in Hin as ->.
  intros (t & E%(inj as_bytes) & Ht)%list_elem_of_fmap. apply base_not_new. by rewrite E.
Qed.

Lemma log_from : NoDup (SchemaRow.valid_from_transaction_id <$> schemas d) -> schemas_scan d u <->
  forall s, s ∈ schemas d -> SchemaRow.table_uuid s = as_bytes u -> numbered (select_columns (SchemaRow.schema_uuid s) d).
Proof.
  intros Hn. split; [by intros []|]. intros Hnum. split; [|done | intros s _ _; by apply types_decode_in]. intros t. apply schemas_from_one.
  eapply sublist_NoDup; [exact Hn|]. apply fmap_sublist, filter_sublist.
Qed.

(** The old schemas are numbered still. *)
Section no_schemas.
Context (Hss : schemas d = ss0) (Hcs : columns d = cs0).

Lemma old_scan : schemas_scan d u.
Proof.
  apply log_from; [rewrite Hss, Hfrom0; apply NoDup_singleton|].
  intros s Hs _. unfold select_columns. rewrite Hss in Hs. rewrite Hcs. by apply (proj1 (Forall_forall _ _) Hnum0).
Qed.

Lemma old_schemas_of : schemas_of d u new = 0%N.
Proof.
  unfold schemas_of, select_schemas_from. rewrite (bind_filter_none SchemaRow.valid_from_transaction_id as_bytes);
    [done | exact new_nodup |]. intros s Hs. rewrite Hss in Hs. by apply old_from.
Qed.

Lemma old_not_wide : ~ too_wide d u new.
Proof.
  intros (t & s & Ht & (Hs & [_ E%bool_decide_eq_true_1]%andb_true_iff)%elem_of_filter' & _). rewrite Hss in Hs.
  apply (old_from s Hs). rewrite E. by apply list_elem_of_fmap_2.
Qed.

End no_schemas.

Lemma no_files : files d = [] -> added_by d u new = 0%N /\ removed_by d u new = 0%N /\ files_decode d u.
Proof.
  intros Hf. unfold added_by, removed_by, select_files_added, select_files_removed, files_decode. rewrite Hf.
  split_and!; [| |by intros r ?%not_elem_of_nil]; cbn [List.filter];
    (assert (forall ts : list Uuid, (ts ≫= fun _ => []) = ([] : list FileRow.t)) as Hnil by by induction ts; cbn);
    by rewrite Hnil.
Qed.

Lemma added_counts : files_only u ss0 cs0 adds new (schemas d) (columns d) (files d) ->
  added_by d u new = N.of_nat (length new) /\ removed_by d u new = 0%N /\ files_decode d u.
Proof.
  intros (_ & _ & Hlen & Hf). rewrite Forall_forall in Hf.
  unfold added_by, removed_by, select_files_added, select_files_removed. split_and!.
  - rewrite (bind_filter_all FileRow.added_in_transaction_id as_bytes); [by rewrite Hlen | exact new_nodup |].
    intros r (Hu & _ & Ha & _)%Hf. split; [by apply bool_decide_eq_true_2 | done].
  - rewrite (bind_filter_none FileRow.removed_in_transaction_id (fun t => Some (as_bytes t)));
      [done | exact new_nodup |].
    intros r (_ & _ & _ & ->)%Hf. by intros (t & ? & _)%list_elem_of_fmap.
  - intros r (_ & Hr & _)%Hf _. done.
Qed.

Lemma removed_counts : files_only u ss0 cs0 (removes base) new (schemas d) (columns d) (files d) ->
  added_by d u new = 0%N /\ removed_by d u new = N.of_nat (length new) /\ files_decode d u.
Proof.
  intros (_ & _ & Hlen & Hf). rewrite Forall_forall in Hf.
  unfold added_by, removed_by, select_files_added, select_files_removed. split_and!.
  - rewrite (bind_filter_none FileRow.added_in_transaction_id as_bytes); [done | exact new_nodup |].
    intros r (_ & _ & -> & _)%Hf. intros (t & E%(inj as_bytes) & Ht)%list_elem_of_fmap. apply base_not_new. by rewrite E.
  - rewrite (bind_filter_all FileRow.removed_in_transaction_id (fun t => Some (as_bytes t)));
      [by rewrite Hlen | exact new_nodup |].
    intros r (Hu & _ & _ & Hr)%Hf. split; [by apply bool_decide_eq_true_2 | done].
  - intros r (_ & Hr & _)%Hf _. done.
Qed.

(** The new schemas have no columns. *)
Lemma schema_counts : schemas_only u ss0 cs0 new (schemas d) (columns d) (files d) ->
  schemas_of d u new = N.of_nat (length new) /\ schemas_scan d u /\ ~ too_wide d u new.
Proof.
  intros (Hcs & _ & more & Hss & Hfrom & Hmore). rewrite Forall_forall in Hmore.
  pose proof (proj1 (Forall_forall _ _) Hcols0) as Hcol. pose proof (proj1 (Forall_forall _ _) Hnum0) as Hnum.
  assert (forall s, s ∈ more -> select_columns (SchemaRow.schema_uuid s) d = []) as Hnone.
  { intros s (_ & Hs)%Hmore. apply filter_all_false. intros c Hc. rewrite Hcs in Hc. apply bool_decide_eq_false_2.
    intros E. apply Hs. rewrite <- E. by apply Hcol. }
  assert (length more = length new) as Hlen by (by rewrite <- (length_fmap SchemaRow.valid_from_transaction_id more), Hfrom, length_fmap).
  split_and!.
  - unfold schemas_of, select_schemas_from. rewrite (bind_filter_length SchemaRow.valid_from_transaction_id as_bytes) by exact new_nodup.
    rewrite Hss, List.filter_app, (filter_all_false _ ss0), (filter_all_true _ more), app_nil_l; [by rewrite Hlen | |].
    + intros s Hs. apply andb_true_iff. split; apply bool_decide_eq_true_2; [by apply Hmore|].
      rewrite <- Hfrom. by apply list_elem_of_fmap_2.
    + intros s Hs%old_from. apply andb_false_iff. right. by apply bool_decide_eq_false_2.
  - apply log_from.
    + rewrite Hss, fmap_app, Hfrom0, Hfrom. change (NoDup (as_bytes <$> base :: new)). by apply NoDup_fmap_2; [apply _|].
    + intros s Hs _. rewrite Hss in Hs. apply elem_of_app in Hs as [Hs|Hs].
      * unfold select_columns. rewrite Hcs. by apply Hnum.
      * by rewrite Hnone.
  - intros (t & s & Ht & (Hs & [_ E%bool_decide_eq_true_1]%andb_true_iff)%elem_of_filter' & Hl). rewrite Hss in Hs.
    apply elem_of_app in Hs as [Hs|Hs].
    + apply (old_from s Hs). rewrite E. by apply list_elem_of_fmap_2.
    + rewrite Hnone in Hl by done. cbn in Hl. lia.
Qed.

End outcomes.
