(* ===== verification/LimitTests.v ===== *)
(** * The tests of the limits (src/catalog/mod.rs)

    The tests that fill the database with one to fifty thousand rows, translated
    in [CatalogTests], pass.  Their set-up is small and is computed; what their
    loops insert is [Seeding]'s; and what the calls then answer follows from the
    theory of the calls: the exact limits of [Events], [Views] and [Listing]. *)

From S2P Require Import Prelude Uuid Error Limits Json DataType Format Schema Models Db DbFacts World Helpers Catalog Api Effects ReadFacts Invariant RefEnv Scenario Safety Commit Order Views Listing Events Testing CatalogTests Seeding.

#[local] Existing Instances ref_env ref_ipc_laws ref_enumeration_laws.

(** ** The table the tests start from *)

Definition ident0 : TableIdent.t := TableIdent.mk "test_ns" "test_table".

Definition world0 : World :=
  match tests.create_sqlite_catalog_with_table start with Some (_, w) => w | None => start end.

Definition table0 : Uuid := v4 3.
Definition base0 : TxnId := v7 6.
Definition schema0 : Uuid := v4 8.

Definition row0 : TableRow.t :=
  default (TableRow.mk [] "" "" "" None None 0 None 0 0) (head (tables (db world0))).

Lemma set_up_runs : exists view,
  tests.create_sqlite_catalog_with_table start = Some ((ident0, view), world0) /\
  TableView.table_uuid view = table0 /\ TableView.transaction_id view = base0 /\
  Schema.schema_uuid (TableView.schema view) = schema0.
Proof.
  eexists. split; [vm_compute; reflexivity|].
  split_and!; apply (inj as_bytes); vm_compute; reflexivity.
Qed.

(** It is created and read by two calls. *)
Lemma world0_inv : catalog_inv (db world0).
Proof.
  pose (w1 := after (Sqlite.create_table ProtocolVersions.default ident0 "memory://test"
    (SchemaSpec.with_column SchemaSpec.new (ColumnSpec.new "id" Int64)) None) start).
  apply (step_inv Limits.Sqlite w1).
  - apply (step_inv Limits.Sqlite start); [exact empty_inv|].
    apply (step_call _ _ _ ProtocolVersions.default (CallCreate ident0 "memory://test"
      (SchemaSpec.with_column SchemaSpec.new (ColumnSpec.new "id" Int64)) None) (Ok tt)).
    vm_compute. reflexivity.
  - apply (step_call _ _ _ ProtocolVersions.default (CallRead ident0 None) (Ok tt)). vm_compute. reflexivity.
Qed.

Lemma world0_tables : tables (db world0) = [row0].
Proof. vm_compute. reflexivity. Qed.

Lemma row0_uuid : TableRow.table_uuid row0 = as_bytes table0.
Proof. vm_compute. reflexivity. Qed.

Lemma row0_name :
  TableRow.namespace row0 = TableIdent.namespace ident0 /\ TableRow.table_name row0 = TableIdent.name ident0.
Proof. vm_compute. done. Qed.

Lemma world0_chain : chain (db world0) (as_bytes table0) = [as_bytes base0].
Proof. vm_compute. reflexivity. Qed.

Lemma world0_tick : tick world0 = 19.
Proof. vm_compute. reflexivity. Qed.

Lemma world0_txns : txn_keys (db world0) = [as_bytes base0].
Proof. vm_compute. reflexivity. Qed.

Lemma world0_schemas : schema_keys (db world0) = [as_bytes schema0] /\
  (SchemaRow.valid_from_transaction_id <$> schemas (db world0)) = [as_bytes base0] /\
  (SchemaRow.table_uuid <$> schemas (db world0)) = [as_bytes table0].
Proof. vm_compute. done. Qed.

Lemma world0_columns : (ColumnRow.column_uuid <$> columns (db world0)) = [as_bytes (v4 10)] /\
  (ColumnRow.schema_uuid <$> columns (db world0)) = [as_bytes schema0].
Proof. vm_compute. done. Qed.

Lemma world0_types : Forall column_decodes (columns (db world0)).
Proof. apply columns_decode_all. vm_compute. reflexivity. Qed.

Lemma world0_files : files (db world0) = [].
Proof. vm_compute. reflexivity. Qed.

#[local] Opaque v4 v7 world0 row0.

Notation grown0 := (grown row0 table0 base0).
Notation seeded0 := (seeded table0 base0 ident0).

Lemma grown_start : grown0 [] world0.
Proof.
  pose proof world0_inv as Hinv. split.
  - apply Hinv.
  - apply Hinv.
  - exact world0_types.
  - exact world0_tables.
  - pose proof (inv_history _ Hinv) as Hh. rewrite world0_tables in Hh.
    apply Forall_singleton in Hh as (Hl & _). by rewrite row0_uuid in Hl.
  - exact world0_chain.
  - rewrite world0_txns, world0_tick. apply Forall_singleton. exists 6. split; [lia | done].
  - rewrite (proj1 world0_schemas), world0_tick. apply Forall_singleton. exists 8. split; [lia | done].
  - rewrite (proj1 world0_columns), world0_tick. apply Forall_singleton. exists 10. split; [lia | done].
  - rewrite world0_files. constructor.
Qed.

(** ** The scans *)

Notation ss0 := (schemas (db world0)).
Notation cs0 := (columns (db world0)).

Lemma old_columns : Forall (fun c => ColumnRow.schema_uuid c ∈ SchemaRow.schema_uuid <$> ss0) cs0.
Proof. exact (ok_column_fk _ (inv_db _ world0_inv)). Qed.

Lemma old_numbered : Forall (fun s =>
  numbered (List.filter (fun c => beq (ColumnRow.schema_uuid c) (SchemaRow.schema_uuid s)) cs0)) ss0.
Proof. eapply Forall_impl; [exact (inv_columns _ world0_inv)|]. by intros s [_ Hn]. Qed.

(** The loop of a test and the update of the head, on their own or in one
    transaction. *)
Lemma twp_seed_events J extra count in_tx Φ :
  turn_ok row0 table0 base0 J (extra table0 base0) -> J [] ss0 cs0 [] -> (0 < count < 2 ^ 40)%N ->
  (forall new last_ w, new <> [] -> N.of_nat (length new) = count -> last (base0 :: new) = Some last_ ->
     seeded0 new (db w) -> J new (schemas (db w)) (columns (db w)) (files (db w)) ->
     Φ (ident0, TxnRangeCursor.mk (Some base0) last_) w) ->
  twp (tests.seed_events extra count in_tx) Φ start.
Proof.
  intros Hextra HJ Hcount HΦ. unfold tests.seed_events. destruct set_up_runs as (view & Hrun & Ht & Hb & _).
  apply twp_bind, (twp_run _ _ _ _ _ Hrun). rewrite Ht, Hb. apply twp_bind, twp_ok.
  set (seed := tests.seed_transactions count table0 base0 (extra table0 base0) ≫= _).
  set (Ψ := fun (r : result CatalogError TxnId) w => match r with
    | Ok last_ => twp (mret (ident0, TxnRangeCursor.mk (Some base0) last_)) Φ w | Err _ => False end).
  assert (forall w, db w = db world0 -> tick world0 <= tick w <= 20 ->
    wp seed (fun r w' => match r with Ok _ => forall n, Ψ r (mk_world (db w') n) | Err _ => False end) w) as Hseed.
  { intros w Hd Hw. unfold seed. apply wp_bind.
    apply (wp_seed_transactions row0 table0 base0 row0_uuid J); [exact Hextra | | | lia |].
    - destruct w as [d n]. cbn in Hd, Hw. subst d. apply grown_later; [lia | exact grown_start].
    - by rewrite Hd, world0_files.
    - intros new last_ w1 Hlen Hl Hg HJ1. apply wp_bind.
      eapply (wp_seed_head row0 table0 base0 row0_uuid ident0 row0_name); [exact Hg | exact Hl |].
      intros w2 _ Hs Es Ec Ef. apply wp_ret. intros n. apply twp_ret. apply (HΦ new); cbn [db].
      + destruct new; [cbn in Hlen; lia | done].
      + lia.
      + exact Hl.
      + exact Hs.
      + by rewrite Es, Ec, Ef. }
  destruct in_tx.
  - apply wp_with_tx_ok; [exact ref_no_faults|]. eapply wp_mono.
    { apply Hseed; [done|]. cbn. rewrite world0_tick. lia. }
    intros [last_|e] w' Hr; [exact (Hr (S (tick w'))) | done].
  - eapply wp_mono.
    { apply Hseed; [done|]. rewrite world0_tick. lia. }
    intros [last_|e] [d n] Hr; [exact (Hr n) | done].
Qed.

(** A scan of the range succeeds with its events, or fails. *)
Lemma twp_scan_ok new last_ w Φ :
  seeded0 new (db w) -> new <> [] -> last (base0 :: new) = Some last_ ->
  (N.of_nat (length new) <= limits.MAX_TRANSACTIONS_PER_SCAN)%N ->
  files_decode (db w) table0 -> schemas_scan (db w) table0 ->
  (added_by (db w) table0 new <= limits.MAX_FILES_PER_QUERY)%N ->
  (removed_by (db w) table0 new <= limits.MAX_FILES_PER_QUERY)%N ->
  (schemas_of (db w) table0 new <= limits.MAX_SCHEMA_CHANGES_PER_SCAN)%N -> ~ too_wide (db w) table0 new ->
  (forall es w', Forall2 (event_ok (db w) table0) new es -> Φ es w') ->
  twp (ok (api_list_transaction_events (CatalogApi := tests.sqlite) ident0 (TxnRangeCursor.mk (Some base0) last_))) Φ w.
Proof.
  intros Hs Hne Hl Hlim Hf Hsc Ha Hr Hn Hw HΦ. apply twp_ok.
  eapply (wp_seed_events table0 base0 ident0 new w); [done..|]. intros r w' Ho. unfold scan_outcome in Ho. cbn in Ho.
  destruct r as [es|e]; [apply HΦ; by destruct Ho as (_ & _ & _ & _ & ?)|]. naive_solver lia.
Qed.

Lemma twp_scan_err new last_ w Φ :
  seeded0 new (db w) -> new <> [] -> last (base0 :: new) = Some last_ ->
  (N.of_nat (length new) <= limits.MAX_TRANSACTIONS_PER_SCAN)%N ->
  files_decode (db w) table0 -> schemas_scan (db w) table0 ->
  (forall r w', scan_outcome (db w) table0 (ScanCounts.mk 0 0 0) new r ->
     match r with Ok _ => False | Err e => Φ e w' end) ->
  twp (err (api_list_transaction_events (CatalogApi := tests.sqlite) ident0 (TxnRangeCursor.mk (Some base0) last_))) Φ w.
Proof.
  intros Hs Hne Hl Hlim Hf Hsc HΦ. apply twp_err.
  eapply (wp_seed_events table0 base0 ident0 new w); [done..|]. intros r w' Ho. by apply HΦ.
Qed.

(** The assertions on the error. *)
Lemma twp_limit e text w :
  LimitExceeded_matches e = true -> contains (err_to_string e) text = true ->
  twp (_ ← assert (LimitExceeded_matches e); assert (contains (err_to_string e) text)) (fun _ _ => True) w.
Proof. intros H1 H2. by apply twp_bind, twp_assert, twp_assert. Qed.

Lemma seeded_new new d : seeded0 new d -> NoDup (base0 :: new).
Proof. apply seeded_nodup. Qed.

Notation world0_from := (proj1 (proj2 world0_schemas)).

(** The loops that start no schema. *)
Lemma no_schema_counts new d : seeded0 new d -> schemas d = ss0 -> columns d = cs0 ->
  schemas_of d table0 new = 0%N /\ schemas_scan d table0 /\ ~ too_wide d table0 new.
Proof.
  intros Hs Hss Hcs. pose proof (seeded_new _ _ Hs) as Hn. split_and!.
  - exact (old_schemas_of d table0 base0 new Hn ss0 world0_from Hss).
  - exact (old_scan d table0 base0 ss0 cs0 world0_from old_numbered (sd_types _ _ _ _ _ Hs) Hss Hcs).
  - exact (old_not_wide d table0 base0 new Hn ss0 world0_from Hss).
Qed.

Lemma added_seeded new d : seeded0 new d -> files_only table0 ss0 cs0 adds new (schemas d) (columns d) (files d) ->
  added_by d table0 new = N.of_nat (length new) /\ removed_by d table0 new = 0%N /\ files_decode d table0 /\
  schemas_of d table0 new = 0%N /\ schemas_scan d table0 /\ ~ too_wide d table0 new.
Proof.
  intros Hs HJ. destruct (added_counts d table0 base0 new (seeded_new _ _ Hs) ss0 cs0 HJ) as (Ha & Hr & Hf).
  destruct HJ as (Hss & Hcs & _). destruct (no_schema_counts new d Hs Hss Hcs) as (? & ? & ?).
  split_and!; assumption.
Qed.

Lemma removed_seeded new d : seeded0 new d -> files_only table0 ss0 cs0 (removes base0) new (schemas d) (columns d) (files d) ->
  added_by d table0 new = 0%N /\ removed_by d table0 new = N.of_nat (length new) /\ files_decode d table0 /\
  schemas_of d table0 new = 0%N /\ schemas_scan d table0 /\ ~ too_wide d table0 new.
Proof.
  intros Hs HJ. destruct (removed_counts d table0 base0 new (seeded_new _ _ Hs) ss0 cs0 HJ) as (Ha & Hr & Hf).
  destruct HJ as (Hss & Hcs & _). destruct (no_schema_counts new d Hs Hss Hcs) as (? & ? & ?).
  split_and!; assumption.
Qed.

Lemma files_start P : files_only table0 ss0 cs0 P [] ss0 cs0 [].
Proof. by split_and!. Qed.

Lemma schemas_start : schemas_only table0 ss0 cs0 [] ss0 cs0 [].
Proof. split_and!; [done | done |]. exists []. by rewrite app_nil_r. Qed.

(** ** The tests of the event log *)

(** Arithmetic on the limits. *)
Ltac limits := unfold limits.MAX_FILES_PER_QUERY, limits.MAX_TRANSACTIONS_PER_SCAN,
  limits.MAX_SCHEMA_CHANGES_PER_SCAN, limits.MAX_COLUMNS_PER_SCHEMA, limits.MAX_TABLES_PER_LIST in *; cbn [length] in *; lia.

(** A count of a test, compared with a limit. *)
Lemma count_is n (m : N) : N.of_nat n = m -> (n =? N.to_nat m)%nat = true.
Proof. intros <-. rewrite Nat2N.id. apply Nat.eqb_refl. Qed.

Lemma added_overflow_passes : passes tests.list_transaction_events_rejects_added_file_overflow start = true.
Proof.
  apply twp_passes, twp_bind.
  apply (twp_seed_events (files_only table0 ss0 cs0 adds)); [apply added_turn, row0_uuid | apply files_start | limits |].
  intros new last_ w Hne Hlen Hl Hs HJ. destruct (added_seeded new _ Hs HJ) as (Ha & Hr & Hf & Hn & Hsc & Hw).
  apply twp_bind, (twp_scan_err new); [done..| limits | done | done |].
  intros r w' Ho. unfold scan_outcome in Ho. cbn in Ho. rewrite Ha, Hr, Hn, Hlen in Ho.
  destruct r as [es|e]; [limits|].
  assert (e = too_many_added) as -> by naive_solver limits. apply twp_limit; vm_compute; reflexivity.
Qed.

Lemma removed_overflow_passes : passes tests.list_transaction_events_rejects_removed_file_overflow start = true.
Proof.
  apply twp_passes, twp_bind.
  apply (twp_seed_events (files_only table0 ss0 cs0 (removes base0)));
    [apply removed_turn, row0_uuid | apply files_start | limits |].
  intros new last_ w Hne Hlen Hl Hs HJ. destruct (removed_seeded new _ Hs HJ) as (Ha & Hr & Hf & Hn & Hsc & Hw).
  apply twp_bind, (twp_scan_err new); [done..| limits | done | done |].
  intros r w' Ho. unfold scan_outcome in Ho. cbn in Ho. rewrite Ha, Hr, Hn, Hlen in Ho.
  destruct r as [es|e]; [limits|].
  assert (e = too_many_removed) as -> by naive_solver limits. apply twp_limit; vm_compute; reflexivity.
Qed.

Lemma added_exact_passes : passes tests.list_transaction_events_allows_exactly_max_added_file_events start = true.
Proof.
  apply twp_passes, twp_bind.
  apply (twp_seed_events (files_only table0 ss0 cs0 adds)); [apply added_turn, row0_uuid | apply files_start | limits |].
  intros new last_ w Hne Hlen Hl Hs HJ. destruct (added_seeded new _ Hs HJ) as (Ha & Hr & Hf & Hn & Hsc & Hw).
  apply twp_bind, (twp_scan_ok new); [done..| limits | done | done | limits | limits | limits | done |].
  intros es w' Hes. apply twp_assert; [|done]. apply count_is. by rewrite (count_changes_added _ _ _ _ Hes), Ha.
Qed.

Lemma removed_exact_passes : passes tests.list_transaction_events_allows_exactly_max_removed_file_events start = true.
Proof.
  apply twp_passes, twp_bind.
  apply (twp_seed_events (files_only table0 ss0 cs0 (removes base0)));
    [apply removed_turn, row0_uuid | apply files_start | limits |].
  intros new last_ w Hne Hlen Hl Hs HJ. destruct (removed_seeded new _ Hs HJ) as (Ha & Hr & Hf & Hn & Hsc & Hw).
  apply twp_bind, (twp_scan_ok new); [done..| limits | done | done | limits | limits | limits | done |].
  intros es w' Hes. apply twp_assert; [|done]. apply count_is. by rewrite (count_changes_removed _ _ _ _ Hes), Hr.
Qed.

Lemma max_scan_passes : passes tests.list_transaction_events_allows_exactly_max_transaction_scan start = true.
Proof.
  apply twp_passes, twp_bind.
  apply (twp_seed_events (nothing_else ss0 cs0)); [apply no_turn | done | limits |].
  intros new last_ w Hne Hlen Hl Hs (Hss & Hcs & Hfs).
  destruct (no_files (db w) table0 new Hfs) as (Ha & Hr & Hf).
  destruct (no_schema_counts new _ Hs Hss Hcs) as (Hn & Hsc & Hw).
  apply twp_bind, (twp_scan_ok new); [done..| limits | done | done | limits | limits | limits | done |].
  intros es w' Hes%Forall2_length. apply twp_assert; [|done]. apply count_is. by rewrite <- Hes.
Qed.

Lemma schema_seeded new d : seeded0 new d -> schemas_only table0 ss0 cs0 new (schemas d) (columns d) (files d) ->
  added_by d table0 new = 0%N /\ removed_by d table0 new = 0%N /\ files_decode d table0 /\
  schemas_of d table0 new = N.of_nat (length new) /\ schemas_scan d table0 /\ ~ too_wide d table0 new.
Proof.
  intros Hs HJ.
  destruct (schema_counts d table0 base0 new (seeded_new _ _ Hs) ss0 cs0 world0_from old_columns old_numbered (sd_types _ _ _ _ _ Hs) HJ) as (? & ? & ?).
  destruct HJ as (_ & Hfs & _). destruct (no_files d table0 new Hfs) as (? & ? & ?). split_and!; assumption.
Qed.

Lemma schema_overflow_passes : passes tests.list_transaction_events_rejects_schema_change_overflow start = true.
Proof.
  apply twp_passes, twp_bind.
  apply (twp_seed_events (schemas_only table0 ss0 cs0)); [apply started_turn, row0_uuid | apply schemas_start | limits |].
  intros new last_ w Hne Hlen Hl Hs HJ. destruct (schema_seeded new _ Hs HJ) as (Ha & Hr & Hf & Hn & Hsc & Hw).
  apply twp_bind, (twp_scan_err new); [done..| limits | done | done |].
  intros r w' Ho. unfold scan_outcome in Ho. cbn in Ho. rewrite Ha, Hr, Hn, Hlen in Ho.
  destruct r as [es|e]; [limits|].
  assert (e = too_many_schemas) as -> by naive_solver limits. apply twp_limit; vm_compute; reflexivity.
Qed.

Lemma schema_exact_passes : passes tests.list_transaction_events_allows_exactly_max_schema_change_events start = true.
Proof.
  apply twp_passes, twp_bind.
  apply (twp_seed_events (schemas_only table0 ss0 cs0)); [apply started_turn, row0_uuid | apply schemas_start | limits |].
  intros new last_ w Hne Hlen Hl Hs HJ. destruct (schema_seeded new _ Hs HJ) as (Ha & Hr & Hf & Hn & Hsc & Hw).
  apply twp_bind, (twp_scan_ok new); [done..| limits | done | done | limits | limits | limits | done |].
  intros es w' Hes. apply twp_assert; [|done]. apply count_is. by rewrite (count_schema_changes _ _ _ _ Hes), Hn.
Qed.

(** ** A schema with many columns *)

Lemma int64_decodes : exists ty, encode_data_type ty = Ok (schema_to_fb (placeholder Int64)) /\
  decode_data_type (schema_to_fb (placeholder Int64)) = Ok ty.
Proof. exists Int64. split; [done | by apply decode_encode]. Qed.

Lemma ordinals_numbered rows n :
  ColumnRow.ordinal_position <$> rows = (fun i => tests.as_i32 (i + 1)) <$> seq 0 n -> numbered rows.
Proof.
  intros Ho. pose proof (f_equal length Ho) as Hlen. rewrite !length_fmap, length_seq in Hlen.
  unfold numbered. rewrite Ho, Hlen, <- fmap_S_seq, <- list_fmap_compose. apply list_fmap_ext. intros i x _. cbn.
  unfold tests.as_i32. by rewrite Nat.add_1_r.
Qed.

(** The database after the helper of those tests: the transaction [t], which
    starts the schema [s] of the columns [rows]. *)
Record widened (t : TxnId) (s : SchemaRow.t) (rows : list ColumnRow.t) (d : Db) : Prop := {
  wd_seeded : seeded0 [t] d;
  wd_schemas : schemas d = ss0 ++ [s];
  wd_columns : columns d = cs0 ++ rows;
  wd_files : files d = [];
  wd_table : SchemaRow.table_uuid s = as_bytes table0;
  wd_from : SchemaRow.valid_from_transaction_id s = as_bytes t;
  wd_new : SchemaRow.schema_uuid s ∉ SchemaRow.schema_uuid <$> ss0;
  wd_rows : Forall (fun r => ColumnRow.schema_uuid r = SchemaRow.schema_uuid s) rows;
  wd_numbered : numbered rows
}.

Section widened.
Context (t : TxnId) (s : SchemaRow.t) (rows : list ColumnRow.t) (d : Db) (Hd : widened t s rows d).

Lemma widened_nodup : NoDup [base0; t].
Proof. exact (seeded_new _ _ (wd_seeded _ _ _ _ Hd)). Qed.

Lemma widened_columns : select_columns (SchemaRow.schema_uuid s) d = rows.
Proof.
  pose proof (wd_rows _ _ _ _ Hd) as Hrows. rewrite Forall_forall in Hrows.
  unfold select_columns. rewrite (wd_columns _ _ _ _ Hd), List.filter_app, (filter_all_false _ cs0), (filter_all_true _ rows);
    [done | |].
  - intros r Hr. apply bool_decide_eq_true_2. by apply Hrows.
  - intros c Hc. apply bool_decide_eq_false_2. intros E. apply (wd_new _ _ _ _ Hd). rewrite <- E.
    pose proof old_columns as Hold. rewrite Forall_forall in Hold. by apply Hold.
Qed.

Lemma widened_from : select_schemas_from (as_bytes table0) (as_bytes t) d = [s].
Proof.
  unfold select_schemas_from. rewrite (wd_schemas _ _ _ _ Hd), List.filter_app, (filter_all_false _ ss0);
    [|intros s' Hs'; apply andb_false_iff; right; apply bool_decide_eq_false_2; intros E].
  - cbn [List.filter app]. by rewrite (wd_table _ _ _ _ Hd), (wd_from _ _ _ _ Hd), !beq_refl.
  - apply (old_from base0 [t] widened_nodup ss0 world0_from s' Hs'). rewrite E. left.
Qed.

Lemma widened_scan : schemas_scan d table0.
Proof.
  apply log_from; [apply (wd_seeded _ _ _ _ Hd) | |].
  - rewrite (wd_schemas _ _ _ _ Hd), fmap_app, world0_from. cbn. rewrite (wd_from _ _ _ _ Hd).
    exact (NoDup_fmap_2 as_bytes _ widened_nodup).
  - intros s' Hs' _. rewrite (wd_schemas _ _ _ _ Hd) in Hs'.
    apply elem_of_app in Hs' as [Hs'| ->%list_elem_of_singleton].
    2: { rewrite widened_columns. apply Hd. }
    unfold select_columns. rewrite (wd_columns _ _ _ _ Hd), List.filter_app, (filter_all_false _ rows), app_nil_r.
    + pose proof old_numbered as Hold. rewrite Forall_forall in Hold. by apply Hold.
    + pose proof (wd_rows _ _ _ _ Hd) as Hrows. rewrite Forall_forall in Hrows.
      intros r Hr. apply bool_decide_eq_false_2. rewrite (Hrows r Hr). intros E.
      apply (wd_new _ _ _ _ Hd). rewrite E. by apply list_elem_of_fmap_2.
Qed.

Lemma widened_counts :
  added_by d table0 [t] = 0%N /\ removed_by d table0 [t] = 0%N /\ files_decode d table0 /\
  schemas_of d table0 [t] = 1%N /\
  (too_wide d table0 [t] <-> (limits.MAX_COLUMNS_PER_SCHEMA < N.of_nat (length rows))%N).
Proof.
  destruct (no_files d table0 [t] (wd_files _ _ _ _ Hd)) as (? & ? & ?). split_and!; [assumption..| |].
  - unfold schemas_of. by rewrite bind_cons, widened_from.
  - rewrite (too_wide_one d table0 t s widened_from). by rewrite widened_columns.
Qed.

End widened.

Lemma twp_widen view count Φ :
  TableView.table_uuid view = table0 -> TableView.transaction_id view = base0 -> (count < 2 ^ 40)%N ->
  (forall t s rows w, widened t s rows (db w) -> N.of_nat (length rows) = count -> Φ t w) ->
  twp (ok (tests.seed_single_schema_change_with_columns_sqlite view 2 count)) Φ world0.
Proof.
  intros Ht Hb Hcount HΦ. apply twp_ok. unfold tests.seed_single_schema_change_with_columns_sqlite. rewrite Ht, Hb.
  pose proof (gr_txns _ _ _ _ _ grown_start) as Ht0. pose proof (gr_schemas _ _ _ _ _ grown_start) as Hs0.
  apply wp_bind, wp_next_transaction_id, wp_bind, wp_new_v4, wp_with_tx_ok; [exact ref_no_faults|].
  cbn [gen_v4 gen_v7 env_outside ref_env ref_outside].
  unfold bump. cbn [db tick]. rewrite world0_tick in *. set (t := v7 19).
  apply wp_bind, (wp_seed_transaction row0 table0 base0 row0_uuid [] _ _ 19);
    [apply grown_later; [rewrite world0_tick; lia | exact grown_start] | cbn; lia | apply fresh_v7; [done | exact Ht0] | done |].
  intros w1 Ht1 Hg1 Es1 Ec1 Ef1. cbn [db tick] in Ht1, Es1, Ec1, Ef1.
  apply wp_bind, (wp_seed_schema row0 table0 base0 row0_uuid _ _ 20 _ t _ Hg1); [lia | | right; left |].
  { rewrite Es1. apply fresh_v4; [done|]. by eapply drawn_later; [|exact Hs0]; lia. }
  intros w2 s Ht2 Hg2 Es2 Ec2 Ef2 Hsu Hst Hsf. apply wp_bind, wp_lift. cbn [encode_data_type].
  apply wp_bind, (wp_seed_columns row0 table0 base0 [t] count _ _ _ _ _ Hg2); [lia | | | exact int64_decodes |].
  { rewrite Es2, fmap_app. apply elem_of_app. right. cbn. rewrite Hsu. left. }
  { apply filter_all_false. intros c Hc. rewrite Ec2, Ec1 in Hc. apply bool_decide_eq_false_2. intros E.
    pose proof old_columns as Hold. rewrite Forall_forall in Hold. specialize (Hold c Hc). rewrite E in Hold.
    revert Hold. apply fresh_v4; [done|]. by eapply drawn_later; [|exact Hs0]; lia. }
  intros w3 rows Hg3 _ Ed3 Hrows Hnames Hords. apply wp_bind.
  eapply wp_execute__ok; [exact ref_no_faults | done |]. rewrite (gr_tables _ _ _ _ _ Hg3). cbn. rewrite row0_uuid, beq_refl.
  apply (HΦ t s rows); cbn.
  2: { pose proof (f_equal length Hnames) as Hlen. rewrite !length_fmap, length_seq in Hlen. lia. }
  split; cbn.
  - eapply (grown_seeded row0 table0 base0 row0_uuid ident0 row0_name [t] w3 t); [exact Hg3 | done | by rewrite row0_uuid | done | done | done |].
    cbn. apply as_bytes_uuid.
  - rewrite Ed3. cbn. by rewrite Es2, Es1.
  - rewrite Ed3. cbn. by rewrite Ec2, Ec1.
  - rewrite Ed3. cbn. by rewrite Ef2, Ef1, world0_files.
  - exact Hst.
  - exact Hsf.
  - rewrite Hsu. apply fresh_v4; [done|]. by eapply drawn_later; [|exact Hs0]; lia.
  - by rewrite Hsu.
  - by eapply ordinals_numbered.
Qed.

Lemma columns_exact_passes : passes tests.list_transaction_events_allows_exactly_max_schema_change_columns start = true.
Proof.
  destruct set_up_runs as (view & Hrun & Ht & Hb & _). apply twp_passes, twp_bind, (twp_run _ _ _ _ _ Hrun).
  apply twp_bind, twp_widen; [done | done | limits |]. intros t s rows w Hd Hlen. rewrite Hb.
  destruct (widened_counts t s rows _ Hd) as (Ha & Hr & Hf & Hn & Hw).
  apply twp_bind, (twp_scan_ok [t]); [apply Hd | done | done | limits | done | by eapply widened_scan | limits | limits | limits | |].
  { rewrite Hw. limits. }
  intros es w' Hes. apply Forall2_cons_inv_l in Hes as (e & es' & He & Hnil & ->). apply Forall2_nil_inv_l in Hnil as ->.
  destruct He as (_ & _ & Hs). rewrite (widened_from t s rows _ Hd) in Hs.
  destruct (TxnEvent.schema_change e) as [c|] eqn:Ec; [|destruct Hs].
  apply twp_bind, (twp_some _ c); [cbn; by rewrite Ec|]. apply twp_assert; [|done]. apply count_is.
  destruct Hs as (_ & _ & _ & _ & _ & _ & _ & Hcols%traverse_length). rewrite Hcols.
  by rewrite (widened_columns t s rows _ Hd).
Qed.

Lemma columns_overflow_passes :
  passes tests.list_transaction_events_rejects_schema_change_column_overflow start = true.
Proof.
  destruct set_up_runs as (view & Hrun & Ht & Hb & _). apply twp_passes, twp_bind, (twp_run _ _ _ _ _ Hrun).
  apply twp_bind, twp_widen; [done | done | limits |]. intros t s rows w Hd Hlen. rewrite Hb.
  destruct (widened_counts t s rows _ Hd) as (Ha & Hr & Hf & Hn & Hw).
  apply twp_bind, (twp_scan_err [t]); [apply Hd | done | done | limits | done | by eapply widened_scan |].
  intros r w' Ho. unfold scan_outcome in Ho. cbn in Ho. rewrite Ha, Hr, Hn in Ho.
  destruct r as [es|e].
  { destruct Ho as (_ & _ & _ & Hno & _). apply Hno, Hw. limits. }
  destruct Ho as [[_ ?]|[[_ ?]|[[_ ?]|[-> _]]]]; [limits..|]. apply twp_limit; vm_compute; reflexivity.
Qed.

(** ** Listing *)

(** Digits only: no decimal number is the word of the overflowing name. *)
Fixpoint digits (s : string) : bool :=
  match s with String a s => in_range 48 57 (byte_of a) && digits s | EmptyString => true end.

Lemma pretty_go_digits n s : digits s = true -> digits (pretty_N_go n s) = true.
Proof.
  revert s; induction (N.lt_wf_0 n) as [n _ IH]; intros s Hs. destruct (decide (0 < n)%N) as [Hn|Hn].
  - rewrite pretty_N_go_step by done. apply IH; [by apply N.div_lt|]. cbn. rewrite Hs, andb_true_r.
    unfold pretty_N_char. by repeat case_match.
  - assert (n = 0%N) as -> by lia. by rewrite pretty_N_go_0.
Qed.

Lemma pretty_digits (i : nat) : digits (pretty i) = true.
Proof.
  unfold pretty, pretty_nat, pretty, pretty_N. case_decide; [done|]. by apply pretty_go_digits.
Qed.

(** The tables of the loop: one for each number below [n], all in one namespace. *)
Record listed (n : nat) (w : World) : Prop := {
  li_db : db_ok (db w);
  li_names : table_names (db w) = (fun i => ("ns", "table_" +:+ pretty i)) <$> seq 0 n;
  li_keys : drawn v4 (tick w) (table_keys (db w))
}.

Lemma wp_seed_table n w name Φ :
  listed n w -> early (tick w) -> ("ns", name) ∉ table_names (db w) ->
  (forall w' r, tick w' = tick w + 3 -> db_ok (db w') -> drawn v4 (tick w') (table_keys (db w')) ->
     tables (db w') = tables (db w) ++ [r] -> TableRow.namespace r = "ns" -> TableRow.table_name r = name ->
     Φ (Ok tt) w') ->
  wp (tests.sql_insert_table name) Φ w.
Proof.
  intros Hl He Hn HΦ. unfold tests.sql_insert_table. apply wp_bind, wp_new_v4, wp_bind, wp_utc_now.
  cbn [gen_v4 env_outside ref_env ref_outside]. set (r := TableRow.mk _ _ _ _ _ _ _ _ _ _).
  assert (insert_table r (db w) = Ok (mk_db (tables (db w) ++ [r]) (transactions (db w)) (schemas (db w))
    (columns (db w)) (files (db w)) (table_stats (db w)))) as Hins.
  { apply insert_table_ok. cbn. split_and!; [apply fresh_v4; [done | apply Hl] | done | done]. }
  eapply wp_execute__ok; [exact ref_no_faults | exact Hins |]. apply (HΦ _ r); cbn; [lia | | |done..].
  - exact (insert_table_db_ok _ _ _ Hins (li_db _ _ Hl)).
  - rewrite fmap_app. apply drawn_snoc; [lia|]. eapply drawn_later; [|exact (li_keys _ _ Hl)]. lia.
Qed.

Lemma listed_bump n w : listed n w -> listed n (bump w).
Proof. intros []. split; [done | done |]. eapply drawn_later; [|eassumption]. cbn. lia. Qed.

(** How many tables the namespace has. *)
Lemma listed_length n w : listed n w -> length (idents_in (Some "ns") (db w)) = n.
Proof.
  intros Hl. unfold idents_in. rewrite length_fmap, filter_all_true.
  - rewrite <- (length_fmap (fun r => (TableRow.namespace r, TableRow.table_name r))). rewrite (li_names _ _ Hl).
    by rewrite length_fmap, length_seq.
  - intros r Hr. apply bool_decide_eq_true_2.
    assert ((TableRow.namespace r, TableRow.table_name r) ∈ table_names (db w)) as Hin
      by by apply (list_elem_of_fmap_2 (fun r => (TableRow.namespace r, TableRow.table_name r))).
    rewrite (li_names _ _ Hl) in Hin. by apply list_elem_of_fmap in Hin as (i & [= ? _] & _).
Qed.

Lemma wp_seed_listed count w Φ :
  listed 0 w -> (N.of_nat (tick w) + 3 * count < 2 ^ 60)%N ->
  (forall w', listed (N.to_nat count) w' -> tick w' <= tick w + 3 * N.to_nat count -> Φ (Ok tt) w') ->
  wp (for_each (seq 0 (N.to_nat count)) (fun i => tests.sql_insert_table ("table_" +:+ pretty i))) Φ w.
Proof.
  intros Hl Hlim HΦ. apply (wp_for_each _ _ (fun l w' => exists n, seq 0 (N.to_nat count) = seq 0 n ++ l /\
    listed n w' /\ tick w' <= tick w + 3 * n)).
  - exists 0. split_and!; [done | done | lia].
  - intros i l w1 (n & Hseq & Hl1 & Ht1).
    destruct (seq_next _ _ _ _ Hseq) as [-> Hlen].
    apply (wp_seed_table n); [done | unfold early; lia | |].
    + rewrite (li_names _ _ Hl1). intros (j & [= E] & Hj%elem_of_seq)%list_elem_of_fmap.
      apply (inj (String.append "")), (inj pretty) in E. lia.
    + intros w2 r Ht2 Hok Hd Htab Hns Hnm. exists (S n).
      split_and!; [by rewrite seq_S, <- app_assoc | | lia]. split; [done | | done].
      rewrite Htab, seq_S, !fmap_app, (li_names _ _ Hl1). cbn [fmap list_fmap Nat.add]. by rewrite Hns, Hnm.
  - intros w1 (n & ->%seq_end & Hl1 & Ht1). by apply HΦ.
Qed.

(** What a listing of the namespace answers, given the number of its tables. *)
Lemma wp_list_ns n w Φ :
  length (idents_in (Some "ns") (db w)) = n ->
  (forall l, length l = n -> Φ (if (limits.MAX_TABLES_PER_LIST <? N.of_nat n)%N
     then Err (LimitExceeded ("table count exceeds limit of " +:+ pretty limits.MAX_TABLES_PER_LIST)) else Ok l)
     (bump w)) ->
  wp (list_tables (Some "ns")) Φ w.
Proof.
  intros Hn HΦ. destruct (list_tables_runs ref_no_faults (Some "ns") w) as (l & Hl & E).
  apply wp_run. eexists _, _. split; [exact E|]. pose proof (Permutation_length Hl) as Hlen. rewrite Hn in Hlen.
  rewrite Hlen. by apply HΦ.
Qed.

Lemma start_listed : listed 0 start.
Proof. split; [exact empty_db_ok | done | constructor]. Qed.

Lemma list_tables_passes : passes tests.list_tables_allows_exactly_max_then_rejects_overflow start = true.
Proof.
  apply twp_passes, twp_bind, twp_ok, (wp_seed_listed limits.MAX_TABLES_PER_LIST); [exact start_listed | cbn; limits |].
  intros w Hl Ht. apply twp_bind, twp_ok. eapply wp_list_ns; [by apply listed_length|].
  intros l Hlen. rewrite N2Nat.id, N.ltb_irrefl. apply twp_bind, twp_assert; [apply Nat.eqb_eq; exact Hlen|].
  apply twp_bind, twp_ok, (wp_seed_table (N.to_nat limits.MAX_TABLES_PER_LIST)); [by apply listed_bump | | |].
  - unfold early. cbn in *. limits.
  - cbn [db bump]. rewrite (li_names _ _ Hl). intros (i & [= E] & _)%list_elem_of_fmap.
    change ("overflow" = pretty i) in E. pose proof (pretty_digits i) as Hdig. by rewrite <- E in Hdig.
  - cbn [db bump]. intros w' r _ _ _ Htab Hns _. apply twp_bind, twp_err.
    eapply (wp_list_ns (S (N.to_nat limits.MAX_TABLES_PER_LIST))).
    + unfold idents_in. rewrite Htab, List.filter_app, fmap_app, length_app.
      change (length (idents_in (Some "ns") (db w)) + length (ident_of <$> List.filter (in_namespace (Some "ns")) [r])
        = S (N.to_nat limits.MAX_TABLES_PER_LIST)).
      assert (List.filter (in_namespace (Some "ns")) [r] = [r]) as -> by (cbn; by rewrite Hns).
      rewrite (listed_length _ _ Hl). cbn [fmap list_fmap length]. lia.
    + intros l' _. rewrite (proj2 (N.ltb_lt _ _)) by lia. apply twp_limit; vm_compute; reflexivity.
Qed.

(** ** Reading a schema at its limit *)

Definition srow0 : SchemaRow.t := default (SchemaRow.mk [] [] 0 [] None 0) (head ss0).

(** The set-up with other columns. *)
Definition columned (rows : list ColumnRow.t) : Db :=
  mk_db (tables (db world0)) (transactions (db world0)) ss0 rows (files (db world0)) (table_stats (db world0)).

Lemma srow0_only : ss0 = [srow0] /\ SchemaRow.schema_uuid srow0 = as_bytes schema0 /\
  select_schemas_at (as_bytes table0) (as_bytes base0) (db world0) = [srow0].
Proof. vm_compute. done. Qed.

Lemma row0_read : TableRow.min_reader_version row0 = ProtocolVersions.reader ProtocolVersions.default /\
  TableRow.current_transaction_id row0 = Some (as_bytes base0) /\
  parse_table_properties (TableRow.properties row0) = Ok TableProperties.new.
Proof. vm_compute. done. Qed.

#[local] Opaque srow0.

Lemma columned_empty n : tick world0 <= n -> grown0 [] (mk_world (columned []) n).
Proof.
  intros Hn. destruct (grown_later _ _ _ _ _ n Hn grown_start) as [Hok Hdec _ Ht Hl Hc Hx Hs _ Hf].
  split; [| |constructor | exact Ht | exact Hl | exact Hc | exact Hx | exact Hs | constructor | exact Hf].
  - destruct Hok as [H1 H2 H3 H4 _ _ H7 H8 H9 _ H11].
    split; [exact H1 | exact H2 | exact H3 | exact H4 | constructor | constructor | exact H7 | exact H8 | exact H9 |
      constructor | exact H11].
  - destruct Hdec as [H1 H2 H3 _ H5]. split; [exact H1 | exact H2 | exact H3 | constructor | exact H5].
Qed.

Section columned.
Context (rows : list ColumnRow.t) (n : nat) (Hg : grown0 [] (mk_world (columned rows) n)).
Context (Hrows : Forall (fun r => ColumnRow.schema_uuid r = as_bytes schema0) rows) (Hnum : numbered rows) (Hne : rows <> []).

Lemma columned_select : select_columns (SchemaRow.schema_uuid srow0) (columned rows) = rows.
Proof.
  rewrite (proj1 (proj2 srow0_only)). apply filter_all_true. intros r Hr. apply bool_decide_eq_true_2.
  pose proof (proj1 (Forall_forall _ _) Hrows) as H. by apply H.
Qed.

Lemma columned_inv : catalog_inv (columned rows).
Proof.
  destruct world0_inv as [_ _ Hh Hs Hf _ Hst]. split.
  - exact (gr_db _ _ _ _ _ Hg).
  - exact (gr_rows _ _ _ _ _ Hg).
  - exact Hh.
  - exact Hs.
  - exact Hf.
  - change (schemas (columned rows)) with ss0. rewrite (proj1 srow0_only). apply Forall_singleton. rewrite columned_select.
    by split.
  - exact Hst.
Qed.

Lemma columned_types : types_decode (columned rows) (SchemaRow.schema_uuid srow0).
Proof. apply types_decode_in. exact (gr_types _ _ _ _ _ Hg). Qed.

Lemma columned_row : table_row_of (columned rows) ident0 = Some row0.
Proof.
  destruct row0_name as [En Em]. apply table_row_of_in; [exact (gr_db _ _ _ _ _ Hg)|].
  apply select_table_in. cbn. rewrite world0_tables. split_and!; [left | exact En | exact Em].
Qed.

Lemma columned_chain : as_bytes base0 ∈ chain (columned rows) (as_bytes table0).
Proof. change (chain (columned rows) (as_bytes table0)) with (chain (db world0) (as_bytes table0)). rewrite world0_chain. left. Qed.

(** What a read answers. *)
Lemma columned_read :
  (length rows <= 1000 -> exists v w', read_table ProtocolVersions.default ident0 None (mk_world (columned rows) n) = Some (Ok v, w') /\
     length (Schema.columns (TableView.schema v)) = length rows /\ db w' = columned rows) /\
  (1000 < length rows -> exists w', read_table ProtocolVersions.default ident0 None (mk_world (columned rows) n)
     = Some (Err too_many_read_columns, w')).
Proof.
  destruct row0_read as (Hproto & Hcur & Hprops).
  assert (TableRow.min_reader_version row0 <= ProtocolVersions.reader ProtocolVersions.default)%Z as Hle by (rewrite Hproto; lia).
  assert (select_schemas_at (as_bytes table0) (as_bytes base0) (columned rows) = [srow0]) as Hsel by exact (proj2 (proj2 srow0_only)).
  assert (select_files_at (as_bytes table0) (as_bytes base0) (columned rows) = []) as Hfs.
  { unfold select_files_at. change (files (columned rows)) with (files (db world0)). by rewrite world0_files. }
  split; intros Hl.
  - destruct (read_table_ok ProtocolVersions.default ident0 (mk_world (columned rows) n) row0 table0 base0 None
      TableProperties.new [] srow0 columned_inv ref_no_faults columned_row row0_uuid Hle Hprops columned_chain
      (or_intror (conj eq_refl Hcur)) Hsel columned_types) as (v & w' & E & Ed & _ & _ & _ & _ & _ & _ & Hv).
    + cbn [db]. by rewrite columned_select.
    + cbn [db]. rewrite Hfs. done.
    + cbn [db]. by rewrite Hfs.
    + exists v, w'. split_and!; [exact E | | exact Ed]. destruct Hv as (_ & _ & _ & _ & _ & _ & Hc%traverse_length).
      rewrite Hc. cbn [db]. by rewrite columned_select.
  - destruct (read_table_too_wide ProtocolVersions.default ident0 (mk_world (columned rows) n) row0 table0 base0 None
      TableProperties.new srow0 columned_inv ref_no_faults columned_row row0_uuid Hle Hprops columned_chain
      (or_intror (conj eq_refl Hcur)) Hsel columned_types) as (w' & E & _).
    + cbn [db]. by rewrite columned_select.
    + by exists w'.
Qed.

End columned.

(** *** The ticks a read takes *)

(** Run on [d], [m] takes at most [k] ticks. *)
Definition within {A} (d : Db) (k : nat) (m : M A) : Prop :=
  forall n r w', m (mk_world d n) = Some (r, w') -> db w' = d /\ n <= tick w' <= n + k.

Lemma within_lift {A} d k (r : result CatalogError A) : within d k (lift r).
Proof. intros n r' w' [= _ <-]. split; [done | cbn; lia]. Qed.

Lemma within_ret {A} d k (a : A) : within d k (mret a : M A).
Proof. exact (within_lift d k (Ok a)). Qed.

Lemma within_fetch {A} d (q : Db -> A) : within d 1 (fetch q).
Proof. intros n r w' [= _ <-]. split; [done | cbn; lia]. Qed.

Lemma within_bind {A B} d j k (m : M A) (f : A -> M B) :
  within d j m -> (forall a, within d k (f a)) -> within d (j + k) (m ≫= f).
Proof.
  intros Hm Hf n r w'. unfold mbind, M_bind. destruct (m (mk_world d n)) as [[[a|e] w1]|] eqn:E; [| |done].
  - apply Hm in E as [Ed Ht]. destruct w1 as [d1 n1]. cbn in Ed, Ht. subst d1. intros E2.
    apply Hf in E2 as [Ed2 Ht2]. split; [done | lia].
  - apply Hm in E as [Ed Ht]. intros [= _ <-]. split; [done | lia].
Qed.

Lemma within_history d fuel u eff cur visited : within d fuel (find_in_history fuel u eff cur visited).
Proof.
  revert cur visited; induction fuel as [|fuel IH]; intros cur visited; cbn [find_in_history]; [done|].
  case_bool_decide; [apply within_lift|]. case_bool_decide; [apply within_ret|].
  apply (within_bind d 1 fuel); [apply within_fetch|]. intros o. apply (within_bind d 0 fuel); [apply within_lift|]. intros r.
  apply (within_bind d 0 fuel); [apply within_lift|]. intros [p|]; [apply IH | apply within_ret].
Qed.

Lemma within_then {A B} d k (r : result CatalogError A) (f : A -> M B) :
  (forall a, within d k (f a)) -> within d k (lift r ≫= f).
Proof. apply (within_bind d 0 k), within_lift. Qed.

Lemma within_check d u eff cur : within d (2 + length (transactions d)) (check_history u eff cur).
Proof.
  unfold check_history. case_bool_decide; [apply within_ret|]. intros n r w' E. rewrite <- (Nat.add_0_r (2 + _)).
  refine (within_bind d _ 0 _ _ (within_history d _ u eff cur ∅) _ n r w' E). intros a. apply within_lift.
Qed.

Lemma within_read client ident at_ d : within d (8 + length (transactions d)) (read_table client ident at_).
Proof.
  unfold read_table, fetch_table. replace (8 + _) with (1 + 0 + (2 + length (transactions d) + (2 + (1 + (1 + 1))))) by lia.
  apply within_bind; [apply within_bind; [apply within_fetch | intros; apply within_lift]|]. intros row.
  do 6 (apply within_then; intros ?). apply within_bind; [apply within_check|]. intros _.
  apply within_bind.
  { unfold read_schema. apply (within_bind d 1 1); [apply within_fetch|]. intros o. do 2 (apply within_then; intros ?).
    apply (within_bind d 1 0); [|intros; apply within_lift]. unfold fetch_columns.
    apply (within_bind d 1 0); [apply within_fetch|]. intros rows. apply within_then. intros _. apply within_lift. }
  intros schema. apply within_bind.
  { unfold read_files. apply (within_bind d 1 0); [apply within_fetch|]. intros rows. apply within_then. intros _. apply within_lift. }
  intros files. apply within_bind; [|intros; apply within_ret].
  unfold read_stats. apply (within_bind d 1 0); [apply within_fetch|]. intros [row'|]; [apply within_lift | apply within_ret].
Qed.

Lemma columned_transactions rows : length (transactions (columned rows)) = 1.
Proof.
  change (transactions (columned rows)) with (transactions (db world0)).
  by rewrite <- (length_fmap TransactionRow.transaction_id), world0_txns.
Qed.

(** The set-up of the test: the table's columns are deleted. *)
Lemma wp_delete_columns Φ :
  Φ (Ok tt) (mk_world (columned []) 20) -> wp (tests.sql_delete_columns schema0) Φ world0.
Proof.
  intros HΦ. unfold tests.sql_delete_columns. eapply wp_execute__ok; [exact ref_no_faults | done |].
  rewrite (filter_all_false _ cs0); [by rewrite world0_tick|]. intros c Hc.
  assert (ColumnRow.schema_uuid c ∈ ColumnRow.schema_uuid <$> cs0) as Hin by by apply list_elem_of_fmap_2.
  rewrite (proj2 world0_columns) in Hin. apply list_elem_of_singleton in Hin.
  by apply negb_false_iff, bool_decide_eq_true_2.
Qed.

(** Two reads, at the limit and beyond. *)
Lemma columned_names rows n count name :
  ColumnRow.column_name <$> rows = (fun i => "col_" +:+ pretty i) <$> seq 0 count -> digits name = false ->
  (as_bytes schema0, "col_" +:+ name) ∉ column_names (db (mk_world (columned rows) n)).
Proof.
  intros Hnames Hname (r & [= _ E] & Hr)%list_elem_of_fmap.
  assert ("col_" +:+ name ∈ ColumnRow.column_name <$> rows) as Hin by (rewrite E; by apply list_elem_of_fmap_2).
  rewrite Hnames in Hin. apply list_elem_of_fmap in Hin as (i & Ei & _).
  apply (inj (String.append "col_")) in Ei. pose proof (pretty_digits i) as Hdig. rewrite <- Ei, Hname in Hdig. done.
Qed.

Lemma read_table_passes : passes tests.read_table_allows_exactly_max_columns_then_rejects_overflow start = true.
Proof.
  destruct set_up_runs as (view & Hrun & _ & _ & Hs). apply twp_passes, twp_bind, (twp_run _ _ _ _ _ Hrun). rewrite Hs.
  apply twp_bind, twp_ok, wp_delete_columns, twp_bind, twp_ok, wp_lift, twp_bind, twp_ok. cbn [encode_data_type].
  set (count := limits.MAX_COLUMNS_PER_SCHEMA). assert (N.to_nat count = 1000) as Hcount by (unfold count; limits).
  apply (wp_seed_columns row0 table0 base0 [] count schema0); [| unfold count; cbn [tick]; limits | | done | exact int64_decodes |].
  { apply columned_empty. rewrite world0_tick. lia. }
  { cbn [db schemas columned]. rewrite (proj1 world0_schemas). left. }
  intros [d n] rows Hg Ht Hd Hrows Hnames Hords. cbn [db tick] in Hd, Ht.
  assert (d = columned rows) as -> by exact Hd. clear Hd.
  assert (length rows = N.to_nat count) as Hlen by (by rewrite <- (length_fmap ColumnRow.column_name), Hnames, length_fmap, length_seq).
  assert (rows <> []) as Hne by (intros ->; cbn in Hlen; lia).
  destruct (columned_read rows n Hg Hrows (ordinals_numbered _ _ Hords) Hne) as [Hread _].
  destruct Hread as (v & w1 & E & Hv & _); [lia|].
  destruct (within_read _ _ _ _ _ _ _ E) as [Ed1 Ht1]. rewrite columned_transactions in Ht1.
  apply twp_bind, (twp_ok_run _ _ _ _ _ E).
  apply twp_bind, twp_assert; [apply Nat.eqb_eq; by rewrite Hv|].
  destruct w1 as [d1 n1]. cbn [db tick] in Ed1, Ht1. subst d1.
  apply twp_bind, twp_ok, (wp_seed_column row0 table0 base0 []); [| | | | exact int64_decodes |].
  { apply (grown_later _ _ _ _ (mk_world (columned rows) n)); [cbn; lia | exact Hg]. }
  { unfold early. cbn [tick]. lia. }
  { cbn [db schemas columned]. rewrite (proj1 world0_schemas). left. }
  { by eapply (columned_names _ _ _ "overflow"). }
  intros [d2 n2] r Ht2 Hg2 Hd2 Hr1 Hr2 Hr3. cbn [db] in Hd2. assert (d2 = columned (rows ++ [r])) as -> by exact Hd2.
  destruct (columned_read (rows ++ [r]) n2 Hg2) as [_ Hread].
  { apply Forall_app. split; [done | by apply Forall_singleton]. }
  { apply (ordinals_numbered _ (S (N.to_nat count))). rewrite seq_S, !fmap_app, Hords. cbn [fmap list_fmap Nat.add].
    rewrite Hr3. by replace (N.to_nat (limits.MAX_COLUMNS_PER_SCHEMA + 1)) with (N.to_nat count + 1) by (unfold count; lia). }
  { by destruct rows. }
  destruct Hread as (w2 & E2); [rewrite length_app; cbn; lia|].
  apply twp_bind, (twp_err_run _ _ _ _ _ E2). apply twp_limit; vm_compute; reflexivity.
Qed.

(** ** They pass *)

(** Every test of the limits passes: a scan of exactly the maximum of
    transactions, of added files, of removed files, of started schemas or of
    columns of a started schema succeeds with all of them, a scan of one more
    added file, removed file, schema or column is refused with the error of that
    limit, and so are a listing of one table and a read of one column more than
    their maximum, which at the maximum succeed. *)
Theorem limit_tests_pass : Forall (fun t => passes t start = true) [
  tests.list_transaction_events_rejects_added_file_overflow;
  tests.list_transaction_events_allows_exactly_max_transaction_scan;
  tests.list_transaction_events_allows_exactly_max_added_file_events;
  tests.list_transaction_events_rejects_removed_file_overflow;
  tests.list_transaction_events_allows_exactly_max_removed_file_events;
  tests.list_transaction_events_rejects_schema_change_overflow;
  tests.list_transaction_events_allows_exactly_max_schema_change_events;
  tests.list_transaction_events_allows_exactly_max_schema_change_columns;
  tests.list_transaction_events_rejects_schema_change_column_overflow;
  tests.list_tables_allows_exactly_max_then_rejects_overflow;
  tests.read_table_allows_exactly_max_columns_then_rejects_overflow].
Proof.
  exact (Forall_cons_2 _ _ _ added_overflow_passes (Forall_cons_2 _ _ _ max_scan_passes
    (Forall_cons_2 _ _ _ added_exact_passes (Forall_cons_2 _ _ _ removed_overflow_passes
    (Forall_cons_2 _ _ _ removed_exact_passes (Forall_cons_2 _ _ _ schema_overflow_passes
    (Forall_cons_2 _ _ _ schema_exact_passes (Forall_cons_2 _ _ _ columns_exact_passes
    (Forall_cons_2 _ _ _ columns_overflow_passes (Forall_cons_2 _ _ _ list_tables_passes
    (Forall_cons_2 _ _ _ read_table_passes (Forall_nil_2 _)))))))))))).
Qed.
