(* ===== verification/Lifecycle.v ===== *)
(** * The life of a table (src/examples/table_lifecycle.rs)

    The example of the repository, step by step: a table is created, written,
    read at two points of its history, compared, shrunk and given new
    properties.  [main] returns what the example prints of each step. *)

From S2P Require Import Prelude Uuid Error Limits Json DataType Format Schema Models Db World Helpers Catalog Api RefEnv Testing CatalogTests.

(** What a step prints of a view: its files and their records. *)
Module Totals.
Record t : Type := mk { total_files : nat; total_records : Z }.

(** [iter().sum::<i64>()]. *)
Definition sum_i64 (l : list Z) : Z := foldl (fun a b => (a + b + 2 ^ 63) mod 2 ^ 64 - 2 ^ 63)%Z 0%Z l.

Definition of_view (view : TableView.t) : t :=
  mk (length (TableView.files view)) (sum_i64 (File.record_count <$> TableView.files view)).
End Totals.

Module Printed.
Record t : Type := mk {
  after_txn1 : Totals.t;
  after_txn2 : Totals.t;
  files_at_this_point : nat;
  current_head : TxnId;
  files_added : list string;
  files_removed : nat;
  transactions_scanned : nat;
  after_txn3 : Totals.t;
  updated_properties : TableProperties.t;
  all_tables : list TableIdent.t;
  sales_tables : nat;
  final : Totals.t;
  total_size : Z;
  final_stats : option TableStats.t
}.
End Printed.

Section lifecycle.
Context `{Env}.
#[local] Instance catalog : CatalogApi := Sqlite.catalog ProtocolVersions.default.

Definition part (n date : string) (record_count file_size_bytes : Z) : FileSpec.t :=
  FileSpec.with_partition_values
    (FileSpec.new Parquet ("/data/sales/transactions/part-" +:+ n +:+ ".parquet") record_count file_size_bytes)
    (json_object [("date", Str date)]).

(** Step 2: create the table. *)
Definition create_table_step : Test TableHandle.t :=
  let table_ident := TableIdent.mk "sales" "transactions" in
  let schema :=
    SchemaSpec.with_column
      (SchemaSpec.with_column
        (SchemaSpec.with_column
          (SchemaSpec.with_column SchemaSpec.new (ColumnSpec.new "id" Int64))
          (ColumnSpec.new "customer_id" Int64))
        (ColumnSpec.new "amount" Float64))
      (ColumnSpec.nullable (ColumnSpec.new "timestamp" (Timestamp Microsecond None))) in
  properties ← ok (lift (TableProperties.from_json (json_object
    [("description", Str "Sales transactions table"); ("owner", Str "analytics-team"); ("format", Str "parquet")])));
  table ← ok (api_create_table table_ident "/data/sales/transactions" schema (Some properties));
  let table_handle := TableHandle.mk table in
  initial_view ← ok (TableHandle.read table_handle);
  mret table_handle.

(** Step 3: add two files. *)
Definition add_files_step (table_handle : TableHandle.t) : Test TableView.t :=
  let file1 := part "00000" "2024-01-01" 1000 245760 in
  let file2 := part "00001" "2024-01-02" 1500 368640 in
  builder ← ok (TableHandle.write table_handle None);
  commit_result ← ok (MutationBuilder.commit (MutationBuilder.append_files builder [file1; file2]));
  ok (TableHandle.read table_handle).

(** Step 4: add a single file. *)
Definition add_single_file_step (table_handle : TableHandle.t) : Test TableView.t :=
  let file3 := part "00002" "2024-01-03" 2000 491520 in
  builder ← ok (TableHandle.write table_handle None);
  commit_result ← ok (MutationBuilder.commit (MutationBuilder.append_file builder file3));
  ok (TableHandle.read table_handle).

(** Step 5: read an earlier transaction. *)
Definition time_travel_step (table_handle : TableHandle.t) (view_after_txn1 : TableView.t) :
    Test (TableView.t * TxnId) :=
  historical_view ← ok (TableHandle.read_at table_handle (TableView.transaction_id view_after_txn1));
  current_txn ← ok (TableHandle.current_transaction_id table_handle);
  mret (historical_view, current_txn).

(** Step 6: compare two transactions. *)
Definition delta_step (table_handle : TableHandle.t) (view_after_txn1 view_after_txn2 : TableView.t) :
    Test (TableDelta.t * list TxnEvent.t) :=
  delta ← ok (TableHandle.diff table_handle (TableView.transaction_id view_after_txn1)
                (TableView.transaction_id view_after_txn2));
  events ← ok (TableHandle.list_transaction_events table_handle
                (Some (TableView.transaction_id view_after_txn1)) (TableView.transaction_id view_after_txn2));
  mret (delta, events).

(** Step 7: delete a file. *)
Definition delete_file_step (table_handle : TableHandle.t) (view_after_txn2 : TableView.t) : Test TableView.t :=
  file0 ← some (TableView.files view_after_txn2 !! 0);
  let file_to_delete := File.file_uuid file0 in
  builder ← ok (TableHandle.write table_handle None);
  commit_result ← ok (MutationBuilder.commit (MutationBuilder.delete_files builder [file_to_delete]));
  ok (TableHandle.read table_handle).

(** Step 8: update the properties. *)
Definition update_properties_step (table_handle : TableHandle.t) : Test TableView.t :=
  updated_properties ← ok (lift (TableProperties.from_json (json_object
    [("description", Str "Sales transactions table"); ("owner", Str "analytics-team"); ("format", Str "parquet");
     ("last_updated", Str "2024-01-15"); ("retention_days", Num (PosInt 365))])));
  builder ← ok (TableHandle.write table_handle None);
  commit_result ← ok (MutationBuilder.commit (MutationBuilder.set_properties builder updated_properties));
  ok (TableHandle.read table_handle).

(** Step 9: list the tables. *)
Definition list_tables_step : Test (list TableIdent.t * list TableIdent.t) :=
  all_tables ← ok (api_list_tables None);
  sales_tables ← ok (api_list_tables (Some "sales"));
  mret (all_tables, sales_tables).

Definition main : Test Printed.t :=
  table_handle ← create_table_step;
  view_after_txn1 ← add_files_step table_handle;
  view_after_txn2 ← add_single_file_step table_handle;
  '(historical_view, current_txn) ← time_travel_step table_handle view_after_txn1;
  '(delta, events) ← delta_step table_handle view_after_txn1 view_after_txn2;
  view_after_txn3 ← delete_file_step table_handle view_after_txn2;
  final_view ← update_properties_step table_handle;
  '(all_tables, sales_tables) ← list_tables_step;
  mret (Printed.mk (Totals.of_view view_after_txn1) (Totals.of_view view_after_txn2)
    (length (TableView.files historical_view)) current_txn
    (File.file_path <$> TableDelta.added_files delta) (length (TableDelta.removed_files delta)) (length events)
    (Totals.of_view view_after_txn3) (TableView.properties final_view) all_tables (length sales_tables)
    (Totals.of_view final_view) (Totals.sum_i64 (File.file_size_bytes <$> TableView.files final_view))
    (TableView.stats final_view)).

End lifecycle.

#[local] Existing Instance ref_env.

(** The example runs to its end.  It prints two, then three files; the two
    files of the earlier transaction; a delta of one added file over one
    transaction; two files after the delete; the new properties; one table;
    and no statistics, which no call of the catalog writes. *)
Theorem lifecycle_example :
  exists p w', main start = Some (p, w') /\
    Printed.after_txn1 p = Totals.mk 2 2500 /\ Printed.after_txn2 p = Totals.mk 3 4500 /\
    Printed.files_at_this_point p = 2 /\
    Printed.files_added p = ["/data/sales/transactions/part-00002.parquet"] /\ Printed.files_removed p = 0 /\
    Printed.transactions_scanned p = 1 /\ Printed.after_txn3 p = Totals.mk 2 3500 /\
    TableProperties.values (Printed.updated_properties p) =
      [("description", Str "Sales transactions table"); ("format", Str "parquet");
       ("last_updated", Str "2024-01-15"); ("owner", Str "analytics-team");
       ("retention_days", Num (PosInt 365))] /\
    Printed.all_tables p = [TableIdent.mk "sales" "transactions"] /\ Printed.sales_tables p = 1 /\
    Printed.final p = Totals.mk 2 3500 /\ Printed.total_size p = 860160%Z /\ Printed.final_stats p = None.
Proof.
  destruct (main start) as [[p w']|] eqn:E; [|by vm_compute in E].
  exists p, w'. split; [reflexivity|].
  assert (fst <$> main start = Some p) as Hp by by rewrite E. clear E.
  vm_compute in Hp. injection Hp as <-. vm_compute. repeat split; reflexivity.
Qed.
