(* ===== verification/StorageTests.v ===== *)
(** * The tests of the readers and writers (the test modules of
      src/storage/file_format/parquet.rs, lance.rs, vortex.rs) and the example
      src/examples/write_formats.rs

    Translated test by test and run on the reference storage, from an empty
    disk.  Lance's [write_stream] is [Lance.run], its result in any run where no
    task panics.  Left out are the tests of how the crates lay files out:
    fragments, and the size of a file without its data type. *)

From S2P Require Import Prelude Error Json DataType Format Storage Streams RoundTrip RefStorage Testing.

#[local] Existing Instances ref_storage ref_rows.

(** ** Tests of storage *)

Definition STest (A : Type) : Type := RefDisk -> option (A * RefDisk).

#[export] Instance STest_ret : MRet STest := fun A a d => Some (a, d).
#[export] Instance STest_bind : MBind STest := fun A B f m d =>
  match m d with Some (a, d') => f a d' | None => None end.

(** [m.await.expect(..)]. *)
Definition ok {A} (m : SIO A) : STest A := fun d =>
  match m d with (Ok a, d') => Some (a, d') | _ => None end.

(** [m.await.expect_err(..)]. *)
Definition err {A} (m : SIO A) : STest StorageError := fun d =>
  match m d with (Err e, d') => Some (e, d') | _ => None end.

Definition assert (b : bool) : STest unit := fun d => if b then Some (tt, d) else None.

Definition unwrap {E A} (r : result E A) : STest A := fun d =>
  match r with Ok a => Some (a, d) | Err _ => None end.

(** What a file was written with. *)
Definition file_metadata (path : string) : STest Props := fun d =>
  match file_of (bytes_at path d) with Some f => Some (props f, d) | None => None end.

Definition passes (t : STest unit) : bool := match t ∅ with Some _ => true | None => false end.

(** The assertion that the error mentions [pattern]. *)
Definition assert_mentions (e : StorageError) (pattern : string) : STest unit :=
  assert (contains (storage_error_to_string e) pattern).

(** [RecordBatch::try_new] and the views of a batch. *)
Fixpoint try_new_rows (n : nat) (columns : list (list Cell)) : option (list (list Cell)) :=
  match columns with
  | [] => Some (replicate n [])
  | c :: columns =>
      if length c =? n then zip_with cons c <$> try_new_rows n columns else None
  end.

Definition try_new (schema : list Field) (columns : list (list Cell)) : result StorageError Batch :=
  match try_new_rows (length (default [] (head columns))) columns with
  | Some rows =>
      if length schema =? length columns then Ok (mk_batch schema rows) else Err (SArrow "number of columns")
  | None => Err (SArrow "all columns in a record batch must have the same length")
  end.

Definition num_rows (b : Batch) : nat := length (rows b).
Definition num_columns (b : Batch) : nat := length (rows_schema b).
Definition column (b : Batch) (idx : nat) : list (option Cell) := (fun r => r !! idx) <$> rows b.

(** The batches of the tests. *)
Definition id_name : list Field := [("id", Int64, false); ("name", Utf8, false)].
Definition id_only : list Field := [("id", Int64, false)].
Definition ints : list Cell := [Int 1; Int 2; Int 3].
Definition strs : list Cell := [Str "a"; Str "b"; Str "c"].

Definition batch_id_name : STest Batch := unwrap (try_new id_name [ints; strs]).
Definition batch_id : STest Batch := unwrap (try_new id_only [ints]).
Definition batch_name : STest Batch := unwrap (try_new [("id", Utf8, false)] [strs]).

Definition boom : list (result StorageError Batch) := [Err (SUnsupported "boom")].

(** ** src/storage/file_format/parquet.rs *)

Module ParquetTests.

Definition read_matches_stream_read : STest unit :=
  batch ← batch_id_name;
  _ ← ok (parquet_io.write_with_options batch "planar_parquet_test" (build builder_default));
  direct ← ok (parquet_io.read "planar_parquet_test");
  stream ← ok (parquet_io.read_stream "planar_parquet_test" ParquetReadOptions.default);
  batches ← unwrap (try_collect stream);
  streamed ← (match batches with
              | [] => unwrap (Err "no batches returned")
              | [b] => mret b
              | _ => unwrap (concat_batches (batch_schema direct) batches)
              end);
  _ ← assert (num_rows direct =? num_rows streamed);
  _ ← assert (num_columns direct =? num_columns streamed);
  assert (forallb (fun idx => bool_decide (column direct idx = column streamed idx)) (seq 0 (num_columns direct))).

Definition write_stream_propagates_stream_error : STest unit :=
  e ← err (parquet_io.write_stream boom "planar_parquet_err" (build builder_default));
  assert_mentions e "boom".

Definition write_stream_schema_mismatch_is_error : STest unit :=
  batch_a ← batch_id;
  batch_b ← batch_name;
  e ← err (parquet_io.write_stream [Ok batch_a; Ok batch_b] "planar_parquet_schema_mismatch" (build builder_default));
  assert_mentions e "Schema mismatch".

Definition write_with_options_sets_created_by : STest unit :=
  batch ← batch_id;
  _ ← ok (parquet_io.write_with_options batch "planar_parquet_created_by"
            (build (set_created_by "planar-test" builder_default)));
  m ← file_metadata "planar_parquet_created_by";
  assert (String.eqb (props_created_by m) "planar-test").

Definition write_stream_with_options_sets_created_by : STest unit :=
  batch ← batch_id;
  _ ← ok (parquet_io.write_stream [Ok batch] "planar_parquet_stream_created_by"
            (build (set_created_by "planar-test-stream" builder_default)));
  m ← file_metadata "planar_parquet_stream_created_by";
  assert (String.eqb (props_created_by m) "planar-test-stream").

Definition write_with_options_sets_compression : STest unit :=
  batch ← batch_id;
  _ ← ok (parquet_io.write_with_options batch "planar_parquet_compression"
            (build (set_compression GZIP builder_default)));
  m ← file_metadata "planar_parquet_compression";
  assert (match props_compression m with GZIP => true | _ => false end).

Definition all : list (STest unit) :=
  [read_matches_stream_read; write_stream_propagates_stream_error; write_stream_schema_mismatch_is_error;
   write_with_options_sets_created_by; write_stream_with_options_sets_created_by; write_with_options_sets_compression].

End ParquetTests.

(** ** src/storage/file_format/lance.rs *)

Module LanceTests.

Definition write_stream_round_trip : STest unit :=
  batch ← batch_id_name;
  _ ← ok (Lance.run [Ok batch; Ok batch] "planar_lance_test" write_params_default);
  read ← ok (lance_io.read_with_options "planar_lance_test" LanceReadOptions.default);
  _ ← assert (num_columns read =? num_columns batch);
  _ ← assert (num_rows read =? num_rows batch * 2);
  assert (forallb (fun idx => length (column read idx) =? length (column batch idx) * 2) (seq 0 (num_columns read))).

Definition write_stream_empty_is_error : STest unit :=
  e ← err (Lance.run [] "planar_lance_empty" write_params_default);
  assert_mentions e "write_stream requires at least one RecordBatch".

Definition write_stream_propagates_stream_error : STest unit :=
  e ← err (Lance.run boom "planar_lance_err" write_params_default);
  assert_mentions e "boom".

(** The writer's error is the one it got from the stream. *)
Definition write_stream_schema_mismatch_is_error : STest unit :=
  batch_a ← batch_id;
  batch_b ← batch_name;
  e ← err (Lance.run [Ok batch_a; Ok batch_b] "planar_lance_schema_mismatch" write_params_default);
  assert_mentions e "Schema mismatch".

Definition write_with_options_append_mode_appends_rows : STest unit :=
  batch ← batch_id;
  _ ← ok (lance_io.write batch "planar_lance_append");
  _ ← ok (lance_io.write_with_options batch "planar_lance_append" append_params);
  read ← ok (lance_io.read_with_options "planar_lance_append" LanceReadOptions.default);
  assert (num_rows read =? num_rows batch * 2).

Definition write_stream_append_mode_appends_rows : STest unit :=
  batch ← batch_id;
  _ ← ok (lance_io.write batch "planar_lance_stream_append");
  _ ← ok (Lance.run [Ok batch] "planar_lance_stream_append" append_params);
  read ← ok (lance_io.read_with_options "planar_lance_stream_append" LanceReadOptions.default);
  assert (num_rows read =? num_rows batch * 2).

Definition all : list (STest unit) :=
  [write_stream_round_trip; write_stream_empty_is_error; write_stream_propagates_stream_error;
   write_stream_schema_mismatch_is_error; write_with_options_append_mode_appends_rows;
   write_stream_append_mode_appends_rows].

End LanceTests.

(** ** src/storage/file_format/vortex.rs *)

Module VortexTests.

Definition write_stream_round_trip : STest unit :=
  batch ← batch_id_name;
  _ ← ok (vortex_io.write_stream [Ok batch; Ok batch] "planar_vortex_test" vortex_default);
  read ← ok (vortex_io.read_with_options "planar_vortex_test" VortexReadOptions.default);
  _ ← assert (num_columns read =? num_columns batch);
  assert (num_rows read =? num_rows batch * 2).

Definition write_stream_empty_is_error : STest unit :=
  e ← err (vortex_io.write_stream [] "planar_vortex_empty" vortex_default);
  assert_mentions e "write_stream requires at least one RecordBatch".

Definition write_stream_propagates_stream_error : STest unit :=
  e ← err (vortex_io.write_stream boom "planar_vortex_err" vortex_default);
  assert_mentions e "boom".

Definition write_stream_dtype_mismatch_is_error : STest unit :=
  batch_a ← batch_id;
  batch_b ← batch_name;
  e ← err (vortex_io.write_stream [Ok batch_a; Ok batch_b] "planar_vortex_dtype_mismatch" vortex_default);
  assert_mentions e "dtype mismatch".

(** Reading with the data type of the batch given. *)
Definition with_dtype_of (batch : Batch) : VortexReadOptions.t :=
  VortexReadOptions.mk _ None None (Some (array_dtype (array_from_arrow batch))).

Definition write_with_options_round_trip : STest unit :=
  batch ← batch_id_name;
  _ ← ok (vortex_io.write_with_options batch "planar_vortex_write_opts" (vortex_exclude_dtype vortex_default));
  read ← ok (vortex_io.read_with_options "planar_vortex_write_opts" (with_dtype_of batch));
  _ ← assert (num_columns read =? num_columns batch);
  assert (num_rows read =? num_rows batch).

Definition write_stream_with_options_round_trip : STest unit :=
  batch ← batch_id_name;
  _ ← ok (vortex_io.write_stream [Ok batch; Ok batch] "planar_vortex_stream_write_opts"
            (vortex_exclude_dtype vortex_default));
  read ← ok (vortex_io.read_with_options "planar_vortex_stream_write_opts" (with_dtype_of batch));
  _ ← assert (num_columns read =? num_columns batch);
  assert (num_rows read =? num_rows batch * 2).

Definition all : list (STest unit) :=
  [write_stream_round_trip; write_stream_empty_is_error; write_stream_propagates_stream_error;
   write_stream_dtype_mismatch_is_error; write_with_options_round_trip; write_stream_with_options_round_trip].

End VortexTests.

(** ** src/examples/write_formats.rs *)

(** [main] on the batch it builds: the table is written in the three formats,
    once more to Parquet as a stream of two batches, and the first Parquet file
    is read as a stream; [main] returns the number of batches it prints.  The
    directory is the file system's. *)
Definition main : SIO nat :=
  batch ← pure (try_new [("id", Int64, false); ("name", Utf8, false); ("value", Float64, false)]
                  [ints; strs; [Str "10.0"; Str "20.0"; Str "30.0"]]);
  _ ← lance_io.write_with_options batch "data.lance" write_params_default;
  let parquet_options := build (set_compression SNAPPY builder_default) in
  _ ← parquet_io.write_with_options batch "data.parquet" parquet_options;
  _ ← parquet_io.write_stream [Ok batch; Ok batch] "data_stream.parquet" parquet_options;
  _ ← vortex_io.write_with_options batch "data.vortex" vortex_default;
  stream ← parquet_io.read_stream "data.parquet" ParquetReadOptions.default;
  batches ← pure (try_collect stream);
  mret (length batches).

(** ** Theorems *)

Theorem storage_tests_pass :
  forallb passes (ParquetTests.all ++ LanceTests.all ++ VortexTests.all) = true.
Proof. vm_compute. reflexivity. Qed.

(** The example leaves four files, with the rows of the table, twice in the
    streamed one. *)
Theorem write_formats_runs :
  exists d, main ∅ = (Ok 3, d) /\
    (fun path => length (rows_at path d)) <$> ["data.lance"; "data.parquet"; "data_stream.parquet"; "data.vortex"]
    = [3; 3; 6; 3] /\ size d = 4.
Proof. eexists. split; [vm_compute; reflexivity|]. split; vm_compute; reflexivity. Qed.
